(* ===== verification/_CoqProject ===== *)
-Q . S2P
Prelude.v
SmppPdu.v
SmppCodec.v
SmppCursor.v
SmppRefusal.v
SmppCodecThms.v
SmppFraming.v
SmppEdge.v
SmppReceipt.v
Rng.v
Schedule.v
Recorder.v
Config.v
Fault.v
Validate.v
ValidateThms.v
Scenario.v
ScenarioThms.v
Dlr.v
Close.v
Binds.v
VirtualSMSC.v
EngineSafety.v
SessionState.v
Session.v
SessionRuns.v
SessionBind.v
SessionThms.v
ReadLoop.v
SessionFrame.v
Replay.v
Pipeline.v
PipelineThms.v
Teardown.v
PipelineRuns.v
PipelineLink.v
PipelineCrash.v
Wakeup.v
System.v
Access.v
Shape.v
Protocol.v
Interleave.v
Observe.v
Serialize.v
Metrics.v
TLSCert.v
Boot.v
Lifecycle.v
Process.v
ProcessInv.v
ProcessThms.v
Entry.v
Strconv.v
Json.v
Rfc3339.v
Inspect.v
Render.v
Secrecy.v
Client.v
ClientThms.v
ClientDeliveries.v
EndToEnd.v
Whole.v
