(* ===== verification/Prelude.v ===== *)
(** * A verification library for go-smsc-simulator

    The simulator hosts virtual SMSCs: SMPP servers that answer an SMS gateway's
    submit_sm as a scenario decides, deliver receipts and mobile-originated
    messages on a schedule, and let an HTTP surface inspect what they received.
    Its promise is to be reproducible: a seeded bind decides, answers, records and
    schedules as a function of the PDUs it is sent.  The library models the
    program under [src/] component by component and proves what makes each one,
    and their composition, correct.

    ** Parts of the program and the files that model them

    Wire level ([internal/smpp]).  [SmppPdu]: the PDU structs and their marshal
    methods.  [SmppCodec]: the reader, [Decode], [Encode] and [ReadPDU] (codec.go),
    index panics explicit.  [SmppCursor], [SmppCodecThms]: the decoder as parsers
    over the remaining bytes; round trips and the outcomes of [Decode].
    [SmppRefusal]: the grammar of a body and the error its first fault calls for.
    [SmppFraming]: reading frames from a segmented connection.  [SmppEdge]:
    codec_edge.go.  [SmppReceipt]: receipt.go and mo.go.

    Configuration ([internal/config]).  [Config]: enums, schema, catalogue.
    [Validate]: validate.go as the list of errors it reports.  [ValidateThms]: the
    declarative specification [config_ok] and the exactness of the gate.  [Load]
    and [decode] are in [Boot].

    Decisions.  [Rng] (internal/rng): seed derivation, and [math/rand/v2] as the
    class [RandSource] with its documented laws in [RandLaws], instantiated by the
    PCG generator.  [Fault] (internal/fault): latency draws and the wall-clock
    window.  [Scenario], [ScenarioThms] (internal/scenario): [New] and [Evaluate].
    [Schedule] (internal/schedule): the runner, refining a stable sort.  [Recorder]
    (internal/recorder): the ring, refining the list of everything appended.

    The engine ([internal/smsc]).  [Dlr]: message ids and receipt dates.  [Close]:
    close_reason.go.  [Binds]: the registry, refining a queue.  [VirtualSMSC]: the
    shared state of one SMSC.  [SessionState], [Session]: a session's own state and
    every handler of session.go, dlr.go and schedule_events.go, in a state monad
    whose effects are a trace of sends and metric calls.  [ReadLoop]: [readLoop],
    [frameReader] and the read errors.  [Pipeline]: the goroutines of a session
    ([run], [writeLoop], the closer, the held-back sends) as program counters over
    the shared channels.  [PipelineCrash]: the same goroutines when any of them may
    panic ([recoverGoroutine], [recoverSession]).  [Wakeup]: the race on the read
    deadline at shutdown.
    [System]: the sessions of one SMSC together, an iteration of a read loop as one
    step.  [Access]: the same handlers as programs that reach the shared SMSC one
    locked access at a time.  [Protocol]: the order of those accesses in a bind and
    in a submit, as a program logic.  [Interleave]: the sessions interleaving between
    any two accesses.  [Observe]: what an inspection sees in between.  [Shape],
    [Serialize]: what an iteration may access, and that every interleaving of them
    is some order of whole ones.  [Lifecycle]: [Serve], [Shutdown],
    [acceptLoop] and the wait group (engine.go).  [Boot]: [engine.New], [NewServer]
    and the boot of main.go's [run].  [TLSCert]: internal/tlscert.  [Metrics]:
    internal/metrics and the sink of internal/smsc/metrics.go.

    The process (cmd/smsc-simulator, internal/observability/server.go).  [Process]:
    [run] from its select on, interleaved with the engine's goroutines, the surface's
    [Serve] and [Shutdown], signals and time.  [ProcessInv], [ProcessThms]: its
    invariant, its measures and what it returns.  [Entry]: [main], from the command
    line to the exit status.

    The surface (internal/observability).  [Strconv], [Inspect]: the [Inspector]
    interface as a class, the engine as its instance, and the HTTP handlers written
    against it.  [Json], [Rfc3339], [Render]: the bodies as the text [encoding/json]
    writes, with the class [Marshal] of what goes through it.

    The other end ([internal/smpptest]).  [Client]: every operation of the test
    client over a connection with arrival times and deadlines, a [t.Fatalf] an
    error.  [ClientThms]: its submits and binds against the session's handlers.
    [ClientDeliveries]: draining and collecting deliveries, closed or silent.

    Across the parts.  [EndToEnd]: the test client, the session and the surface
    together.  [Secrecy]: two deployments that differ in a password.  [Whole]: the
    SMSCs of a booted program, their sessions interleaved, under the surface.

    Theorems about handlers are spread by subject: [EngineSafety] and [SessionRuns]
    compute each handler on an arbitrary world, [SessionBind] and [SessionThms]
    state the contracts of a bind and a submit, [SessionFrame] carries any relation
    with the laws of the class [FrameRel] through all the handlers, and [Replay],
    [PipelineLink] and [System] are its clients.

    ** How the parts interact

    [run_boot] loads and validates the configuration, builds the engine with one
    [newVirtualSMSC] per entry, then the HTTP surface.  An accept loop starts a
    session per connection; [Lifecycle] has those goroutines and their wait group,
    [System] what their iterations do to the shared SMSC, and [Interleave] what
    their single accesses do to it: a program of [Access] left alone is the handler
    of [Session] it translates.  A session is [readLoop]
    over [handle], whose trace [PipelineLink] turns into the actions the goroutines
    of [Pipeline] carry out; [Wakeup] has the one interaction that is by time.
    The metric calls in a trace are what [Metrics] interprets, and [Inspect] reads
    the recorders, registries and counters the sessions leave, which [Render] turns
    into bytes.  [Process] embeds a [lifecycle] as the engine of a booted process;
    [Entry] joins [run_boot] to it.

    ** What the theorems show

    A session: it always ends, for a recorded reason, without a panic
    ([readLoop_ends]); its goroutines then finish under every schedule, without a
    panic or a leak, with every PDU written or accounted for ([session_lifetime],
    and [pipeline_safe], [teardown_completes], [receipt_after_response],
    [clean_end_delivers] for the pipeline alone); a panic anywhere in it stays in it
    ([crash_isolated]); a shutdown wakes it ([shutdown_wakes]).  A bind and a submit:
    [handleBind_admits], [handleSubmit_commits], [handleSubmit_answers],
    [handleSubmit_schedules], [quiescence_flushes].  Reproducibility:
    [session_replay], with [Evaluate_decides], [edge_cases_do_not_perturb] and
    [deriveSeed_separates_binds] below it.  An SMSC: [system_well_typed],
    [journal_unambiguous], [password_secret]; and between any two accesses,
    [interleaving_safe], [view_consistent], [iteration_alone], and
    [interleaving_serializable], which carries the theorems on [System] over to any
    interleaving.  The process: [boot_all_or_nothing],
    [drain_safe], [drain_completes], what [run] returns and that it does
    ([run_outcome], [run_returns]), the exit status ([main_exit]), what the surface
    of a program at work answers ([program_inspected]).  The surface:
    [pages_cover_journal], [surface_status], [inspection_lossless],
    [one_active_scenario].  End to end: [submit_exchange] and [bind_exchange], what
    the test client is told is what the session decided; [submit_inspected], what it
    submitted is what the surface shows; [DrainDeliverSMs_batch],
    [CollectDeliverSMs_count] and [ClosedWithin_verdicts] say what its other calls
    mean.  The wire: [Decode_Encode], [Decode_outcomes], [Decode_stable],
    [EncodeEdgeCase_effect], and the [ReadPDU] and [read_pdus] theorems.  The
    components: a refinement or exactness theorem each
    ([run_refines_stable_sort], [Snapshot_is_query],
    [registry_refines_queue], [validate_exact], [weighted_picks_exact],
    [WallWindow_rate], [minted_strings]).

    ** Conventions

    A w-bit integer is a [Z] with its wrap-around written out ([+64], [u32]);
    float64 is a [SpecFloat] binary64.  A Go map whose order does not show is a
    [gmap]; where its order could show, the theorem quantifies over it.  A panic is
    the outcome [Panic], an error the outcome [Err], and a step that is not
    possible is [None].  [System], and the theorems stated on it, take an iteration
    of a read loop as one atomic step.  The code takes the locks of the recorder,
    the registry and the counters one at a time; [Interleave] has those steps, shows the
    invariants that hold between them, and [Serialize] that nothing more can come of
    them than of whole iterations, the active profile apart.  The exception is a
    disconnect scoped to the oldest bind, the one thing a handler reads that another
    session writes: it is read twice ([before_response_answers]).

    Fuel: [snapshot_loop] has the distance to the end of the journal, [ReadFull]
    and [readLoop] the events of the connection, [drain_loop] and [collect_loop] the
    bytes to come, [walk] one request per record, the reader of [Json] the length of
    the text, [civil_date] three centuries of years, beyond the last instant of 63
    bits; each is shown enough where it is used.  The step relations ([Pipeline],
    [PipelineCrash], [Wakeup], [Lifecycle], [Process], [System], [Interleave]) need none, and their
    termination is a decreasing measure.

    Parameters, with the documented behaviour relied on as hypotheses:
    [math/rand/v2] and [NormFloat64] (classes [RandSource], [RandLaws]),
    [regexp.Compile], [os.Stat], [os.Open], [gopkg.in/yaml.v3] (the decoded values
    have their Go types), [crypto/*], the ports the host refuses and the ephemeral
    port it picks, what [promhttp] writes.  The standard library the code calls into
    is modelled where its behaviour shows: [strconv], [sort], [flag], [net/http]'s
    mux and its graceful shutdown, [encoding/json], [encoding/base64], [time],
    [unicode/utf8].

    ** Not modelled

    Log records, except what they show of credentials, and message texts of errors;
    the dialling of the test client; the Prometheus text exposition, histogram
    buckets and help texts; the registration of signals (a signal is an event);
    [net/http]'s reading of requests and its time-outs on a connection; TLS records
    (a TLS connection is a connection); the wall clock other than as an input.  In
    [Pipeline] the actions of the read goroutine are fixed in advance and any prefix
    order of the goroutines is allowed; [PipelineLink] shows that every run of the
    read loop yields such actions. *)

From stdpp Require Export base tactics list gmap strings numbers sorting pretty.
From Stdlib Require Export ZArith Lia.
From Stdlib Require Strings.Byte.

Open Scope Z_scope.

(** Overloaded machine arithmetic is written with explicit wrap-around. *)
Declare Scope go_scope.
Delimit Scope go_scope with go.
Open Scope go_scope.

(** ** Results of a Go computation

    A Go function that returns [(T, error)] either succeeds, returns an error
    value, or panics at run time (index out of range, division by zero). *)

Inductive outcome (E A : Type) : Type :=
| Ok (a : A)
| Err (e : E)
| Panic.
Arguments Ok {E A} a.
Arguments Err {E A} e.
Arguments Panic {E A}.

#[export] Instance outcome_ret {E} : MRet (outcome E) := fun A a => Ok a.
#[export] Instance outcome_bind {E} : MBind (outcome E) := fun A B f m =>
  match m with Ok a => f a | Err e => Err e | Panic => Panic end.

Definition is_panic {E A} (o : outcome E A) : bool :=
  match o with Panic => true | _ => false end.

Definition no_panic {E A} (o : outcome E A) : Prop := is_panic o = false.

Create HintDb go discriminated.
Create Rewrite HintDb go_rw.

Lemma no_panic_Ok {E A} (a : A) : no_panic (E := E) (Ok a).
Proof. done. Qed.

Lemma no_panic_Err {E A} (e : E) : no_panic (A := A) (Err e).
Proof. done. Qed.

Lemma no_panic_bind {E A B} (m : outcome E A) (f : A -> outcome E B) :
  no_panic m -> (forall a, m = Ok a -> no_panic (f a)) -> no_panic (mbind f m).
Proof. destruct m; intros Hm Hf; [by apply Hf | done | done]. Qed.

#[export] Hint Resolve no_panic_Ok no_panic_Err no_panic_bind : go.

Lemma bind_Ok {E A B} (a : A) (f : A -> outcome E B) : Ok a ≫= f = f a.
Proof. done. Qed.

Lemma bind_Ok_inv {E A B} (m : outcome E A) (f : A -> outcome E B) (b : B) :
  mbind f m = Ok b -> exists a, m = Ok a /\ f a = Ok b.
Proof. destruct m; intros H; [eauto | discriminate | discriminate]. Qed.

(** Sequencing with the computation first, so that the type of the bound value
    is known in the continuation. *)
Definition obind {E A B} (m : outcome E A) (f : A -> outcome E B) : outcome E B :=
  match m with Ok a => f a | Err e => Err e | Panic => Panic end.

Notation "'let*' x := m 'in' k" := (obind m (fun x => k))
  (at level 10, x strict pattern, m at level 200, k at level 200).

Lemma obind_Ok {E A B} (a : A) (f : A -> outcome E B) : obind (Ok a) f = f a.
Proof. done. Qed.

Lemma obind_Ok_inv {E A B} (m : outcome E A) (f : A -> outcome E B) (b : B) :
  obind m f = Ok b -> exists a, m = Ok a /\ f a = Ok b.
Proof. destruct m; intros H; [eauto | discriminate | discriminate]. Qed.

#[export] Hint Rewrite @obind_Ok @bind_Ok : go_rw.

(** ** Machine integers *)

Definition u8 (z : Z) : Z := z mod 2 ^ 8.
Definition u16 (z : Z) : Z := z mod 2 ^ 16.
Definition u32 (z : Z) : Z := z mod 2 ^ 32.
Definition u64 (z : Z) : Z := z mod 2 ^ 64.

(** A Go [int], in two's complement. *)
Definition i64 (z : Z) : Z := (z + 2 ^ 63) mod 2 ^ 64 - 2 ^ 63.

Notation "x +64 y" := (u64 (x + y)) (at level 50, left associativity) : go_scope.
Notation "x -64 y" := (u64 (x - y)) (at level 50, left associativity) : go_scope.
Notation "x *64 y" := (u64 (x * y)) (at level 40, left associativity) : go_scope.
Notation "x +32 y" := (u32 (x + y)) (at level 50, left associativity) : go_scope.

Definition is_u8 (z : Z) : Prop := 0 <= z < 2 ^ 8.
Definition is_u16 (z : Z) : Prop := 0 <= z < 2 ^ 16.
Definition is_u32 (z : Z) : Prop := 0 <= z < 2 ^ 32.
Definition is_u64 (z : Z) : Prop := 0 <= z < 2 ^ 64.

#[export] Instance is_u16_dec z : Decision (is_u16 z).
Proof. unfold is_u16. apply _. Defined.
#[export] Instance is_u32_dec z : Decision (is_u32 z).
Proof. unfold is_u32. apply _. Defined.
#[export] Instance is_u64_dec z : Decision (is_u64 z).
Proof. unfold is_u64. apply _. Defined.

Lemma u64_range z : is_u64 (u64 z).
Proof. apply Z.mod_pos_bound. lia. Qed.

Lemma u32_range z : is_u32 (u32 z).
Proof. apply Z.mod_pos_bound. lia. Qed.

Lemma u64_small z : is_u64 z -> u64 z = z.
Proof. apply Z.mod_small. Qed.

Lemma i64_small z : - 2 ^ 63 <= z < 2 ^ 63 -> i64 z = z.
Proof. intros Hz. unfold i64. rewrite Z.mod_small; lia. Qed.

Lemma u32_small z : is_u32 z -> u32 z = z.
Proof. apply Z.mod_small. Qed.

#[export] Hint Resolve u64_range u32_range : go.

(** ** Bytes *)

Abbreviation byte := Byte.byte.
Abbreviation bytes := (list Byte.byte).
Abbreviation NUL := Byte.x00.

#[export] Instance byte_eq_dec : EqDecision byte := Byte.byte_eq_dec.

Definition byte_to_Z (b : byte) : Z := Z.of_N (Byte.to_N b).

(** Conversion [uint8(z)]: the low eight bits. *)
Definition byte_of_Z (z : Z) : byte :=
  match Byte.of_N (Z.to_N (u8 z)) with Some b => b | None => NUL end.

Lemma byte_to_Z_range b : is_u8 (byte_to_Z b).
Proof.
  unfold is_u8, byte_to_Z. pose proof (Byte.to_N_bounded b). lia.
Qed.

Lemma byte_to_of_Z z : byte_to_Z (byte_of_Z z) = u8 z.
Proof.
  unfold byte_of_Z, byte_to_Z.
  assert (0 <= u8 z < 2 ^ 8) as Hr by (apply Z.mod_pos_bound; lia).
  destruct (Byte.of_N _) as [b|] eqn:Hb.
  - apply Byte.to_of_N in Hb. rewrite Hb. lia.
  - apply Byte.of_N_None_iff in Hb. lia.
Qed.

Lemma byte_of_to_Z b : byte_of_Z (byte_to_Z b) = b.
Proof.
  unfold byte_of_Z. pose proof (byte_to_Z_range b) as Hr.
  unfold u8. rewrite Z.mod_small by done.
  unfold byte_to_Z. by rewrite N2Z.id, Byte.of_to_N.
Qed.

#[export] Instance byte_to_Z_inj : Inj (=) (=) byte_to_Z.
Proof. intros a b H. by rewrite <-(byte_of_to_Z a), H, byte_of_to_Z. Qed.

#[export] Hint Resolve byte_to_Z_range : go.
#[export] Hint Rewrite byte_to_of_Z byte_of_to_Z : go_rw.

(** [len(x)] of a slice or string, a Go [int]. *)
Abbreviation len l := (Z.of_nat (length l)).

(** Go strings are byte sequences; conversions [[]byte(s)] and [string(b)]. *)
Definition bytes_of_string (s : string) : bytes := String.list_byte_of_string s.
Definition string_of_bytes (b : bytes) : string := String.string_of_list_byte b.
Definition slen (s : string) : Z := len (bytes_of_string s).

Lemma string_of_bytes_of_string s : string_of_bytes (bytes_of_string s) = s.
Proof. apply String.string_of_list_byte_of_string. Qed.

Lemma bytes_of_string_of_bytes b : bytes_of_string (string_of_bytes b) = b.
Proof. apply String.list_byte_of_string_of_list_byte. Qed.

#[export] Instance bytes_of_string_inj : Inj (=) (=) bytes_of_string.
Proof.
  intros a b H. by rewrite <-(string_of_bytes_of_string a), H, string_of_bytes_of_string.
Qed.

Lemma bytes_of_string_app a b :
  bytes_of_string (a +:+ b) = bytes_of_string a ++ bytes_of_string b.
Proof.
  unfold bytes_of_string, String.list_byte_of_string.
  induction a as [|c a IH]; [done|]. cbn. by rewrite <-IH.
Qed.

Lemma slen_app a b : slen (a +:+ b) = slen a + slen b.
Proof. unfold slen. rewrite bytes_of_string_app, length_app. lia. Qed.

Lemma slen_nonneg a : 0 <= slen a.
Proof. unfold slen. lia. Qed.

(** [s[:n]] of a string longer than [n]. *)
Definition str_take (n : nat) (s : string) : string :=
  string_of_bytes (take n (bytes_of_string s)).

Lemma slen_str_take n s : slen (str_take n s) <= Z.of_nat n.
Proof.
  unfold slen, str_take. rewrite bytes_of_string_of_bytes, length_take. lia.
Qed.

#[export] Hint Resolve slen_nonneg : go.
#[export] Hint Rewrite slen_app : go_rw.
#[export] Hint Rewrite string_of_bytes_of_string bytes_of_string_of_bytes : go_rw.

(** ** Slices: indexing and slicing panic out of range *)

Section slices.
Context {E A : Type}.

Definition go_index (l : list A) (i : Z) : outcome E A :=
  if i <? 0 then Panic
  else match l !! Z.to_nat i with Some x => Ok x | None => Panic end.

(** [l[lo:hi]]; the slices the code cuts have capacity equal to length. *)
Definition go_slice (l : list A) (lo hi : Z) : outcome E (list A) :=
  if (0 <=? lo) && (lo <=? hi) && (hi <=? len l)
  then Ok (take (Z.to_nat (hi - lo)) (drop (Z.to_nat lo) l))
  else Panic.

Lemma go_index_ok l i :
  0 <= i < len l -> exists x, l !! Z.to_nat i = Some x /\ go_index l i = Ok x.
Proof.
  intros Hi. destruct (lookup_lt_is_Some_2 l (Z.to_nat i)) as [x Hx]; [lia|].
  exists x. split; [done|]. unfold go_index.
  destruct (Z.ltb_spec i 0); [lia|]. by rewrite Hx.
Qed.

Lemma go_slice_ok l lo hi :
  0 <= lo -> lo <= hi -> hi <= len l ->
  go_slice l lo hi = Ok (take (Z.to_nat (hi - lo)) (drop (Z.to_nat lo) l)).
Proof.
  intros. unfold go_slice.
  destruct (Z.leb_spec 0 lo), (Z.leb_spec lo hi), (Z.leb_spec hi (len l)); done || lia.
Qed.

Lemma go_slice_Forall (P : A -> Prop) l lo hi l' : Forall P l -> go_slice l lo hi = Ok l' -> Forall P l'.
Proof. intros Hl. unfold go_slice. case_match; [|done]. intros [= <-]. by apply Forall_take, Forall_drop. Qed.
End slices.

(** ** Big-endian words ([encoding/binary]) *)

Definition be_decode (bs : bytes) : Z :=
  foldl (fun acc b => Z.lor (Z.shiftl acc 8) (byte_to_Z b)) 0 bs.

Fixpoint be_encode (n : nat) (v : Z) : bytes :=
  match n with
  | O => []
  | S n => be_encode n (Z.shiftr v 8) ++ [byte_of_Z v]
  end.

Lemma be_decode_snoc bs b :
  be_decode (bs ++ [b]) = be_decode bs * 2 ^ 8 + byte_to_Z b.
Proof.
  unfold be_decode. rewrite foldl_app. cbn [foldl].
  pose proof (byte_to_Z_range b) as Hb.
  rewrite <-Z.shiftl_mul_pow2 by lia.
  symmetry. apply Z.add_nocarry_lor.
  apply Z.bits_inj'. intros i Hi. rewrite Z.land_spec, Z.bits_0.
  destruct (Z.lt_ge_cases i 8).
  - rewrite Z.shiftl_spec_low by lia. done.
  - destruct (Z.eq_dec (byte_to_Z b) 0) as [->|]; [by rewrite Z.bits_0, andb_false_r|].
    rewrite (Z.bits_above_log2 (byte_to_Z b) i), ?andb_false_r; [done| |].
    + destruct Hb; lia.
    + assert (Z.log2 (byte_to_Z b) < 8); [|lia]. apply Z.log2_lt_pow2; destruct Hb; lia.
Qed.

Lemma length_be_encode n v : length (be_encode n v) = n.
Proof.
  revert v. induction n as [|n IH]; intros v; cbn [be_encode]; [done|].
  rewrite length_app, IH. cbn. lia.
Qed.

Lemma be_decode_encode n v :
  be_decode (be_encode n v) = v mod 2 ^ (8 * Z.of_nat n).
Proof.
  revert v. induction n as [|n IH]; intros v; cbn [be_encode].
  - by rewrite Z.mod_1_r.
  - rewrite be_decode_snoc, IH, byte_to_of_Z, Z.shiftr_div_pow2 by lia. unfold u8.
    replace (8 * Z.of_nat (S n)) with (8 + 8 * Z.of_nat n) by lia.
    rewrite Z.pow_add_r by lia.
    rewrite (Z.rem_mul_r v (2 ^ 8)) by lia. lia.
Qed.

Lemma be_encode_decode bs : be_encode (length bs) (be_decode bs) = bs.
Proof.
  induction bs as [|b bs IH] using rev_ind; [done|].
  rewrite length_app, Nat.add_comm. cbn [length Nat.add be_encode].
  rewrite be_decode_snoc. pose proof (byte_to_Z_range b) as Hb. unfold is_u8 in Hb.
  f_equal.
  - rewrite Z.shiftr_div_pow2, Z.div_add_l, Z.div_small, Z.add_0_r by lia. done.
  - f_equal. apply (inj byte_to_Z). rewrite byte_to_of_Z. unfold u8.
    rewrite Z.add_comm, Z_mod_plus_full. by apply Z.mod_small.
Qed.

Lemma be_decode_range bs : 0 <= be_decode bs < 2 ^ (8 * len bs).
Proof.
  rewrite <-(be_encode_decode bs), be_decode_encode, length_be_encode.
  apply Z.mod_pos_bound. apply Z.pow_pos_nonneg; lia.
Qed.

#[export] Hint Rewrite length_be_encode : go_rw.

(** Reading the leading big-endian word of a slice; [encoding/binary] panics
    on a shorter slice. *)
Definition be_uint {E} (n : nat) (b : bytes) : outcome E Z :=
  if (n <=? length b)%nat then Ok (be_decode (take n b)) else Panic.

(** Overwriting [l[off:off+length(bs)]] in place. *)
Definition put_at (off : nat) (bs l : bytes) : bytes :=
  take off l ++ bs ++ drop (off + length bs) l.

(** ** Tactics *)

(** Split a successful monadic computation into its successful steps. *)
Ltac inv_ok :=
  repeat match goal with
  | H : mbind _ _ = Ok _ |- _ => apply bind_Ok_inv in H as (? & ? & H)
  | H : Ok _ = Ok _ |- _ => injection H as H; subst
  | H : Err _ = Ok _ |- _ => discriminate H
  | H : Panic = Ok _ |- _ => discriminate H
  | H : (if ?b then _ else _) = Ok _ |- _ => destruct b eqn:?
  | H : (let '(_, _) := ?p in _) = Ok _ |- _ => destruct p
  end.

(** Turn boolean comparisons on [Z] and [nat] into propositions. *)
Ltac bool_lia :=
  repeat match goal with
  | H : _ && _ = true |- _ => apply andb_prop in H as [? ?]
  | H : _ || _ = false |- _ => apply orb_false_elim in H as [? ?]
  end;
  rewrite ?Z.ltb_lt, ?Z.ltb_ge, ?Z.leb_le, ?Z.leb_gt, ?Z.eqb_eq, ?Z.eqb_neq,
    ?Z.gtb_lt in *; lia.

(** Close a decidable proposition by evaluating its decision procedure. *)
Ltac by_decide :=
  match goal with |- ?P => apply (@bool_decide_unpack P _); vm_compute; exact I end.

(** ** Filtering *)

Lemma filter_all {A} (P : A -> Prop) `{forall x, Decision (P x)} (l : list A) :
  Forall P l -> base.filter P l = l.
Proof. induction 1; [done|]. rewrite filter_cons_True by done. by f_equal. Qed.

Lemma filter_none {A} (P : A -> Prop) `{forall x, Decision (P x)} (l : list A) :
  Forall (fun x => ~ P x) l -> base.filter P l = [].
Proof. induction 1; [done|]. by rewrite filter_cons_False. Qed.

Lemma Forall_impl2 {A} (P Q R : A -> Prop) (l : list A) :
  Forall P l -> Forall Q l -> (forall x, P x -> Q x -> R x) -> Forall R l.
Proof. rewrite !Forall_forall. eauto. Qed.

Lemma Forall_filter_1 {A} (P Q : A -> Prop) `{forall x, Decision (Q x)} (l : list A) :
  Forall P l -> Forall P (base.filter Q l).
Proof. induction 1; [done|]. rewrite filter_cons. case_decide; auto. Qed.

Lemma len_cons {A} (x : A) (l : list A) : len (x :: l) = len l + 1.
Proof. simpl. lia. Qed.

Lemma len_nonneg {A} (l : list A) : 0 <= len l.
Proof. lia. Qed.

Lemma StronglySorted_filter {A} (R : A -> A -> Prop) (P : A -> Prop) `{forall x, Decision (P x)} l :
  StronglySorted R l -> StronglySorted R (base.filter P l).
Proof.
  induction 1 as [|x l Hs IH Hall]; [constructor|].
  rewrite filter_cons. case_decide; [|done]. constructor; [done|]. by apply Forall_filter_1.
Qed.

Lemma StronglySorted_drop {A} (R : A -> A -> Prop) n l :
  StronglySorted R l -> StronglySorted R (drop n l).
Proof.
  intros H. rewrite <- (take_drop n l) in H. by apply StronglySorted_app in H as (_ & _ & ?).
Qed.

(** ** Updating one element of many *)

Lemma insert_Permutation {A} (l : list A) i x :
  l !! i = Some x -> exists rest, l ≡ₚ x :: rest /\ forall y, <[i := y]> l ≡ₚ y :: rest.
Proof.
  intros Hi. exists (take i l ++ drop (S i) l). split.
  - rewrite <- (take_drop_middle l i x Hi) at 1. by rewrite Permutation_middle.
  - intros y. rewrite insert_take_drop by (by eapply lookup_lt_Some). by rewrite Permutation_middle.
Qed.

Lemma sum_insert {A} (f : A -> nat) l i x y :
  l !! i = Some x -> (sum_list_with f (<[i := y]> l) + f x = sum_list_with f l + f y)%nat.
Proof.
  intros (rest & Hp & Hins)%insert_Permutation. rewrite (Hins y), Hp. simpl. lia.
Qed.

Lemma sum_elem {A} (f : A -> nat) l i x : l !! i = Some x -> (f x <= sum_list_with f l)%nat.
Proof. intros Hi. apply sum_list_with_in. by eapply list_elem_of_lookup_2. Qed.

Lemma sum_zero {A} (f : A -> nat) l : sum_list_with f l = 0%nat <-> Forall (fun x => f x = 0%nat) l.
Proof.
  induction l as [|x l IH]; simpl; [by split; [constructor|]|]. rewrite Forall_cons, <- IH. lia.
Qed.
