(* ===== verification/SmppPdu.v ===== *)
(** * SMPP PDUs: command ids, statuses, bodies and their encoding

    Models [src/internal/smpp/commands.go], [src/internal/smpp/pdu.go] and the
    [writer] of [src/internal/smpp/codec.go].  A Go [uint32] is a [Z], a
    [uint8] a [byte], a Go string a [string] of eight-bit characters. *)

From S2P Require Import Prelude.

(** ** Command ids *)

Definition CommandID := Z.

Definition BindReceiver : CommandID := 0x00000001.
Definition BindTransmitter : CommandID := 0x00000002.
Definition SubmitSM : CommandID := 0x00000004.
Definition DeliverSM : CommandID := 0x00000005.
Definition Unbind : CommandID := 0x00000006.
Definition BindTransceiver : CommandID := 0x00000009.
Definition EnquireLink : CommandID := 0x00000015.
Definition GenericNack : CommandID := 0x80000000.
Definition BindReceiverResp : CommandID := 0x80000001.
Definition BindTransmitterResp : CommandID := 0x80000002.
Definition SubmitSMResp : CommandID := 0x80000004.
Definition DeliverSMResp : CommandID := 0x80000005.
Definition UnbindResp : CommandID := 0x80000006.
Definition BindTransceiverResp : CommandID := 0x80000009.
Definition EnquireLinkResp : CommandID := 0x80000015.

Definition responseBit : CommandID := 0x80000000.

Definition IsResponse (c : CommandID) : bool := negb (Z.land c responseBit =? 0).
Definition Response (c : CommandID) : CommandID := Z.lor c responseBit.

(** [strconv.FormatUint(v, 16)]; sixteen digits are enough for a [uint64]. *)
Definition hex_digit (d : Z) : Ascii.ascii :=
  Ascii.ascii_of_N (Z.to_N (if d <? 10 then 48 + d else 87 + d)).

Fixpoint hex_digits (fuel : nat) (v : Z) (acc : string) : string :=
  match fuel with
  | O => acc
  | S fuel =>
      let acc := String.String (hex_digit (v mod 16)) acc in
      if v / 16 =? 0 then acc else hex_digits fuel (v / 16) acc
  end.

Definition FormatHex (v : Z) : string := hex_digits 16 v "".

Definition CommandID_String (c : CommandID) : string :=
  if c =? BindReceiver then "bind_receiver"
  else if c =? BindTransmitter then "bind_transmitter"
  else if c =? SubmitSM then "submit_sm"
  else if c =? DeliverSM then "deliver_sm"
  else if c =? Unbind then "unbind"
  else if c =? BindTransceiver then "bind_transceiver"
  else if c =? EnquireLink then "enquire_link"
  else if c =? GenericNack then "generic_nack"
  else if c =? BindReceiverResp then "bind_receiver_resp"
  else if c =? BindTransmitterResp then "bind_transmitter_resp"
  else if c =? SubmitSMResp then "submit_sm_resp"
  else if c =? DeliverSMResp then "deliver_sm_resp"
  else if c =? UnbindResp then "unbind_resp"
  else if c =? BindTransceiverResp then "bind_transceiver_resp"
  else if c =? EnquireLinkResp then "enquire_link_resp"
  else ("command(0x" +:+ FormatHex c +:+ ")")%string.

(** ** Command statuses *)

Definition CommandStatus := Z.

Definition StatusROK : CommandStatus := 0x00000000.
Definition StatusInvMsgLen : CommandStatus := 0x00000001.
Definition StatusInvCmdLen : CommandStatus := 0x00000002.
Definition StatusInvCmdID : CommandStatus := 0x00000003.
Definition StatusInvBndSts : CommandStatus := 0x00000004.
Definition StatusSysErr : CommandStatus := 0x00000008.
Definition StatusInvSrcAdr : CommandStatus := 0x0000000A.
Definition StatusInvDstAdr : CommandStatus := 0x0000000B.
Definition StatusBindFail : CommandStatus := 0x0000000D.
Definition StatusMsgQFul : CommandStatus := 0x00000014.
Definition StatusSubmitFail : CommandStatus := 0x00000045.
Definition StatusThrottled : CommandStatus := 0x00000058.

(** ** Bodies *)

Record TLV := mkTLV { TLV_Tag : Z; TLV_Value : bytes }.

Definition TagMessagePayload : Z := 0x0424.

Record Bind := mkBind {
  Bind_SystemID : string;
  Bind_Password : string;
  Bind_SystemType : string;
  Bind_InterfaceVersion : byte;
  Bind_AddrTON : byte;
  Bind_AddrNPI : byte;
  Bind_AddressRange : string
}.

Record BindResp := mkBindResp {
  BindResp_SystemID : string;
  BindResp_TLVs : list TLV
}.

Record Message := mkMessage {
  ServiceType : string;
  SourceAddrTON : byte;
  SourceAddrNPI : byte;
  SourceAddr : string;
  DestAddrTON : byte;
  DestAddrNPI : byte;
  DestAddr : string;
  ESMClass : byte;
  ProtocolID : byte;
  PriorityFlag : byte;
  ScheduleDeliveryTime : string;
  ValidityPeriod : string;
  RegisteredDelivery : byte;
  ReplaceIfPresent : byte;
  DataCoding : byte;
  SMDefaultMsgID : byte;
  ShortMessage : bytes;
  Message_TLVs : list TLV
}.

Record SubmitResp := mkSubmitResp { MessageID : string }.

(** The sealed [Body] interface: its dynamic types. *)
Inductive Body :=
| BodyBind (b : Bind)
| BodyBindResp (b : BindResp)
| BodyMessage (m : Message)
| BodySubmitResp (s : SubmitResp).

(** [Body] is [None] where the Go field is a nil interface. *)
Record PDU := mkPDU {
  PDU_CommandID : CommandID;
  PDU_CommandStatus : CommandStatus;
  PDU_SequenceNumber : Z;
  PDU_Body : option Body
}.

#[export] Instance TLV_eq_dec : EqDecision TLV.
Proof. solve_decision. Defined.
#[export] Instance Bind_eq_dec : EqDecision Bind.
Proof. solve_decision. Defined.
#[export] Instance BindResp_eq_dec : EqDecision BindResp.
Proof. solve_decision. Defined.
#[export] Instance Message_eq_dec : EqDecision Message.
Proof. solve_decision. Defined.
#[export] Instance SubmitResp_eq_dec : EqDecision SubmitResp.
Proof. solve_decision. Defined.
#[export] Instance Body_eq_dec : EqDecision Body.
Proof. solve_decision. Defined.
#[export] Instance PDU_eq_dec : EqDecision PDU.
Proof. solve_decision. Defined.

(** ** The writer *)

(** The [bytes.Buffer] of a [writer], as the bytes written so far. *)
Record writer := mkWriter { w_buf : bytes }.

Definition w_byte (b : byte) (w : writer) : writer := mkWriter (w_buf w ++ [b]).

Definition w_octets (b : bytes) (w : writer) : writer := mkWriter (w_buf w ++ b).

Definition w_cOctetString (s : string) (w : writer) : writer :=
  mkWriter ((w_buf w ++ bytes_of_string s) ++ [NUL]).

Fixpoint w_tlvs (tlvs : list TLV) (w : writer) : writer :=
  match tlvs with
  | [] => w
  | t :: tlvs =>
      let hdr := be_encode 2 (TLV_Tag t) ++ be_encode 2 (u16 (len (TLV_Value t))) in
      w_tlvs tlvs (mkWriter ((w_buf w ++ hdr) ++ TLV_Value t))
  end.

(** ** Marshalling *)

Definition maxShortMessageLen : Z := 254.

Definition marshal_Bind (b : Bind) (w : writer) : writer :=
  let w := w_cOctetString (Bind_SystemID b) w in
  let w := w_cOctetString (Bind_Password b) w in
  let w := w_cOctetString (Bind_SystemType b) w in
  let w := w_byte (Bind_InterfaceVersion b) w in
  let w := w_byte (Bind_AddrTON b) w in
  let w := w_byte (Bind_AddrNPI b) w in
  w_cOctetString (Bind_AddressRange b) w.

Definition marshal_BindResp (b : BindResp) (w : writer) : writer :=
  let w := w_cOctetString (BindResp_SystemID b) w in
  w_tlvs (BindResp_TLVs b) w.

Definition marshal_Message (m : Message) (w : writer) : writer :=
  let w := w_cOctetString (ServiceType m) w in
  let w := w_byte (SourceAddrTON m) w in
  let w := w_byte (SourceAddrNPI m) w in
  let w := w_cOctetString (SourceAddr m) w in
  let w := w_byte (DestAddrTON m) w in
  let w := w_byte (DestAddrNPI m) w in
  let w := w_cOctetString (DestAddr m) w in
  let w := w_byte (ESMClass m) w in
  let w := w_byte (ProtocolID m) w in
  let w := w_byte (PriorityFlag m) w in
  let w := w_cOctetString (ScheduleDeliveryTime m) w in
  let w := w_cOctetString (ValidityPeriod m) w in
  let w := w_byte (RegisteredDelivery m) w in
  let w := w_byte (ReplaceIfPresent m) w in
  let w := w_byte (DataCoding m) w in
  let w := w_byte (SMDefaultMsgID m) w in
  let smLen := len (ShortMessage m) in
  let smLen := if smLen >? maxShortMessageLen then maxShortMessageLen else smLen in
  let w := w_byte (byte_of_Z smLen) w in
  let w := w_octets (take (Z.to_nat smLen) (ShortMessage m)) w in
  w_tlvs (Message_TLVs m) w.

Definition marshal_SubmitResp (s : SubmitResp) (w : writer) : writer :=
  w_cOctetString (MessageID s) w.

Definition marshal (b : Body) (w : writer) : writer :=
  match b with
  | BodyBind b => marshal_Bind b w
  | BodyBindResp b => marshal_BindResp b w
  | BodyMessage m => marshal_Message m w
  | BodySubmitResp s => marshal_SubmitResp s w
  end.

(** ** What the writer wrote *)

Definition cstring_bytes (s : string) : bytes := bytes_of_string s ++ [NUL].

Definition tlv_bytes (t : TLV) : bytes :=
  be_encode 2 (TLV_Tag t) ++ be_encode 2 (u16 (len (TLV_Value t))) ++ TLV_Value t.

Definition tlvs_bytes (ts : list TLV) : bytes := concat (tlv_bytes <$> ts).

(** The bytes a body marshals to, independent of the buffer it is appended to. *)
Definition body_bytes (b : Body) : bytes := w_buf (marshal b (mkWriter [])).

Lemma w_byte_buf b w : w_buf (w_byte b w) = w_buf w ++ [b].
Proof. done. Qed.

Lemma w_octets_buf b w : w_buf (w_octets b w) = w_buf w ++ b.
Proof. done. Qed.

Lemma w_cOctetString_buf s w :
  w_buf (w_cOctetString s w) = w_buf w ++ cstring_bytes s.
Proof. unfold w_cOctetString, cstring_bytes. cbn [w_buf]. by rewrite app_assoc. Qed.

Lemma w_tlvs_buf ts w : w_buf (w_tlvs ts w) = w_buf w ++ tlvs_bytes ts.
Proof.
  revert w. induction ts as [|t ts IH]; intros w; cbn [w_tlvs].
  - unfold tlvs_bytes. cbn. by rewrite app_nil_r.
  - rewrite IH. cbn [w_buf]. unfold tlvs_bytes. cbn [fmap list_fmap concat].
    unfold tlv_bytes. by rewrite <-!app_assoc.
Qed.

#[export] Hint Rewrite w_byte_buf w_octets_buf w_cOctetString_buf w_tlvs_buf : go_rw.

(** Writing is appending: no body looks at what is already in the buffer. *)
Lemma marshal_app b w : w_buf (marshal b w) = w_buf w ++ body_bytes b.
Proof.
  destruct b; unfold body_bytes; cbn [marshal];
    unfold marshal_Bind, marshal_BindResp, marshal_Message, marshal_SubmitResp;
    autorewrite with go_rw; cbn [w_buf]; by rewrite <-?app_assoc.
Qed.
