(* ===== verification/SmppCodec.v ===== *)
(** * The SMPP codec: cursor, Decode, Encode and framing

    Models [src/internal/smpp/codec.go].  The decoder is a state-and-error
    computation over the [reader] cursor; every slice access of the Go code is
    an access that may panic here, so that panic-freedom is a theorem and not
    an artefact of the model. *)

From S2P Require Import Prelude.
From S2P Require Import SmppPdu.

Definition HeaderLen : Z := 16.
Definition MaxPDULen : Z := 64 * 1024.
Definition maxCOctetLen : Z := 256.
Definition maxTLVs : Z := 64.

(** Transport errors a [Read] on the connection may return. *)
Inductive io_error := EOF | UnexpectedEOF | Timeout | OtherIO.

(** The decode sentinels, with the value [fmt.Errorf] adds to them, and the
    transport errors [ReadPDU] passes through. *)
Inductive CodecError :=
| ErrShortPDU
| ErrBadCommandLength (n : Z)
| ErrTruncated
| ErrUnterminated
| ErrUnknownCommand (id : CommandID)
| ErrBadShortMessage (n : Z)
| ErrTooManyTLVs
| ErrPartialFrame
| ErrIO (e : io_error)
| ErrUnknownEdgeKind (k : Z).

#[export] Instance io_error_eq_dec : EqDecision io_error.
Proof. solve_decision. Defined.
#[export] Instance CodecError_eq_dec : EqDecision CodecError.
Proof. solve_decision. Defined.

(** ** The reader *)

Record reader := mkReader { r_b : bytes; r_pos : Z }.

Definition Dec (A : Type) : Type := reader -> outcome CodecError (A * reader).

#[export] Instance Dec_ret : MRet Dec := fun A a r => Ok (a, r).
#[export] Instance Dec_bind : MBind Dec := fun A B f m r =>
  match m r with
  | Ok (a, r) => f a r
  | Err e => Err e
  | Panic => Panic
  end.

#[export] Instance Dec_fmap : FMap Dec := fun A B f m => m ≫= (fun a => mret (f a)).

Definition dec_fail {A} (e : CodecError) : Dec A := fun _ => Err e.

(** [v, _ := m()]: the error is dropped and the zero value used. *)
Definition dec_ignore_err {A} (zero : A) (m : Dec A) : Dec A := fun r =>
  match m r with Err _ => Ok (zero, r) | o => o end.

Definition r_remaining (r : reader) : Z := len (r_b r) - r_pos r.

Definition r_byte : Dec byte := fun r =>
  if r_pos r + 1 >? len (r_b r) then Err ErrTruncated
  else v ← go_index (r_b r) (r_pos r);
       Ok (v, mkReader (r_b r) (r_pos r + 1)).

(** [binary.BigEndian.UintN(r.b[r.pos:])] after the length check. *)
Definition r_word (n : nat) (r : reader) : outcome CodecError Z :=
  s ← go_slice (r_b r) (r_pos r) (len (r_b r)); be_uint n s.

Definition r_u32 : Dec Z := fun r =>
  if r_pos r + 4 >? len (r_b r) then Err ErrTruncated
  else v ← r_word 4 r;
       Ok (v, mkReader (r_b r) (r_pos r + 4)).

(** The scan loop of [cOctetString], [fuel = limit - i] iterations left. *)
Fixpoint r_scan (fuel : nat) (i : Z) (r : reader) : outcome CodecError (string * reader) :=
  match fuel with
  | O => Err ErrUnterminated
  | S fuel =>
      c ← go_index (r_b r) i;
      if byte_to_Z c =? 0 then
        s ← go_slice (r_b r) (r_pos r) i;
        Ok (string_of_bytes s, mkReader (r_b r) (i + 1))
      else r_scan fuel (i + 1) r
  end.

Definition r_cOctetString : Dec string := fun r =>
  let limit := Z.min (len (r_b r)) (r_pos r + maxCOctetLen) in
  r_scan (Z.to_nat (limit - r_pos r)) (r_pos r) r.

Definition r_octets (n : Z) : Dec bytes := fun r =>
  if (n <? 0) || (r_pos r + n >? len (r_b r)) then Err ErrTruncated
  else s ← go_slice (r_b r) (r_pos r) (r_pos r + n);
       Ok (s, mkReader (r_b r) (r_pos r + n)).

(** One round of the [tlvs] loop: the guards, the two words and the value. *)
Definition r_tlv (out : list TLV) : Dec TLV := fun r =>
  if r_pos r + 4 >? len (r_b r) then Err ErrTruncated
  else if len out =? maxTLVs then Err ErrTooManyTLVs
  else
    tag ← r_word 2 r;
    length ← r_word 2 (mkReader (r_b r) (r_pos r + 2));
    '(val, r) ← r_octets length (mkReader (r_b r) (r_pos r + 4));
    Ok (mkTLV tag val, r).

(** The [for r.pos < len(r.b)] loop.  A round consumes at least four bytes, so
    [len(r.b) - r.pos] rounds are enough; running out of fuel is [Panic], which
    [Decode_no_panic] excludes. *)
Fixpoint r_tlvs_loop (fuel : nat) (out : list TLV) : Dec (list TLV) := fun r =>
  if r_pos r <? len (r_b r) then
    match fuel with
    | O => Panic
    | S fuel => '(t, r) ← r_tlv out r; r_tlvs_loop fuel (out ++ [t]) r
    end
  else Ok (out, r).

Definition r_tlvs : Dec (list TLV) := fun r =>
  r_tlvs_loop (Z.to_nat (r_remaining r)) [] r.

(** ** Decoding bodies *)

Definition decodeBind : Dec Body :=
  SystemID ← r_cOctetString;
  Password ← r_cOctetString;
  SystemType ← r_cOctetString;
  InterfaceVersion ← r_byte;
  AddrTON ← r_byte;
  AddrNPI ← r_byte;
  AddressRange ← r_cOctetString;
  mret (BodyBind (mkBind SystemID Password SystemType InterfaceVersion
                    AddrTON AddrNPI AddressRange)).

Definition decodeBindResp : Dec Body := fun r =>
  if r_remaining r =? 0 then Ok (BodyBindResp (mkBindResp "" []), r)
  else (SystemID ← r_cOctetString;
        TLVs ← r_tlvs;
        mret (BodyBindResp (mkBindResp SystemID TLVs))) r.

Definition decodeMessage : Dec Body :=
  ServiceType ← r_cOctetString;
  SourceAddrTON ← r_byte;
  SourceAddrNPI ← r_byte;
  SourceAddr ← r_cOctetString;
  DestAddrTON ← r_byte;
  DestAddrNPI ← r_byte;
  DestAddr ← r_cOctetString;
  ESMClass ← r_byte;
  ProtocolID ← r_byte;
  PriorityFlag ← r_byte;
  ScheduleDeliveryTime ← r_cOctetString;
  ValidityPeriod ← r_cOctetString;
  RegisteredDelivery ← r_byte;
  ReplaceIfPresent ← r_byte;
  DataCoding ← r_byte;
  SMDefaultMsgID ← r_byte;
  smLength ← r_byte;
  if byte_to_Z smLength >? maxShortMessageLen
  then dec_fail (ErrBadShortMessage (byte_to_Z smLength))
  else
    ShortMessage ← r_octets (byte_to_Z smLength);
    TLVs ← r_tlvs;
    mret (BodyMessage (mkMessage ServiceType SourceAddrTON SourceAddrNPI SourceAddr
      DestAddrTON DestAddrNPI DestAddr ESMClass ProtocolID PriorityFlag
      ScheduleDeliveryTime ValidityPeriod RegisteredDelivery ReplaceIfPresent
      DataCoding SMDefaultMsgID ShortMessage TLVs)).

Definition decodeSubmitResp : Dec Body := fun r =>
  if r_remaining r =? 0 then Ok (BodySubmitResp (mkSubmitResp ""), r)
  else (MessageID ← r_cOctetString;
        mret (BodySubmitResp (mkSubmitResp MessageID))) r.

(** The shape [decodeBody] dispatches a command id to. *)
Inductive body_kind := KBind | KBindResp | KMessage | KSubmitResp | KHeaderOnly | KUnknown.

#[export] Instance body_kind_eq_dec : EqDecision body_kind.
Proof. solve_decision. Defined.

Definition command_kind (id : CommandID) : body_kind :=
  if bool_decide (id ∈ [BindReceiver; BindTransmitter; BindTransceiver]) then KBind
  else if bool_decide (id ∈ [BindReceiverResp; BindTransmitterResp; BindTransceiverResp])
  then KBindResp
  else if bool_decide (id ∈ [SubmitSM; DeliverSM]) then KMessage
  else if bool_decide (id ∈ [SubmitSMResp; DeliverSMResp]) then KSubmitResp
  else if bool_decide (id ∈ [EnquireLink; EnquireLinkResp; Unbind; UnbindResp; GenericNack])
  then KHeaderOnly
  else KUnknown.

Definition decodeBody (id : CommandID) : Dec (option Body) :=
  match command_kind id with
  | KBind => Some <$> decodeBind
  | KBindResp => Some <$> decodeBindResp
  | KMessage => Some <$> decodeMessage
  | KSubmitResp => Some <$> decodeSubmitResp
  | KHeaderOnly => mret None
  | KUnknown => dec_fail (ErrUnknownCommand id)
  end.

Definition Decode (frame : bytes) : outcome CodecError PDU :=
  if len frame <? HeaderLen then Err ErrShortPDU
  else
    '(p, _) ← (_ ← dec_ignore_err 0 r_u32;
               cmdID ← dec_ignore_err 0 r_u32;
               status ← dec_ignore_err 0 r_u32;
               seq ← dec_ignore_err 0 r_u32;
               body ← decodeBody cmdID;
               mret (mkPDU cmdID status seq body) : Dec PDU) (mkReader frame 0);
    Ok p.

(** ** Encoding *)

Definition Encode (p : PDU) : outcome CodecError bytes :=
  let w := match PDU_Body p with
           | Some b => marshal b (mkWriter [])
           | None => mkWriter []
           end in
  let body := w_buf w in
  let total := HeaderLen + len body in
  if total >? MaxPDULen then Err (ErrBadCommandLength total)
  else Ok ((be_encode 4 total ++ be_encode 4 (PDU_CommandID p) ++
            be_encode 4 (PDU_CommandStatus p) ++ be_encode 4 (PDU_SequenceNumber p)) ++ body).

(** ** Framing *)

(** What the connection will deliver to successive [Read]s: bytes, or an error.
    A connection with nothing left is closed by the peer ([io.EOF]). *)
Inductive conn_event := Recv (bs : bytes) | Fail (e : io_error).

Definition conn := list conn_event.

(** [io.ReadFull]: read until [need] bytes are buffered.  [got] is what has been
    read so far; a short read that ends in [io.EOF] is [io.ErrUnexpectedEOF]. *)
Fixpoint ReadFull (need : nat) (got : bytes) (c : conn) {struct c}
    : bytes * option io_error * conn :=
  let short e c :=
    (got, Some (if bool_decide (got <> [] /\ e = EOF) then UnexpectedEOF else e), c) in
  if (need <=? length got)%nat then (got, None, c)
  else match c with
       | [] => short EOF []
       | Fail e :: c => short e c
       | Recv bs :: c =>
           let n := (need - length got)%nat in
           if (length bs <=? n)%nat then ReadFull need (got ++ bs) c
           else (got ++ take n bs, None, Recv (drop n bs) :: c)
       end.

Definition partial (e : io_error) : CodecError :=
  if bool_decide (e = UnexpectedEOF) then ErrIO e else ErrPartialFrame.

(** [ReadPDU] returns the frame or an error, and the connection it leaves. *)
Definition ReadPDU (r : conn) : outcome CodecError bytes * conn :=
  match ReadFull 4 [] r with
  | (got, Some err, r) =>
      if 0 <? len got then (Err (partial err), r) else (Err (ErrIO err), r)
  | (lenBuf, None, r) =>
      let length := be_decode lenBuf in
      if (length <? HeaderLen) || (length >? MaxPDULen)
      then (Err (ErrBadCommandLength length), r)
      else match ReadFull (Z.to_nat (length - 4)) [] r with
           | (_, Some err, r) => (Err (partial err), r)
           | (rest, None, r) => (Ok (lenBuf ++ rest), r)
           end
  end.
