(* ===== verification/SmppCursor.v ===== *)
(** * Specifications of the codec's cursor

    Two judgements on decoders: [dec_spec m Q] (from any valid cursor [m] does
    not panic, and when it succeeds it has consumed exactly some bytes related
    to its value by [Q]) and [dec_reads m v bs rest] ([m] succeeds with [v] on
    a cursor in front of [bs ++ rest] and stops in front of [rest]).  Both are
    compositional, and every accessor of [src/internal/smpp/codec.go] has a
    lemma for each. *)

From S2P Require Import Prelude.
From S2P Require Import SmppPdu.
From S2P Require Import SmppCodec.

Definition reader_ok (r : reader) : Prop := 0 <= r_pos r <= len (r_b r).

(** What is left to read. *)
Definition suffix (r : reader) : bytes := drop (Z.to_nat (r_pos r)) (r_b r).

Definition advance (r : reader) (n : nat) : reader :=
  mkReader (r_b r) (r_pos r + Z.of_nat n).

(** The errors a body of a known command can be rejected with. *)
Definition is_body_error (e : CodecError) : bool :=
  match e with
  | ErrTruncated | ErrUnterminated | ErrBadShortMessage _ | ErrTooManyTLVs => true
  | _ => false
  end.

Definition dec_spec {A} (m : Dec A) (Q : A -> bytes -> Prop) : Prop :=
  forall r, reader_ok r ->
  match m r with
  | Ok (a, r') =>
      r_b r' = r_b r /\ reader_ok r' /\ (exists bs, suffix r = bs ++ suffix r' /\ Q a bs)
  | Err e => is_body_error e = true
  | Panic => False
  end.

Definition dec_reads {A} (m : Dec A) (v : A) (bs rest : bytes) : Prop :=
  forall r, reader_ok r -> suffix r = bs ++ rest ->
  exists r', m r = Ok (v, r') /\ r_b r' = r_b r /\ reader_ok r' /\ suffix r' = rest.

(** Strings a C-octet field can carry: no NUL, terminator within the scan. *)
Definition cstr_ok (s : string) : Prop :=
  (NUL ∉ bytes_of_string s) /\ slen s < maxCOctetLen.

Definition tlv_ok (t : TLV) : Prop :=
  is_u16 (TLV_Tag t) /\ len (TLV_Value t) < 2 ^ 16.

#[export] Instance cstr_ok_dec s : Decision (cstr_ok s).
Proof. unfold cstr_ok. apply _. Defined.
#[export] Instance tlv_ok_dec t : Decision (tlv_ok t).
Proof. unfold tlv_ok. apply _. Defined.

(** ** Cursor arithmetic *)

Lemma length_suffix r :
  reader_ok r -> len (suffix r) = len (r_b r) - r_pos r.
Proof. intros []. unfold suffix. rewrite length_drop. lia. Qed.

Lemma advance_ok r bs rest :
  reader_ok r -> suffix r = bs ++ rest ->
  reader_ok (advance r (length bs)) /\ suffix (advance r (length bs)) = rest.
Proof.
  intros Hr Hs. pose proof (length_suffix r Hr) as Hl.
  rewrite Hs, length_app in Hl. destruct Hr as [H0 H1].
  split.
  - unfold reader_ok, advance. cbn. lia.
  - unfold suffix, advance in *. cbn.
    rewrite Z2Nat.inj_add, Nat2Z.id by lia.
    rewrite <-drop_drop, Hs. apply drop_app_length.
Qed.

Lemma suffix_lookup r i :
  reader_ok r -> 0 <= i ->
  r_b r !! Z.to_nat (r_pos r + i) = suffix r !! Z.to_nat i.
Proof.
  intros [] ?. unfold suffix. rewrite lookup_drop. f_equal. lia.
Qed.

Lemma suffix_slice {E} r n :
  reader_ok r -> 0 <= n <= len (suffix r) ->
  go_slice (E := E) (r_b r) (r_pos r) (r_pos r + n) = Ok (take (Z.to_nat n) (suffix r)).
Proof.
  intros Hr Hn. pose proof (length_suffix r Hr). destruct Hr.
  rewrite go_slice_ok by lia. unfold suffix. do 2 f_equal. lia.
Qed.

#[export] Hint Resolve advance_ok : go.

(** ** Composition *)

Lemma dec_spec_ret {A} (a : A) (Q : A -> bytes -> Prop) :
  Q a [] -> dec_spec (mret a) Q.
Proof. intros HQ r Hr. cbn. split; [done|]. split; [done|]. by exists []. Qed.

Lemma dec_spec_bind {A B} (m : Dec A) (f : A -> Dec B) Q R :
  dec_spec m Q ->
  (forall a bs, Q a bs -> dec_spec (f a) (fun b bs' => R b (bs ++ bs'))) ->
  dec_spec (mbind f m) R.
Proof.
  intros Hm Hf r Hr. specialize (Hm r Hr). unfold mbind, Dec_bind.
  destruct (m r) as [[a r1]|e|]; [|done|done].
  destruct Hm as (Hb & Hr1 & bs & Hs & HQ).
  specialize (Hf a bs HQ r1 Hr1).
  destruct (f a r1) as [[b r2]|e|]; [|done|done].
  destruct Hf as (Hb2 & Hr2 & bs2 & Hs2 & HR).
  split; [congruence|]. split; [done|]. exists (bs ++ bs2).
  by rewrite Hs, Hs2, app_assoc.
Qed.

Lemma dec_spec_fail {A} e (Q : A -> bytes -> Prop) :
  is_body_error e = true -> dec_spec (dec_fail e) Q.
Proof. by intros He r Hr. Qed.

Lemma dec_spec_weaken {A} (m : Dec A) (Q R : A -> bytes -> Prop) :
  dec_spec m Q -> (forall a bs, Q a bs -> R a bs) -> dec_spec m R.
Proof.
  intros Hm HQR r Hr. specialize (Hm r Hr).
  destruct (m r) as [[a r1]|e|]; [|done|done].
  destruct Hm as (Hb & Hr1 & bs & Hs & HQ). eauto 10.
Qed.

Lemma dec_spec_fmap {A B} (g : A -> B) (m : Dec A) (Q : A -> bytes -> Prop) :
  dec_spec m Q -> dec_spec (g <$> m) (fun b bs => exists a, b = g a /\ Q a bs).
Proof.
  intros Hm. eapply dec_spec_bind; [exact Hm|].
  intros a bs HQ. apply dec_spec_ret. rewrite app_nil_r. eauto.
Qed.

Lemma dec_reads_ret {A} (a : A) rest : dec_reads (mret a) a [] rest.
Proof. intros r Hr Hs. eexists. cbn. eauto 10. Qed.

Lemma dec_reads_bind {A B} (m : Dec A) (f : A -> Dec B) a b bs1 bs2 rest :
  dec_reads m a bs1 (bs2 ++ rest) -> dec_reads (f a) b bs2 rest ->
  dec_reads (mbind f m) b (bs1 ++ bs2) rest.
Proof.
  intros Hm Hf r Hr Hs. rewrite <-app_assoc in Hs.
  destruct (Hm r Hr Hs) as (r1 & Hm1 & Hb1 & Hr1 & Hs1).
  destruct (Hf r1 Hr1 Hs1) as (r2 & Hf2 & Hb2 & Hr2 & Hs2).
  exists r2. split; [unfold mbind, Dec_bind; by rewrite Hm1|].
  split; [congruence|done].
Qed.

Lemma dec_reads_fmap {A B} (g : A -> B) (m : Dec A) a bs rest :
  dec_reads m a bs rest -> dec_reads (g <$> m) (g a) bs rest.
Proof.
  intros Hm. rewrite <-(app_nil_r bs). eapply dec_reads_bind; [exact Hm|].
  apply dec_reads_ret.
Qed.

#[export] Hint Resolve dec_reads_ret dec_reads_fmap : go.

(** ** The accessors *)

Ltac cmp_cases :=
  repeat match goal with
  | |- context [?a >? ?b] => rewrite (Z.gtb_ltb a b)
  | |- context [?a <? ?b] => destruct (Z.ltb_spec a b); cbn [orb andb negb]
  | |- context [?a <=? ?b] => destruct (Z.leb_spec a b); cbn [orb andb negb]
  | |- context [?a =? ?b] => destruct (Z.eqb_spec a b); cbn [orb andb negb]
  end.

Lemma reader_ok_advance r n :
  reader_ok r -> 0 <= n <= len (suffix r) -> reader_ok (mkReader (r_b r) (r_pos r + n)).
Proof.
  intros Hr Hn. pose proof (length_suffix r Hr). destruct Hr. unfold reader_ok. cbn. lia.
Qed.

Lemma suffix_advance r n :
  reader_ok r -> 0 <= n ->
  suffix (mkReader (r_b r) (r_pos r + n)) = drop (Z.to_nat n) (suffix r).
Proof.
  intros [] ?. unfold suffix. cbn. rewrite drop_drop. f_equal. lia.
Qed.

Lemma r_byte_eq r :
  reader_ok r ->
  r_byte r = match suffix r with
             | [] => Err ErrTruncated
             | b :: _ => Ok (b, mkReader (r_b r) (r_pos r + 1))
             end.
Proof.
  intros Hr. pose proof (length_suffix r Hr) as Hl. unfold r_byte.
  pose proof (suffix_lookup r 0 Hr ltac:(lia)) as Hk. rewrite Z.add_0_r in Hk.
  destruct (suffix r) as [|b s]; cmp_cases; cbn [length] in Hl; try lia; [done|].
  unfold go_index. rewrite Hk. cmp_cases; [destruct Hr; lia|done].
Qed.

Lemma r_byte_reads b rest : dec_reads r_byte b [b] rest.
Proof.
  intros r Hr Hs. rewrite r_byte_eq, Hs by done. eexists. split; [done|].
  split; [done|]. by apply (advance_ok r [b]).
Qed.

Lemma r_byte_spec : dec_spec r_byte (fun b bs => bs = [b]).
Proof.
  intros r Hr. rewrite r_byte_eq by done. destruct (suffix r) as [|b s] eqn:Hs; [done|].
  destruct (advance_ok r [b] s Hr Hs) as [Hok Hs']. split; [done|]. split; [done|].
  exists [b]. rewrite <-Hs'. done.
Qed.

Lemma r_word_eq n r :
  reader_ok r -> (n <= length (suffix r))%nat ->
  r_word n r = Ok (be_decode (take n (suffix r))).
Proof.
  intros Hr Hn. unfold r_word. pose proof (length_suffix r Hr) as Hl.
  replace (len (r_b r)) with (r_pos r + len (suffix r)) by lia.
  rewrite suffix_slice by (done || lia). cbn.
  rewrite Nat2Z.id, take_ge by lia. unfold be_uint.
  by rewrite (proj2 (Nat.leb_le _ _)) by lia.
Qed.

Lemma r_u32_eq r :
  reader_ok r -> 4 <= len (suffix r) ->
  r_u32 r = Ok (be_decode (take 4 (suffix r)), mkReader (r_b r) (r_pos r + 4)).
Proof.
  intros Hr Hn. pose proof (length_suffix r Hr) as Hl. unfold r_u32.
  cmp_cases; [lia|]. by rewrite r_word_eq by (done || lia).
Qed.

Lemma r_u32_reads v bs rest :
  length bs = 4%nat -> v = be_decode bs -> dec_reads (dec_ignore_err 0 r_u32) v bs rest.
Proof.
  intros Hl -> r Hr Hs. unfold dec_ignore_err.
  assert (4 <= len (suffix r)) by (rewrite Hs, length_app; lia).
  rewrite r_u32_eq by done. eexists. split.
  { rewrite Hs, take_app_length' by done. done. }
  split; [done|]. pose proof (advance_ok r bs rest Hr Hs) as H'.
  unfold advance in H'. by rewrite Hl in H'.
Qed.

Lemma r_octets_eq n r :
  reader_ok r -> 0 <= n ->
  r_octets n r =
    if n <=? len (suffix r)
    then Ok (take (Z.to_nat n) (suffix r), mkReader (r_b r) (r_pos r + n))
    else Err ErrTruncated.
Proof.
  intros Hr Hn. pose proof (length_suffix r Hr) as Hl. unfold r_octets.
  cmp_cases; first [lia | done | by rewrite suffix_slice].
Qed.

Lemma r_octets_reads n bs rest : n = len bs -> dec_reads (r_octets n) bs bs rest.
Proof.
  intros -> r Hr Hs. rewrite r_octets_eq by (done || lia).
  rewrite Hs, length_app. cmp_cases; [|lia].
  rewrite Nat2Z.id, take_app_length. eexists. split; [done|]. split; [done|].
  by apply (advance_ok r bs).
Qed.

Lemma r_octets_spec n :
  0 <= n -> dec_spec (r_octets n) (fun v bs => bs = v /\ len v = n).
Proof.
  intros Hn r Hr. rewrite r_octets_eq by done. cmp_cases; [|done].
  split; [done|]. split; [by apply reader_ok_advance|].
  exists (take (Z.to_nat n) (suffix r)). rewrite suffix_advance, take_drop by done.
  split; [done|]. split; [done|]. rewrite length_take. lia.
Qed.

Lemma byte_to_Z_NUL b : byte_to_Z b = 0 <-> b = NUL.
Proof.
  split; [|by intros ->]. intros H. apply (inj byte_to_Z). by rewrite H.
Qed.

Lemma r_scan_step fuel k r b :
  reader_ok r -> suffix r !! k = Some b ->
  r_scan (S fuel) (r_pos r + Z.of_nat k) r =
    if bool_decide (b = NUL)
    then Ok (string_of_bytes (take k (suffix r)), mkReader (r_b r) (r_pos r + Z.of_nat k + 1))
    else r_scan fuel (r_pos r + Z.of_nat (S k)) r.
Proof.
  intros Hr Hk. pose proof (lookup_lt_Some _ _ _ Hk) as Hlt. cbn [r_scan].
  unfold go_index. rewrite suffix_lookup, Nat2Z.id, Hk by (done || lia).
  cmp_cases; [destruct Hr; lia|]. cbn [mbind outcome_bind].
  cmp_cases.
  - rewrite bool_decide_eq_true_2 by (by apply byte_to_Z_NUL).
    rewrite suffix_slice by (done || lia). cbn. by rewrite Nat2Z.id.
  - rewrite bool_decide_eq_false_2 by (by rewrite <-byte_to_Z_NUL).
    f_equal. lia.
Qed.

Lemma r_scan_reads fuel k r s rest :
  reader_ok r -> suffix r = s ++ NUL :: rest -> NUL ∉ s ->
  (k <= length s < k + fuel)%nat ->
  r_scan fuel (r_pos r + Z.of_nat k) r =
    Ok (string_of_bytes s, mkReader (r_b r) (r_pos r + (len s + 1))).
Proof.
  intros Hr Hs Hnul. revert k. induction fuel as [|fuel IH]; intros k Hk; [lia|].
  destruct (decide (k = length s)) as [->|].
  - rewrite (r_scan_step _ _ _ NUL), bool_decide_eq_true_2; [|done|done|].
    + rewrite Hs, take_app_length. by rewrite <-Z.add_assoc.
    + rewrite Hs, lookup_app_r, Nat.sub_diag by lia. done.
  - destruct (lookup_lt_is_Some_2 s k) as [b Hb]; [lia|].
    rewrite (r_scan_step _ _ _ b), bool_decide_eq_false_2; [apply IH; lia| |done|].
    + intros ->. by apply Hnul, list_elem_of_lookup_2 with k.
    + rewrite Hs, lookup_app_l by lia. done.
Qed.

Lemma r_scan_spec fuel k r :
  reader_ok r -> NUL ∉ take k (suffix r) -> (k + fuel <= length (suffix r))%nat ->
  match r_scan fuel (r_pos r + Z.of_nat k) r with
  | Ok (v, r') =>
      exists s rest, suffix r = s ++ NUL :: rest /\ (NUL ∉ s) /\ (length s < k + fuel)%nat /\
        v = string_of_bytes s /\ r' = mkReader (r_b r) (r_pos r + (len s + 1))
  | Err e => e = ErrUnterminated
  | Panic => False
  end.
Proof.
  intros Hr. revert k. induction fuel as [|fuel IH]; intros k Hnul Hk; [done|].
  destruct (lookup_lt_is_Some_2 (suffix r) k) as [b Hb]; [lia|].
  rewrite (r_scan_step _ _ _ b) by done. case_bool_decide as HbN.
  - subst b. exists (take k (suffix r)), (drop (S k) (suffix r)).
    rewrite length_take_le by lia. rewrite <-Z.add_assoc.
    split; [by rewrite take_drop_middle|]. split; [done|]. split; [lia|]. done.
  - assert (NUL ∉ take (S k) (suffix r)) as Hnul'.
    { rewrite (take_S_r _ _ b), not_elem_of_app, list_elem_of_singleton by done.
      split; congruence. }
    specialize (IH (S k) Hnul' ltac:(lia)).
    destruct (r_scan fuel _ r) as [[v r']|e|]; [|done|done].
    destruct IH as (s & rest & ? & ? & ? & ? & ?).
    exists s, rest. repeat split; try done. lia.
Qed.

Lemma r_cOctetString_reads s rest :
  cstr_ok s -> dec_reads r_cOctetString s (cstring_bytes s) rest.
Proof.
  intros [Hnul Hlen] r Hr Hs. unfold cstring_bytes in Hs.
  pose proof (length_suffix r Hr) as Hl. unfold slen, maxCOctetLen in Hlen.
  assert (suffix r = bytes_of_string s ++ NUL :: rest) as Hs'
    by (by rewrite Hs, <-app_assoc).
  rewrite Hs', length_app in Hl. cbn [length] in Hl.
  pose proof (advance_ok r _ rest Hr Hs) as Hadv.
  rewrite length_app in Hadv. cbn [length] in Hadv.
  unfold r_cOctetString, maxCOctetLen.
  set (fuel := Z.to_nat _).
  pose proof (r_scan_reads fuel 0 r (bytes_of_string s) rest Hr Hs' Hnul
    ltac:(subst fuel; lia)) as H.
  rewrite Z.add_0_r in H. rewrite H, string_of_bytes_of_string. eexists. split; [done|]. split; [done|].
  unfold advance in Hadv. by rewrite Nat2Z.inj_add in Hadv.
Qed.

Lemma r_cOctetString_spec :
  dec_spec r_cOctetString (fun s bs => bs = cstring_bytes s /\ cstr_ok s).
Proof.
  intros r Hr. pose proof (length_suffix r Hr) as Hl.
  unfold r_cOctetString, maxCOctetLen.
  set (fuel := Z.to_nat _).
  pose proof (r_scan_spec fuel 0 r Hr ltac:(rewrite take_0; apply not_elem_of_nil) ltac:(subst fuel; lia)) as H.
  rewrite Z.add_0_r in H. destruct (r_scan fuel _ r) as [[v r']|e|]; [|by subst|done].
  destruct H as (s & rest & Hs & Hnul & Hfuel & -> & ->).
  split; [done|].
  assert (suffix r = (s ++ [NUL]) ++ rest) as Hs' by (by rewrite Hs, <-app_assoc).
  pose proof (advance_ok r _ rest Hr Hs') as [Hok Hrest].
  rewrite length_app in Hok, Hrest. cbn [length] in Hok, Hrest.
  unfold advance in Hok, Hrest. rewrite Nat2Z.inj_add in Hok, Hrest.
  split; [done|]. exists (s ++ [NUL]). change (Z.of_nat 1) with 1 in Hrest.
  rewrite Hrest. split; [done|].
  unfold cstring_bytes, cstr_ok, slen, maxCOctetLen.
  rewrite bytes_of_string_of_bytes. split; [done|]. split; [done|]. lia.
Qed.

(** ** Optional parameters *)

Lemma length_tlv_bytes t : length (tlv_bytes t) = (4 + length (TLV_Value t))%nat.
Proof. unfold tlv_bytes. by rewrite !length_app, !length_be_encode. Qed.

Lemma tlvs_bytes_cons t ts : tlvs_bytes (t :: ts) = tlv_bytes t ++ tlvs_bytes ts.
Proof. done. Qed.

Lemma tlvs_bytes_app ts1 ts2 : tlvs_bytes (ts1 ++ ts2) = tlvs_bytes ts1 ++ tlvs_bytes ts2.
Proof. unfold tlvs_bytes. by rewrite fmap_app, concat_app. Qed.

Lemma tlvs_bytes_single t : tlvs_bytes [t] = tlv_bytes t.
Proof. unfold tlvs_bytes. cbn. by rewrite app_nil_r. Qed.

(** A triple in front of the cursor, as its three parts. *)
Lemma r_tlv_eq out r :
  reader_ok r -> 4 <= len (suffix r) -> len out <> maxTLVs ->
  r_tlv out r =
    (let n := be_decode (take 2 (drop 2 (suffix r))) in
     '(val, r') ← r_octets n (mkReader (r_b r) (r_pos r + 4));
     Ok (mkTLV (be_decode (take 2 (suffix r))) val, r')).
Proof.
  intros Hr Hn Hout. pose proof (length_suffix r Hr) as Hl.
  unfold r_tlv. cmp_cases; try lia.
  rewrite (r_word_eq 2 r) by (done || lia). cbn [mbind outcome_bind].
  rewrite r_word_eq.
  - by rewrite suffix_advance by (done || lia).
  - apply reader_ok_advance; [done|lia].
  - rewrite suffix_advance, length_drop by (done || lia). lia.
Qed.

Lemma r_tlv_reads out t rest :
  tlv_ok t -> len out <> maxTLVs -> dec_reads (r_tlv out) t (tlv_bytes t) rest.
Proof.
  intros [Htag Hval] Hout r Hr Hs.
  assert (len (suffix r) >= 4) by (rewrite Hs, length_app, length_tlv_bytes; lia).
  rewrite r_tlv_eq by (done || lia). cbv zeta.
  unfold tlv_bytes in Hs. rewrite <-!app_assoc in Hs.
  assert (take 2 (suffix r) = be_encode 2 (TLV_Tag t)) as ->
    by (by rewrite Hs, take_app_length' by (by rewrite length_be_encode)).
  assert (drop 2 (suffix r) = be_encode 2 (u16 (len (TLV_Value t))) ++ TLV_Value t ++ rest)
    as Hd by (by rewrite Hs, drop_app_length' by (by rewrite length_be_encode)).
  rewrite Hd, take_app_length' by (by rewrite length_be_encode).
  rewrite !be_decode_encode. change (2 ^ (8 * Z.of_nat 2)) with (2 ^ 16).
  unfold u16. rewrite Z.mod_mod, !Z.mod_small by (done || lia).
  set (r4 := mkReader _ _).
  assert (reader_ok r4) as Hr4 by (apply reader_ok_advance; [done|lia]).
  assert (suffix r4 = TLV_Value t ++ rest) as Hs4.
  { subst r4. rewrite suffix_advance by (done || lia).
    change (Z.to_nat 4) with (2 + 2)%nat. rewrite <-drop_drop, Hd.
    by rewrite drop_app_length' by (by rewrite length_be_encode). }
  destruct (r_octets_reads _ (TLV_Value t) rest eq_refl r4 Hr4 Hs4) as (r' & -> & Hb & Hok & Hs').
  exists r'. split; [by destruct t|]. done.
Qed.

Lemma r_tlv_spec out :
  dec_spec (r_tlv out)
    (fun t bs => bs = tlv_bytes t /\ tlv_ok t /\ len out <> maxTLVs).
Proof.
  intros r Hr. pose proof (length_suffix r Hr) as Hl.
  destruct (Z.lt_ge_cases (len (suffix r)) 4) as [Hlt|Hge].
  { unfold r_tlv. cmp_cases; try lia; done. }
  destruct (Z.eq_dec (len out) maxTLVs) as [Heq|Hne].
  { unfold r_tlv. cmp_cases; try lia; done. }
  rewrite r_tlv_eq by (done || lia). cbv zeta.
  set (tag := take 2 (suffix r)). set (lb := take 2 (drop 2 (suffix r))).
  assert (length tag = 2%nat) as Htag by (subst tag; rewrite length_take; lia).
  assert (length lb = 2%nat) as Hlb by (subst lb; rewrite length_take, length_drop; lia).
  pose proof (be_decode_range tag) as Rtag. rewrite Htag in Rtag.
  pose proof (be_decode_range lb) as Rlb. rewrite Hlb in Rlb.
  set (r4 := mkReader _ _).
  assert (reader_ok r4) as Hr4 by (apply reader_ok_advance; [done|lia]).
  pose proof (r_octets_spec (be_decode lb) ltac:(lia) r4 Hr4) as Ho.
  destruct (r_octets (be_decode lb) r4) as [[val r']|e|]; [|done|done].
  destruct Ho as (Hb & Hok & bs & Hs & -> & Hval). cbn [mbind outcome_bind].
  split; [done|]. split; [done|]. exists (tlv_bytes (mkTLV (be_decode tag) val)).
  split; [|split; [done|]; split; [|done]; split; unfold is_u16; cbn [TLV_Tag TLV_Value]; lia].
  unfold tlv_bytes. cbn [TLV_Tag TLV_Value]. rewrite Hval. unfold u16.
  rewrite (Z.mod_small _ (2 ^ 16)) by lia.
  rewrite <-Htag, be_encode_decode at 1. rewrite <-Hlb, be_encode_decode at 1.
  rewrite <-!app_assoc, <-Hs. subst r4. rewrite suffix_advance by (done || lia).
  subst tag lb. change (Z.to_nat 4) with (2 + 2)%nat. rewrite <-drop_drop.
  by rewrite take_drop, take_drop.
Qed.

Lemma suffix_nil r : reader_ok r -> suffix r = [] <-> r_pos r = len (r_b r).
Proof.
  intros Hr. pose proof (length_suffix r Hr) as Hl.
  rewrite <-length_zero_iff_nil. lia.
Qed.

Lemma r_tlvs_loop_reads ts : forall fuel out,
  Forall tlv_ok ts -> len out + len ts <= maxTLVs -> (length ts <= fuel)%nat ->
  dec_reads (r_tlvs_loop fuel out) (out ++ ts) (tlvs_bytes ts) [].
Proof.
  induction ts as [|t ts IH]; intros fuel out Hok Hn Hf r Hr Hs.
  - apply suffix_nil in Hs as Hpos; [|done].
    exists r. rewrite app_nil_r.
    destruct fuel; cbn [r_tlvs_loop]; rewrite Hpos, Z.ltb_irrefl; done.
  - destruct fuel as [|fuel]; [cbn in Hf; lia|].
    apply Forall_cons in Hok as [Ht Hts]. cbn [length] in Hn, Hf.
    cbn [r_tlvs_loop]. rewrite tlvs_bytes_cons, <-app_assoc in Hs.
    pose proof (length_suffix r Hr) as Hl.
    rewrite Hs, length_app, length_tlv_bytes in Hl. cmp_cases; [|lia].
    destruct (r_tlv_reads out t _ Ht ltac:(lia) r Hr Hs) as (r1 & -> & Hb1 & Hr1 & Hs1).
    cbn [mbind outcome_bind].
    destruct (IH fuel (out ++ [t]) Hts) with (r := r1) as (r2 & -> & Hb2 & Hr2 & Hs2).
    + rewrite length_app. cbn [length]. lia.
    + lia.
    + done.
    + done.
    + exists r2. rewrite <-app_assoc. split; [done|]. split; [congruence|done].
Qed.

Lemma r_tlvs_reads ts :
  Forall tlv_ok ts -> len ts <= maxTLVs -> dec_reads r_tlvs ts (tlvs_bytes ts) [].
Proof.
  intros Hok Hn r Hr Hs. apply (r_tlvs_loop_reads ts _ []); try done.
  unfold r_remaining. rewrite <-(length_suffix r Hr), Hs, length_app, Nat2Z.id.
  cut (length ts <= length (tlvs_bytes ts))%nat; [lia|]. clear.
  induction ts; [done|]. rewrite tlvs_bytes_cons, length_app, length_tlv_bytes.
  cbn [length]. lia.
Qed.

Lemma r_tlvs_loop_spec fuel : forall out r,
  reader_ok r -> (length (suffix r) <= fuel)%nat -> len out <= maxTLVs ->
  match r_tlvs_loop fuel out r with
  | Ok (ts, r') =>
      r_b r' = r_b r /\ reader_ok r' /\ suffix r' = [] /\
      exists ts', ts = out ++ ts' /\ suffix r = tlvs_bytes ts' /\
        Forall tlv_ok ts' /\ len ts <= maxTLVs
  | Err e => is_body_error e = true
  | Panic => False
  end.
Proof.
  induction fuel as [|fuel IH]; intros out r Hr Hf Hout;
    pose proof (length_suffix r Hr) as Hl; cbn [r_tlvs_loop]; cmp_cases; try lia.
  1, 3: assert (suffix r = []) as Hs by (apply suffix_nil; [done|destruct Hr; lia]);
    repeat split; try done; try apply Hr; exists []; rewrite app_nil_r; done.
  pose proof (r_tlv_spec out r Hr) as Ht.
  destruct (r_tlv out r) as [[t r1]|e|]; [|done|done]. cbn [mbind outcome_bind].
  destruct Ht as (Hb1 & Hr1 & bs & Hs & -> & Ht & Hne).
  assert (length (suffix r) = length (tlv_bytes t) + length (suffix r1))%nat as Hlen
    by (by rewrite Hs, length_app).
  rewrite length_tlv_bytes in Hlen.
  assert (len (out ++ [t]) <= maxTLVs) as Hout' by (rewrite length_app; cbn [length]; lia).
  specialize (IH (out ++ [t]) r1 Hr1 ltac:(lia) Hout').
  destruct (r_tlvs_loop fuel (out ++ [t]) r1) as [[ts r2]|e|]; [|done|done].
  destruct IH as (Hb2 & Hr2 & Hs2 & ts' & -> & Hs1 & Hts' & Hn).
  split; [congruence|]. split; [done|]. split; [done|].
  exists (t :: ts'). rewrite <-app_assoc. split; [done|].
  rewrite tlvs_bytes_cons, <-Hs1. split; [done|]. split; [by constructor|].
  by rewrite <-app_assoc in Hn.
Qed.

Lemma r_tlvs_spec :
  dec_spec r_tlvs (fun ts bs => bs = tlvs_bytes ts /\ Forall tlv_ok ts /\ len ts <= maxTLVs).
Proof.
  intros r Hr. unfold r_tlvs, r_remaining. rewrite <-(length_suffix r Hr), Nat2Z.id.
  pose proof (r_tlvs_loop_spec (length (suffix r)) [] r Hr ltac:(lia) ltac:(done)) as H.
  destruct (r_tlvs_loop _ [] r) as [[ts r']|e|]; [|done|done].
  destruct H as (Hb & Hr' & Hs' & ts' & -> & Hs & Hok & Hn).
  split; [done|]. split; [done|]. exists (tlvs_bytes ts').
  by rewrite Hs', app_nil_r.
Qed.
