(* ===== verification/SmppRefusal.v ===== *)
(** * The bodies the codec refuses, and why

    The grammar of a body is a list of fields.  A body is refused with the error of
    the first field that cannot be read in front of the bytes left ([malformed]);
    the body decoders of [src/internal/smpp] fail exactly so ([decodeBody_fails]). *)

From S2P Require Import Prelude.
From S2P Require Import SmppPdu.
From S2P Require Import SmppCodec.
From S2P Require Import SmppCursor.

(** ** The grammar *)

(** A C-octet string, a byte, a length byte with its octets, the optional
    parameters up to the end. *)
Inductive field := FText | FByte | FShort | FTLVs.

Definition layout (k : body_kind) : list field :=
  match k with
  | KBind => [FText; FText; FText; FByte; FByte; FByte; FText]
  | KBindResp => [FText; FTLVs]
  | KMessage =>
      [FText; FByte; FByte; FText; FByte; FByte; FText; FByte; FByte; FByte; FText; FText;
       FByte; FByte; FByte; FByte; FShort; FTLVs]
  | KSubmitResp => [FText]
  | KHeaderOnly | KUnknown => []
  end.

(** [bs] is a whole field. *)
Definition spells (f : field) (bs : bytes) : Prop :=
  match f with
  | FText => exists s, cstr_ok s /\ bs = cstring_bytes s
  | FByte => exists b, bs = [b]
  | FShort => exists n sm, byte_to_Z n = len sm /\ len sm <= maxShortMessageLen /\ bs = n :: sm
  | FTLVs => exists ts, Forall tlv_ok ts /\ len ts <= maxTLVs /\ bs = tlvs_bytes ts
  end.

(** No further optional parameter, after [k] of them, in front of [bs]: its tag and
    length are cut; there are too many; its value is cut. *)
Inductive tlv_fault (k : Z) (bs : bytes) : CodecError -> Prop :=
| triple_cut : 0 < len bs < 4 -> tlv_fault k bs ErrTruncated
| triple_too_many : 4 <= len bs -> k = maxTLVs -> tlv_fault k bs ErrTooManyTLVs
| triple_value : 4 <= len bs -> k <> maxTLVs -> len bs < 4 + be_decode (take 2 (drop 2 bs)) ->
    tlv_fault k bs ErrTruncated.

(** No field [f] in front of [bs]. *)
Inductive fault : field -> bytes -> CodecError -> Prop :=
| fault_text bs : NUL ∉ take (Z.to_nat maxCOctetLen) bs -> fault FText bs ErrUnterminated
| fault_byte : fault FByte [] ErrTruncated
| fault_length : fault FShort [] ErrTruncated
| fault_too_long n bs : maxShortMessageLen < byte_to_Z n -> fault FShort (n :: bs) (ErrBadShortMessage (byte_to_Z n))
| fault_octets n bs : len bs < byte_to_Z n <= maxShortMessageLen -> fault FShort (n :: bs) ErrTruncated
| fault_tlvs ts bs e :
    Forall tlv_ok ts -> len ts <= maxTLVs -> tlv_fault (len ts) bs e -> fault FTLVs (tlvs_bytes ts ++ bs) e.

(** The first fault of a list of fields. *)
Inductive malformed : list field -> bytes -> CodecError -> Prop :=
| malformed_here f fs bs e : fault f bs e -> malformed (f :: fs) bs e
| malformed_later f fs bs rest e : spells f bs -> malformed fs rest e -> malformed (f :: fs) (bs ++ rest) e.

(** A response may leave its body out. *)
Definition malformed_body (k : body_kind) (bs : bytes) (e : CodecError) : Prop :=
  match k with
  | KBindResp | KSubmitResp => bs <> [] /\ malformed (layout k) bs e
  | _ => malformed (layout k) bs e
  end.

(** ** Decoders and their faults *)

Definition dec_fails {A} (m : Dec A) (P : bytes -> CodecError -> Prop) : Prop :=
  forall r e, reader_ok r -> m r = Err e <-> P (suffix r) e.

(** A decoder of the one field [f]. *)
Record dec_field {A} (m : Dec A) (f : field) : Prop := {
  df_spec : dec_spec m (fun _ => spells f);
  df_reads : forall bs rest, spells f bs -> exists v, dec_reads m v bs rest;
  df_fails : dec_fails m (fault f)
}.

Lemma dec_fails_ret {A} (v : A) : dec_fails (mret v) (malformed []).
Proof. intros r e Hr. split; [done|]. inversion 1. Qed.

Lemma dec_fails_bind {A B} (m : Dec A) (k : A -> Dec B) f fs :
  dec_field m f -> (forall v, dec_fails (k v) (malformed fs)) -> dec_fails (m ≫= k) (malformed (f :: fs)).
Proof.
  intros [Hs Hrd Hf] Hk r e Hr. specialize (Hs r Hr). unfold mbind, Dec_bind. split.
  - intros Hx. destruct (m r) as [[v r1]|e'|] eqn:Hm; simplify_eq.
    + destruct Hs as (_ & Hr1 & bs & -> & Hsp). apply malformed_later; [done|]. by apply (Hk v).
    + apply malformed_here. by apply Hf.
  - inversion 1 as [f0 fs0 bs0 e0 Hfault|f0 fs0 bs rest e0 Hsp Hmal]; subst.
    + apply (Hf r e Hr) in Hfault. by rewrite Hfault.
    + destruct (Hrd bs rest Hsp) as [v Hv]. destruct (Hv r Hr) as (r1 & -> & _ & Hr1 & Hsf); [done|].
      apply (Hk v); [done|]. by rewrite Hsf.
Qed.

Lemma dec_fails_last {A B} (m : Dec A) (k : A -> Dec B) f :
  dec_fails m (fault f) -> (forall v r e, k v r <> Err e) -> dec_fails (m ≫= k) (malformed [f]).
Proof.
  intros Hf Hk r e Hr. unfold mbind, Dec_bind. split.
  - intros Hx. destruct (m r) as [[v r1]|e'|] eqn:Hm; simplify_eq; [by apply Hk in Hx|].
    apply malformed_here. by apply Hf.
  - inversion 1 as [f0 fs0 bs0 e0 Hfault|f0 fs0 bs rest e0 _ Hmal]; subst; [|by inversion Hmal].
    apply (Hf r e Hr) in Hfault. by rewrite Hfault.
Qed.

Lemma dec_fails_fmap {A B} (g : A -> B) (m : Dec A) P : dec_fails m P -> dec_fails (g <$> m) P.
Proof.
  intros Hm r e Hr. rewrite <- (Hm r e Hr). unfold fmap, Dec_fmap, mbind, Dec_bind.
  destruct (m r) as [[v r1]|e'|]; [done|split; congruence|done].
Qed.

Lemma dec_fails_eq {A} (m m' : Dec A) P : (forall r, m r = m' r) -> dec_fails m P -> dec_fails m' P.
Proof. intros He Hm r e Hr. rewrite <- He. by apply Hm. Qed.

Lemma dec_fails_empty_or {A} (v : A) (m : Dec A) P :
  dec_fails m P -> dec_fails (fun r => if r_remaining r =? 0 then Ok (v, r) else m r) (fun bs e => bs <> [] /\ P bs e).
Proof.
  intros Hm r e Hr. cbn. unfold r_remaining. rewrite <- (length_suffix r Hr).
  destruct (suffix r) eqn:Hs; cbn [length].
  - rewrite Z.eqb_refl. split; [done|]. by intros [].
  - cmp_cases; [lia|]. rewrite (Hm r e Hr), Hs. naive_solver.
Qed.

(** ** The fields *)

Lemma r_byte_field : dec_field r_byte FByte.
Proof.
  split.
  - eapply dec_spec_weaken; [apply r_byte_spec|]. intros b bs ->. by exists b.
  - intros bs rest [b ->]. exists b. apply r_byte_reads.
  - intros r e Hr. rewrite r_byte_eq by done. destruct (suffix r); split; intros Hx; simplify_eq; try by inversion Hx.
    constructor.
Qed.

(** A NUL within the first [n] bytes ends a text. *)
Lemma NUL_split n (bs : bytes) :
  NUL ∈ take n bs -> exists s rest, bs = s ++ NUL :: rest /\ (NUL ∉ s) /\ (length s < n)%nat.
Proof.
  intros Hin. apply list_elem_of_split_l in Hin as (s & rest & Ht & Hno). exists s, (rest ++ drop n bs).
  split_and!; [|done|].
  - rewrite <- (take_drop n bs) at 1. rewrite Ht, <- app_assoc. done.
  - apply (f_equal length) in Ht. rewrite length_take, length_app in Ht. cbn [length] in Ht. lia.
Qed.

Lemma r_cOctetString_field : dec_field r_cOctetString FText.
Proof.
  split.
  - eapply dec_spec_weaken; [apply r_cOctetString_spec|]. intros s bs [-> Hs]. by exists s.
  - intros bs rest (s & Hs & ->). exists s. by apply r_cOctetString_reads.
  - intros r e Hr. pose proof (length_suffix r Hr) as Hl. unfold r_cOctetString, maxCOctetLen.
    set (fuel := Z.to_nat _).
    pose proof (r_scan_spec fuel 0 r Hr ltac:(rewrite take_0; apply not_elem_of_nil) ltac:(subst fuel; lia)) as H.
    assert (take fuel (suffix r) = take (Z.to_nat 256) (suffix r)) as Htake.
    { subst fuel. destruct (Z.le_gt_cases (len (r_b r)) (r_pos r + 256)).
      - rewrite !take_ge by lia. done.
      - f_equal. lia. }
    rewrite Z.add_0_r in H. split.
    + intros Hx. destruct (decide (NUL ∈ take (Z.to_nat 256) (suffix r))) as [Hin|Hno].
      * rewrite <- Htake in Hin. apply NUL_split in Hin as (s & rest & Hs & Hno & Hlen).
        pose proof (r_scan_reads fuel 0 r s rest Hr Hs Hno ltac:(lia)) as Hok. rewrite Z.add_0_r in Hok. congruence.
      * rewrite Hx in H. subst e. by constructor.
    + inversion 1 as [bs Hno| | | | |]; subst. destruct (r_scan fuel _ r) as [[v r']|e|]; [|by subst|done].
      destruct H as (s & rest & Hs & _ & Hlen & _). exfalso. apply Hno.
      change (Z.to_nat maxCOctetLen) with (Z.to_nat 256). rewrite <- Htake, Hs, take_app_ge by lia.
      apply elem_of_app. right. destruct (fuel - length s)%nat eqn:?; [lia|]. cbn [take]. by left.
Qed.

(** The length byte, its guard and the octets. *)
Definition r_short : Dec bytes :=
  smLength ← r_byte;
  if byte_to_Z smLength >? maxShortMessageLen
  then dec_fail (ErrBadShortMessage (byte_to_Z smLength))
  else r_octets (byte_to_Z smLength).

Lemma r_short_eq r n bs :
  reader_ok r -> suffix r = n :: bs ->
  let r1 := mkReader (r_b r) (r_pos r + 1) in
  reader_ok r1 /\ suffix r1 = bs /\
  r_short r =
    if byte_to_Z n >? maxShortMessageLen then Err (ErrBadShortMessage (byte_to_Z n)) else r_octets (byte_to_Z n) r1.
Proof.
  intros Hr Hs r1. destruct (advance_ok r [n] bs Hr Hs) as [Hr1 Hs1].
  split; [done|]. split; [done|]. unfold r_short, mbind, Dec_bind. rewrite r_byte_eq, Hs by done.
  by destruct (_ >? _).
Qed.

Lemma r_short_field : dec_field r_short FShort.
Proof.
  split.
  - unfold r_short. eapply dec_spec_bind; [apply r_byte_spec|]. intros n ? ->. cmp_cases; [by apply dec_spec_fail|].
    pose proof (byte_to_Z_range n) as Hn. eapply dec_spec_weaken; [apply r_octets_spec, Hn|].
    intros sm ? [-> Hsm]. exists n, sm. split_and!; try done. lia.
  - intros ? rest (n & sm & Hn & Hsm & ->). exists sm. intros r Hr Hs. cbn [app] in Hs.
    destruct (r_short_eq r n (sm ++ rest) Hr Hs) as (Hr1 & Hs1 & ->). cmp_cases; [lia|].
    destruct (r_octets_reads _ sm rest Hn _ Hr1 Hs1) as (r' & ? & ? & ? & ?). exists r'. done.
  - intros r e Hr. destruct (suffix r) as [|n bs] eqn:Hs.
    + unfold r_short, mbind, Dec_bind. rewrite r_byte_eq, Hs by done.
      split; [intros [= <-]; constructor|by inversion 1].
    + destruct (r_short_eq r n bs Hr Hs) as (Hr1 & Hs1 & ->). pose proof (byte_to_Z_range n) as Hn.
      destruct (byte_to_Z n >? maxShortMessageLen) eqn:Hc; rewrite Z.gtb_ltb in Hc.
      * apply Z.ltb_lt in Hc. split; [intros [= <-]; by constructor|]. inversion 1; subst; [done|lia].
      * apply Z.ltb_ge in Hc. rewrite r_octets_eq, Hs1 by (done || apply Hn). cmp_cases.
        -- split; [done|]. inversion 1; subst; lia.
        -- split; [intros [= <-]; by constructor|]. inversion 1; subst; [lia|done].
Qed.

(** ** Optional parameters *)

Lemma r_tlv_fails out : dec_fails (r_tlv out) (fun bs e => bs = [] /\ e = ErrTruncated \/ tlv_fault (len out) bs e).
Proof.
  intros r e Hr. pose proof (length_suffix r Hr) as Hl. destruct (Z.lt_ge_cases (len (suffix r)) 4) as [Hlt|Hge].
  { unfold r_tlv. cmp_cases; try lia. split.
    - intros [= <-]. destruct (suffix r) eqn:Hs; [by left|right]. constructor. cbn [length] in *. lia.
    - intros [[_ ->]|Hf]; [done|]. inversion Hf; subst; try done; lia. }
  assert (suffix r <> []) as Hne by (intros Hs; rewrite Hs in Hge; cbn in Hge; lia).
  destruct (Z.eq_dec (len out) maxTLVs) as [Heq|Hno].
  { unfold r_tlv. cmp_cases; try lia. split.
    - intros [= <-]. right. by constructor.
    - intros [[? _]|Hf]; [done|]. inversion Hf; subst; try done; lia. }
  rewrite r_tlv_eq by (done || lia). cbv zeta.
  set (n := be_decode (take 2 (drop 2 (suffix r)))). set (r4 := mkReader _ _).
  assert (reader_ok r4) as Hr4 by (apply reader_ok_advance; [done|lia]).
  assert (len (suffix r4) = len (suffix r) - 4) as Hs4.
  { subst r4. rewrite suffix_advance, length_drop by (done || lia). lia. }
  assert (0 <= n) as Hn by apply be_decode_range. rewrite r_octets_eq, Hs4 by done.
  destruct (Z.leb_spec n (len (suffix r) - 4)); cbn [mbind outcome_bind]; (split; [intros Hx; simplify_eq|]).
  - intros [[? _]|Hf]; [done|]. inversion Hf; subst; try lia; done.
  - right. apply triple_value; [done..|]. fold n. lia.
  - intros [[? _]|Hf]; [done|]. inversion Hf; subst; try lia; done.
Qed.

Lemma tlv_fault_nonempty k bs e : tlv_fault k bs e -> 0 < len bs.
Proof. destruct 1; lia. Qed.

(** The loop, with [out] parameters read. *)
Definition tlvs_fault (k : Z) (bs : bytes) (e : CodecError) : Prop :=
  exists ts rest, Forall tlv_ok ts /\ k + len ts <= maxTLVs /\ bs = tlvs_bytes ts ++ rest /\
    tlv_fault (k + len ts) rest e.

Lemma tlvs_fault_cons k t bs e :
  tlv_ok t -> tlvs_fault (k + 1) bs e -> tlvs_fault k (tlv_bytes t ++ bs) e.
Proof.
  intros Ht (ts & rest & Hts & Hlen & -> & Hf). exists (t :: ts), rest. cbn [length].
  replace (k + Z.of_nat (S (length ts))) with (k + 1 + len ts) by lia.
  split_and!; [by constructor|done| |done]. by rewrite tlvs_bytes_cons, app_assoc.
Qed.

Lemma tlvs_loop_sound fuel : forall out r e,
  reader_ok r -> r_tlvs_loop fuel out r = Err e -> len out <= maxTLVs -> tlvs_fault (len out) (suffix r) e.
Proof.
  induction fuel as [|fuel IH]; intros out r e Hr Hx Hout; cbn [r_tlvs_loop] in Hx;
    destruct (Z.ltb_spec (r_pos r) (len (r_b r))) as [Hlt|]; simplify_eq.
  pose proof (length_suffix r Hr) as Hl. pose proof (r_tlv_spec out r Hr) as Ht.
  destruct (r_tlv out r) as [[t r1]|e'|] eqn:Htlv; cbn [mbind outcome_bind] in Hx; simplify_eq.
  - destruct Ht as (_ & Hr1 & bs & -> & -> & Ht & Hne). apply tlvs_fault_cons; [done|].
    assert (len (out ++ [t]) = len out + 1) as Hlen by (rewrite length_app; cbn [length]; lia).
    rewrite <- Hlen. apply IH; [done|done|lia].
  - apply (r_tlv_fails out r e Hr) in Htlv as [[Hs _]|Hf]; [rewrite Hs in Hl; cbn in Hl; lia|].
    exists [], (suffix r). rewrite Z.add_0_r. by split_and!.
Qed.

Lemma tlvs_loop_complete ts : forall fuel out rest r e,
  reader_ok r -> Forall tlv_ok ts -> len out + len ts <= maxTLVs -> tlv_fault (len out + len ts) rest e ->
  suffix r = tlvs_bytes ts ++ rest -> (length (suffix r) <= fuel)%nat -> r_tlvs_loop fuel out r = Err e.
Proof.
  induction ts as [|t ts IH]; intros fuel out rest r e Hr Hts Hlen Hf Hs Hfuel;
    pose proof (length_suffix r Hr) as Hl; pose proof (tlv_fault_nonempty _ _ _ Hf) as Hne.
  - cbn [app length] in *. change (tlvs_bytes [] ++ rest) with rest in Hs. rewrite Z.add_0_r in Hf. rewrite <- Hs in Hf, Hne.
    destruct fuel as [|fuel]; [lia|]. cbn [r_tlvs_loop]. cmp_cases; [|lia].
    rewrite (proj2 (r_tlv_fails out r e Hr)) by (by right). done.
  - apply Forall_cons in Hts as [Ht Hts]. rewrite tlvs_bytes_cons, <- app_assoc in Hs. cbn [length] in Hlen, Hf.
    rewrite Hs, length_app, length_tlv_bytes in Hl, Hfuel. destruct fuel as [|fuel]; [lia|]. cbn [r_tlvs_loop]. cmp_cases; [|lia].
    destruct (r_tlv_reads out t _ Ht ltac:(lia) r Hr Hs) as (r1 & -> & _ & Hr1 & Hs1). cbn [mbind outcome_bind].
    apply (IH fuel (out ++ [t]) rest); rewrite ?Hs1, ?length_app; cbn [length]; try done; try lia.
    + by replace (Z.of_nat (length out + 1) + len ts) with (len out + Z.of_nat (S (length ts))) by lia.
    + rewrite length_app in Hfuel. lia.
Qed.

Lemma r_tlvs_fails : dec_fails r_tlvs (fault FTLVs).
Proof.
  intros r e Hr. unfold r_tlvs, r_remaining. rewrite <- (length_suffix r Hr), Nat2Z.id. split.
  - intros Hx. apply tlvs_loop_sound in Hx as (ts & rest & Hts & Hlen & -> & Hf); [|done|done].
    cbn [length] in *. rewrite Z.add_0_l in *. by constructor.
  - inversion 1 as [| | | | |ts rest e0 Hts Hlen Hf Hft Hs]; subst.
    eapply (tlvs_loop_complete ts _ [] rest); try done; cbn [length]; rewrite ?Z.add_0_l, ?Hs; done.
Qed.

(** ** The bodies *)

Ltac next_field :=
  match goal with
  | |- dec_fails (r_byte ≫= _) _ => apply dec_fails_bind; [apply r_byte_field|intros ?]
  | |- dec_fails (r_cOctetString ≫= _) _ => apply dec_fails_bind; [apply r_cOctetString_field|intros ?]
  | |- dec_fails (r_tlvs ≫= _) _ => apply dec_fails_last; [apply r_tlvs_fails|done]
  end.

Lemma decodeBind_fails : dec_fails decodeBind (malformed (layout KBind)).
Proof. unfold decodeBind. do 7 next_field. apply dec_fails_ret. Qed.

Lemma decodeBindResp_fails : dec_fails decodeBindResp (fun bs e => bs <> [] /\ malformed (layout KBindResp) bs e).
Proof. unfold decodeBindResp. apply dec_fails_empty_or. by do 2 next_field. Qed.

Lemma decodeSubmitResp_fails : dec_fails decodeSubmitResp (fun bs e => bs <> [] /\ malformed (layout KSubmitResp) bs e).
Proof. unfold decodeSubmitResp. apply dec_fails_empty_or. next_field. apply dec_fails_ret. Qed.

Lemma short_then {A} (k : bytes -> Dec A) r :
  (r_short ≫= k) r =
  (smLength ← r_byte;
   if byte_to_Z smLength >? maxShortMessageLen
   then dec_fail (ErrBadShortMessage (byte_to_Z smLength))
   else r_octets (byte_to_Z smLength) ≫= k) r.
Proof.
  unfold r_short, mbind, Dec_bind. destruct (r_byte r) as [[n r1]|e|]; [|done|done].
  by destruct (byte_to_Z n >? maxShortMessageLen).
Qed.

Lemma decodeMessage_fails : dec_fails decodeMessage (malformed (layout KMessage)).
Proof.
  unfold decodeMessage. do 16 next_field. eapply dec_fails_eq; [intros r; apply short_then|].
  apply dec_fails_bind; [apply r_short_field|intros ?]. next_field.
Qed.

Lemma decodeBody_fails id :
  command_kind id <> KUnknown -> dec_fails (decodeBody id) (malformed_body (command_kind id)).
Proof.
  intros Hk. unfold decodeBody, malformed_body. destruct (command_kind id); try done; [..|apply dec_fails_ret];
    apply dec_fails_fmap;
    [apply decodeBind_fails|apply decodeBindResp_fails|apply decodeMessage_fails|apply decodeSubmitResp_fails].
Qed.
