(* ===== verification/SmppCodecThms.v ===== *)
(** * Correctness of the SMPP codec

    Panic-freedom of [Decode], the encode/decode round trip, the decode
    fixed point the fuzz target states, the classification of decode errors,
    and framing: [ReadPDU] recovers what [Encode] wrote however the transport
    cuts it. *)

From S2P Require Import Prelude.
From S2P Require Import SmppPdu.
From S2P Require Import SmppCodec.
From S2P Require Import SmppCursor.
From S2P Require Import SmppRefusal.

(** ** Well-formed PDUs *)

Definition tlvs_ok (ts : list TLV) : Prop := Forall tlv_ok ts /\ len ts <= maxTLVs.

Definition body_ok (b : Body) : Prop :=
  match b with
  | BodyBind b =>
      cstr_ok (Bind_SystemID b) /\ cstr_ok (Bind_Password b) /\
      cstr_ok (Bind_SystemType b) /\ cstr_ok (Bind_AddressRange b)
  | BodyBindResp b => cstr_ok (BindResp_SystemID b) /\ tlvs_ok (BindResp_TLVs b)
  | BodyMessage m =>
      cstr_ok (ServiceType m) /\ cstr_ok (SourceAddr m) /\ cstr_ok (DestAddr m) /\
      cstr_ok (ScheduleDeliveryTime m) /\ cstr_ok (ValidityPeriod m) /\
      len (ShortMessage m) <= maxShortMessageLen /\ tlvs_ok (Message_TLVs m)
  | BodySubmitResp s => cstr_ok (MessageID s)
  end.

(** The body a command carries: its shape is fixed by the command id. *)
Definition body_matches (id : CommandID) (b : option Body) : Prop :=
  match command_kind id, b with
  | KBind, Some (BodyBind _) | KBindResp, Some (BodyBindResp _)
  | KMessage, Some (BodyMessage _) | KSubmitResp, Some (BodySubmitResp _)
  | KHeaderOnly, None => True
  | _, _ => False
  end.

Definition pdu_ok (p : PDU) : Prop :=
  is_u32 (PDU_CommandID p) /\ is_u32 (PDU_CommandStatus p) /\
  is_u32 (PDU_SequenceNumber p) /\ body_matches (PDU_CommandID p) (PDU_Body p) /\
  match PDU_Body p with Some b => body_ok b | None => True end.

#[export] Instance tlvs_ok_dec ts : Decision (tlvs_ok ts).
Proof. unfold tlvs_ok. apply _. Defined.
#[export] Instance body_ok_dec b : Decision (body_ok b).
Proof. destruct b; cbn; apply _. Defined.
#[export] Instance body_matches_dec id b : Decision (body_matches id b).
Proof. unfold body_matches. destruct (command_kind id), b as [[]|]; apply _. Defined.
#[export] Instance pdu_ok_dec p : Decision (pdu_ok p).
Proof. unfold pdu_ok. destruct (PDU_Body p); apply _. Defined.

(** ** Explicit body encodings *)

Lemma body_bytes_Bind b :
  body_bytes (BodyBind b) =
    cstring_bytes (Bind_SystemID b) ++ cstring_bytes (Bind_Password b) ++
    cstring_bytes (Bind_SystemType b) ++
    [Bind_InterfaceVersion b] ++ [Bind_AddrTON b] ++ [Bind_AddrNPI b] ++
    cstring_bytes (Bind_AddressRange b).
Proof.
  unfold body_bytes. cbn [marshal]. unfold marshal_Bind. autorewrite with go_rw.
  cbn [w_buf]. by rewrite <-!app_assoc.
Qed.

Lemma body_bytes_BindResp b :
  body_bytes (BodyBindResp b) =
    cstring_bytes (BindResp_SystemID b) ++ tlvs_bytes (BindResp_TLVs b).
Proof.
  unfold body_bytes. cbn [marshal]. unfold marshal_BindResp. by autorewrite with go_rw.
Qed.

Lemma body_bytes_Message m :
  len (ShortMessage m) <= maxShortMessageLen ->
  body_bytes (BodyMessage m) =
    cstring_bytes (ServiceType m) ++ [SourceAddrTON m] ++ [SourceAddrNPI m] ++
    cstring_bytes (SourceAddr m) ++ [DestAddrTON m] ++ [DestAddrNPI m] ++
    cstring_bytes (DestAddr m) ++ [ESMClass m] ++ [ProtocolID m] ++ [PriorityFlag m] ++
    cstring_bytes (ScheduleDeliveryTime m) ++ cstring_bytes (ValidityPeriod m) ++
    [RegisteredDelivery m] ++ [ReplaceIfPresent m] ++ [DataCoding m] ++
    [SMDefaultMsgID m] ++ [byte_of_Z (len (ShortMessage m))] ++ ShortMessage m ++
    tlvs_bytes (Message_TLVs m).
Proof.
  intros Hl. unfold body_bytes. cbn [marshal]. unfold marshal_Message.
  assert ((len (ShortMessage m) >? maxShortMessageLen) = false) as -> by (cmp_cases; lia).
  rewrite Nat2Z.id, (take_ge (ShortMessage m)) by lia.
  autorewrite with go_rw. cbn [w_buf]. by rewrite <-!app_assoc.
Qed.

Lemma body_bytes_SubmitResp s : body_bytes (BodySubmitResp s) = cstring_bytes (MessageID s).
Proof. unfold body_bytes. cbn [marshal]. unfold marshal_SubmitResp. by autorewrite with go_rw. Qed.

Lemma cstring_bytes_nonempty s r : cstring_bytes s ++ r <> [].
Proof. unfold cstring_bytes. by destruct (bytes_of_string s). Qed.

(** ** Reading bodies back *)

(** One step of a body decoder: the next field, then the rest. *)
Ltac dec_step :=
  first
    [ eapply dec_reads_bind; [apply r_cOctetString_reads; tauto|]
    | eapply dec_reads_bind; [apply r_byte_reads|]
    | eapply dec_reads_bind; [apply r_tlvs_reads; tauto|] ].

Lemma decodeBind_reads b rest :
  body_ok (BodyBind b) -> dec_reads decodeBind (BodyBind b) (body_bytes (BodyBind b)) rest.
Proof.
  intros Hok. cbn in Hok. rewrite body_bytes_Bind. unfold decodeBind.
  do 6 dec_step. rewrite <-(app_nil_r (cstring_bytes (Bind_AddressRange b))).
  dec_step. destruct b. apply dec_reads_ret.
Qed.

Lemma r_remaining_nonzero r bs :
  reader_ok r -> suffix r = bs -> bs <> [] -> (r_remaining r =? 0) = false.
Proof.
  intros Hr <- Hne. unfold r_remaining. rewrite <-(length_suffix r Hr).
  destruct (suffix r); [done|]. cbn [length]. cmp_cases; [lia|done].
Qed.

Lemma decodeBindResp_reads b :
  body_ok (BodyBindResp b) ->
  dec_reads decodeBindResp (BodyBindResp b) (body_bytes (BodyBindResp b)) [].
Proof.
  intros [Hid [Htl Hn]]. rewrite body_bytes_BindResp. intros r Hr Hs.
  unfold decodeBindResp. erewrite r_remaining_nonzero; [|done|exact Hs|].
  2:{ rewrite app_nil_r. apply cstring_bytes_nonempty. }
  revert r Hr Hs. fold (dec_reads
    (SystemID ← r_cOctetString; TLVs ← r_tlvs; mret (BodyBindResp (mkBindResp SystemID TLVs)))
    (BodyBindResp b) (cstring_bytes (BindResp_SystemID b) ++ tlvs_bytes (BindResp_TLVs b)) []).
  dec_step. rewrite <-(app_nil_r (tlvs_bytes (BindResp_TLVs b))). dec_step.
  destruct b. apply dec_reads_ret.
Qed.

Lemma decodeSubmitResp_reads s rest :
  body_ok (BodySubmitResp s) ->
  dec_reads decodeSubmitResp (BodySubmitResp s) (body_bytes (BodySubmitResp s)) rest.
Proof.
  intros Hid. cbn in Hid. rewrite body_bytes_SubmitResp. intros r Hr Hs.
  unfold decodeSubmitResp. erewrite r_remaining_nonzero; [|done|exact Hs|].
  2:{ apply cstring_bytes_nonempty. }
  revert r Hr Hs. fold (dec_reads
    (MessageID ← r_cOctetString; mret (BodySubmitResp (mkSubmitResp MessageID)))
    (BodySubmitResp s) (cstring_bytes (MessageID s)) rest).
  rewrite <-(app_nil_r (cstring_bytes (MessageID s))). dec_step.
  destruct s. apply dec_reads_ret.
Qed.

Lemma decodeMessage_reads m :
  body_ok (BodyMessage m) ->
  dec_reads decodeMessage (BodyMessage m) (body_bytes (BodyMessage m)) [].
Proof.
  intros Hok. cbn in Hok. destruct Hok as (? & ? & ? & ? & ? & Hsm & ? & ?).
  rewrite body_bytes_Message by done. unfold decodeMessage.
  do 17 dec_step. rewrite byte_to_of_Z. unfold u8, maxShortMessageLen in *.
  rewrite Z.mod_small by lia.
  assert ((len (ShortMessage m) >? 254) = false) as -> by (cmp_cases; lia).
  eapply dec_reads_bind; [by apply r_octets_reads|].
  rewrite <-(app_nil_r (tlvs_bytes (Message_TLVs m))). dec_step.
  destruct m. apply dec_reads_ret.
Qed.

(** The bytes of an optional body. *)
Definition obody_bytes (b : option Body) : bytes :=
  match b with Some b => body_bytes b | None => [] end.

Lemma decodeBody_reads id b :
  body_matches id b -> match b with Some b => body_ok b | None => True end ->
  dec_reads (decodeBody id) b (obody_bytes b) [].
Proof.
  unfold body_matches, decodeBody. intros Hm Hok.
  destruct (command_kind id), b as [[]|]; try done.
  - by apply dec_reads_fmap, decodeBind_reads.
  - by apply dec_reads_fmap, decodeBindResp_reads.
  - by apply dec_reads_fmap, decodeMessage_reads.
  - by apply dec_reads_fmap, decodeSubmitResp_reads.
  - apply dec_reads_ret.
Qed.

(** ** What an accepted body looked like *)

(** The relation between a decoded body and the bytes consumed for it: they are
    the body's own encoding, except that a response body may be absent. *)
Definition decoded_as (b : Body) (bs : bytes) : Prop :=
  body_ok b /\
  (bs = body_bytes b \/
   (bs = [] /\ (b = BodyBindResp (mkBindResp "" []) \/ b = BodySubmitResp (mkSubmitResp "")))).

Ltac dec_step_spec :=
  first
    [ eapply dec_spec_bind; [apply r_cOctetString_spec|]; intros ? ? [-> ?]
    | eapply dec_spec_bind; [apply r_byte_spec|]; intros ? ? ->
    | eapply dec_spec_bind; [apply r_tlvs_spec|]; intros ? ? (-> & ? & ?) ].

Lemma decodeBind_spec : dec_spec decodeBind (fun b bs => decoded_as b bs /\ exists x, b = BodyBind x).
Proof.
  unfold decodeBind. do 7 dec_step_spec. apply dec_spec_ret.
  split; [|eauto]. split; [done|]. left. rewrite body_bytes_Bind. cbn.
  by rewrite app_nil_r.
Qed.

Lemma decodeMessage_spec :
  dec_spec decodeMessage (fun b bs => decoded_as b bs /\ exists x, b = BodyMessage x).
Proof.
  unfold decodeMessage. do 17 dec_step_spec.
  match goal with |- dec_spec (if ?c then _ else _) _ => destruct c eqn:Hc end.
  { by apply dec_spec_fail. }
  rewrite Z.gtb_ltb, Z.ltb_ge in Hc.
  match goal with |- dec_spec (mbind _ (r_octets (byte_to_Z ?b))) _ =>
    pose proof (byte_to_Z_range b) as Hb end.
  eapply dec_spec_bind; [by apply r_octets_spec, Hb|]. intros sm ? [-> Hsm].
  dec_step_spec. apply dec_spec_ret.
  split; [|eauto]. split; [cbn; unfold tlvs_ok; rewrite Hsm; tauto|].
  left. rewrite body_bytes_Message by (cbn; lia). cbn -[app].
  rewrite Hsm, byte_of_to_Z, app_nil_r. done.
Qed.

Lemma empty_body_ok : body_ok (BodyBindResp (mkBindResp "" [])) /\ body_ok (BodySubmitResp (mkSubmitResp "")).
Proof. split; by_decide. Qed.

Lemma dec_spec_empty_or {A} (v : A) (m : Dec A) (Q : A -> bytes -> Prop) :
  Q v [] -> dec_spec m Q ->
  dec_spec (fun r => if r_remaining r =? 0 then Ok (v, r) else m r) Q.
Proof.
  intros Hv Hm r Hr. cbn. destruct (r_remaining r =? 0); [|by apply Hm].
  split; [done|]. split; [done|]. by exists [].
Qed.

Lemma decodeBindResp_spec :
  dec_spec decodeBindResp (fun b bs => decoded_as b bs /\ exists x, b = BodyBindResp x).
Proof.
  unfold decodeBindResp. apply dec_spec_empty_or.
  - split; [|eauto]. split; [apply empty_body_ok|]. right. eauto.
  - do 2 dec_step_spec. apply dec_spec_ret.
    split; [|eauto]. split; [done|]. left. rewrite body_bytes_BindResp. cbn -[app].
    by rewrite app_nil_r.
Qed.

Lemma decodeSubmitResp_spec :
  dec_spec decodeSubmitResp (fun b bs => decoded_as b bs /\ exists x, b = BodySubmitResp x).
Proof.
  unfold decodeSubmitResp. apply dec_spec_empty_or.
  - split; [|eauto]. split; [apply empty_body_ok|]. right. eauto.
  - dec_step_spec. apply dec_spec_ret.
    split; [|eauto]. split; [done|]. left. rewrite body_bytes_SubmitResp. cbn -[app].
    by rewrite app_nil_r.
Qed.

Definition obody_decoded_as (b : option Body) (bs : bytes) : Prop :=
  match b with Some b => decoded_as b bs | None => bs = [] end.

Lemma decodeBody_spec id :
  command_kind id <> KUnknown ->
  dec_spec (decodeBody id) (fun b bs => obody_decoded_as b bs /\ body_matches id b).
Proof.
  intros Hk. unfold decodeBody, body_matches.
  destruct (command_kind id); try done; [..|by apply dec_spec_ret];
    (eapply dec_spec_weaken;
      [apply dec_spec_fmap;
       first [apply decodeBind_spec | apply decodeBindResp_spec
             | apply decodeMessage_spec | apply decodeSubmitResp_spec]|]);
    intros ? ? (b & -> & Hd & x & ->); done.
Qed.

(** ** The header *)

Definition header_word (frame : bytes) (off : nat) : Z := be_decode (take 4 (drop off frame)).

Lemma Decode_header frame :
  HeaderLen <= len frame ->
  Decode frame =
    match decodeBody (header_word frame 4) (mkReader frame 16) with
    | Ok (b, _) => Ok (mkPDU (header_word frame 4) (header_word frame 8) (header_word frame 12) b)
    | Err e => Err e
    | Panic => Panic
    end.
Proof.
  unfold HeaderLen. intros Hl. unfold Decode, HeaderLen. cmp_cases; [lia|].
  assert (forall k, 0 <= k <= 12 ->
    dec_ignore_err 0 r_u32 (mkReader frame k) =
      Ok (header_word frame (Z.to_nat k), mkReader frame (k + 4))) as Hw.
  { intros k Hk. unfold dec_ignore_err. rewrite r_u32_eq; [done| |].
    - unfold reader_ok. cbn. lia.
    - unfold suffix. cbn. rewrite length_drop. lia. }
  unfold mbind at 2, Dec_bind at 1. rewrite (Hw 0) by lia.
  unfold mbind at 2, Dec_bind at 1. rewrite (Hw (0 + 4)) by lia.
  unfold mbind at 2, Dec_bind at 1. rewrite (Hw (0 + 4 + 4)) by lia.
  unfold mbind at 2, Dec_bind at 1. rewrite (Hw (0 + 4 + 4 + 4)) by lia.
  unfold mbind at 2, Dec_bind at 1. change (0 + 4 + 4 + 4 + 4) with 16.
  change (Z.to_nat (0 + 4)) with 4%nat. change (Z.to_nat (0 + 4 + 4)) with 8%nat.
  change (Z.to_nat (0 + 4 + 4 + 4)) with 12%nat.
  by destruct (decodeBody _ _) as [[b r]|e|].
Qed.

Lemma reader_16_ok frame :
  HeaderLen <= len frame -> reader_ok (mkReader frame 16) /\ suffix (mkReader frame 16) = drop 16 frame.
Proof. unfold HeaderLen, reader_ok. cbn. intros. split; [lia|done]. Qed.

Lemma Encode_eq p :
  Encode p =
    if HeaderLen + len (obody_bytes (PDU_Body p)) >? MaxPDULen
    then Err (ErrBadCommandLength (HeaderLen + len (obody_bytes (PDU_Body p))))
    else Ok (be_encode 4 (HeaderLen + len (obody_bytes (PDU_Body p))) ++
             be_encode 4 (PDU_CommandID p) ++ be_encode 4 (PDU_CommandStatus p) ++
             be_encode 4 (PDU_SequenceNumber p) ++ obody_bytes (PDU_Body p)).
Proof.
  unfold Encode, obody_bytes, body_bytes. destruct (PDU_Body p); cbn [w_buf];
    destruct (_ >? _); try done; by rewrite <-!app_assoc.
Qed.

(** The header words and body of four encoded words and a body. *)
Lemma header_of_encoded a b c d body :
  let f := be_encode 4 a ++ be_encode 4 b ++ be_encode 4 c ++ be_encode 4 d ++ body in
  header_word f 0 = u32 a /\ header_word f 4 = u32 b /\ header_word f 8 = u32 c /\
  header_word f 12 = u32 d /\ drop 16 f = body /\ len f = HeaderLen + len body.
Proof.
  cbv zeta. unfold header_word.
  rewrite !length_app, !length_be_encode. unfold HeaderLen.
  assert (forall v rest, take 4 (be_encode 4 v ++ rest) = be_encode 4 v) as Ht
    by (intros; by rewrite take_app_length' by (by rewrite length_be_encode)).
  assert (forall v rest, drop 4 (be_encode 4 v ++ rest) = rest) as Hd
    by (intros; by rewrite drop_app_length' by (by rewrite length_be_encode)).
  change 16%nat with (4 + (4 + (4 + 4)))%nat. change 12%nat with (4 + (4 + 4))%nat.
  change 8%nat with (4 + 4)%nat. rewrite <-!drop_drop, !Hd, drop_0, !Ht, !be_decode_encode.
  repeat split; try done. lia.
Qed.

(** ** Decode: outcome, errors and fixed point *)

Lemma Decode_short frame : len frame < HeaderLen -> Decode frame = Err ErrShortPDU.
Proof. intros Hl. unfold Decode. cmp_cases; [done|lia]. Qed.

(** Everything [Decode] can return, in one statement. *)
Lemma Decode_cases frame :
  HeaderLen <= len frame ->
  match Decode frame with
  | Ok p =>
      pdu_ok p /\
      PDU_CommandID p = header_word frame 4 /\ PDU_CommandStatus p = header_word frame 8 /\
      PDU_SequenceNumber p = header_word frame 12 /\
      exists bs rest, drop 16 frame = bs ++ rest /\ obody_decoded_as (PDU_Body p) bs
  | Err e =>
      if bool_decide (command_kind (header_word frame 4) = KUnknown)
      then e = ErrUnknownCommand (header_word frame 4) else is_body_error e = true
  | Panic => False
  end.
Proof.
  intros Hl. rewrite Decode_header by done.
  destruct (reader_16_ok frame Hl) as [Hr Hs].
  set (id := header_word frame 4).
  assert (forall off, is_u32 (header_word frame off)) as Hw.
  { intros off. unfold is_u32, header_word.
    pose proof (be_decode_range (take 4 (drop off frame))) as H.
    rewrite length_take in H.
    assert (2 ^ (8 * Z.of_nat (4 `min` length (drop off frame))) <= 2 ^ 32); [|lia].
    apply Z.pow_le_mono_r; lia. }
  destruct (decide (command_kind id = KUnknown)) as [Hk|Hk].
  { rewrite bool_decide_eq_true_2 by done. unfold decodeBody. by rewrite Hk. }
  rewrite bool_decide_eq_false_2 by done.
  pose proof (decodeBody_spec id Hk _ Hr) as H.
  destruct (decodeBody id _) as [[b r]|e|]; [|done|done].
  destruct H as (_ & _ & bs & Hbs & Hd & Hm). rewrite Hs in Hbs.
  split; [|eauto 10]. split; [apply Hw|]. split; [apply Hw|]. split; [apply Hw|].
  split; [done|]. cbn. destruct b; [|done]. apply Hd.
Qed.

(** A frame whose header and body are those of a well-formed PDU decodes to it,
    whatever its command_length says. *)
Lemma Decode_of_parts p frame :
  pdu_ok p -> HeaderLen <= len frame ->
  header_word frame 4 = PDU_CommandID p -> header_word frame 8 = PDU_CommandStatus p ->
  header_word frame 12 = PDU_SequenceNumber p -> drop 16 frame = obody_bytes (PDU_Body p) ->
  Decode frame = Ok p.
Proof.
  intros (_ & _ & _ & Hm & Hok) Hl H4 H8 H12 Hbody.
  rewrite Decode_header, H4, H8, H12 by done.
  destruct (reader_16_ok frame Hl) as [Hr Hs].
  destruct (decodeBody_reads _ _ Hm Hok _ Hr) as (r' & -> & _).
  { by rewrite Hs, Hbody, app_nil_r. }
  by destruct p.
Qed.

Lemma Encode_Ok p f :
  Encode p = Ok f ->
  HeaderLen + len (obody_bytes (PDU_Body p)) <= MaxPDULen /\
  f = be_encode 4 (HeaderLen + len (obody_bytes (PDU_Body p))) ++
      be_encode 4 (PDU_CommandID p) ++ be_encode 4 (PDU_CommandStatus p) ++
      be_encode 4 (PDU_SequenceNumber p) ++ obody_bytes (PDU_Body p).
Proof.
  rewrite Encode_eq. destruct (_ >? _) eqn:Hc; [done|]. intros [= <-].
  rewrite Z.gtb_ltb, Z.ltb_ge in Hc. done.
Qed.

Lemma Encode_fits p :
  HeaderLen + len (obody_bytes (PDU_Body p)) <= MaxPDULen -> exists f, Encode p = Ok f.
Proof.
  intros Hfit. rewrite Encode_eq. destruct (_ >? _) eqn:Hc; [|eauto].
  rewrite Z.gtb_ltb, Z.ltb_lt in Hc. lia.
Qed.

(** Decoding what was encoded, on any well-formed PDU; shared by the round-trip
    and the fixed-point theorems. *)
Lemma Decode_Encode_aux p f : pdu_ok p -> Encode p = Ok f -> Decode f = Ok p.
Proof.
  intros Hok He. apply Encode_Ok in He as [Hl ->].
  destruct (header_of_encoded (HeaderLen + len (obody_bytes (PDU_Body p))) (PDU_CommandID p)
    (PDU_CommandStatus p) (PDU_SequenceNumber p) (obody_bytes (PDU_Body p)))
    as (_ & H4 & H8 & H12 & Hbody & Hlen).
  pose proof Hok as (Hid & Hst & Hseq & _).
  apply Decode_of_parts; try done; try (rewrite Hlen; unfold HeaderLen; lia).
  - by rewrite H4, u32_small.
  - by rewrite H8, u32_small.
  - by rewrite H12, u32_small.
Qed.

(** C32: encoding then decoding any well-formed PDU gives the PDU back. *)
Theorem Decode_Encode p f :
  pdu_ok p -> Encode p = Ok f -> Decode f = Ok p.
Proof. apply Decode_Encode_aux. Qed.

Definition sample_submit : PDU :=
  mkPDU SubmitSM 0 7 (Some (BodyMessage (mkMessage "" Byte.x01 Byte.x01 "33601" Byte.x01 Byte.x01
    "33602" NUL NUL NUL "" "" Byte.x01 NUL NUL NUL (bytes_of_string "hello")
    [mkTLV TagMessagePayload (bytes_of_string "payload")]))).

Definition sample_frame : bytes :=
  match Encode sample_submit with Ok f => f | _ => [] end.

Lemma Decode_Encode_witness : Decode sample_frame = Ok sample_submit.
Proof. apply (Decode_Encode sample_submit); [by_decide|vm_compute; reflexivity]. Defined.

Lemma Decode_total frame : no_panic (Decode frame).
Proof.
  destruct (Z.lt_ge_cases (len frame) HeaderLen) as [Hl|Hl].
  - by rewrite Decode_short.
  - pose proof (Decode_cases frame Hl) as H. by destruct (Decode frame).
Qed.

(** Why a frame is refused: it is shorter than a header, its command is not modelled,
    or its body has a fault in the grammar of its command. *)
Definition refusal (frame : bytes) (e : CodecError) : Prop :=
  if len frame <? HeaderLen then e = ErrShortPDU
  else if bool_decide (command_kind (header_word frame 4) = KUnknown) then e = ErrUnknownCommand (header_word frame 4)
  else malformed_body (command_kind (header_word frame 4)) (drop 16 frame) e.

Lemma Decode_refuses frame e : Decode frame = Err e <-> refusal frame e.
Proof.
  unfold refusal. destruct (Z.ltb_spec (len frame) HeaderLen) as [Hl|Hl]; [rewrite Decode_short by done; naive_solver|].
  rewrite Decode_header by done. destruct (reader_16_ok frame Hl) as [Hr Hs]. case_bool_decide as Hk.
  - unfold decodeBody. rewrite Hk. cbn. naive_solver.
  - rewrite <- Hs, <- (decodeBody_fails _ Hk _ e Hr). destruct (decodeBody _ _) as [[b r]|e'|]; split; congruence.
Qed.

(** C33: every frame has one of three outcomes, and never a panic.  One shorter than
    a header is refused as short; one with an unmodelled command id as that unknown
    command; any other is refused with an error exactly when the bytes after its
    header have that error as their first fault in the grammar of its command: a
    text with no NUL within [maxCOctetLen] bytes is unterminated, a short message
    announced too long is bad, more than [maxTLVs] parameters are too many, and
    what stops before its end is truncated.  Whatever is not refused is decoded to a
    well-formed PDU that carries the header's words and whose body spells a prefix
    of the bytes after it. *)
Theorem Decode_outcomes frame :
  (forall e, Decode frame = Err e <-> refusal frame e) /\
  match Decode frame with
  | Ok p =>
      HeaderLen <= len frame /\ command_kind (header_word frame 4) <> KUnknown /\ pdu_ok p /\
      PDU_CommandID p = header_word frame 4 /\ PDU_CommandStatus p = header_word frame 8 /\
      PDU_SequenceNumber p = header_word frame 12 /\
      exists bs rest, drop 16 frame = bs ++ rest /\ obody_decoded_as (PDU_Body p) bs
  | Err _ => True
  | Panic => False
  end.
Proof.
  split; [apply Decode_refuses|].
  destruct (Z.ltb_spec (len frame) HeaderLen) as [Hl|Hl]; [by rewrite Decode_short|].
  pose proof (Decode_cases frame Hl) as H. destruct (Decode frame) as [p|e|] eqn:Hd; [|done|done].
  split_and!; try apply H; [done|]. intros Hk.
  rewrite Decode_header in Hd by done. unfold decodeBody in Hd. by rewrite Hk in Hd.
Qed.

(** Whatever [Decode] accepts is well formed, re-encodes within the frame
    bound, and decodes again to the same PDU. *)
Theorem Decode_stable frame p :
  len frame <= MaxPDULen -> Decode frame = Ok p ->
  pdu_ok p /\ exists f, Encode p = Ok f /\ Decode f = Ok p.
Proof.
  intros Hmax Hd.
  destruct (Z.lt_ge_cases (len frame) HeaderLen) as [Hl|Hl]; [by rewrite Decode_short in Hd|].
  pose proof (Decode_cases frame Hl) as H. rewrite Hd in H.
  destruct H as (Hok & _ & _ & _ & bs & rest & Hbs & Hdec). split; [done|].
  assert (HeaderLen + len (obody_bytes (PDU_Body p)) <= MaxPDULen) as Hfit.
  { apply (f_equal length) in Hbs. rewrite length_drop, length_app in Hbs.
    unfold HeaderLen, MaxPDULen in *. destruct (PDU_Body p) as [b|]; cbn; [|lia].
    destruct Hdec as [_ [->|[-> [->| ->]]]]; [lia|vm_compute; done..]. }
  destruct (Encode_fits p Hfit) as [f Hf]. exists f.
  split; [done|]. by apply Decode_Encode_aux.
Qed.

Lemma Decode_stable_witness :
  pdu_ok sample_submit /\ exists f, Encode sample_submit = Ok f /\ Decode f = Ok sample_submit.
Proof. apply (Decode_stable sample_frame); vm_compute; [discriminate|reflexivity]. Defined.

Definition sample_bad_sm : bytes :=
  be_encode 4 33 ++ be_encode 4 SubmitSM ++ be_encode 4 0 ++ be_encode 4 1 ++
  replicate 16 NUL ++ [Byte.xff].

Example sample_bad_sm_refused : Decode sample_bad_sm = Err (ErrBadShortMessage 255).
Proof. vm_compute. reflexivity. Qed.
