(* ===== verification/SmppFraming.v ===== *)
(** * Framing: [ReadPDU] over a segmented transport

    Two connections that deliver the same bytes and errors in the same order
    are equivalent however the bytes are cut into reads; [ReadPDU] respects
    that equivalence, recovers the frames [Encode] writes one after another,
    and classifies every truncation. *)

From S2P Require Import Prelude.
From S2P Require Import SmppPdu.
From S2P Require Import SmppCodec.
From S2P Require Import SmppCursor.
From S2P Require Import SmppCodecThms.

(** ** Connections up to segmentation *)

(** What the connection delivers, byte by byte. *)
Fixpoint flatten (c : conn) : list (byte + io_error) :=
  match c with
  | [] => []
  | Recv bs :: c => (inl <$> bs) ++ flatten c
  | Fail e :: c => inr e :: flatten c
  end.

Definition conn_equiv (c1 c2 : conn) : Prop := flatten c1 = flatten c2.

#[export] Instance conn_equiv_equivalence : Equivalence conn_equiv.
Proof. unfold conn_equiv. split; repeat intro; congruence. Qed.

Definition short_read (got : bytes) (e : io_error) : option io_error :=
  Some (if bool_decide (got <> [] /\ e = EOF) then UnexpectedEOF else e).

(** [ReadFull] on the flat stream. *)
Fixpoint flat_read (need : nat) (got : bytes) (l : list (byte + io_error))
    : bytes * option io_error * list (byte + io_error) :=
  if (need <=? length got)%nat then (got, None, l)
  else match l with
       | [] => (got, short_read got EOF, [])
       | inr e :: l => (got, short_read got e, l)
       | inl b :: l => flat_read need (got ++ [b]) l
       end.

Lemma flat_read_done need got l :
  (need <= length got)%nat -> flat_read need got l = (got, None, l).
Proof. intros. destruct l; cbn; by rewrite (proj2 (Nat.leb_le _ _)). Qed.

Lemma flat_read_app need got bs l :
  (length got + length bs <= need)%nat ->
  flat_read need got ((inl <$> bs) ++ l) = flat_read need (got ++ bs) l.
Proof.
  revert got. induction bs as [|b bs IH]; intros got Hl; cbn [fmap list_fmap app flat_read].
  - by rewrite app_nil_r.
  - cbn [length] in Hl. rewrite (proj2 (Nat.leb_gt _ _)) by lia.
    rewrite IH by (rewrite length_app; cbn [length]; lia). by rewrite <-app_assoc.
Qed.

Lemma flat_read_full need bs l :
  length bs = need -> flat_read need [] ((inl <$> bs) ++ l) = (bs, None, l).
Proof. intros Hl. rewrite flat_read_app by (cbn; lia). apply flat_read_done. cbn. lia. Qed.

Lemma ReadFull_flat need c : forall got,
  let '(g, e, c') := ReadFull need got c in
  flat_read need got (flatten c) = (g, e, flatten c').
Proof.
  induction c as [|[bs|e] c IH]; intros got; cbn [ReadFull];
    destruct (need <=? length got)%nat eqn:Hn; try (apply flat_read_done, Nat.leb_le, Hn).
  - cbn. by rewrite Hn.
  - apply Nat.leb_gt in Hn. cbn [flatten].
    destruct (length bs <=? need - length got)%nat eqn:Hb.
    + apply Nat.leb_le in Hb. specialize (IH (got ++ bs)).
      destruct (ReadFull need (got ++ bs) c) as [[g o] c'].
      rewrite flat_read_app by lia. done.
    + apply Nat.leb_gt in Hb. set (n := (need - length got)%nat) in *.
      rewrite <-(take_drop n bs) at 1. rewrite fmap_app, <-app_assoc.
      rewrite flat_read_app by (rewrite length_take; lia).
      apply flat_read_done. rewrite length_app, length_take. lia.
  - cbn. by rewrite Hn.
Qed.

(** [ReadPDU] on the flat stream. *)
Definition flat_ReadPDU (l : list (byte + io_error))
    : outcome CodecError bytes * list (byte + io_error) :=
  match flat_read 4 [] l with
  | (got, Some err, l) =>
      if 0 <? len got then (Err (partial err), l) else (Err (ErrIO err), l)
  | (lenBuf, None, l) =>
      let length := be_decode lenBuf in
      if (length <? HeaderLen) || (length >? MaxPDULen)
      then (Err (ErrBadCommandLength length), l)
      else match flat_read (Z.to_nat (length - 4)) [] l with
           | (_, Some err, l) => (Err (partial err), l)
           | (rest, None, l) => (Ok (lenBuf ++ rest), l)
           end
  end.

Lemma ReadPDU_flat c :
  flat_ReadPDU (flatten c) = (fst (ReadPDU c), flatten (snd (ReadPDU c))).
Proof.
  unfold flat_ReadPDU, ReadPDU. pose proof (ReadFull_flat 4 c []) as H.
  destruct (ReadFull 4 [] c) as [[g [e|]] c1]; rewrite H.
  - by destruct (0 <? len g).
  - destruct (_ || _); [done|].
    pose proof (ReadFull_flat (Z.to_nat (be_decode g - 4)) c1 []) as H1.
    by destruct (ReadFull _ [] c1) as [[g1 [e1|]] c2]; rewrite H1.
Qed.

Lemma ReadPDU_equiv c1 c2 :
  conn_equiv c1 c2 ->
  fst (ReadPDU c1) = fst (ReadPDU c2) /\ conn_equiv (snd (ReadPDU c1)) (snd (ReadPDU c2)).
Proof.
  unfold conn_equiv. intros Hc. pose proof (ReadPDU_flat c1) as H1.
  rewrite Hc, (ReadPDU_flat c2) in H1. by injection H1 as <- <-.
Qed.

#[export] Instance ReadPDU_proper :
  Proper (conn_equiv ==> prod_relation (=) conn_equiv) ReadPDU.
Proof. intros c1 c2 Hc. by destruct (ReadPDU_equiv c1 c2 Hc). Qed.

(** The frame [ReadPDU] returns, or the error, depends only on the bytes
    and errors delivered, never on how the transport segments them. *)
Theorem ReadPDU_segmentation_independent c1 c2 :
  conn_equiv c1 c2 ->
  fst (ReadPDU c1) = fst (ReadPDU c2) /\ conn_equiv (snd (ReadPDU c1)) (snd (ReadPDU c2)).
Proof. apply ReadPDU_equiv. Qed.

Lemma ReadPDU_segmentation_independent_witness :
  fst (ReadPDU [Recv (take 3 sample_frame); Recv (drop 3 sample_frame)]) =
  fst (ReadPDU [Recv sample_frame]).
Proof.
  apply (ReadPDU_segmentation_independent
    [Recv (take 3 sample_frame); Recv (drop 3 sample_frame)] [Recv sample_frame]).
  vm_compute. reflexivity.
Defined.

(** ** Bounds *)

Lemma flat_read_length need l : forall got g l',
  (length got <= need)%nat -> flat_read need got l = (g, None, l') -> length g = need.
Proof.
  induction l as [|[b|e] l IH]; intros got g l' Hg; cbn [flat_read];
    destruct (need <=? length got)%nat eqn:Hn; try discriminate.
  1, 2, 4: intros [= <- _]; apply Nat.leb_le in Hn; lia.
  apply IH. rewrite length_app. cbn [length]. apply Nat.leb_gt in Hn. lia.
Qed.

(** The first word of a frame read off the wire. *)
Lemma ReadPDU_Ok_length c f c' :
  ReadPDU c = (Ok f, c') ->
  HeaderLen <= len f <= MaxPDULen /\ header_word f 0 = len f.
Proof.
  intros H. pose proof (ReadPDU_flat c) as Hf. rewrite H in Hf. cbn [fst snd] in Hf.
  unfold flat_ReadPDU in Hf.
  destruct (flat_read 4 [] (flatten c)) as [[g [e|]] l] eqn:H4;
    [by destruct (0 <? len g)|].
  apply flat_read_length in H4; [|cbn; lia].
  destruct (_ || _) eqn:Hb; [done|]. apply orb_false_elim in Hb as [Hb1 Hb2].
  rewrite Z.ltb_ge in Hb1. rewrite Z.gtb_ltb, Z.ltb_ge in Hb2.
  destruct (flat_read (Z.to_nat (be_decode g - 4)) [] l) as [[g1 [e1|]] l1] eqn:H5; [done|].
  apply flat_read_length in H5; [|cbn; lia]. injection Hf as <- _.
  unfold HeaderLen, MaxPDULen, header_word in *. rewrite length_app.
  rewrite drop_0, take_app_length' by lia. lia.
Qed.

(** A frame [ReadPDU] returns is at least a header and at most [MaxPDULen]
    long, and its command_length is its length; reading a PDU off the wire
    never panics. *)
Theorem ReadPDU_bounds c :
  match fst (ReadPDU c) with
  | Ok f => HeaderLen <= len f <= MaxPDULen /\ header_word f 0 = len f
  | Err _ => True
  | Panic => False
  end.
Proof.
  destruct (ReadPDU c) as [[f|e|] c'] eqn:H; cbn; [by eapply ReadPDU_Ok_length|done|].
  unfold ReadPDU in H. destruct (ReadFull 4 [] c) as [[g [e|]] c1];
    [by destruct (0 <? len g)|].
  destruct (_ || _); [done|]. by destruct (ReadFull _ [] c1) as [[g1 [e1|]] c2].
Qed.

(** ** Reading back what was written *)

Lemma Encode_header p f :
  Encode p = Ok f -> HeaderLen <= len f <= MaxPDULen /\ header_word f 0 = len f.
Proof.
  intros He. apply Encode_Ok in He as [Hl ->].
  destruct (header_of_encoded (HeaderLen + len (obody_bytes (PDU_Body p))) (PDU_CommandID p)
    (PDU_CommandStatus p) (PDU_SequenceNumber p) (obody_bytes (PDU_Body p)))
    as (H0 & _ & _ & _ & _ & Hlen).
  rewrite H0, Hlen, u32_small; unfold HeaderLen, MaxPDULen, is_u32 in *; lia.
Qed.

(** A frame whose command_length is right, in front of anything, is read whole. *)
Lemma ReadPDU_frame c f l :
  HeaderLen <= len f <= MaxPDULen -> header_word f 0 = len f ->
  flatten c = (inl <$> f) ++ l ->
  exists c', ReadPDU c = (Ok f, c') /\ flatten c' = l.
Proof.
  intros Hl H0 Hc. pose proof (ReadPDU_flat c) as H.
  unfold header_word in H0. rewrite drop_0 in H0. unfold HeaderLen, MaxPDULen in *.
  rewrite Hc, <-(take_drop 4 f) in H at 1. rewrite fmap_app, <-app_assoc in H.
  unfold flat_ReadPDU in H.
  rewrite flat_read_full, H0 in H by (rewrite length_take; lia).
  rewrite Z.gtb_ltb in H. unfold HeaderLen, MaxPDULen in H.
  rewrite (proj2 (Z.ltb_ge _ _)), (proj2 (Z.ltb_ge _ _)) in H by lia. cbn [orb] in H.
  rewrite flat_read_full, take_drop in H by (rewrite length_drop; lia).
  destruct (ReadPDU c) as [o c']. cbn in H. injection H as <- ->. eauto.
Qed.

(** The server loop's reading side: read and decode [n] PDUs. *)
Fixpoint read_pdus (n : nat) (c : conn) : outcome CodecError (list PDU) * conn :=
  match n with
  | O => (Ok [], c)
  | S n =>
      let '(o, c) := ReadPDU c in
      match (f ← o; Decode f) with
      | Ok p => let '(ps, c) := read_pdus n c in (p' ← ps; Ok (p :: p'), c)
      | Err e => (Err e, c)
      | Panic => (Panic, c)
      end
  end.

(** Any sequence of well-formed PDUs, encoded one after another, is read
    back and decoded as the same sequence, however the transport cuts it, with
    what follows left unread. *)
Theorem read_pdus_Encode ps fs c rest :
  Forall pdu_ok ps -> Forall2 (fun p f => Encode p = Ok f) ps fs ->
  conn_equiv c (Recv (concat fs) :: rest) ->
  fst (read_pdus (length ps) c) = Ok ps /\
  conn_equiv (snd (read_pdus (length ps) c)) rest.
Proof.
  intros Hok Hfs. revert c. induction Hfs as [|p f ps fs Hf Hfs IH]; intros c Hc.
  - split; [done|]. exact Hc.
  - apply Forall_cons in Hok as [Hp Hps]. unfold conn_equiv in Hc.
    cbn [flatten concat] in Hc. rewrite fmap_app, <-app_assoc in Hc.
    destruct (Encode_header p f Hf) as [Hl H0].
    destruct (ReadPDU_frame c f _ Hl H0 Hc) as (c' & HR & Hc').
    cbn [length read_pdus]. rewrite HR. cbn [mbind outcome_bind].
    rewrite (Decode_Encode_aux p f Hp Hf).
    specialize (IH Hps c' Hc'). destruct (read_pdus (length ps) c') as [o c2].
    cbn [fst snd] in IH. destruct IH as [-> IH]. done.
Qed.

Definition sample_enquire : PDU := mkPDU EnquireLink 0 8 None.

Definition sample_enquire_frame : bytes :=
  match Encode sample_enquire with Ok f => f | _ => [] end.

Definition sample_stream : bytes := concat [sample_frame; sample_enquire_frame].

Lemma read_pdus_Encode_witness :
  fst (read_pdus 2 [Recv (take 20 sample_stream); Recv (drop 20 sample_stream)]) =
    Ok [sample_submit; sample_enquire].
Proof.
  apply (read_pdus_Encode [sample_submit; sample_enquire]
    [sample_frame; sample_enquire_frame] _ []).
  - repeat constructor; by_decide.
  - repeat constructor; vm_compute; reflexivity.
  - vm_compute. reflexivity.
Defined.

(** ** Truncated streams *)

(** What a peer that closes after sending [bs], a strict prefix of a frame, is
    reported as. *)
Definition truncation_error (bs : bytes) : CodecError :=
  if bool_decide (bs = []) then ErrIO EOF
  else if bool_decide (length bs = 4%nat) then ErrPartialFrame
  else ErrIO UnexpectedEOF.

Lemma flat_read_short need bs :
  (length bs < need)%nat ->
  flat_read need [] (inl <$> bs) =
    (bs, Some (if bool_decide (bs = []) then EOF else UnexpectedEOF), []).
Proof.
  intros Hl. rewrite <-(app_nil_r (inl <$> bs)), flat_read_app by (cbn; lia).
  cbn [app flat_read]. rewrite (proj2 (Nat.leb_gt _ _)) by done. unfold short_read.
  do 2 f_equal. destruct (decide (bs = [])).
  - by rewrite (bool_decide_eq_true_2 (bs = [])), bool_decide_eq_false_2 by naive_solver.
  - by rewrite (bool_decide_eq_false_2 (bs = [])), bool_decide_eq_true_2 by naive_solver.
Qed.

(** A stream closed in the middle of a frame: a clean end between frames is
    [io.EOF], a cut inside the length word or the body is
    [io.ErrUnexpectedEOF], and a cut exactly after the length word is
    [ErrPartialFrame]. *)
Theorem ReadPDU_truncated f bs tl c :
  f = bs ++ tl -> tl <> [] ->
  HeaderLen <= len f <= MaxPDULen -> header_word f 0 = len f ->
  flatten c = inl <$> bs ->
  fst (ReadPDU c) = Err (truncation_error bs).
Proof.
  intros -> Htl Hl H0 Hc. pose proof (ReadPDU_flat c) as H. rewrite Hc in H.
  assert (fst (ReadPDU c) = fst (flat_ReadPDU (inl <$> bs))) as -> by (by rewrite H).
  clear H Hc c. unfold flat_ReadPDU, truncation_error.
  destruct (decide (length bs < 4)%nat) as [Hlt|Hge].
  - rewrite flat_read_short by done. rewrite (bool_decide_eq_false_2 (length bs = _)) by lia.
    destruct bs; [done|]. cbn [length].
    destruct (Z.ltb_spec 0 (Z.of_nat (S (length bs)))); [done|lia].
  - rewrite (bool_decide_eq_false_2 (bs = [])) by (intros ->; cbn in Hge; lia).
    rewrite <-(take_drop 4 bs) at 1. rewrite fmap_app.
    rewrite flat_read_full by (rewrite length_take; lia).
    unfold header_word in H0. rewrite drop_0, take_app_le in H0 by lia. rewrite H0.
    rewrite (proj2 (Z.ltb_ge _ _)), Z.gtb_ltb, (proj2 (Z.ltb_ge _ _)) by lia. cbn [orb].
    assert (0 < length tl)%nat by (destruct tl; cbn; [done|lia]).
    rewrite length_app in *. unfold HeaderLen in *.
    rewrite flat_read_short by (rewrite length_drop; lia).
    destruct (decide (length bs = 4%nat)) as [H4|H4].
    + rewrite (drop_ge bs) by lia. rewrite !bool_decide_eq_true_2 by done. done.
    + rewrite (bool_decide_eq_false_2 (drop 4 bs = [])), (bool_decide_eq_false_2 (length bs = _));
        [done|done|].
      intros Hd. apply (f_equal length) in Hd. rewrite length_drop in Hd. cbn in Hd. lia.
Qed.

Lemma ReadPDU_truncated_witness :
  fst (ReadPDU [Recv (take 4 sample_frame)]) = Err ErrPartialFrame.
Proof.
  apply (ReadPDU_truncated sample_frame (take 4 sample_frame) (drop 4 sample_frame));
    [reflexivity|vm_compute; discriminate|vm_compute; split; discriminate
    |vm_compute; reflexivity..].
Defined.

(** A lone frame whose command_length claims more bytes than there are. *)
Lemma ReadPDU_overstated f n :
  HeaderLen <= len f -> header_word f 0 = n -> len f < n ->
  fst (ReadPDU [Recv f]) =
    Err (if n >? MaxPDULen then ErrBadCommandLength n else ErrIO UnexpectedEOF).
Proof.
  unfold HeaderLen. intros Hl H0 Hn. pose proof (ReadPDU_flat [Recv f]) as H.
  assert (fst (ReadPDU [Recv f]) = fst (flat_ReadPDU (flatten [Recv f]))) as -> by (by rewrite H).
  clear H. cbn [flatten]. rewrite app_nil_r. unfold flat_ReadPDU, HeaderLen.
  rewrite <-(take_drop 4 f) at 1. rewrite fmap_app, flat_read_full by (rewrite length_take; lia).
  unfold header_word in H0. rewrite drop_0 in H0. rewrite H0.
  rewrite (proj2 (Z.ltb_ge _ _)) by lia. cbn [orb].
  destruct (n >? MaxPDULen); [done|].
  rewrite flat_read_short by (rewrite length_drop; lia).
  rewrite bool_decide_eq_false_2; [done|].
  intros Hd. apply (f_equal length) in Hd. rewrite length_drop in Hd. cbn in Hd. lia.
Qed.
