(* ===== verification/SmppEdge.v ===== *)
(** * Deterministic malformations

    Models [src/internal/smpp/codec_edge.go]: the strict encoding with exactly
    one header word rewritten, and what a peer's framer and decoder make of the
    result. *)

From S2P Require Import Prelude.
From S2P Require Import SmppPdu.
From S2P Require Import SmppCodec.
From S2P Require Import SmppCursor.
From S2P Require Import SmppCodecThms.
From S2P Require Import SmppFraming.

Definition EdgeCaseKind := Z.

Definition EdgeBadLength : EdgeCaseKind := 0.
Definition EdgeUnknownCmdID : EdgeCaseKind := 1.
Definition EdgeBadSequence : EdgeCaseKind := 2.

Definition EdgeCaseKind_String (k : EdgeCaseKind) : string :=
  if k =? EdgeBadLength then "bad_length"
  else if k =? EdgeUnknownCmdID then "unknown_command_id"
  else if k =? EdgeBadSequence then "bad_sequence"
  else ("edge_case(" +:+ pretty k +:+ ")")%string.

Definition badLengthInflation : Z := 16.
Definition unknownCommandID : Z := 0x000000FF.
Definition badSequenceOffset : Z := 0x1000.

Definition EncodeEdgeCase (p : PDU) (kind : EdgeCaseKind) : outcome CodecError bytes :=
  frame ← Encode p;
  if kind =? EdgeBadLength then
    w ← go_slice frame 0 4;
    realLen ← be_uint 4 w;
    Ok (put_at 0 (be_encode 4 (realLen +32 badLengthInflation)) frame)
  else if kind =? EdgeUnknownCmdID then
    Ok (put_at 4 (be_encode 4 unknownCommandID) frame)
  else if kind =? EdgeBadSequence then
    w ← go_slice frame 12 16;
    seq ← be_uint 4 w;
    Ok (put_at 12 (be_encode 4 (seq +32 badSequenceOffset)) frame)
  else Err (ErrUnknownEdgeKind kind).

(** ** Rewriting one header word *)

Lemma put_at_app a b c bs :
  length b = length bs -> put_at (length a) bs (a ++ b ++ c) = a ++ bs ++ c.
Proof.
  intros Hb. unfold put_at. rewrite take_app_length. do 2 f_equal.
  rewrite <-drop_drop, drop_app_length, <-Hb. apply drop_app_length.
Qed.

Lemma word_of_slice {E} f off :
  0 <= off -> off + 4 <= len f ->
  exists w, go_slice (E := E) f off (off + 4) = Ok w /\
    be_uint (E := E) 4 w = Ok (header_word f (Z.to_nat off)).
Proof.
  intros H0 Hl. rewrite go_slice_ok by lia. eexists. split; [done|].
  replace (Z.to_nat (off + 4 - off)) with 4%nat by lia.
  unfold be_uint, header_word. rewrite length_take, length_drop.
  rewrite (proj2 (Nat.leb_le _ _)) by lia. by rewrite take_take.
Qed.

Definition frame_of (a b c d : Z) (body : bytes) : bytes :=
  be_encode 4 a ++ be_encode 4 b ++ be_encode 4 c ++ be_encode 4 d ++ body.

Lemma put_at_frame a b c d body v :
  put_at 0 (be_encode 4 v) (frame_of a b c d body) = frame_of v b c d body /\
  put_at 4 (be_encode 4 v) (frame_of a b c d body) = frame_of a v c d body /\
  put_at 12 (be_encode 4 v) (frame_of a b c d body) = frame_of a b c v body.
Proof.
  unfold frame_of. split; [|split].
  - apply (put_at_app []). by rewrite !length_be_encode.
  - change 4%nat with (length (be_encode 4 a)) at 1.
    apply put_at_app. by rewrite !length_be_encode.
  - rewrite !(app_assoc (be_encode 4 a)), !(app_assoc (_ ++ be_encode 4 b)).
    assert (12%nat = length ((be_encode 4 a ++ be_encode 4 b) ++ be_encode 4 c)) as ->
      by (by rewrite !length_app, !length_be_encode).
    apply put_at_app. by rewrite !length_be_encode.
Qed.

Lemma Encode_frame_of p f :
  Encode p = Ok f ->
  f = frame_of (len f) (PDU_CommandID p) (PDU_CommandStatus p) (PDU_SequenceNumber p)
        (obody_bytes (PDU_Body p)).
Proof.
  intros He. apply Encode_Ok in He as [_ ->]. unfold frame_of. f_equal.
  by destruct (header_of_encoded (HeaderLen + len (obody_bytes (PDU_Body p)))
    (PDU_CommandID p) (PDU_CommandStatus p) (PDU_SequenceNumber p)
    (obody_bytes (PDU_Body p))) as (_ & _ & _ & _ & _ & ->).
Qed.

(** Words and body of an explicit frame. *)
Lemma frame_of_words a b c d body :
  is_u32 a -> is_u32 b -> is_u32 c -> is_u32 d ->
  let f := frame_of a b c d body in
  header_word f 0 = a /\ header_word f 4 = b /\ header_word f 8 = c /\
  header_word f 12 = d /\ drop 16 f = body /\ len f = HeaderLen + len body.
Proof.
  intros Ha Hb Hc Hd. cbv zeta. unfold frame_of.
  destruct (header_of_encoded a b c d body) as (-> & -> & -> & -> & -> & ->).
  by rewrite !u32_small.
Qed.

(** The malformed frame, explicitly. *)
Lemma EncodeEdgeCase_eq p f kind :
  pdu_ok p -> Encode p = Ok f ->
  let body := obody_bytes (PDU_Body p) in
  EncodeEdgeCase p kind =
    if kind =? EdgeBadLength then
      Ok (frame_of (len f + 16) (PDU_CommandID p) (PDU_CommandStatus p)
            (PDU_SequenceNumber p) body)
    else if kind =? EdgeUnknownCmdID then
      Ok (frame_of (len f) 0xFF (PDU_CommandStatus p) (PDU_SequenceNumber p) body)
    else if kind =? EdgeBadSequence then
      Ok (frame_of (len f) (PDU_CommandID p) (PDU_CommandStatus p)
            (PDU_SequenceNumber p +32 0x1000) body)
    else Err (ErrUnknownEdgeKind kind).
Proof.
  intros (Hid & Hst & Hseq & _) He. cbv zeta.
  pose proof (Encode_header p f He) as [Hl H0]. pose proof (Encode_frame_of p f He) as Hf.
  unfold HeaderLen, MaxPDULen in Hl.
  assert (is_u32 (len f)) as Hu by (unfold is_u32; lia).
  assert (header_word f 12 = PDU_SequenceNumber p) as H12
    by (rewrite Hf; by apply frame_of_words).
  pose proof (fun v => put_at_frame (len f) (PDU_CommandID p) (PDU_CommandStatus p)
    (PDU_SequenceNumber p) (obody_bytes (PDU_Body p)) v) as P. rewrite <-Hf in P.
  destruct (word_of_slice (E := CodecError) f 0) as (w0 & S0 & W0); [lia..|].
  destruct (word_of_slice (E := CodecError) f 12) as (w12 & S12 & W12); [lia..|].
  change (0 + 4) with 4 in S0. change (12 + 4) with 16 in S12. change (Z.to_nat 0) with 0%nat in W0. change (Z.to_nat 12) with 12%nat in W12.
  unfold EncodeEdgeCase. rewrite He. cbn [mbind outcome_bind].
  rewrite S0, S12. cbn [mbind outcome_bind]. rewrite W0, W12, H0, H12. cbn [mbind outcome_bind].
  unfold badLengthInflation, badSequenceOffset, unknownCommandID.
  rewrite (u32_small (len f + 16)) by (unfold is_u32; lia).
  destruct (P (len f + 16)) as (-> & _ & _), (P 0xFF) as (_ & -> & _),
    (P (PDU_SequenceNumber p +32 0x1000)) as (_ & _ & ->). done.
Qed.

(** ** What the peer sees *)

Section peer.
Context (p : PDU) (f : bytes) (Hok : pdu_ok p) (He : Encode p = Ok f).

Let body := obody_bytes (PDU_Body p).

Lemma encoded_len : HeaderLen <= len f <= MaxPDULen /\ len f = HeaderLen + len body.
Proof.
  split; [by apply (Encode_header p)|].
  pose proof (Encode_Ok p f He) as [Hl _]. rewrite (Encode_frame_of p f He) at 1.
  pose proof (Encode_header p f He) as [Hl' _].
  destruct Hok as (? & ? & ? & _). apply frame_of_words; try done.
  unfold is_u32, MaxPDULen in *. lia.
Qed.

Lemma bad_length_effect :
  let f' := frame_of (len f + 16) (PDU_CommandID p) (PDU_CommandStatus p)
              (PDU_SequenceNumber p) body in
  len f' = len f /\ Decode f' = Ok p /\
  fst (ReadPDU [Recv f']) =
    Err (if len f + 16 >? MaxPDULen then ErrBadCommandLength (len f + 16)
         else ErrIO UnexpectedEOF).
Proof.
  cbv zeta. destruct encoded_len as [Hl Hb]. destruct Hok as (Hid & Hst & Hseq & _).
  assert (is_u32 (len f + 16)) by (unfold is_u32, MaxPDULen in *; lia).
  destruct (frame_of_words (len f + 16) (PDU_CommandID p) (PDU_CommandStatus p)
    (PDU_SequenceNumber p) body) as (W0 & W4 & W8 & W12 & Wb & Wl); try done.
  rewrite <-Hb in Wl. split; [done|]. split.
  - apply Decode_of_parts; try done. lia.
  - apply (ReadPDU_overstated _ (len f + 16)); [lia|done|lia].
Qed.

Lemma unknown_command_effect :
  let f' := frame_of (len f) 0xFF (PDU_CommandStatus p) (PDU_SequenceNumber p) body in
  len f' = len f /\ Decode f' = Err (ErrUnknownCommand 0xFF).
Proof.
  cbv zeta. destruct encoded_len as [Hl Hb]. destruct Hok as (Hid & Hst & Hseq & _).
  assert (is_u32 (len f)) by (unfold is_u32, HeaderLen, MaxPDULen in *; lia).
  destruct (frame_of_words (len f) 0xFF (PDU_CommandStatus p)
    (PDU_SequenceNumber p) body) as (W0 & W4 & W8 & W12 & Wb & Wl); try done.
  rewrite <-Hb in Wl. split; [done|].
  rewrite Decode_header by lia. by rewrite W4.
Qed.

Lemma bad_sequence_effect :
  let seq' := PDU_SequenceNumber p +32 0x1000 in
  let f' := frame_of (len f) (PDU_CommandID p) (PDU_CommandStatus p) seq' body in
  len f' = len f /\
  Decode f' = Ok (mkPDU (PDU_CommandID p) (PDU_CommandStatus p) seq' (PDU_Body p)) /\
  seq' <> PDU_SequenceNumber p.
Proof.
  cbv zeta. destruct encoded_len as [Hl Hb]. destruct Hok as (Hid & Hst & Hseq & Hm & Hbo).
  assert (is_u32 (len f)) by (unfold is_u32, HeaderLen, MaxPDULen in *; lia).
  pose proof (u32_range (PDU_SequenceNumber p + 0x1000)) as Hs'.
  destruct (frame_of_words (len f) (PDU_CommandID p) (PDU_CommandStatus p)
    (PDU_SequenceNumber p +32 0x1000) body) as (W0 & W4 & W8 & W12 & Wb & Wl); try done.
  rewrite <-Hb in Wl. split; [done|]. split.
  - apply Decode_of_parts; try done. lia.
  - unfold u32, is_u32 in *. intros Heq.
    pose proof (Z.div_mod (PDU_SequenceNumber p + 0x1000) (2 ^ 32) ltac:(lia)). lia.
Qed.
End peer.

(** The header word a malformation rewrites. *)
Definition edge_word (kind : EdgeCaseKind) : nat :=
  if kind =? EdgeBadLength then 0%nat else if kind =? EdgeUnknownCmdID then 4%nat else 12%nat.

(** Two frames that agree outside the word at [off]. *)
Definition agree_outside (off : nat) (f f' : bytes) : Prop :=
  take off f' = take off f /\ drop (off + 4) f' = drop (off + 4) f.

Lemma frame_of_outside a b c d body v :
  agree_outside 0 (frame_of a b c d body) (frame_of v b c d body) /\
  agree_outside 4 (frame_of a b c d body) (frame_of a v c d body) /\
  agree_outside 12 (frame_of a b c d body) (frame_of a b c v body).
Proof.
  assert (forall x y z w z', length y = length z -> length x = w ->
    agree_outside w (x ++ y ++ z') (x ++ z ++ z') \/ length z <> 4%nat) as Hgo.
  { intros x y z w z' Hyz <-. destruct (decide (length z = 4%nat)) as [Hz|]; [left|by right].
    unfold agree_outside. rewrite !take_app_length, <- !drop_drop, !drop_app_length.
    split; [done|]. by rewrite !drop_app_length' by lia. }
  pose proof length_be_encode as Hlen. unfold frame_of. split_and!.
  - destruct (Hgo [] (be_encode 4 a) (be_encode 4 v) 0%nat (be_encode 4 b ++ be_encode 4 c ++ be_encode 4 d ++ body));
      rewrite ?Hlen in *; done.
  - destruct (Hgo (be_encode 4 a) (be_encode 4 b) (be_encode 4 v) 4%nat (be_encode 4 c ++ be_encode 4 d ++ body));
      rewrite ?Hlen in *; done.
  - destruct (Hgo (be_encode 4 a ++ be_encode 4 b ++ be_encode 4 c) (be_encode 4 d) (be_encode 4 v) 12%nat body);
      rewrite ?length_app, ?Hlen, <- ?app_assoc in *; done.
Qed.

Lemma EncodeEdgeCase_outside p f f' kind :
  pdu_ok p -> Encode p = Ok f -> EncodeEdgeCase p kind = Ok f' -> agree_outside (edge_word kind) f f'.
Proof.
  intros Hok He. rewrite (EncodeEdgeCase_eq p f kind Hok He). rewrite (Encode_frame_of p f He) at 4. unfold edge_word.
  pose proof (frame_of_outside (len f) (PDU_CommandID p) (PDU_CommandStatus p) (PDU_SequenceNumber p)
    (obody_bytes (PDU_Body p))) as Ho.
  repeat (destruct (_ =? _); [intros [= <-]; by eapply Ho|]). done.
Qed.

(** C15: a malformed frame differs from the strict one in a single header word, and its
    peer meets exactly that.  For every encodable, well-formed PDU: an overstated
    command_length makes the framer run past the end of the stream (or refuse the
    length) although [Decode] alone still accepts the bytes as the original PDU; an
    unknown command id is rejected by [Decode]; a shifted sequence number decodes to
    the same PDU under another sequence number; any other kind, and no other, is an
    error. *)
Theorem EncodeEdgeCase_effect p f kind :
  pdu_ok p -> Encode p = Ok f ->
  match EncodeEdgeCase p kind with
  | Ok f' =>
      len f' = len f /\ agree_outside (edge_word kind) f f' /\
      ((kind = EdgeBadLength /\ Decode f' = Ok p /\
        fst (ReadPDU [Recv f']) =
          Err (if len f + 16 >? MaxPDULen then ErrBadCommandLength (len f + 16)
               else ErrIO UnexpectedEOF)) \/
       (kind = EdgeUnknownCmdID /\ Decode f' = Err (ErrUnknownCommand 0xFF)) \/
       (kind = EdgeBadSequence /\
        Decode f' = Ok (mkPDU (PDU_CommandID p) (PDU_CommandStatus p)
                          (PDU_SequenceNumber p +32 0x1000) (PDU_Body p)) /\
        PDU_SequenceNumber p +32 0x1000 <> PDU_SequenceNumber p))
  | Err e => e = ErrUnknownEdgeKind kind /\ kind <> EdgeBadLength /\
             kind <> EdgeUnknownCmdID /\ kind <> EdgeBadSequence
  | Panic => False
  end.
Proof.
  intros Hok He. pose proof (fun f' => EncodeEdgeCase_outside p f f' kind Hok He) as Hout.
  rewrite (EncodeEdgeCase_eq p f kind Hok He) in *.
  destruct (Z.eqb_spec kind EdgeBadLength) as [->|];
    [|destruct (Z.eqb_spec kind EdgeUnknownCmdID) as [->|];
    [|destruct (Z.eqb_spec kind EdgeBadSequence) as [->|]; [|done]]]; specialize (Hout _ eq_refl).
  - destruct (bad_length_effect p f Hok He) as (? & ? & ?). auto 10.
  - destruct (unknown_command_effect p f Hok He) as (? & ?). auto 10.
  - destruct (bad_sequence_effect p f Hok He) as (? & ? & ?). auto 10.
Qed.

Definition sample_resp : PDU :=
  mkPDU SubmitSMResp StatusROK 42 (Some (BodySubmitResp (mkSubmitResp "7-0001"))).

Definition sample_resp_frame : bytes :=
  match Encode sample_resp with Ok f => f | _ => [] end.

Lemma EncodeEdgeCase_effect_witness :
  match EncodeEdgeCase sample_resp EdgeBadLength with
  | Ok f' => Decode f' = Ok sample_resp
  | _ => False
  end.
Proof.
  pose proof (EncodeEdgeCase_effect sample_resp sample_resp_frame EdgeBadLength
    ltac:(by_decide) ltac:(vm_compute; reflexivity)) as H.
  vm_compute in H |- *.
  destruct H as (_ & _ & [(_ & H & _)|[(H & _)|(H & _)]]); [exact H|discriminate H..].
Defined.
