(* ===== verification/SmppReceipt.v ===== *)
(** * Delivery receipts and mobile-originated messages

    Models [src/internal/smpp/receipt.go] and [src/internal/smpp/mo.go]: the two
    [deliver_sm] PDUs the simulator originates. *)

From S2P Require Import Prelude.
From S2P Require Import SmppPdu.
From S2P Require Import SmppCodec.
From S2P Require Import SmppCursor.
From S2P Require Import SmppCodecThms.

Definition ESMClassDeliveryReceipt : byte := Byte.x04.
Definition TagReceiptedMessageID : Z := 0x001E.
Definition TagMessageState : Z := 0x0427.

(** [MessageState] is a [uint8]. *)
Definition MessageState := byte.

Definition StateEnroute : MessageState := Byte.x01.
Definition StateDelivered : MessageState := Byte.x02.
Definition StateExpired : MessageState := Byte.x03.
Definition StateDeleted : MessageState := Byte.x04.
Definition StateUndeliverable : MessageState := Byte.x05.
Definition StateAccepted : MessageState := Byte.x06.
Definition StateUnknown : MessageState := Byte.x07.
Definition StateRejected : MessageState := Byte.x08.

Definition statText (s : MessageState) : string :=
  if bool_decide (s = StateEnroute) then "ENROUTE"
  else if bool_decide (s = StateDelivered) then "DELIVRD"
  else if bool_decide (s = StateExpired) then "EXPIRED"
  else if bool_decide (s = StateDeleted) then "DELETED"
  else if bool_decide (s = StateUndeliverable) then "UNDELIV"
  else if bool_decide (s = StateAccepted) then "ACCEPTD"
  else if bool_decide (s = StateRejected) then "REJECTD"
  else "UNKNOWN".

Definition receiptTextMaxLen : Z := 20.

Record DeliveryReceipt := mkDeliveryReceipt {
  DR_MessageID : string;
  DR_State : MessageState;
  DR_ErrorCode : string;
  DR_SubmitDate : string;
  DR_DoneDate : string;
  DR_Text : string;
  DR_SourceAddr : string;
  DR_SourceAddrTON : byte;
  DR_SourceAddrNPI : byte;
  DR_DestAddr : string;
  DR_DestAddrTON : byte;
  DR_DestAddrNPI : byte
}.

Definition ReceiptText (r : DeliveryReceipt) : string :=
  let dlvrd := if bool_decide (DR_State r = StateDelivered) then "001" else "000" in
  let text := DR_Text r in
  let text := if slen text >? receiptTextMaxLen
              then str_take (Z.to_nat receiptTextMaxLen) text else text in
  ("id:" +:+ DR_MessageID r +:+ " sub:001 dlvrd:" +:+ dlvrd +:+
   " submit date:" +:+ DR_SubmitDate r +:+ " done date:" +:+ DR_DoneDate r +:+
   " stat:" +:+ statText (DR_State r) +:+ " err:" +:+ DR_ErrorCode r +:+
   " text:" +:+ text)%string.

(** [make([]byte, len(s)+1)] and [copy]: the string and a zero byte. *)
Definition cOctetBytes (s : string) : bytes :=
  bytes_of_string s ++ replicate 1 NUL.

Definition NewDeliveryReceipt (r : DeliveryReceipt) : PDU :=
  mkPDU DeliverSM 0 0 (Some (BodyMessage {|
    ServiceType := "";
    SourceAddrTON := DR_SourceAddrTON r;
    SourceAddrNPI := DR_SourceAddrNPI r;
    SourceAddr := DR_SourceAddr r;
    DestAddrTON := DR_DestAddrTON r;
    DestAddrNPI := DR_DestAddrNPI r;
    DestAddr := DR_DestAddr r;
    ESMClass := ESMClassDeliveryReceipt;
    ProtocolID := NUL;
    PriorityFlag := NUL;
    ScheduleDeliveryTime := "";
    ValidityPeriod := "";
    RegisteredDelivery := NUL;
    ReplaceIfPresent := NUL;
    DataCoding := NUL;
    SMDefaultMsgID := NUL;
    ShortMessage := bytes_of_string (ReceiptText r);
    Message_TLVs :=
      [mkTLV TagReceiptedMessageID (cOctetBytes (DR_MessageID r));
       mkTLV TagMessageState [DR_State r]]
  |})).

Definition NewMobileOriginated (sourceAddr destAddr content : string) : PDU :=
  mkPDU DeliverSM 0 0 (Some (BodyMessage {|
    ServiceType := "";
    SourceAddrTON := NUL;
    SourceAddrNPI := NUL;
    SourceAddr := sourceAddr;
    DestAddrTON := NUL;
    DestAddrNPI := NUL;
    DestAddr := destAddr;
    ESMClass := NUL;
    ProtocolID := NUL;
    PriorityFlag := NUL;
    ScheduleDeliveryTime := "";
    ValidityPeriod := "";
    RegisteredDelivery := NUL;
    ReplaceIfPresent := NUL;
    DataCoding := NUL;
    SMDefaultMsgID := NUL;
    ShortMessage := bytes_of_string content;
    Message_TLVs := []
  |})).

(** ** Sizes *)

Lemma slen_statText s : slen (statText s) = 7.
Proof. unfold statText. by repeat case_bool_decide. Qed.

(** The fixed words of the receipt text take 62 bytes and [statText] 7; the
    quoted text adds at most 20. *)
Lemma slen_ReceiptText r :
  slen (ReceiptText r) <=
    slen (DR_MessageID r) + slen (DR_SubmitDate r) + slen (DR_DoneDate r) +
    slen (DR_ErrorCode r) + 89.
Proof.
  unfold ReceiptText. autorewrite with go_rw. rewrite slen_statText.
  set (dlvrd := if bool_decide _ then "001" else "000").
  assert (slen dlvrd = 3) as -> by (subst dlvrd; by case_bool_decide).
  match goal with |- context [slen (if ?c then ?a else ?b)] =>
    set (text := if c then a else b) end.
  assert (slen text <= 20).
  { subst text. unfold receiptTextMaxLen.
    destruct (slen (DR_Text r) >? 20) eqn:H.
    - apply slen_str_take.
    - rewrite Z.gtb_ltb, Z.ltb_ge in H. done. }
  repeat match goal with |- context [slen (String.String ?a ?b)] =>
    let v := eval vm_compute in (slen (String.String a b)) in
    change (slen (String.String a b)) with v end.
  lia.
Qed.

Lemma len_cstring s : len (cstring_bytes s) = slen s + 1.
Proof. unfold cstring_bytes, slen. rewrite length_app. cbn. lia. Qed.

(** A [deliver_sm] with short strings, a short message and few TLVs encodes,
    and decodes back to itself. *)
Lemma deliver_roundtrip p m :
  pdu_ok p -> PDU_Body p = Some (BodyMessage m) ->
  slen (ServiceType m) + slen (SourceAddr m) + slen (DestAddr m) +
    slen (ScheduleDeliveryTime m) + slen (ValidityPeriod m) +
    len (tlvs_bytes (Message_TLVs m)) <= 64000 ->
  exists f, Encode p = Ok f /\ Decode f = Ok p.
Proof.
  intros Hok Hb Hl. destruct (Encode_fits p) as [f Hf].
  - rewrite Hb. cbn [obody_bytes].
    destruct Hok as (_ & _ & _ & _ & Hbody). rewrite Hb in Hbody.
    destruct Hbody as (_ & _ & _ & _ & _ & Hsm & _).
    rewrite body_bytes_Message by done. unfold maxShortMessageLen in Hsm.
    rewrite !length_app, !Nat2Z.inj_add, !len_cstring.
    cbn [length]. unfold HeaderLen, MaxPDULen. lia.
  - exists f. split; [done|]. by apply Decode_Encode_aux.
Qed.

(** A receipt whose addresses and message id fit their C-octet fields, with
    short dates and error code, is encoded without truncation and decodes to
    exactly the receipt built: its text, and the message id and state TLVs. *)
Theorem NewDeliveryReceipt_roundtrip r :
  cstr_ok (DR_SourceAddr r) -> cstr_ok (DR_DestAddr r) ->
  slen (DR_MessageID r) + slen (DR_SubmitDate r) + slen (DR_DoneDate r) +
    slen (DR_ErrorCode r) <= 165 ->
  exists f, Encode (NewDeliveryReceipt r) = Ok f /\ Decode f = Ok (NewDeliveryReceipt r).
Proof.
  intros Hs Hd Hl. pose proof (slen_ReceiptText r) as Ht.
  pose proof (slen_nonneg (DR_SubmitDate r)). pose proof (slen_nonneg (DR_DoneDate r)).
  pose proof (slen_nonneg (DR_ErrorCode r)).
  assert (len (cOctetBytes (DR_MessageID r)) <= 166) as Hid
    by (unfold cOctetBytes; rewrite length_app; unfold slen in *; cbn; lia).
  eapply deliver_roundtrip; [|reflexivity|].
  - assert (cstr_ok "") by by_decide.
    split; [by_decide|]. split; [by_decide|]. split; [by_decide|]. split; [by_decide|].
    unfold tlvs_ok. cbn -[cOctetBytes]. split_and!; try done.
    + unfold maxShortMessageLen, slen in *. lia.
    + split; [|done]. repeat apply Forall_cons_2; [|by_decide|apply Forall_nil_2].
      split; [by_decide|]. cbn [TLV_Value]. lia.
  - cbn -[cOctetBytes tlvs_bytes]. destruct Hs as [_ Hs], Hd as [_ Hd].
    unfold maxCOctetLen in *. rewrite tlvs_bytes_cons, tlvs_bytes_single, length_app,
      !length_tlv_bytes. cbn [TLV_Value length].
    change (slen "") with 0. lia.
Qed.

Definition sample_receipt : DeliveryReceipt :=
  mkDeliveryReceipt "7-0001" StateDelivered "000" "0001010000" "0001010003" "hello"
    "33602" Byte.x01 Byte.x01 "33601" Byte.x01 Byte.x01.

Lemma NewDeliveryReceipt_roundtrip_witness :
  ReceiptText sample_receipt =
    "id:7-0001 sub:001 dlvrd:001 submit date:0001010000 done date:0001010003 stat:DELIVRD err:000 text:hello" /\
  exists f, Encode (NewDeliveryReceipt sample_receipt) = Ok f /\
    Decode f = Ok (NewDeliveryReceipt sample_receipt).
Proof.
  split; [vm_compute; reflexivity|].
  apply (NewDeliveryReceipt_roundtrip sample_receipt); [by_decide|by_decide|].
  vm_compute. discriminate.
Defined.

(** A mobile-originated message within the configured field limits (the
    bounds [validateMOInjection] enforces) goes out unaltered; its esm_class
    tells it apart from a receipt. *)
Theorem NewMobileOriginated_roundtrip src dst content :
  NUL ∉ bytes_of_string src -> NUL ∉ bytes_of_string dst ->
  slen src <= 20 -> slen dst <= 20 -> slen content <= 254 ->
  exists f m,
    Encode (NewMobileOriginated src dst content) = Ok f /\
    Decode f = Ok (NewMobileOriginated src dst content) /\
    PDU_Body (NewMobileOriginated src dst content) = Some (BodyMessage m) /\
    ShortMessage m = bytes_of_string content /\ ESMClass m <> ESMClassDeliveryReceipt.
Proof.
  intros Hs Hd Ls Ld Lc.
  assert (cstr_ok src /\ cstr_ok dst) as [Cs Cd]
    by (unfold cstr_ok, maxCOctetLen; repeat split; done || lia).
  edestruct (deliver_roundtrip (NewMobileOriginated src dst content)) as (f & He & Hf);
    [|reflexivity| |by eauto 10].
  - assert (cstr_ok "") by by_decide.
    split; [by_decide|]. split; [by_decide|]. split; [by_decide|]. split; [by_decide|].
    unfold tlvs_ok. cbn. split_and!; done.
  - cbn -[slen tlvs_bytes]. change (slen "") with 0. change (len (tlvs_bytes [])) with 0. lia.
Qed.

Lemma NewMobileOriginated_roundtrip_witness :
  exists f m,
    Encode (NewMobileOriginated "33601" "33602" "STOP") = Ok f /\
    Decode f = Ok (NewMobileOriginated "33601" "33602" "STOP") /\
    PDU_Body (NewMobileOriginated "33601" "33602" "STOP") = Some (BodyMessage m) /\
    ShortMessage m = bytes_of_string "STOP" /\ ESMClass m <> ESMClassDeliveryReceipt.
Proof.
  apply (NewMobileOriginated_roundtrip "33601" "33602" "STOP");
    first [by_decide | vm_compute; discriminate].
Defined.
