(* ===== verification/Rng.v ===== *)
(** * The per-bind random source ([internal/rng/rng.go])

    Seed derivation (FNV-1a and splitmix64) and the schedule coin, and the part
    of Go's [math/rand/v2] the simulator calls: the PCG generator and the
    interface [Rand] its draws go through. *)

From S2P Require Import Prelude.
From Stdlib Require Export Floats.SpecFloat.

(** ** splitmix64 and FNV-1a *)

Definition goldenGamma : Z := 0x9E3779B97F4A7C15.
Definition mix1 : Z := 0xBF58476D1CE4E5B9.
Definition mix2 : Z := 0x94D049BB133111EB.

Definition xorshift (k x : Z) : Z := Z.lxor x (Z.shiftr x k).

Definition splitmix64 (x : Z) : Z :=
  let x := x +64 goldenGamma in
  let x := xorshift 30 x *64 mix1 in
  let x := xorshift 27 x *64 mix2 in
  xorshift 31 x.

(** [hash/fnv.New64a]: [Write] folds every byte, [Sum64] returns the state. *)
Definition fnv_offset64 : Z := 14695981039346656037.
Definition fnv_prime64 : Z := 1099511628211.

Definition fnv_New64a (data : bytes) : Z :=
  fold_left (fun h c => Z.lxor h (byte_to_Z c) *64 fnv_prime64) data fnv_offset64.

(** ** Seed derivation *)

Definition deriveSeed (seed : Z) (smscID : string) (bindOrdinal : Z) : Z * Z :=
  let nameHash := fnv_New64a (bytes_of_string smscID) in
  let lo := splitmix64 (Z.lxor seed nameHash) in
  let hi := splitmix64 (lo +64 goldenGamma *64 bindOrdinal +64 1) in
  (lo, hi).

Definition scheduleSalt : Z := 0x53504C495401.

Definition ScheduleBase (seed : Z) (smscID : string) (bindOrdinal : Z) : Z :=
  let '(lo, hi) := deriveSeed (Z.lxor seed scheduleSalt) smscID bindOrdinal in
  splitmix64 (lo +64 hi).

Definition ScheduleCoin (base tick : Z) : bool :=
  Z.land (splitmix64 (base +64 splitmix64 tick)) 1 =? 0.

(** ** [math/rand/v2]

    [RandSource R] is what the simulator uses of a [*rand.Rand]; a draw returns
    the advanced source.  Floats are IEEE-754 binary64 values of [SpecFloat].
    [f64_out_of_range] is the value of the conversion [uint64(f)] when [f] is
    not representable, which the Go specification leaves to the
    implementation. *)

Abbreviation float64 := spec_float.

Class RandSource (R : Type) := {
  NewPCG : Z -> Z -> R;
  Uint64N_draw : Z -> R -> Z * R;
  Float64_draw : R -> float64 * R;
  NormFloat64_draw : R -> float64 * R;
  f64_out_of_range : float64 -> Z
}.

Definition f64_zero : float64 := S754_zero false.
Definition f64_one : float64 := S754_finite false 4503599627370496 (-52).
Definition f64_add : float64 -> float64 -> float64 := SFadd 53 1024.
Definition f64_mul : float64 -> float64 -> float64 := SFmul 53 1024.
Definition f64_of_u64 (z : Z) : float64 := binary_normalize 53 1024 z 0 false.

(** What the package documents: [Uint64N(n)] is in [0,n), [Float64] in [0,1). *)
Class RandLaws (R : Type) `{RandSource R} := {
  Uint64N_range : forall n r, 0 < n -> is_u64 n -> 0 <= (Uint64N_draw n r).1 < n;
  Float64_range : forall r,
    SFleb f64_zero (Float64_draw r).1 = true /\ SFltb (Float64_draw r).1 f64_one = true;
  f64_out_of_range_u64 : forall f, is_u64 (f64_out_of_range f)
}.

(** A computation that may panic but returns no error value. *)
Abbreviation may_panic := (outcome Empty_set).

(** [Uint64N] panics on a zero bound. *)
Definition Uint64N {R} `{RandSource R} (n : Z) (r : R) : may_panic (Z * R) :=
  if n =? 0 then Panic else Ok (Uint64N_draw n r).

Definition NewBind {R} `{RandSource R} (seed : Z) (smscID : string) (bindOrdinal : Z) : R :=
  let '(lo, hi) := deriveSeed seed smscID bindOrdinal in NewPCG lo hi.

(** [NewChaos] takes its two seeds from the process-seeded global source. *)
Definition NewChaos {R} `{RandSource R} (entropy : Z * Z) : R :=
  NewPCG entropy.1 entropy.2.

(** [math.Round]: half away from zero; [None] for infinities and NaN. *)
Definition f64_Round (f : float64) : option Z :=
  match f with
  | S754_zero _ => Some 0
  | S754_infinity _ | S754_nan => None
  | S754_finite s m e =>
      let a := if 0 <=? e then Zpos m * 2 ^ e
               else (2 * Zpos m + 2 ^ (- e)) / 2 ^ (1 - e) in
      Some (if s then - a else a)
  end.

(** [uint64(math.Round(f))]. *)
Definition u64_of_Round {R} `{RandSource R} (f : float64) : Z :=
  match f64_Round f with
  | Some z => if (0 <=? z) && (z <? 2 ^ 64) then z else f64_out_of_range f
  | None => f64_out_of_range f
  end.

(** *** The PCG generator

    [rand.PCG] of the Go standard library: a 128-bit linear congruential
    generator with the DXSM output function, with [Uint64N] and [Float64] on top
    of it.  [Uint64N] masks for a power of two, and multiplies and rejects
    otherwise; one call rejects at most [64] draws here, after which the last
    product is returned.  [NormFloat64] needs the ziggurat tables and is replaced
    by a uniform draw.  The instance evaluates the examples and witnesses; the
    theorems hold for every lawful [RandSource]. *)

Record PCG := mkPCG { pcg_hi : Z; pcg_lo : Z }.

Definition pcg_mul : Z := 2549297995355413924 * 2 ^ 64 + 4865540595714422341.
Definition pcg_inc : Z := 6364136223846793005 * 2 ^ 64 + 1442695040888963407.
Definition pcg_cheapMul : Z := 0xda942042e4dd58b5.

Definition PCG_next (p : PCG) : PCG :=
  let s := ((pcg_hi p * 2 ^ 64 + pcg_lo p) * pcg_mul + pcg_inc) mod 2 ^ 128 in
  mkPCG (s / 2 ^ 64) (s mod 2 ^ 64).

Definition PCG_Uint64 (p : PCG) : Z * PCG :=
  let p' := PCG_next p in
  let hi := xorshift 32 (pcg_hi p') *64 pcg_cheapMul in
  let hi := xorshift 48 hi *64 Z.lor (pcg_lo p') 1 in
  (hi, p').

Fixpoint PCG_reject (fuel : nat) (n : Z) (p : PCG) : Z * PCG :=
  let '(x, p') := PCG_Uint64 p in
  let prod := x * n in
  match fuel with
  | S fuel' =>
      if prod mod 2 ^ 64 <? 2 ^ 64 mod n then PCG_reject fuel' n p' else (prod / 2 ^ 64, p')
  | O => (prod / 2 ^ 64, p')
  end.

Definition PCG_Uint64N (n : Z) (p : PCG) : Z * PCG :=
  if Z.land n (n - 1) =? 0 then
    let '(x, p') := PCG_Uint64 p in (x mod n, p')
  else PCG_reject 64 n p.

(** The float [k / 2^53], in canonical form. *)
Definition f64_fraction (k : Z) : float64 :=
  match k with
  | Zpos m =>
      let shift := 52 - Z.log2 k in
      match k * 2 ^ shift with Zpos m' => S754_finite false m' (-53 - shift) | _ => f64_zero end
  | _ => f64_zero
  end.

Definition PCG_Float64 (p : PCG) : float64 * PCG :=
  let '(x, p') := PCG_Uint64 p in (f64_fraction (x mod 2 ^ 53), p').

#[export] Instance PCG_source : RandSource PCG := {
  NewPCG := mkPCG;
  Uint64N_draw := PCG_Uint64N;
  Float64_draw := PCG_Float64;
  NormFloat64_draw := PCG_Float64;
  f64_out_of_range _ := 2 ^ 63
}.

Example pcg_reference : (PCG_Uint64 (NewPCG 1 2)).1 = 0xc4f5a58656eef510.
Proof. vm_compute. reflexivity. Qed.

Example f64_fraction_normalized :
  f64_fraction 3 = binary_normalize 53 1024 3 (-53) false /\
  f64_fraction (2 ^ 53 - 1) = binary_normalize 53 1024 (2 ^ 53 - 1) (-53) false.
Proof. vm_compute. split; reflexivity. Qed.

(** ** The PCG source is lawful *)

Lemma PCG_Uint64_u64 p : is_u64 (PCG_Uint64 p).1.
Proof. apply u64_range. Qed.

Lemma mul_high_range x n : is_u64 x -> 0 < n -> 0 <= x * n / 2 ^ 64 < n.
Proof.
  unfold is_u64. intros Hx Hn. split.
  - apply Z.div_pos; nia.
  - apply Z.div_lt_upper_bound; nia.
Qed.

Lemma PCG_reject_range fuel n p : 0 < n -> 0 <= (PCG_reject fuel n p).1 < n.
Proof.
  intros Hn. revert p. induction fuel as [|fuel IH]; intros p; simpl.
  - by apply mul_high_range; [apply u64_range|].
  - destruct (_ <? _); [apply IH | by apply mul_high_range; [apply u64_range|]].
Qed.

Lemma f64_fraction_range k :
  0 <= k < 2 ^ 53 ->
  SFleb f64_zero (f64_fraction k) = true /\ SFltb (f64_fraction k) f64_one = true.
Proof.
  intros Hk. unfold f64_fraction. destruct k as [|m|m]; [by vm_compute| |lia].
  assert (0 <= Z.log2 (Zpos m) <= 52) as Hl.
  { split; [apply Z.log2_nonneg|]. apply Z.lt_succ_r, Z.log2_lt_pow2; lia. }
  destruct (Zpos m * 2 ^ _) as [|m'|m']; [by vm_compute| |by vm_compute].
  split; [done|]. unfold SFltb, SFcompare, f64_one.
  by replace (-53 - (52 - Z.log2 (Zpos m)) ?= -52) with Lt by (symmetry; apply Z.compare_lt_iff; lia).
Qed.

#[export] Instance PCG_laws : RandLaws PCG.
Proof.
  split.
  - intros n p Hn _. simpl. unfold PCG_Uint64N. destruct (_ =? 0).
    + simpl. by apply Z.mod_pos_bound.
    + by apply PCG_reject_range.
  - intros p. apply f64_fraction_range, Z.mod_pos_bound. lia.
  - intros f. by_decide.
Qed.

(** ** splitmix64 is a permutation of the 64-bit words *)

Lemma xorshift_range k x : 0 <= k -> is_u64 x -> is_u64 (xorshift k x).
Proof.
  unfold is_u64, xorshift. intros Hk [H0 H1].
  assert (0 <= Z.lxor x (Z.shiftr x k)) as Hnn.
  { apply Z.lxor_nonneg. rewrite Z.shiftr_nonneg. lia. }
  split; [done|]. destruct (decide (Z.lxor x (Z.shiftr x k) = 0)) as [->|Hnz]; [lia|].
  apply Z.log2_lt_pow2; [lia|].
  assert (0 <= Z.shiftr x k <= x) as Hs.
  { rewrite Z.shiftr_div_pow2 by done. split; [apply Z.div_pos; lia|].
    apply Z.div_le_upper_bound; [lia|]. nia. }
  pose proof (Z.log2_lxor x (Z.shiftr x k) ltac:(lia) ltac:(lia)).
  pose proof (Z.log2_le_mono (Z.shiftr x k) x ltac:(lia)).
  assert (Z.log2 x < 64); [|lia].
  destruct (decide (x = 0)) as [->|]; [done|]. apply Z.log2_lt_pow2; lia.
Qed.

Lemma testbit_u64_high x i : is_u64 x -> 64 <= i -> Z.testbit x i = false.
Proof.
  intros Hx Hi. destruct (decide (x = 0)) as [->|]; [apply Z.testbit_0_l|].
  unfold is_u64 in Hx. apply Z.bits_above_log2; [lia|].
  assert (Z.log2 x < 64); [|lia]. apply Z.log2_lt_pow2; lia.
Qed.

(** Inverse of [xorshift k] for the shifts used here ([64 <= 3 k]). *)
Definition unxorshift (k y : Z) : Z :=
  Z.lxor y (Z.lxor (Z.shiftr y k) (Z.shiftr y (k + k))).

Lemma unxorshift_xorshift k x :
  is_u64 x -> 22 <= k -> unxorshift k (xorshift k x) = x.
Proof.
  intros Hx Hk. apply Z.bits_inj'. intros i Hi. unfold unxorshift, xorshift.
  rewrite !Z.lxor_spec, !Z.shiftr_spec, !Z.lxor_spec, !Z.shiftr_spec by lia.
  rewrite (testbit_u64_high x (i + (k + k) + k)) by (done || lia).
  rewrite Z.add_assoc.
  destruct (Z.testbit x i), (Z.testbit x (i + k)), (Z.testbit x (i + k + k)); done.
Qed.

Lemma mul64_cancel m minv x : is_u64 x -> u64 (m * minv) = 1 -> (x *64 m) *64 minv = x.
Proof.
  intros Hx Hm. unfold u64 in *. rewrite Zmult_mod_idemp_l, <- Z.mul_assoc.
  rewrite <- Zmult_mod_idemp_r, Hm, Z.mul_1_r. by apply Z.mod_small.
Qed.

Lemma add64_cancel c x : is_u64 x -> (x +64 c) -64 c = x.
Proof.
  intros Hx. unfold u64. rewrite Zminus_mod_idemp_l, Z.add_simpl_r. by apply Z.mod_small.
Qed.

Definition mix1_inv : Z := 0x96de1b173f119089.
Definition mix2_inv : Z := 0x319642b2d24d8ec3.
Definition gamma_inv : Z := 0xf1de83e19937733d.

Definition unsplitmix64 (y : Z) : Z :=
  let y := unxorshift 31 y in
  let y := unxorshift 27 (y *64 mix2_inv) in
  let y := unxorshift 30 (y *64 mix1_inv) in
  y -64 goldenGamma.

Lemma unsplitmix64_splitmix64 x : is_u64 x -> unsplitmix64 (splitmix64 x) = x.
Proof.
  intros Hx. unfold unsplitmix64, splitmix64.
  rewrite unxorshift_xorshift by (apply u64_range || lia).
  rewrite mul64_cancel by (apply xorshift_range, u64_range || reflexivity; lia).
  rewrite unxorshift_xorshift by (apply u64_range || lia).
  rewrite mul64_cancel by (apply xorshift_range, u64_range || reflexivity; lia).
  rewrite unxorshift_xorshift by (apply u64_range || lia).
  by apply add64_cancel.
Qed.

Lemma splitmix64_u64 x : is_u64 (splitmix64 x).
Proof. apply xorshift_range; [lia | apply u64_range]. Qed.

Lemma splitmix64_inj x y : is_u64 x -> is_u64 y -> splitmix64 x = splitmix64 y -> x = y.
Proof.
  intros Hx Hy Heq. by rewrite <- (unsplitmix64_splitmix64 x), Heq, unsplitmix64_splitmix64.
Qed.

(** ** Streams are keyed by (seed, name, ordinal) *)

Lemma lxor_u64 x y : is_u64 x -> is_u64 y -> is_u64 (Z.lxor x y).
Proof.
  unfold is_u64. intros Hx Hy.
  assert (0 <= Z.lxor x y) by (apply Z.lxor_nonneg; lia).
  split; [done|]. destruct (decide (Z.lxor x y = 0)) as [->|]; [lia|].
  assert (forall z, 0 <= z < 2 ^ 64 -> Z.log2 z < 64) as Hlog.
  { intros z Hz. destruct (decide (z = 0)) as [->|]; [done|]. apply Z.log2_lt_pow2; lia. }
  apply Z.log2_lt_pow2; [lia|].
  pose proof (Z.log2_lxor x y ltac:(lia) ltac:(lia)).
  pose proof (Hlog x Hx). pose proof (Hlog y Hy). lia.
Qed.

Lemma fnv_New64a_u64 data : is_u64 (fnv_New64a data).
Proof.
  unfold fnv_New64a. assert (is_u64 fnv_offset64) as H by by_decide. revert H.
  generalize fnv_offset64. induction data as [|b data IH]; intros h Hh; simpl; [done|].
  apply IH, u64_range.
Qed.

Lemma lxor_inj_l a b c : Z.lxor a c = Z.lxor b c -> a = b.
Proof.
  intros H. apply (f_equal (fun z => Z.lxor z c)) in H.
  by rewrite !Z.lxor_assoc, !Z.lxor_nilpotent, !Z.lxor_0_r in H.
Qed.

Lemma add64_inj_r a x y : is_u64 x -> is_u64 y -> a +64 x = a +64 y -> x = y.
Proof.
  intros Hx Hy H. rewrite (Z.add_comm a x), (Z.add_comm a y) in H.
  by rewrite <- (add64_cancel a x Hx), H, add64_cancel.
Qed.

Lemma deriveSeed_lo seed id o :
  (deriveSeed seed id o).1 = splitmix64 (Z.lxor seed (fnv_New64a (bytes_of_string id))).
Proof. reflexivity. Qed.

Lemma deriveSeed_hi seed id o :
  (deriveSeed seed id o).2 =
  splitmix64 ((deriveSeed seed id o).1 +64 goldenGamma *64 o +64 1).
Proof. reflexivity. Qed.

Lemma ScheduleBase_words seed id o :
  ScheduleBase seed id o =
  splitmix64 ((deriveSeed (Z.lxor seed scheduleSalt) id o).1
              +64 (deriveSeed (Z.lxor seed scheduleSalt) id o).2).
Proof. unfold ScheduleBase. by destruct (deriveSeed _ _ _). Qed.

Lemma deriveSeed_lo_inj seed seed' id o o' :
  is_u64 seed -> is_u64 seed' ->
  (deriveSeed seed id o).1 = (deriveSeed seed' id o').1 -> seed = seed'.
Proof.
  intros Hs Hs' H. rewrite !deriveSeed_lo in H. apply splitmix64_inj in H.
  - by apply lxor_inj_l in H.
  - apply lxor_u64; [done | apply fnv_New64a_u64].
  - apply lxor_u64; [done | apply fnv_New64a_u64].
Qed.

Lemma ordinal_word_inj lo o o' :
  is_u64 o -> is_u64 o' ->
  (lo +64 goldenGamma *64 o) +64 1 = (lo +64 goldenGamma *64 o') +64 1 -> o = o'.
Proof.
  intros Ho Ho' H.
  rewrite !(Z.add_comm _ 1) in H. apply add64_inj_r in H; [|apply u64_range..].
  apply add64_inj_r in H; [|apply u64_range..].
  rewrite !(Z.mul_comm goldenGamma) in H.
  by rewrite <- (mul64_cancel goldenGamma gamma_inv o), H, mul64_cancel.
Qed.

Lemma deriveSeed_hi_inj seed id o o' :
  is_u64 o -> is_u64 o' ->
  (deriveSeed seed id o).2 = (deriveSeed seed id o').2 -> o = o'.
Proof.
  intros Ho Ho' H. rewrite !deriveSeed_hi, !deriveSeed_lo in H.
  apply splitmix64_inj in H; [|apply u64_range..]. by apply ordinal_word_inj in H.
Qed.

(** Streams are keyed by the bind.  For one virtual SMSC name, two different
    (seed, ordinal) pairs give two different PCG seedings; two binds of one
    virtual SMSC have different schedule bases; and a bind's schedule-side words
    never coincide with the words that seed its own scenario stream. *)
Theorem deriveSeed_separates_binds seed seed' id o o' :
  is_u64 seed -> is_u64 seed' -> is_u64 o -> is_u64 o' ->
  (deriveSeed seed id o = deriveSeed seed' id o' -> seed = seed' /\ o = o') /\
  (ScheduleBase seed id o = ScheduleBase seed id o' -> o = o') /\
  deriveSeed (Z.lxor seed scheduleSalt) id o <> deriveSeed seed id o.
Proof.
  intros Hs Hs' Ho Ho'. split_and!.
  - intros H. assert (seed = seed') as <-.
    { apply (deriveSeed_lo_inj _ _ id o o'); [done..|]. by rewrite H. }
    split; [done|]. apply (deriveSeed_hi_inj seed id); [done..|]. by rewrite H.
  - intros H. rewrite !ScheduleBase_words in H.
    apply splitmix64_inj in H; [|apply u64_range..].
    rewrite !deriveSeed_lo in H.
    apply add64_inj_r in H; [|rewrite deriveSeed_hi; apply splitmix64_u64..].
    by apply (deriveSeed_hi_inj (Z.lxor seed scheduleSalt) id).
  - intros H. apply (f_equal fst) in H.
    apply (deriveSeed_lo_inj _ _ id o o) in H; [|by apply lxor_u64; [|by_decide]|done].
    apply (f_equal (Z.lxor seed)) in H.
    by rewrite <- Z.lxor_assoc, Z.lxor_nilpotent, Z.lxor_0_l in H.
Qed.

Lemma deriveSeed_separates_binds_witness :
  deriveSeed 42 "carrier-a" 1 <> deriveSeed 42 "carrier-a" 2 /\
  ScheduleBase 42 "carrier-a" 1 <> ScheduleBase 42 "carrier-a" 2.
Proof.
  destruct (deriveSeed_separates_binds 42 42 "carrier-a" 1 2) as (H1 & H2 & _); [by_decide..|].
  split; [intros H; by apply H1 in H as [_ ?] | intros H; by apply H2 in H].
Defined.
