(* ===== verification/Schedule.v ===== *)
(** * The per-bind schedule runner ([internal/schedule/schedule.go])

    The runner keeps pending events sorted by (DueTick, Seq) and drains a prefix.
    It is specified by a stable sort: events leave in due-tick order, and events
    due at the same tick leave in the order they were scheduled. *)

From S2P Require Import Prelude.
From S2P Require Import Rng.

(** ** [sort.Search]

    Binary search in [i, j); [fuel] bounds the halvings, and [j - i] is enough. *)
Fixpoint sort_Search_loop (fuel : nat) (f : nat -> may_panic bool) (i j : nat) : may_panic nat :=
  match fuel with
  | O => Ok i
  | S fuel' =>
      if (i <? j)%nat then
        let h := ((i + j) / 2)%nat in
        let* b := f h in
        if b then sort_Search_loop fuel' f i h else sort_Search_loop fuel' f (S h) j
      else Ok i
  end.

Definition sort_Search (n : nat) (f : nat -> may_panic bool) : may_panic nat :=
  sort_Search_loop n f 0 n.

(** A slice read, which panics out of range. *)
Definition slice_at {A} (l : list A) (i : nat) : may_panic A :=
  match l !! i with Some a => Ok a | None => Panic end.

Section Search.
Context {A : Type} (P : A -> bool).

Definition search_pred (l : list A) (i : nat) : may_panic bool :=
  let* a := slice_at l i in Ok (P a).

Lemma midpoint_bounds i j : (i < j)%nat -> (i <= (i + j) / 2 < j)%nat.
Proof.
  intros H. split; [apply Nat.div_le_lower_bound; lia|].
  apply Nat.Div0.div_lt_upper_bound. lia.
Qed.

Lemma search_pred_split l1 l2 h :
  Forall (fun a => P a = false) l1 -> Forall (fun a => P a = true) l2 ->
  (h < length (l1 ++ l2))%nat ->
  search_pred (l1 ++ l2) h = Ok (negb (h <? length l1)%nat).
Proof.
  intros Hl1 Hl2 Hh. destruct (lookup_lt_is_Some_2 _ _ Hh) as [a Ha].
  unfold search_pred, slice_at. rewrite Ha. simpl. f_equal.
  apply lookup_app_Some in Ha as [Ha | [Hge Ha]].
  - pose proof (lookup_lt_Some _ _ _ Ha). rewrite (Forall_lookup_1 _ _ _ _ Hl1 Ha).
    by replace (h <? length l1)%nat with true by (symmetry; by apply Nat.ltb_lt).
  - rewrite (Forall_lookup_1 _ _ _ _ Hl2 Ha).
    by replace (h <? length l1)%nat with false by (symmetry; by apply Nat.ltb_ge).
Qed.

(** On a list split into a part where [P] fails and a part where it holds, the
    search finds the split point. *)
Lemma sort_Search_loop_split l1 l2 fuel i j :
  Forall (fun a => P a = false) l1 -> Forall (fun a => P a = true) l2 ->
  (i <= length l1 <= j)%nat -> (j <= length (l1 ++ l2))%nat -> (j - i <= fuel)%nat ->
  sort_Search_loop fuel (search_pred (l1 ++ l2)) i j = Ok (length l1).
Proof.
  intros Hl1 Hl2. revert i j. induction fuel as [|fuel IH]; intros i j Hb Hj Hf.
  { simpl. f_equal. lia. }
  cbn [sort_Search_loop]. destruct (Nat.ltb_spec i j) as [Hij|]; [|f_equal; lia].
  pose proof (midpoint_bounds i j Hij) as Hh. generalize dependent ((i + j) / 2)%nat. intros h Hh.
  rewrite search_pred_split by (done || lia). rewrite obind_Ok.
  destruct (Nat.ltb_spec h (length l1)); apply IH; lia.
Qed.

Lemma sort_Search_split l1 l2 :
  Forall (fun a => P a = false) l1 -> Forall (fun a => P a = true) l2 ->
  sort_Search (length (l1 ++ l2)) (search_pred (l1 ++ l2)) = Ok (length l1).
Proof.
  intros. apply sort_Search_loop_split; rewrite ?length_app; (done || lia).
Qed.
End Search.

(** ** Data and operations *)

Record Event (P : Type) := mkEvent { DueTick : Z; Seq : Z; Payload : P }.
Arguments mkEvent {P}. Arguments DueTick {P}. Arguments Seq {P}. Arguments Payload {P}.

Record Runner (P : Type) := mkRunner { pending : list (Event P); seq : Z }.
Arguments mkRunner {P}. Arguments pending {P}. Arguments seq {P}.

Section Runner.
Context {P : Type}.
Implicit Types (r : Runner P) (e p : Event P) (l : list (Event P)).

Definition new_Runner : Runner P := mkRunner [] 0.

(** [p] sorts after [e]. *)
Definition sorts_after e p : bool :=
  (DueTick p >? DueTick e) || ((DueTick p =? DueTick e) && (Seq p >? Seq e)).

(** Growing the slice by one, shifting the tail right and storing the event
    leaves the event between the two halves. *)
Definition Schedule (dueTick : Z) (payload : P) r : may_panic (Runner P) :=
  let e := mkEvent dueTick (seq r) payload in
  let* i := sort_Search (length (pending r)) (search_pred (sorts_after e) (pending r)) in
  Ok (mkRunner (take i (pending r) ++ e :: drop i (pending r)) (seq r +64 1)).

Definition DrainDue (clock : Z) r : may_panic (list (Event P) * Runner P) :=
  let* n := sort_Search (length (pending r))
              (search_pred (fun p => DueTick p >? clock) (pending r)) in
  Ok (take n (pending r), mkRunner (drop n (pending r)) (seq r)).

Definition DrainAll r : list (Event P) * Runner P :=
  (pending r, mkRunner [] (seq r)).

Definition Len r : nat := length (pending r).

(** ** The invariant: sorted by (DueTick, Seq), every Seq already handed out *)

Definition event_lt e p : Prop :=
  DueTick e < DueTick p \/ (DueTick e = DueTick p /\ Seq e < Seq p).

Definition runner_wf r : Prop :=
  StronglySorted event_lt (pending r) /\ Forall (fun e => 0 <= Seq e < seq r) (pending r).

Lemma new_Runner_wf : runner_wf new_Runner.
Proof. split; constructor. Qed.

Lemma sorted_split (f : Event P -> bool) l :
  StronglySorted event_lt l ->
  (forall e p, event_lt e p -> f e = true -> f p = true) ->
  exists l1 l2, l = l1 ++ l2 /\
    Forall (fun e => f e = false) l1 /\ Forall (fun e => f e = true) l2.
Proof.
  intros Hs Hmono. induction Hs as [|e l Hs IH Hall]; [by exists [], []|].
  destruct (f e) eqn:He.
  - exists [], (e :: l). split_and!; [done|done|]. constructor; [done|].
    eapply Forall_impl; [exact Hall|]. intros p Hp. by eapply Hmono.
  - destruct IH as (l1 & l2 & -> & H1 & H2). exists (e :: l1), l2.
    split_and!; [done|by constructor|done].
Qed.

Lemma Search_sorted (f : Event P -> bool) l :
  StronglySorted event_lt l ->
  (forall e p, event_lt e p -> f e = true -> f p = true) ->
  exists l1 l2, l = l1 ++ l2 /\
    Forall (fun e => f e = false) l1 /\ Forall (fun e => f e = true) l2 /\
    sort_Search (length l) (search_pred f l) = Ok (length l1).
Proof.
  intros Hs Hmono. destruct (sorted_split f l Hs Hmono) as (l1 & l2 & -> & H1 & H2).
  exists l1, l2. split_and!; [done..|]. by apply sort_Search_split.
Qed.

Lemma sorts_after_mono e p q : event_lt p q -> sorts_after e p = true -> sorts_after e q = true.
Proof. unfold event_lt, sorts_after. rewrite !orb_true_iff, !andb_true_iff. bool_lia. Qed.

Lemma overdue_mono (clock : Z) e p :
  event_lt e p -> (DueTick e >? clock) = true -> (DueTick p >? clock) = true.
Proof. unfold event_lt. bool_lia. Qed.

(** For a fresh sequence number only the due tick decides. *)
Lemma sorts_after_fresh e p : Seq p < Seq e -> sorts_after e p = (DueTick p >? DueTick e).
Proof.
  intros H. unfold sorts_after.
  replace (Seq p >? Seq e) with false by (symmetry; rewrite Z.gtb_ltb; apply Z.ltb_ge; lia).
  by rewrite andb_false_r, orb_false_r.
Qed.

(** The state after [Schedule]: the event is stored after every event due no
    later and before every event due later. *)
Lemma Schedule_spec t x r :
  runner_wf r -> 0 <= seq r < 2 ^ 64 - 1 ->
  exists l1 l2, pending r = l1 ++ l2 /\
    Forall (fun p => DueTick p <= t) l1 /\ Forall (fun p => t < DueTick p) l2 /\
    Schedule t x r = Ok (mkRunner (l1 ++ mkEvent t (seq r) x :: l2) (seq r + 1)).
Proof.
  intros [Hs Hq] Hr. set (e := mkEvent t (seq r) x).
  destruct (Search_sorted (sorts_after e) (pending r) Hs (sorts_after_mono e))
    as (l1 & l2 & Hp & H1 & H2 & Hsearch).
  exists l1, l2. rewrite Hp in Hq. apply Forall_app in Hq as [Hq1 Hq2].
  split_and!; [done| | |].
  - eapply Forall_impl2; [exact H1 | exact Hq1 |]. intros p Hp1 Hp2. simpl in *.
    rewrite sorts_after_fresh in Hp1 by (simpl; lia). simpl in Hp1. bool_lia.
  - eapply Forall_impl2; [exact H2 | exact Hq2 |]. intros p Hp1 Hp2. simpl in *.
    rewrite sorts_after_fresh in Hp1 by (simpl; lia). simpl in Hp1. bool_lia.
  - unfold Schedule. fold e. rewrite Hsearch, obind_Ok, Hp.
    rewrite take_app_length, drop_app_length. do 2 f_equal.
    apply u64_small. unfold is_u64. lia.
Qed.

Lemma Schedule_wf t x r r' :
  runner_wf r -> 0 <= seq r < 2 ^ 64 - 1 -> Schedule t x r = Ok r' ->
  runner_wf r' /\ seq r' = seq r + 1.
Proof.
  intros Hwf Hr HS. destruct (Schedule_spec t x r Hwf Hr) as (l1 & l2 & Hp & H1 & H2 & HS').
  rewrite HS' in HS. simplify_eq. destruct Hwf as [Hs Hq]. rewrite Hp in Hs, Hq.
  apply StronglySorted_app in Hs as (Hlt & Hs1 & Hs2). apply Forall_app in Hq as [Hq1 Hq2].
  split; [split; simpl|done].
  - apply StronglySorted_app. split_and!; [|done|].
    + intros p q Hin Hq. rewrite elem_of_cons in Hq. destruct Hq as [->|Hq]; [|by apply Hlt].
      rewrite Forall_forall in H1, Hq1. specialize (H1 p Hin). specialize (Hq1 p Hin).
      unfold event_lt. simpl. lia.
    + constructor; [done|]. eapply Forall_impl; [exact H2|]. intros p Hp'. left. done.
  - apply Forall_app. split; [|constructor; [simpl; lia|]].
    + eapply Forall_impl; [exact Hq1|]. simpl. lia.
    + eapply Forall_impl; [exact Hq2|]. simpl. lia.
Qed.

Lemma DrainDue_spec c r :
  runner_wf r ->
  exists l1 l2, pending r = l1 ++ l2 /\
    Forall (fun p => DueTick p <= c) l1 /\ Forall (fun p => c < DueTick p) l2 /\
    DrainDue c r = Ok (l1, mkRunner l2 (seq r)).
Proof.
  intros [Hs Hq].
  destruct (Search_sorted (fun p => DueTick p >? c) (pending r) Hs (overdue_mono c))
    as (l1 & l2 & Hp & H1 & H2 & Hsearch).
  exists l1, l2. split_and!; [done| | |].
  - eapply Forall_impl; [exact H1|]. simpl. intros; bool_lia.
  - eapply Forall_impl; [exact H2|]. simpl. intros; bool_lia.
  - unfold DrainDue. rewrite Hsearch, obind_Ok, Hp. by rewrite take_app_length, drop_app_length.
Qed.

Lemma DrainDue_wf c r due r' : runner_wf r -> DrainDue c r = Ok (due, r') -> runner_wf r'.
Proof.
  intros Hwf HD. destruct (DrainDue_spec c r Hwf) as (l1 & l2 & Hp & _ & _ & HD').
  rewrite HD' in HD. simplify_eq. destruct Hwf as [Hs Hq]. rewrite Hp in Hs, Hq.
  apply StronglySorted_app in Hs as (_ & _ & Hs2). apply Forall_app in Hq as [_ Hq2].
  by split.
Qed.

Lemma DrainAll_wf r : runner_wf r -> runner_wf (DrainAll r).2.
Proof. intros _. split; constructor. Qed.
End Runner.

(** ** Specification: a stable sort of what was scheduled *)

Section Refinement.
Context {P : Type}.
Implicit Types (x y : Z * P) (l st : list (Z * P)).

Inductive op := OpSchedule (dueTick : Z) (payload : P) | OpDrainDue (clock : Z) | OpDrainAll.

(** Stable insertion: after every element due no later. *)
Fixpoint stable_insert x l : list (Z * P) :=
  match l with
  | [] => [x]
  | y :: l' => if y.1 <=? x.1 then y :: stable_insert x l' else x :: y :: l'
  end.

Definition stable_sort l : list (Z * P) := fold_left (fun acc x => stable_insert x acc) l [].

(** The abstract state is what is still scheduled, in scheduling order. *)
Definition spec_step (o : op) st : list (Z * P) * list (Z * P) :=
  match o with
  | OpSchedule t x => ([], st ++ [(t, x)])
  | OpDrainDue c => (stable_sort (base.filter (fun x => x.1 <= c) st),
                     base.filter (fun x => ~ x.1 <= c) st)
  | OpDrainAll => (stable_sort st, [])
  end.

Fixpoint spec_run (ops : list op) st : list (list (Z * P)) * list (Z * P) :=
  match ops with
  | [] => ([], st)
  | o :: ops => let '(out, st) := spec_step o st in
                let '(outs, st) := spec_run ops st in (out :: outs, st)
  end.

Definition forget (e : Event P) : Z * P := (DueTick e, Payload e).

Definition step (o : op) (r : Runner P) : may_panic (list (Z * P) * Runner P) :=
  match o with
  | OpSchedule t x => let* r' := Schedule t x r in Ok ([], r')
  | OpDrainDue c => let* out := DrainDue c r in Ok (forget <$> out.1, out.2)
  | OpDrainAll => Ok (forget <$> (DrainAll r).1, (DrainAll r).2)
  end.

Fixpoint run (ops : list op) (r : Runner P) : may_panic (list (list (Z * P)) * Runner P) :=
  match ops with
  | [] => Ok ([], r)
  | o :: ops =>
      let* out := step o r in
      let* outs := run ops out.2 in
      Ok (out.1 :: outs.1, outs.2)
  end.

Definition tick_le x y : Prop := x.1 <= y.1.

Lemma stable_insert_split x l1 l2 :
  Forall (fun y => y.1 <= x.1) l1 -> Forall (fun y => x.1 < y.1) l2 ->
  stable_insert x (l1 ++ l2) = l1 ++ x :: l2.
Proof.
  intros H1 H2. induction H1 as [|y l1 Hy _ IH]; simpl.
  - destruct H2 as [|y l2 Hy _]; [done|]. simpl.
    by replace (y.1 <=? x.1) with false by (symmetry; bool_lia).
  - replace (y.1 <=? x.1) with true by (symmetry; bool_lia). by rewrite IH.
Qed.

Lemma tick_sorted_split x l :
  StronglySorted tick_le l ->
  exists l1 l2, l = l1 ++ l2 /\ Forall (fun y => y.1 <= x.1) l1 /\ Forall (fun y => x.1 < y.1) l2.
Proof.
  induction 1 as [|y l Hs IH Hall]; [by exists [], []|].
  destruct (Z.le_gt_cases y.1 x.1) as [Hle|Hgt].
  - destruct IH as (l1 & l2 & -> & ? & ?). exists (y :: l1), l2. split_and!; [done|by constructor|done].
  - exists [], (y :: l). split_and!; [done|done|]. constructor; [done|].
    eapply Forall_impl; [exact Hall|]. unfold tick_le. intros z Hz. lia.
Qed.

Lemma stable_insert_sorted x l :
  StronglySorted tick_le l -> StronglySorted tick_le (stable_insert x l).
Proof.
  intros Hs. destruct (tick_sorted_split x l Hs) as (l1 & l2 & -> & H1 & H2).
  rewrite stable_insert_split by done. apply StronglySorted_app in Hs as (Hlt & Hs1 & Hs2).
  apply StronglySorted_app. split_and!; [|done|].
  - intros y z Hy Hz. apply elem_of_cons in Hz as [->|Hz]; [|by apply Hlt].
    rewrite Forall_forall in H1. by apply H1.
  - constructor; [done|]. eapply Forall_impl; [exact H2|]. unfold tick_le. lia.
Qed.

Lemma stable_insert_perm x l : stable_insert x l ≡ₚ x :: l.
Proof.
  induction l as [|y l IH]; [done|]. simpl. destruct (_ <=? _); [|done].
  rewrite IH. apply Permutation_swap.
Qed.

Lemma stable_sort_snoc l x : stable_sort (l ++ [x]) = stable_insert x (stable_sort l).
Proof. unfold stable_sort. by rewrite fold_left_app. Qed.

Lemma stable_sort_sorted l : StronglySorted tick_le (stable_sort l).
Proof.
  induction l as [|x l IH] using rev_ind; [constructor|].
  rewrite stable_sort_snoc. by apply stable_insert_sorted.
Qed.

Lemma stable_sort_perm l : stable_sort l ≡ₚ l.
Proof.
  induction l as [|x l IH] using rev_ind; [done|].
  rewrite stable_sort_snoc, stable_insert_perm, IH. by rewrite Permutation_app_comm.
Qed.

Lemma stable_insert_filter (Q : Z * P -> Prop) `{forall x, Decision (Q x)} x l :
  StronglySorted tick_le l ->
  base.filter Q (stable_insert x l) =
  if decide (Q x) then stable_insert x (base.filter Q l) else base.filter Q l.
Proof.
  intros Hs. destruct (tick_sorted_split x l Hs) as (l1 & l2 & -> & H1 & H2).
  rewrite stable_insert_split, !filter_app, filter_cons by done. case_decide; [|done].
  by rewrite stable_insert_split by by apply Forall_filter_1.
Qed.

(** Filtering commutes with the stable sort. *)
Lemma stable_sort_filter (Q : Z * P -> Prop) `{forall x, Decision (Q x)} l :
  base.filter Q (stable_sort l) = stable_sort (base.filter Q l).
Proof.
  induction l as [|x l IH] using rev_ind; [done|].
  rewrite stable_sort_snoc, stable_insert_filter, IH, filter_app by apply stable_sort_sorted.
  rewrite filter_cons, filter_nil. case_decide; [by rewrite stable_sort_snoc|].
  by rewrite app_nil_r.
Qed.

Lemma forget_wf_sorted r :
  runner_wf r -> StronglySorted tick_le (forget <$> pending r).
Proof.
  intros [Hs _]. induction Hs as [|e l Hs IH Hall]; csimpl; constructor; [done|].
  apply Forall_fmap. eapply Forall_impl; [exact Hall|].
  intros p Hp. unfold tick_le, event_lt in *. simpl. lia.
Qed.

(** Runner [r] holds exactly the events of [st], stably sorted. *)
Definition refines (r : Runner P) st : Prop :=
  runner_wf r /\ forget <$> pending r = stable_sort st.

Lemma refines_schedule t a r st :
  refines r st -> 0 <= seq r < 2 ^ 64 - 1 ->
  exists r', Schedule t a r = Ok r' /\ refines r' (st ++ [(t, a)]) /\ seq r' = seq r + 1.
Proof.
  intros [Hwf Hst] Hr. destruct (Schedule_spec t a r Hwf Hr) as (l1 & l2 & Hp & H1 & H2 & HS).
  destruct (Schedule_wf t a r _ Hwf Hr HS) as [Hwf' Hseq].
  eexists; split_and!; [exact HS| |done]. split; [done|]. simpl.
  rewrite stable_sort_snoc, <- Hst, Hp, !fmap_app, fmap_cons.
  rewrite stable_insert_split; [done|by apply Forall_fmap..].
Qed.

Lemma refines_drain_due c r st :
  refines r st ->
  exists due r', DrainDue c r = Ok (due, r') /\ seq r' = seq r /\
    forget <$> due = stable_sort (base.filter (fun x => x.1 <= c) st) /\
    refines r' (base.filter (fun x => ~ x.1 <= c) st).
Proof.
  intros [Hwf Hst]. destruct (DrainDue_spec c r Hwf) as (l1 & l2 & Hp & H1 & H2 & HD).
  pose proof (DrainDue_wf c r _ _ Hwf HD) as Hwf'.
  eexists _, _. split_and!; [exact HD|done| |split; [done|]]; simpl;
    rewrite <- stable_sort_filter, <- Hst, Hp, fmap_app, filter_app.
  - rewrite filter_all, filter_none, app_nil_r; [done|..]; apply Forall_fmap; [|done].
    eapply Forall_impl; [exact H2|]. simpl. lia.
  - rewrite filter_none, filter_all; [done|..]; apply Forall_fmap.
    + eapply Forall_impl; [exact H2|]. simpl. lia.
    + eapply Forall_impl; [exact H1|]. simpl. lia.
Qed.

Lemma step_refines o r st :
  refines r st -> 0 <= seq r < 2 ^ 64 - 1 ->
  exists r', step o r = Ok ((spec_step o st).1, r') /\
    refines r' (spec_step o st).2 /\ seq r <= seq r' <= seq r + 1.
Proof.
  intros Href Hr. destruct o as [t a|c|]; simpl.
  - destruct (refines_schedule t a r st Href Hr) as (r' & -> & ? & ?).
    exists r'. split_and!; [done|done|lia|lia].
  - destruct (refines_drain_due c r st Href) as (due & r' & -> & ? & Hdue & ?).
    exists r'. simpl. rewrite Hdue. split_and!; [done|done|lia|lia].
  - destruct Href as [Hwf Hst]. rewrite Hst. eexists. split_and!; [done| |simpl; lia..].
    by split; [apply DrainAll_wf|].
Qed.

Lemma run_refines_from ops r st :
  refines r st -> 0 <= seq r -> seq r + len ops < 2 ^ 64 ->
  exists r', run ops r = Ok ((spec_run ops st).1, r') /\ refines r' (spec_run ops st).2.
Proof.
  revert r st. induction ops as [|o ops IH]; intros r st Href H0 Hlen; simpl; [eauto|].
  rewrite len_cons in Hlen. pose proof (len_nonneg ops).
  destruct (step_refines o r st Href) as (r1 & -> & Href1 & Hseq); [lia|]. simpl.
  destruct (spec_step o st) as [out st1]; simpl in *.
  destruct (IH r1 st1 Href1) as (r2 & -> & Href2); [lia..|]. simpl.
  destruct (spec_run ops st1) as [outs st2]; simpl in *. eauto.
Qed.

Lemma new_Runner_refines : refines new_Runner [].
Proof. split; [apply new_Runner_wf | done]. Qed.

(** The events the operations schedule, in order. *)
Definition scheduled (ops : list op) : list (Z * P) :=
  ops ≫= fun o => match o with OpSchedule t x => [(t, x)] | _ => [] end.

Lemma filter_partition_perm (Q : Z * P -> Prop) `{forall x, Decision (Q x)} l :
  base.filter Q l ++ base.filter (fun x => ~ Q x) l ≡ₚ l.
Proof.
  induction l as [|x l IH]; [done|]. rewrite !filter_cons.
  destruct (decide (Q x)) as [HQ|HQ], (decide (~ Q x)); try contradiction; simpl.
  - by rewrite IH.
  - by rewrite <- Permutation_middle, IH.
Qed.

Lemma spec_step_conserves o st :
  (spec_step o st).1 ++ (spec_step o st).2 ≡ₚ st ++ scheduled [o].
Proof.
  destruct o as [t x|c|]; simpl; [done| |].
  - by rewrite stable_sort_perm, filter_partition_perm, app_nil_r.
  - by rewrite stable_sort_perm, app_nil_r.
Qed.

Lemma spec_run_conserves ops st :
  concat (spec_run ops st).1 ++ (spec_run ops st).2 ≡ₚ st ++ scheduled ops.
Proof.
  revert st. induction ops as [|o ops IH]; intros st; simpl; [by rewrite app_nil_r|].
  pose proof (spec_step_conserves o st) as Hstep.
  destruct (spec_step o st) as [out st1]; simpl in *.
  specialize (IH st1). destruct (spec_run ops st1) as [outs st2]; simpl in *.
  rewrite <- app_assoc, IH, app_assoc, Hstep. simpl. by rewrite app_nil_r, <- app_assoc.
Qed.

Lemma spec_run_sorted ops st : Forall (StronglySorted tick_le) (spec_run ops st).1.
Proof.
  revert st. induction ops as [|o ops IH]; intros st; simpl; [done|].
  destruct (spec_step o st) as [out st1] eqn:Ho. specialize (IH st1).
  destruct (spec_run ops st1) as [outs st2]. simpl in *. constructor; [|done].
  destruct o; simplify_eq/=; [constructor | apply stable_sort_sorted..].
Qed.
End Refinement.

Arguments op : clear implicits.

(** C34: the runner refines its specification.  Any sequence of fewer than 2^64
    operations on a fresh runner runs without panicking, returns exactly what the
    abstract stable sort returns, and leaves exactly the abstract remainder
    pending, in drain order. *)
Theorem run_refines_stable_sort {P} (ops : list (op P)) :
  len ops < 2 ^ 64 ->
  exists r, run ops new_Runner = Ok ((spec_run ops []).1, r) /\ runner_wf r /\
    forget <$> pending r = stable_sort (spec_run ops []).2.
Proof.
  intros Hlen. destruct (run_refines_from ops new_Runner [] new_Runner_refines) as (r & ? & ? & ?);
    simpl; (lia || eauto).
Qed.

Definition sample_ops : list (op nat) :=
  [OpSchedule 5 1%nat; OpSchedule 3 2%nat; OpSchedule 5 3%nat; OpDrainDue 3;
   OpSchedule 4 4%nat; OpDrainDue 5; OpSchedule 9 5%nat; OpDrainAll].

Lemma run_refines_stable_sort_witness :
  len sample_ops < 2 ^ 64 /\
  exists r, run sample_ops new_Runner =
    Ok ([[]; []; []; [(3, 2%nat)]; []; [(4, 4%nat); (5, 1%nat); (5, 3%nat)]; []; [(9, 5%nat)]], r).
Proof.
  split; [by vm_compute|].
  destruct (run_refines_stable_sort sample_ops) as (r & Hr & _); [by vm_compute|].
  exists r. exact Hr.
Defined.

(** No event is lost, duplicated or reordered.  Over any run of fewer than
    2^64 operations from a fresh runner, what was drained together with what is
    still pending is a permutation of what was scheduled, and each drain is in
    due-tick order. *)
Theorem run_conserves_events {P} (ops : list (op P)) outs r :
  len ops < 2 ^ 64 -> run ops new_Runner = Ok (outs, r) ->
  concat outs ++ (forget <$> pending r) ≡ₚ scheduled ops /\
  Forall (StronglySorted tick_le) outs.
Proof.
  intros Hlen Hrun.
  destruct (run_refines_from ops new_Runner [] new_Runner_refines) as (r' & Hrun' & _ & Hp);
    [simpl; lia..|].
  rewrite Hrun' in Hrun. simplify_eq. rewrite Hp, stable_sort_perm, spec_run_conserves.
  split; [done | apply spec_run_sorted].
Qed.

Lemma run_conserves_events_witness :
  exists outs r, run sample_ops new_Runner = Ok (outs, r) /\
    concat outs ++ (forget <$> pending r) ≡ₚ scheduled sample_ops.
Proof.
  eexists _, _. split; [vm_compute; reflexivity|].
  refine (proj1 (run_conserves_events sample_ops _ _ _ _)); vm_compute; reflexivity.
Defined.
