(* ===== verification/Recorder.v ===== *)
(** * The submit_sm journal ([internal/recorder/recorder.go])

    A fixed-capacity ring of recorded PDUs, specified by the list of every PDU
    ever appended: the ring shows its last [capacity] elements. *)

From S2P Require Import Prelude.
From S2P Require Import Rng.

(** ** Data *)

Record RecordedPDU := mkRecordedPDU {
  Rec_Index : Z;
  Rec_MessageID : string;
  Rec_SourceAddr : string;
  Rec_SourceTON : byte;
  Rec_SourceNPI : byte;
  Rec_DestAddr : string;
  Rec_DestTON : byte;
  Rec_DestNPI : byte;
  Rec_DataCoding : byte;
  Rec_ShortMessage : bytes;
  Rec_PerBindClock : Z
}.

Definition set_Index (i : Z) (p : RecordedPDU) : RecordedPDU :=
  mkRecordedPDU i (Rec_MessageID p) (Rec_SourceAddr p) (Rec_SourceTON p) (Rec_SourceNPI p)
    (Rec_DestAddr p) (Rec_DestTON p) (Rec_DestNPI p) (Rec_DataCoding p) (Rec_ShortMessage p)
    (Rec_PerBindClock p).

(** Go's zero value, which fills a fresh ring. *)
Definition zero_RecordedPDU : RecordedPDU :=
  mkRecordedPDU 0 "" "" NUL NUL "" NUL NUL NUL [] 0.

Record Filter := mkFilter {
  F_SourceAddr : string;
  F_DestAddr : string;
  F_Since : Z;
  F_Limit : Z
}.

Record Recorder := mkRecorder {
  ring : list RecordedPDU;
  capN : Z;
  total : Z;
  size : Z
}.

(** ** Operations

    The mutex serialises them, so each is one atomic step. *)

Definition New (capacity : Z) : Recorder :=
  let capacity := if capacity <? 1 then 1 else capacity in
  mkRecorder (replicate (Z.to_nat capacity) zero_RecordedPDU) capacity 0 0.

(** [l[i] = x]: panics out of range. *)
Definition slice_set {A} (l : list A) (i : Z) (x : A) : may_panic (list A) :=
  if (0 <=? i) && (i <? len l) then Ok (<[Z.to_nat i := x]> l) else Panic.

(** [a % b] on unsigned words: panics on a zero divisor. *)
Definition go_mod (a b : Z) : may_panic Z := if b =? 0 then Panic else Ok (a mod b).

Definition Append (p : RecordedPDU) (r : Recorder) : may_panic Recorder :=
  let p := set_Index (total r) p in
  let* slot := go_mod (total r) (capN r) in
  let* ring' := slice_set (ring r) slot p in
  Ok (mkRecorder ring' (capN r) (total r +64 1)
        (if size r <? len (ring r) then size r + 1 else size r)).

Definition skips (f : Filter) (rec : RecordedPDU) : bool :=
  (negb (String.eqb (F_SourceAddr f) "") && negb (String.eqb (Rec_SourceAddr rec) (F_SourceAddr f)))
  || (negb (String.eqb (F_DestAddr f) "") && negb (String.eqb (Rec_DestAddr rec) (F_DestAddr f))).

(** The loop of [Snapshot]; [fuel] is the distance from [i] to [total]. *)
Fixpoint snapshot_loop (fuel : nat) (r : Recorder) (f : Filter) (i : Z) (out : list RecordedPDU)
  : may_panic (list RecordedPDU) :=
  match fuel with
  | O => Ok out
  | S fuel' =>
      let* slot := go_mod i (capN r) in
      match ring r !! Z.to_nat slot with
      | None => Panic
      | Some rec =>
          if skips f rec then snapshot_loop fuel' r f (i + 1) out
          else
            let out := out ++ [rec] in
            if (0 <? F_Limit f) && (len out =? F_Limit f) then Ok out
            else snapshot_loop fuel' r f (i + 1) out
      end
  end.

Definition Snapshot (f : Filter) (r : Recorder) : may_panic (list RecordedPDU) :=
  let oldest := if total r >? capN r then total r -64 capN r else 0 in
  let start := Z.max oldest (F_Since f) in
  snapshot_loop (Z.to_nat (total r - start)) r f start [].

Definition Len (r : Recorder) : Z := size r.

(** ** Specification *)

(** What the recorder promises to retain of a history: the last [cap] entries. *)
Definition retained (cap : Z) (log : list RecordedPDU) : list RecordedPDU :=
  drop (length log - Z.to_nat cap) log.

Definition limited (n : Z) (l : list RecordedPDU) : list RecordedPDU :=
  if 0 <? n then take (Z.to_nat n) l else l.

Definition query (f : Filter) (l : list RecordedPDU) : list RecordedPDU :=
  limited (F_Limit f)
    (base.filter (fun rec => skips f rec = false /\ F_Since f <= Rec_Index rec) l).

(** The history with the indexes the recorder assigns. *)
Definition indexed (ps : list RecordedPDU) : list RecordedPDU :=
  imap (fun i p => set_Index (Z.of_nat i) p) ps.

Fixpoint append_all (ps : list RecordedPDU) (r : Recorder) : may_panic Recorder :=
  match ps with
  | [] => Ok r
  | p :: ps => let* r := Append p r in append_all ps r
  end.

(** [r] holds the history [log] in a ring of [cap] slots. *)
Record represents (cap : Z) (log : list RecordedPDU) (r : Recorder) : Prop := {
  rep_cap : 0 < cap;
  rep_capN : capN r = cap;
  rep_ring : len (ring r) = cap;
  rep_total : total r = len log;
  rep_size : size r = Z.min (len log) cap;
  rep_slots : forall i : nat, len log - cap <= Z.of_nat i < len log ->
    ring r !! Z.to_nat (Z.of_nat i mod cap) = log !! i
}.

Lemma New_represents capacity : represents (Z.max 1 capacity) [] (New capacity).
Proof.
  unfold New. destruct (Z.ltb_spec capacity 1).
  - replace (Z.max 1 capacity) with 1 by lia. split; simpl; intros; lia || done.
  - replace (Z.max 1 capacity) with capacity by lia.
    split; simpl; rewrite ?length_replicate; intros; lia || done.
Qed.

Lemma mod_distinct_window cap i j :
  0 < cap -> 0 <= i < j -> j - i < cap -> i mod cap <> j mod cap.
Proof.
  intros Hc Hij Hd Heq.
  assert ((j - i) mod cap = 0) as H0.
  { rewrite Zminus_mod, Heq, Z.sub_diag. by apply Z.mod_0_l; lia. }
  rewrite Z.mod_small in H0 by lia. lia.
Qed.

Lemma Append_represents cap log r p :
  represents cap log r -> len log < 2 ^ 64 - 1 ->
  exists r', Append p r = Ok r' /\ represents cap (log ++ [set_Index (len log) p]) r'.
Proof.
  intros [Hcap HcapN Hring Htotal Hsize Hslots] Hlen.
  assert (0 <= total r mod cap < cap) as Hslot by (by apply Z.mod_pos_bound).
  unfold Append, go_mod, slice_set. rewrite HcapN.
  replace (cap =? 0) with false by (symmetry; bool_lia). rewrite obind_Ok, Hring.
  replace (_ && _) with true by (symmetry; apply andb_true_iff; split; bool_lia). rewrite obind_Ok.
  eexists; split; [reflexivity|]. split; simpl; rewrite ?length_insert, ?length_app; simpl; try done.
  - rewrite u64_small; unfold is_u64; lia.
  - destruct (Z.ltb_spec (size r) cap); lia.
  - rewrite Htotal in Hslot |- *. intros i Hi. destruct (decide (i = length log)) as [->|Hne].
    + rewrite list_lookup_insert_eq by lia.
      rewrite lookup_app_r, Nat.sub_diag by lia. done.
    + rewrite list_lookup_insert_ne.
      * rewrite lookup_app_l by lia. apply Hslots. lia.
      * pose proof (mod_distinct_window cap (Z.of_nat i) (len log) Hcap ltac:(lia) ltac:(lia)).
        pose proof (Z.mod_pos_bound (Z.of_nat i) cap Hcap). lia.
Qed.

Lemma indexed_snoc ps p : indexed (ps ++ [p]) = indexed ps ++ [set_Index (len ps) p].
Proof. unfold indexed. rewrite imap_app. simpl. by rewrite Nat.add_0_r. Qed.

Lemma length_indexed ps : length (indexed ps) = length ps.
Proof. apply length_imap. Qed.

Lemma append_all_snoc ps p r :
  append_all (ps ++ [p]) r = let* r := append_all ps r in Append p r.
Proof.
  revert r. induction ps as [|q ps IH]; intros r; simpl.
  - by destruct (Append p r).
  - by destruct (Append q r); simpl.
Qed.

Lemma append_all_represents capacity ps :
  len ps < 2 ^ 64 ->
  exists r, append_all ps (New capacity) = Ok r /\ represents (Z.max 1 capacity) (indexed ps) r.
Proof.
  induction ps as [|p ps IH] using rev_ind; intros Hlen.
  { eexists; split; [reflexivity | apply New_represents]. }
  rewrite length_app in Hlen. simpl in Hlen.
  destruct IH as (r & Hr & Hrep); [lia|].
  destruct (Append_represents _ _ r p Hrep) as (r' & Hr' & Hrep'); [rewrite length_indexed; lia|].
  exists r'. split; [|by rewrite indexed_snoc, <- length_indexed].
  by rewrite append_all_snoc, Hr.
Qed.

Lemma indexed_lookup ps i rec :
  indexed ps !! i = Some rec -> Rec_Index rec = Z.of_nat i.
Proof.
  unfold indexed. rewrite list_lookup_imap. intros H.
  apply fmap_Some in H as (p & _ & ->). done.
Qed.

(** ** Snapshot computes the query *)

Lemma limited_app_full n out l :
  0 < n -> len out = n -> limited n (out ++ l) = out.
Proof.
  intros Hn Hout. unfold limited. replace (0 <? n) with true by (symmetry; bool_lia).
  rewrite take_app_length'; [done|lia].
Qed.

Lemma snapshot_loop_spec cap log r f fuel i out :
  represents cap log r -> 0 <= i -> len log - cap <= i -> Z.of_nat fuel = len log - i ->
  (0 < F_Limit f -> len out < F_Limit f) ->
  snapshot_loop fuel r f i out =
  Ok (limited (F_Limit f)
        (out ++ base.filter (fun rec => skips f rec = false) (drop (Z.to_nat i) log))).
Proof.
  intros Hrep. destruct Hrep as [Hcap HcapN Hring Htotal Hsize Hslots].
  assert (forall out, (0 < F_Limit f -> len out < F_Limit f) -> limited (F_Limit f) out = out) as Hshort.
  { intros o Ho. unfold limited. destruct (Z.ltb_spec 0 (F_Limit f)); [|done].
    rewrite take_ge; [done|lia]. }
  revert i out. induction fuel as [|fuel IH]; intros i out H0 Hi Hfuel Hout; simpl.
  { rewrite drop_ge by lia. rewrite filter_nil, app_nil_r. by rewrite Hshort. }
  unfold go_mod. rewrite HcapN. replace (cap =? 0) with false by (symmetry; bool_lia).
  rewrite obind_Ok. pose proof (Hslots (Z.to_nat i)) as Hslot.
  rewrite Z2Nat.id in Hslot by lia. rewrite Hslot by lia.
  destruct (lookup_lt_is_Some_2 log (Z.to_nat i)) as [rec Hrec]; [lia|].
  rewrite Hrec. rewrite (drop_S log rec (Z.to_nat i)) by done.
  replace (S (Z.to_nat i)) with (Z.to_nat (i + 1)) by lia.
  destruct (skips f rec) eqn:Hskip.
  - rewrite IH by (lia || done). by rewrite filter_cons_False by congruence.
  - rewrite filter_cons_True by done. set (rest := base.filter _ (drop _ _)) in *.
    replace (out ++ rec :: rest) with ((out ++ [rec]) ++ rest) by (by rewrite <- app_assoc).
    destruct (Z.ltb_spec 0 (F_Limit f)) as [Hl|Hl]; simpl.
    + specialize (Hout Hl). rewrite length_app. simpl.
      destruct (Z.eqb_spec (Z.of_nat (length out + 1)) (F_Limit f)).
      * rewrite limited_app_full; [done..|rewrite length_app; simpl; lia].
      * apply IH; rewrite ?length_app; simpl; lia.
    + apply IH; lia.
Qed.

Definition well_indexed (log : list RecordedPDU) : Prop :=
  forall i rec, log !! i = Some rec -> Rec_Index rec = Z.of_nat i.

Lemma filter_ext_in {A} (P Q : A -> Prop) `{forall x, Decision (P x)} `{forall x, Decision (Q x)} l :
  Forall (fun x => P x <-> Q x) l -> base.filter P l = base.filter Q l.
Proof.
  induction 1 as [|x l Hx _ IH]; [done|]. rewrite !filter_cons, IH.
  by repeat case_decide; try tauto.
Qed.

(** Starting the scan at [since] instead of at the oldest retained record skips
    exactly the records whose index is below [since]. *)
Lemma filter_since_drop log f oldest :
  well_indexed log -> 0 <= oldest ->
  base.filter (fun rec => skips f rec = false)
    (drop (Z.to_nat (Z.max oldest (F_Since f))) log) =
  base.filter (fun rec => skips f rec = false /\ F_Since f <= Rec_Index rec)
    (drop (Z.to_nat oldest) log).
Proof.
  intros Hidx H0. set (k := (Z.to_nat (Z.max oldest (F_Since f)) - Z.to_nat oldest)%nat).
  rewrite <- (take_drop k (drop (Z.to_nat oldest) log)).
  rewrite filter_app, drop_drop.
  replace (Z.to_nat oldest + k)%nat with (Z.to_nat (Z.max oldest (F_Since f))) by lia.
  rewrite (filter_none _ (take _ _)); [simpl; apply filter_ext_in|]; apply Forall_lookup; intros i rec Hi.
  - rewrite lookup_drop in Hi. apply Hidx in Hi. intuition lia.
  - apply lookup_take_Some in Hi as [Hi Hk]. rewrite lookup_drop in Hi. apply Hidx in Hi. lia.
Qed.

Lemma Snapshot_represents cap log r f :
  represents cap log r -> well_indexed log -> len log < 2 ^ 64 ->
  Snapshot f r = Ok (query f (retained cap log)).
Proof.
  intros Hrep Hidx Hlen. pose proof (rep_cap _ _ _ Hrep) as Hcap.
  unfold Snapshot, query, retained. rewrite (rep_total _ _ _ Hrep), (rep_capN _ _ _ Hrep).
  set (oldest := if len log >? cap then len log -64 cap else 0).
  assert (oldest = Z.max 0 (len log - cap)) as Hold.
  { unfold oldest. rewrite Z.gtb_ltb. destruct (Z.ltb_spec cap (len log)); [|lia].
    rewrite u64_small; unfold is_u64; lia. }
  replace (length log - Z.to_nat cap)%nat with (Z.to_nat oldest) by lia.
  rewrite <- filter_since_drop by (done || lia).
  set (start := Z.max oldest (F_Since f)).
  destruct (Z.le_gt_cases start (len log)).
  - rewrite (snapshot_loop_spec cap log) by (done || lia). done.
  - replace (Z.to_nat (len log - start)) with 0%nat by lia.
    rewrite (drop_ge log) by lia. simpl. unfold limited.
    rewrite filter_nil, take_nil. by destruct (0 <? F_Limit f).
Qed.

Lemma indexed_well_indexed ps : well_indexed (indexed ps).
Proof. intros i rec. apply indexed_lookup. Qed.

(** C35: the ring implements the journal.  For any capacity and any history of
    fewer than 2^64 appends, appending never panics, [Snapshot] never panics and
    answers every filter from exactly the last [max 1 capacity] records of the
    history, oldest first and with their original indexes, and [Len] is the
    number of records retained. *)
Theorem Snapshot_is_query capacity ps :
  len ps < 2 ^ 64 ->
  exists r, append_all ps (New capacity) = Ok r /\
    (forall f, Snapshot f r = Ok (query f (retained (Z.max 1 capacity) (indexed ps)))) /\
    Len r = len (retained (Z.max 1 capacity) (indexed ps)).
Proof.
  intros Hlen. destruct (append_all_represents capacity ps Hlen) as (r & Hr & Hrep).
  exists r. split_and!; [done| |].
  - intros f. apply Snapshot_represents; [done | apply indexed_well_indexed|].
    by rewrite length_indexed.
  - unfold Len, retained. rewrite (rep_size _ _ _ Hrep), length_drop. lia.
Qed.

Definition sample_rec (src : string) : RecordedPDU :=
  mkRecordedPDU 0 "m" src NUL NUL "22507" NUL NUL NUL [] 1.

Lemma Snapshot_is_query_witness :
  len [sample_rec "a"; sample_rec "b"; sample_rec "a"] < 2 ^ 64 /\
  exists r, append_all [sample_rec "a"; sample_rec "b"; sample_rec "a"] (New 2) = Ok r /\
    Snapshot (mkFilter "a" "" 0 0) r = Ok [set_Index 2 (sample_rec "a")].
Proof.
  split; [by_decide|].
  destruct (Snapshot_is_query 2 [sample_rec "a"; sample_rec "b"; sample_rec "a"]) as (r & Hr & HS & _);
    [by_decide|].
  exists r. split; [exact Hr|]. rewrite HS. reflexivity.
Defined.

(** ** Paging *)

Definition index_lt (p q : RecordedPDU) : Prop := Rec_Index p < Rec_Index q.

Lemma consecutive_sorted l base :
  (forall i rec, l !! i = Some rec -> Rec_Index rec = base + Z.of_nat i) ->
  StronglySorted index_lt l.
Proof.
  revert base. induction l as [|p l IH]; intros base Hidx; constructor.
  - apply (IH (base + 1)). intros i rec Hi. rewrite (Hidx (S i) rec Hi). lia.
  - apply Forall_lookup. intros i q Hi. unfold index_lt.
    rewrite (Hidx O p eq_refl), (Hidx (S i) q Hi). lia.
Qed.

Lemma query_matches_sorted log cap f :
  well_indexed log ->
  StronglySorted index_lt
    (base.filter (fun rec => skips f rec = false /\ F_Since f <= Rec_Index rec) (retained cap log)).
Proof.
  intros Hidx. apply StronglySorted_filter, StronglySorted_drop, (consecutive_sorted _ 0).
  intros i rec Hi. rewrite (Hidx i rec Hi). lia.
Qed.

(** In a list sorted by index, the elements after the last one of a prefix are
    those with a larger index. *)
Lemma sorted_page l n m :
  StronglySorted index_lt l -> Rec_Index <$> last (take n l) = Some m ->
  base.filter (fun rec => m + 1 <= Rec_Index rec) l = drop n l.
Proof.
  intros Hs Hm. rewrite <- (take_drop n l) at 1. rewrite <- (take_drop n l) in Hs.
  destruct (last (take n l)) as [z|] eqn:Hlast; simplify_option_eq.
  apply last_Some in Hlast as [l' Ht]. rewrite Ht in Hs |- *.
  apply StronglySorted_app in Hs as (Hlt & Hs1 & _). apply StronglySorted_app in Hs1 as (Hlt1 & _ & _).
  rewrite filter_app, filter_none, filter_all; [done|..]; apply Forall_forall; intros x Hx.
  - specialize (Hlt z x). unfold index_lt in Hlt. assert (Rec_Index z < Rec_Index x); [|lia].
    apply Hlt; [|done]. apply elem_of_app. right. by apply list_elem_of_singleton.
  - apply elem_of_app in Hx as [Hx|Hx].
    + specialize (Hlt1 x z Hx ltac:(by apply list_elem_of_singleton)). unfold index_lt in Hlt1. lia.
    + apply list_elem_of_singleton in Hx as ->. lia.
Qed.

Definition page (f : Filter) (since limit : Z) : Filter :=
  mkFilter (F_SourceAddr f) (F_DestAddr f) since limit.

Lemma query_since f l rec : rec ∈ query f l -> F_Since f <= Rec_Index rec.
Proof.
  intros Hin.
  assert (rec ∈ base.filter (fun rec => skips f rec = false /\ F_Since f <= Rec_Index rec) l) as H.
  { unfold query, limited in Hin. destruct (0 <? F_Limit f); [|done].
    by apply elem_of_take in Hin as (i & Hi & _); apply list_elem_of_lookup_2 in Hi. }
  by apply list_elem_of_filter in H as [[_ ?] _].
Qed.

Lemma query_page_limited f l since n :
  query (page f since n) l =
  limited n (base.filter (fun rec => skips f rec = false /\ since <= Rec_Index rec) l).
Proof. reflexivity. Qed.

Lemma query_page f l since n m :
  0 < n ->
  StronglySorted index_lt
    (base.filter (fun rec => skips f rec = false /\ since <= Rec_Index rec) l) ->
  Rec_Index <$> last (query (page f since n) l) = Some m -> since <= m + 1 ->
  query (page f since 0) l = query (page f since n) l ++ query (page f (m + 1) 0) l.
Proof.
  intros Hn Hs. rewrite !query_page_limited. unfold limited. simpl.
  replace (0 <? n) with true by (symmetry; bool_lia). intros Hm Hle.
  rewrite <- (take_drop (Z.to_nat n) (base.filter _ l)) at 1. f_equal.
  rewrite <- (sorted_page _ _ m Hs Hm), list_filter_filter. apply list_filter_iff.
  intros rec. intuition lia.
Qed.
