(* ===== verification/Config.v ===== *)
(** * Configuration schema ([internal/config/schema.go], [enums.go], [profiles.go])

    The immutable configuration tree, its enumerations (named strings in the
    source) and the validation catalogue of the six profiles.  An optional
    ([*T]) field is an [option]; [int] and [uint64] values are [Z]. *)

From S2P Require Import Prelude.
From S2P Require Import Rng.

#[local] Open Scope string_scope.

(** ** Enumerations *)

(** [v] is one of the listed strings: the shape of every [Valid] method. *)
Definition one_of (values : list string) (v : string) : bool := existsb (String.eqb v) values.

Definition Profile := string.
Definition ProfileHealthy : Profile := "healthy".
Definition ProfileFlakyCarrier : Profile := "flaky-carrier".
Definition ProfileThrottlingCarrier : Profile := "throttling-carrier".
Definition ProfileDeadCarrier : Profile := "dead-carrier".
Definition ProfileSlowCarrier : Profile := "slow-carrier".
Definition ProfileThroughputCapped : Profile := "throughput-capped".

Definition Profile_Valid (p : Profile) : bool :=
  one_of [ProfileHealthy; ProfileFlakyCarrier; ProfileThrottlingCarrier; ProfileDeadCarrier;
          ProfileSlowCarrier; ProfileThroughputCapped] p.

Definition LatencyDistribution := string.
Definition LatencyFixed : LatencyDistribution := "fixed".
Definition LatencyUniform : LatencyDistribution := "uniform".
Definition LatencyNormal : LatencyDistribution := "normal".
Definition LatencySpike : LatencyDistribution := "spike".

Definition LatencyDistribution_Valid (d : LatencyDistribution) : bool :=
  one_of [LatencyFixed; LatencyUniform; LatencyNormal; LatencySpike] d.

Definition Clock := string.
Definition ClockLogical : Clock := "logical".
Definition ClockWallclock : Clock := "wallclock".

Definition Clock_Valid (c : Clock) : bool := one_of [ClockLogical; ClockWallclock] c.

Definition DisconnectScope := string.
Definition DisconnectScopeAll : DisconnectScope := "all".
Definition DisconnectScopeOldest : DisconnectScope := "oldest".
Definition DisconnectScopeRandom : DisconnectScope := "random".

Definition DisconnectScope_Valid (s : DisconnectScope) : bool :=
  one_of [DisconnectScopeAll; DisconnectScopeOldest; DisconnectScopeRandom] s.

Definition DisconnectWhen := string.
Definition DisconnectBeforeResponse : DisconnectWhen := "before_response".
Definition DisconnectAfterResponse : DisconnectWhen := "after_response".

Definition DisconnectWhen_Valid (w : DisconnectWhen) : bool :=
  one_of [DisconnectBeforeResponse; DisconnectAfterResponse] w.

Definition MOMode := string.
Definition MOModeScheduled : MOMode := "scheduled".
Definition MOModeAuto : MOMode := "auto".
Definition MOModeDisabled : MOMode := "disabled".

Definition MOMode_Valid (m : MOMode) : bool :=
  one_of [MOModeScheduled; MOModeAuto; MOModeDisabled] m.

Definition DeadCarrierMode := string.
Definition DeadCarrierRejectBind : DeadCarrierMode := "reject_bind".
Definition DeadCarrierTimeoutAll : DeadCarrierMode := "timeout_all".

Definition DeadCarrierMode_Valid (m : DeadCarrierMode) : bool :=
  one_of [DeadCarrierRejectBind; DeadCarrierTimeoutAll] m.

(** [config.EdgeCaseKind], a string; the codec's kind is [SmppEdge.EdgeCaseKind]. *)
Definition ConfigEdgeCaseKind := string.
Definition EdgeCaseBadLength : ConfigEdgeCaseKind := "bad_length".
Definition EdgeCaseUnknownCmdID : ConfigEdgeCaseKind := "unknown_command_id".
Definition EdgeCaseBadSequence : ConfigEdgeCaseKind := "bad_sequence".

Definition EdgeCaseKind_Valid (k : ConfigEdgeCaseKind) : bool :=
  one_of [EdgeCaseBadLength; EdgeCaseUnknownCmdID; EdgeCaseBadSequence] k.

Abbreviation SMPPErrorCode := string.
Definition ErrorCodeROK : SMPPErrorCode := "ESME_ROK".
Definition ErrorCodeRThrottled : SMPPErrorCode := "ESME_RTHROTTLED".
Definition ErrorCodeRSubmitFail : SMPPErrorCode := "ESME_RSUBMITFAIL".
Definition ErrorCodeRInvDstAdr : SMPPErrorCode := "ESME_RINVDSTADR".
Definition ErrorCodeRSysErr : SMPPErrorCode := "ESME_RSYSERR".
Definition ErrorCodeRMsgQFul : SMPPErrorCode := "ESME_RMSGQFUL".
Definition ErrorCodeRInvSrcAdr : SMPPErrorCode := "ESME_RINVSRCADR".

Definition SMPPErrorCode_Valid (c : SMPPErrorCode) : bool :=
  one_of [ErrorCodeROK; ErrorCodeRThrottled; ErrorCodeRSubmitFail; ErrorCodeRInvDstAdr;
          ErrorCodeRSysErr; ErrorCodeRMsgQFul; ErrorCodeRInvSrcAdr] c.

Definition SMPPErrorCode_ValidError (c : SMPPErrorCode) : bool :=
  negb (String.eqb c ErrorCodeROK) && SMPPErrorCode_Valid c.

Lemma one_of_true values v : one_of values v = true <-> v ∈ values.
Proof.
  unfold one_of. rewrite existsb_exists. split.
  - intros (x & Hx & ->%String.eqb_eq). by apply list_elem_of_In.
  - intros H. exists v. split; [by apply list_elem_of_In | apply String.eqb_refl].
Qed.

(** ** Schema *)

Record BindCredentials := mkBindCredentials { BC_SystemID : string; BC_Password : string }.

Record TLSConfig := mkTLSConfig { TLS_Enabled : bool; TLS_CertFile : string; TLS_KeyFile : string }.

(** A nil [error_mix] map is [None]; an empty one is [Some ∅]. *)
Record ScenarioParams := mkScenarioParams {
  SP_SuccessRate : option float64;
  SP_ErrorMix : option (gmap SMPPErrorCode Z);
  SP_DisconnectIntervalTicks : option Z;
  SP_ThroughputCapPerSec : option Z;
  SP_ErrorCode : option SMPPErrorCode;
  SP_Mode : option DeadCarrierMode
}.

Record LatencyParams := mkLatencyParams {
  LP_MS : option Z;
  LP_MinMS : option Z;
  LP_MaxMS : option Z;
  LP_MeanMS : option Z;
  LP_StddevMS : option Z;
  LP_BaseMS : option Z;
  LP_SpikeMS : option Z;
  LP_IntervalTicks : option Z
}.

Record LatencyConfig := mkLatencyConfig {
  LC_Distribution : LatencyDistribution;
  LC_Params : LatencyParams
}.

Record DLRDelay := mkDLRDelay {
  DD_Distribution : LatencyDistribution;
  DD_Ticks : option Z;
  DD_MinTicks : option Z;
  DD_MaxTicks : option Z
}.

Record DLROutcomeWeights := mkDLROutcomeWeights { OW_Delivered : Z; OW_Failed : Z; OW_Expired : Z }.

Record DLRConfig := mkDLRConfig {
  DC_Delay : DLRDelay;
  DC_OutcomeWeights : DLROutcomeWeights;
  DC_Clock : Clock
}.

Record ProtocolEdgeCasesConfig := mkProtocolEdgeCasesConfig {
  EC_InjectEveryTicks : option Z;
  EC_Kinds : list ConfigEdgeCaseKind
}.

Record ScenarioConfig := mkScenarioConfig {
  SC_Profile : Profile;
  SC_Params : ScenarioParams;
  SC_Latency : LatencyConfig;
  SC_DLR : option DLRConfig;
  SC_ProtocolEdgeCasesEnabled : bool;
  SC_ProtocolEdgeCases : option ProtocolEdgeCasesConfig
}.

Record MOEvent := mkMOEvent {
  MO_AtTick : Z;
  MO_SourceAddr : string;
  MO_DestAddr : string;
  MO_Content : string
}.

Record MOInjectionConfig := mkMOInjectionConfig {
  MI_Mode : MOMode;
  MI_Clock : Clock;
  MI_Events : list MOEvent;
  MI_RatePerSec : option Z;
  MI_ContentTemplate : option string
}.

Record ScheduledDisconnect := mkScheduledDisconnect {
  SD_AtTick : Z;
  SD_Scope : DisconnectScope;
  SD_When : DisconnectWhen
}.

Record ScheduledTransition := mkScheduledTransition { ST_AtTick : Z; ST_ToProfile : Profile }.

Record VirtualSMSCConfig := mkVirtualSMSCConfig {
  VS_Name : string;
  VS_Port : Z;
  VS_BindCredentials : BindCredentials;
  VS_AddrTON : Z;
  VS_AddrNPI : Z;
  VS_AddressRange : string;
  VS_TLS : TLSConfig;
  VS_Seed : option Z;
  VS_PDUBufferSize : Z;
  VS_ThroughputLimitPerSec : option Z;
  VS_QuiescenceFlushMs : option Z;
  VS_Scenario : ScenarioConfig;
  VS_MOInjection : option MOInjectionConfig;
  VS_ScheduledDisconnects : list ScheduledDisconnect;
  VS_ScheduledTransitions : list ScheduledTransition
}.

Record ObservabilityConfig := mkObservabilityConfig { OC_HTTPPort : Z }.

Record Config := mkConfig {
  CFG_Observability : option ObservabilityConfig;
  CFG_VirtualSMSCs : list VirtualSMSCConfig
}.

Definition QuiescenceFlushDefaultMs : Z := 250.

Definition EffectiveQuiescenceFlushMs (vs : VirtualSMSCConfig) : Z :=
  match VS_QuiescenceFlushMs vs with Some ms => ms | None => QuiescenceFlushDefaultMs end.

(** ** Profile validation catalogue *)

Definition knobSuccessRate : string := "success_rate".
Definition knobErrorMix : string := "error_mix".
Definition knobDisconnectIntervalTicks : string := "disconnect_interval_ticks".
Definition knobThroughputCapPerSec : string := "throughput_cap_per_sec".
Definition knobErrorCode : string := "error_code".
Definition knobMode : string := "mode".

Definition throughputCapMin : Z := 1.
Definition throughputCapMax : Z := 1000000.
Definition latencyMSMax : Z := 600000.
Definition slowCarrierLatencyMinMS : Z := 2000.
Definition slowCarrierLatencyMaxMS : Z := 4000.
Definition pduBufferSizeMin : Z := 1.
Definition pduBufferSizeMax : Z := 1000000.
Definition weightMax : Z := 1000000000.
Definition moAddrMaxLen : Z := 20.
Definition moContentMaxLen : Z := 254.
Definition portMin : Z := 1.
Definition portMax : Z := 65535.
Definition octetMax : Z := 255.
Definition quiescenceFlushMinMs : Z := 1.
Definition quiescenceFlushMaxMs : Z := 600000.

Record profileSpec := mkProfileSpec {
  PS_exposes : list string;
  PS_requires : string;
  PS_latencyMinMS : Z;
  PS_latencyMaxMS : Z
}.

Definition profileCatalogue (p : Profile) : option profileSpec :=
  if String.eqb p ProfileHealthy then Some (mkProfileSpec [] "" 0 latencyMSMax)
  else if String.eqb p ProfileFlakyCarrier then
    Some (mkProfileSpec [knobSuccessRate; knobErrorMix; knobDisconnectIntervalTicks]
            knobSuccessRate 0 latencyMSMax)
  else if String.eqb p ProfileThrottlingCarrier then
    Some (mkProfileSpec [knobThroughputCapPerSec; knobErrorCode]
            knobThroughputCapPerSec 0 latencyMSMax)
  else if String.eqb p ProfileDeadCarrier then
    Some (mkProfileSpec [knobMode] knobMode 0 latencyMSMax)
  else if String.eqb p ProfileSlowCarrier then
    Some (mkProfileSpec [] "" slowCarrierLatencyMinMS slowCarrierLatencyMaxMS)
  else if String.eqb p ProfileThroughputCapped then
    Some (mkProfileSpec [knobThroughputCapPerSec] knobThroughputCapPerSec 0 latencyMSMax)
  else None.

(** [spec.exposes[knob]]. *)
Definition PS_has (spec : profileSpec) (knob : string) : bool := one_of (PS_exposes spec) knob.

(** The catalogue has an entry for exactly the profiles [Valid] accepts. *)
Lemma profileCatalogue_known p :
  Profile_Valid p = true <-> exists spec, profileCatalogue p = Some spec.
Proof.
  unfold profileCatalogue, Profile_Valid, one_of, existsb.
  repeat (destruct (String.eqb p _); [by split; eauto|]). simpl.
  split; [done | by intros [? ?]].
Qed.

(** ** Maps iterated in key order

    Go randomises map iteration; the code sorts the keys.  Sorting any
    enumeration of the keys gives [sorted_keys]. *)

Definition sorted_keys {V} (m : gmap string V) : list string :=
  merge_sort String.le (elements (dom m)).

Lemma sorted_keys_perm {V} (m : gmap string V) : sorted_keys m ≡ₚ elements (dom m).
Proof. exact (merge_sort_Permutation String.le (elements (dom m))). Qed.

Lemma sorted_keys_unique {V} (m : gmap string V) l :
  Sorted String.le l -> l ≡ₚ elements (dom m) -> l = sorted_keys m.
Proof.
  intros Hs Hp. apply (Sorted_unique String.le); [done|apply Sorted_merge_sort; apply _|].
  by rewrite Hp, sorted_keys_perm.
Qed.

Lemma elem_of_sorted_keys {V} (m : gmap string V) k : k ∈ sorted_keys m <-> is_Some (m !! k).
Proof. rewrite sorted_keys_perm, elem_of_elements. apply elem_of_dom. Qed.

Lemma NoDup_sorted_keys {V} (m : gmap string V) : NoDup (sorted_keys m).
Proof. rewrite sorted_keys_perm. apply NoDup_elements. Qed.
