(* ===== verification/Fault.v ===== *)
(** * The fault injector ([internal/fault/latency.go], [throughput.go])

    Served latencies drawn from the bind's source, and the wall-clock throughput
    window. *)

From S2P Require Import Prelude.
From S2P Require Import Rng.
From S2P Require Import Config.

(** ** Latency *)

Definition deref (p : option Z) : Z := match p with Some v => v | None => 0 end.

Section Latency.
Context {R : Type} `{RandSource R}.

Definition LatencyMS (cfg : LatencyConfig) (tick : Z) (rng : R) : may_panic (Z * R) :=
  let p := LC_Params cfg in
  if String.eqb (LC_Distribution cfg) LatencyFixed then Ok (deref (LP_MS p), rng)
  else if String.eqb (LC_Distribution cfg) LatencyUniform then
    let lo := deref (LP_MinMS p) in
    let hi := deref (LP_MaxMS p) in
    if hi <=? lo then Ok (lo, rng)
    else let* draw := Uint64N (hi -64 lo +64 1) rng in Ok (lo +64 draw.1, draw.2)
  else if String.eqb (LC_Distribution cfg) LatencyNormal then
    let mean := deref (LP_MeanMS p) in
    let stddev := deref (LP_StddevMS p) in
    let '(x, rng) := NormFloat64_draw rng in
    let v := f64_add (f64_of_u64 mean) (f64_mul (f64_of_u64 stddev) x) in
    if SFleb v f64_zero then Ok (0, rng) else Ok (u64_of_Round v, rng)
  else if String.eqb (LC_Distribution cfg) LatencySpike then
    let interval := deref (LP_IntervalTicks p) in
    if negb (interval =? 0) && (tick mod interval =? 0) then Ok (deref (LP_SpikeMS p), rng)
    else Ok (deref (LP_BaseMS p), rng)
  else Ok (0, rng).

(** The values a latency configuration can serve: one position, a range, or any
    word for the truncated normal. *)
Definition serves (cfg : LatencyConfig) (ms : Z) : Prop :=
  let p := LC_Params cfg in
  if String.eqb (LC_Distribution cfg) LatencyFixed then ms = deref (LP_MS p)
  else if String.eqb (LC_Distribution cfg) LatencyUniform then
    deref (LP_MinMS p) <= ms <= Z.max (deref (LP_MinMS p)) (deref (LP_MaxMS p))
  else if String.eqb (LC_Distribution cfg) LatencyNormal then is_u64 ms
  else if String.eqb (LC_Distribution cfg) LatencySpike then
    ms = deref (LP_SpikeMS p) \/ ms = deref (LP_BaseMS p)
  else ms = 0.

Lemma u64_of_Round_u64 `{!RandLaws R} f : is_u64 (u64_of_Round (R := R) f).
Proof.
  unfold u64_of_Round. destruct (f64_Round f) as [z|]; [|apply f64_out_of_range_u64].
  destruct (Z.leb_spec 0 z), (Z.ltb_spec z (2 ^ 64)); simpl;
    (apply f64_out_of_range_u64 || done).
Qed.

(** A draw never panics and stays in range, provided the uniform bounds leave
    [hi - lo + 1] representable. *)
Lemma LatencyMS_serves `{!RandLaws R} cfg tick rng :
  0 <= deref (LP_MinMS (LC_Params cfg)) ->
  deref (LP_MaxMS (LC_Params cfg)) < 2 ^ 64 - 1 ->
  exists ms rng', LatencyMS cfg tick rng = Ok (ms, rng') /\ serves cfg ms.
Proof.
  intros Hlo Hhi. unfold LatencyMS, serves.
  destruct (String.eqb _ LatencyFixed); [by eauto|].
  destruct (String.eqb _ LatencyUniform).
  { set (lo := deref (LP_MinMS _)) in *. set (hi := deref (LP_MaxMS _)) in *.
    destruct (Z.leb_spec hi lo) as [Hle|Hlt].
    { eexists _, _. split; [done|]. lia. }
    rewrite (u64_small (hi - lo)) by (unfold is_u64; lia).
    rewrite (u64_small (hi - lo + 1)) by (unfold is_u64; lia).
    unfold Uint64N. replace (hi - lo + 1 =? 0) with false by (symmetry; bool_lia).
    rewrite obind_Ok. eexists _, _. split; [done|].
    pose proof (Uint64N_range (hi - lo + 1) rng ltac:(lia) ltac:(unfold is_u64; lia)).
    rewrite u64_small by (unfold is_u64; lia). lia. }
  destruct (String.eqb _ LatencyNormal).
  { destruct (NormFloat64_draw rng) as [x rng'].
    destruct (SFleb _ _); eexists _, _; split; try done; apply u64_of_Round_u64. }
  destruct (String.eqb _ LatencySpike); [|by eauto].
  destruct (negb _ && _); eauto.
Qed.

(** The number of draws is fixed by the configuration: fixed, spike and a
    degenerate uniform leave the source untouched. *)
Definition draws_nothing (cfg : LatencyConfig) : bool :=
  let p := LC_Params cfg in
  String.eqb (LC_Distribution cfg) LatencyFixed || String.eqb (LC_Distribution cfg) LatencySpike
  || (String.eqb (LC_Distribution cfg) LatencyUniform && (deref (LP_MaxMS p) <=? deref (LP_MinMS p))).

Lemma LatencyMS_no_draw cfg tick rng :
  draws_nothing cfg = true -> exists ms, LatencyMS cfg tick rng = Ok (ms, rng).
Proof.
  unfold draws_nothing, LatencyMS. rewrite !orb_true_iff, andb_true_iff, !String.eqb_eq.
  intros [[-> | ->] | [-> ->]]; simpl; [by eauto| |by eauto].
  destruct (negb _ && _); eauto.
Qed.

(** The tick only selects the spike: two ticks draw alike. *)
Lemma LatencyMS_tick_draws cfg t1 t2 rng ms1 rng1 :
  LatencyMS cfg t1 rng = Ok (ms1, rng1) -> exists ms2, LatencyMS cfg t2 rng = Ok (ms2, rng1).
Proof.
  unfold LatencyMS. repeat (destruct (String.eqb _ _); [eauto|]); [|eauto].
  destruct (negb _ && (t1 mod _ =? 0)), (negb _ && (t2 mod _ =? 0)); intros; simplify_eq; eauto.
Qed.

End Latency.

(** ** Throughput window

    [time.Time] is a number of nanoseconds; [now] is passed in.  [Sub] saturates
    at the range of [time.Duration]; [count] is an [int] and wraps. *)

Definition Second : Z := 1000000000.

(** [time.Time{}], January 1 of year 1 UTC. *)
Definition zero_Time : Z := -62135596800 * Second.

Definition time_Sub (t u : Z) : Z := Z.max (- 2 ^ 63) (Z.min (2 ^ 63 - 1) (t - u)).

Record WallWindow := mkWallWindow { capPerSec : Z; windowStart : Z; count : Z }.

Definition NewWallWindow (cap : Z) : WallWindow := mkWallWindow cap zero_Time 0.

Definition Allow (now : Z) (g : WallWindow) : bool * WallWindow :=
  let g := if Second <=? time_Sub now (windowStart g)
           then mkWallWindow (capPerSec g) now 0 else g in
  let g := mkWallWindow (capPerSec g) (windowStart g) (i64 (count g + 1)) in
  (count g <=? capPerSec g, g).

(** The verdicts for submits arriving at the given times. *)
Fixpoint allow_all (times : list Z) (g : WallWindow) : list bool * WallWindow :=
  match times with
  | [] => ([], g)
  | t :: times =>
      let '(b, g) := Allow t g in let '(bs, g) := allow_all times g in (b :: bs, g)
  end.

Definition count_true (bs : list bool) : Z := len (base.filter (fun b => b = true) bs).

Lemma count_true_cons b bs : count_true (b :: bs) = (if b then 1 else 0) + count_true bs.
Proof.
  unfold count_true. destruct b.
  - rewrite filter_cons_True by done. rewrite len_cons. lia.
  - by rewrite filter_cons_False.
Qed.

Lemma time_Sub_second t u : Second <=? time_Sub t u = (Second <=? t - u).
Proof.
  unfold time_Sub, Second. apply eq_iff_eq_true. rewrite !Z.leb_le. lia.
Qed.

Lemma allow_all_cons t times g :
  allow_all (t :: times) g =
    let '(b, g) := Allow t g in let '(bs, g) := allow_all times g in (b :: bs, g).
Proof. done. Qed.

Lemma allow_all_app times times' g :
  let '(bs, g1) := allow_all times g in
  allow_all (times ++ times') g = (bs ++ (allow_all times' g1).1, (allow_all times' g1).2).
Proof.
  revert g. induction times as [|t times IH]; intros g; [simpl; by destruct (allow_all times' g)|].
  rewrite <- app_comm_cons, !allow_all_cons.   destruct (Allow t g) as [b g1]. specialize (IH g1). destruct (allow_all times g1) as [bs g2]. by rewrite IH.
Qed.

Lemma allow_all_length times g : length (allow_all times g).1 = length times.
Proof.
  revert g. induction times as [|t times IH]; intros g; [done|]. rewrite allow_all_cons. destruct (Allow t g) as [b g1].
  specialize (IH g1). destruct (allow_all times g1) as [bs g2]. simpl in *. lia.
Qed.

(** [n] more submits do not wrap the counter. *)
Definition counts (g : WallWindow) (n : nat) : Prop := 0 <= count g /\ count g + Z.of_nat n < 2 ^ 63.

(** The window [t] falls in, with [t] counted. *)
Definition opened (t : Z) (g : WallWindow) : WallWindow :=
  if Second <=? t - windowStart g then mkWallWindow (capPerSec g) t 1
  else mkWallWindow (capPerSec g) (windowStart g) (count g + 1).

Lemma Allow_opened t g n :
  counts g (S n) -> Allow t g = (count (opened t g) <=? capPerSec g, opened t g) /\ counts (opened t g) n.
Proof.
  intros [Hc Hn]. unfold Allow, opened, counts. rewrite time_Sub_second.
  destruct (Second <=? _); cbn [capPerSec windowStart count]; rewrite i64_small by lia; (split; [done|lia]).
Qed.

(** The allowance left in the current window plus one cap per full second that
    can still elapse bounds what is allowed up to time [T]. *)
Lemma allow_all_bound times g T :
  counts g (length times) -> 0 <= capPerSec g ->
  StronglySorted Z.le (windowStart g :: times) -> Forall (fun t => t <= T) (windowStart g :: times) ->
  count_true (allow_all times g).1 <=
    Z.max 0 (capPerSec g - count g) + capPerSec g * ((T - windowStart g) / Second).
Proof.
  revert g. induction times as [|t times IH]; intros g Hc Hcap Hs HT.
  { apply Forall_cons_1 in HT as [HT _]. simpl. unfold count_true. simpl.
    assert (0 <= (T - windowStart g) / Second); [|nia]. apply Z.div_pos; unfold Second; lia. }
  apply StronglySorted_inv in Hs as [Hs Hle]. apply Forall_cons_1 in Hle as [Hwt Hle].
  apply Forall_cons_1 in HT as [HwT HT]. destruct (Allow_opened t g _ Hc) as [Ha Hc'].
  rewrite allow_all_cons, Ha. specialize (IH (opened t g) Hc'). unfold opened in *.
  destruct (Z.leb_spec Second (t - windowStart g)) as [Hnew|Hsame]; cbn [capPerSec windowStart count] in *.
  - specialize (IH Hcap Hs HT). destruct (allow_all times _) as [bs g']. simpl in *. rewrite count_true_cons.
    assert ((T - t) / Second + 1 <= (T - windowStart g) / Second) as Hdiv.
    { rewrite <- Z.div_add by done. apply Z.div_le_mono; unfold Second in *; lia. }
    assert (capPerSec g * ((T - t) / Second + 1) <= capPerSec g * ((T - windowStart g) / Second))
      by (by apply Z.mul_le_mono_nonneg_l).
    destruct (Z.leb_spec 1 (capPerSec g)); lia.
  - apply StronglySorted_inv in Hs as [Hs _]. apply Forall_cons_1 in HT as [_ HT].
    specialize (IH Hcap ltac:(by constructor) ltac:(by constructor)).
    destruct (allow_all times _) as [bs g']. simpl in *. rewrite count_true_cons. destruct Hc.
    destruct (Z.leb_spec (count g + 1) (capPerSec g)); lia.
Qed.

(** From a submit at [t] on, whatever window it falls in: at most one cap more than
    in a window that opens there. *)
Lemma allow_from_bound t times g T :
  counts g (S (length times)) -> 0 <= capPerSec g ->
  StronglySorted Z.le (t :: times) -> Forall (fun u => u <= T) (t :: times) -> windowStart g <= t ->
  count_true (allow_all (t :: times) g).1 <=
    capPerSec g * ((T - t) / Second + if Second <=? t - windowStart g then 1 else 2).
Proof.
  intros Hc Hcap Hs HT Hw. destruct (Allow_opened t g _ Hc) as [Ha Hc']. rewrite allow_all_cons, Ha. destruct Hc as [Hc0 _].
  apply Forall_cons_1 in HT as [HtT HT]. apply StronglySorted_inv in Hs as [Hs Hle].
  pose proof (allow_all_bound times (opened t g) T Hc') as H. unfold opened in *.
  destruct (Z.leb_spec Second (t - windowStart g)) as [Hnew|Hsame]; cbn [capPerSec windowStart count] in *.
  - specialize (H Hcap ltac:(by constructor) ltac:(by constructor)).
    destruct (allow_all times _) as [bs g']. simpl in *. rewrite count_true_cons.
    destruct (Z.leb_spec 1 (capPerSec g)); lia.
  - specialize (H Hcap).
    assert (count_true (allow_all times (mkWallWindow (capPerSec g) (windowStart g) (count g + 1))).1 <=
      Z.max 0 (capPerSec g - (count g + 1)) + capPerSec g * ((T - windowStart g) / Second)) as H'.
    { apply H; constructor; try done; [|lia]. eapply Forall_impl; [exact Hle|]. simpl. lia. }
    destruct (allow_all times _) as [bs g']. simpl in *. rewrite count_true_cons.
    assert ((T - windowStart g) / Second <= (T - t) / Second + 1) as Hdiv.
    { rewrite <- Z.div_add by done. apply Z.div_le_mono; unfold Second in *; lia. }
    assert (capPerSec g * ((T - windowStart g) / Second) <= capPerSec g * ((T - t) / Second + 1))
      by (by apply Z.mul_le_mono_nonneg_l).
    destruct (Z.leb_spec (count g + 1) (capPerSec g)); lia.
Qed.

(** A gate consulted at non-decreasing times is behind the clock. *)
Lemma allow_all_behind times g T n :
  counts g (length times + n) -> StronglySorted Z.le times -> Forall (fun u => u <= T) (windowStart g :: times) ->
  let g' := (allow_all times g).2 in counts g' n /\ windowStart g' <= T /\ capPerSec g' = capPerSec g.
Proof.
  revert g. induction times as [|t times IH]; intros g Hc Hs HT.
  { apply Forall_cons_1 in HT as [HT _]. done. }
  apply Forall_cons_1 in HT as [HwT HT]. apply Forall_cons_1 in HT as [HtT HT]. apply StronglySorted_inv in Hs as [Hs _].
  destruct (Allow_opened t g _ Hc) as [Ha Hc']. rewrite allow_all_cons, Ha. specialize (IH (opened t g) Hc' Hs).
  destruct (allow_all times (opened t g)) as [bs g']. simpl in *. unfold opened in IH.
  destruct (Second <=? _); apply IH; by constructor.
Qed.

(** C39: the throughput cap.  A gate created with a non-negative cap is consulted at
    non-decreasing times (past the first second of year 1, and fewer than 2^63 of
    them).  From the first consultation at [t] to any later time [T] it allows at
    most [cap] submits for each started second.  A span that begins at any later
    consultation may begin inside a window: there it allows at most [cap] more. *)
Theorem WallWindow_rate cap t times T :
  0 <= cap -> zero_Time + Second <= t -> len (t :: times) < 2 ^ 63 ->
  StronglySorted Z.le (t :: times) -> Forall (fun u => u <= T) (t :: times) ->
  count_true (allow_all (t :: times) (NewWallWindow cap)).1 <= cap * ((T - t) / Second + 1) /\
  forall before u after, t :: times = before ++ u :: after ->
    count_true (drop (length before) (allow_all (t :: times) (NewWallWindow cap)).1) <= cap * ((T - u) / Second + 2).
Proof.
  intros Hcap Ht Hlen Hs HT.
  assert (counts (NewWallWindow cap) (S (length times))) as Hc by (cbn [length] in Hlen; split; simpl; lia).
  split.
  - pose proof (allow_from_bound t times (NewWallWindow cap) T Hc Hcap Hs HT) as H. cbn [NewWallWindow capPerSec windowStart] in H.
    replace (Second <=? t - zero_Time) with true in H by (symmetry; bool_lia).
    apply H. unfold Second in *. lia.
  - intros before u after Heq. assert (Forall (fun v => zero_Time + Second <= v) (t :: times)) as Hz.
    { constructor; [done|]. apply StronglySorted_inv in Hs as [_ Hle]. eapply Forall_impl; [exact Hle|]. simpl. lia. }
    rewrite Heq in *. apply Forall_app in Hz as [_ Hz]. apply Forall_cons_1 in Hz as [Hz _]. apply StronglySorted_app in Hs as (Hbu & Hb & Hu).
    apply Forall_app in HT as [_ HT].
    pose proof (allow_all_app before (u :: after) (NewWallWindow cap)) as Happ.
    pose proof (allow_all_length before (NewWallWindow cap)) as Hl.
    assert (Forall (fun v => v <= u) before) as Hbefore
      by (apply Forall_forall; intros v Hv; apply Hbu; [done|by left]).
    destruct (allow_all_behind before (NewWallWindow cap) u (S (length after))) as (Hc' & Hw & Hcap').
    { apply (f_equal length) in Heq. rewrite length_app in Heq. cbn [length] in Heq. by rewrite <- Heq. }
    { done. }
    { constructor; [simpl; unfold Second in *; lia|done]. }
    destruct (allow_all before (NewWallWindow cap)) as [bs g]. rewrite Happ. simpl in Hl, Hc', Hw, Hcap'.
    cbn [fst]. rewrite <- Hl, drop_app_length.
    pose proof (allow_from_bound u after g T Hc' ltac:(by rewrite Hcap') Hu HT Hw) as H. rewrite Hcap' in H.
    destruct (Second <=? _); lia.
Qed.

(** Submits at 0, 0.9, 1.0 and 1.1 seconds against a cap of two: three of them in
    the second that begins at the second one. *)
Definition straddling : list Z := [0; 900000000; Second; 1100000000].

Lemma WallWindow_rate_witness :
  (allow_all straddling (NewWallWindow 2)).1 = [true; true; true; true] /\
  count_true (allow_all straddling (NewWallWindow 2)).1 <= 2 * ((1100000000 - 0) / Second + 1) /\
  count_true (drop 1 (allow_all straddling (NewWallWindow 2)).1) <= 2 * ((1100000000 - 900000000) / Second + 2).
Proof.
  split; [vm_compute; reflexivity|].
  assert (StronglySorted Z.le straddling) as Hs by (repeat constructor; by_decide).
  assert (Forall (fun u => u <= 1100000000) straddling) as HT by (repeat constructor; by_decide).
  destruct (WallWindow_rate 2 0 [900000000; Second; 1100000000] 1100000000 ltac:(by_decide) ltac:(by_decide)
    ltac:(by_decide) Hs HT) as [H1 H2].
  split; [exact H1|]. exact (H2 [0] 900000000 [Second; 1100000000] eq_refl).
Defined.

(** Within one window the first [cap] submits are allowed and the rest are not. *)
Theorem WallWindow_within times g :
  counts g (length times) -> Forall (fun t => t - windowStart g < Second) times ->
  (allow_all times g).1 =
    imap (fun i _ => count g + Z.of_nat i + 1 <=? capPerSec g) times.
Proof.
  revert g. induction times as [|t times IH]; intros g Hc HT; [done|].
  apply Forall_cons_1 in HT as [Ht HT]. destruct (Allow_opened t g _ Hc) as [Ha Hc']. rewrite allow_all_cons, Ha.
  unfold opened in *. replace (Second <=? t - windowStart g) with false in * by (symmetry; bool_lia).
  specialize (IH _ Hc' HT). destruct (allow_all times _) as [bs g']. simpl in *. rewrite IH. f_equal; [by rewrite Z.add_0_r|].
  apply imap_ext. intros i x _. simpl. f_equal. lia.
Qed.
