(* ===== verification/Validate.v ===== *)
(** * The fail-fast gate ([internal/config/validate.go])

    [validate] aggregates every fault of a configuration; the boot proceeds only
    on none.  An error is its sentinel and the field it names (the formatted
    values are dropped).  [regexp.Compile] and [os.Stat] are parameters: whether
    an expression compiles, and whether a file exists. *)

From S2P Require Import Prelude.
From S2P Require Import Rng.
From S2P Require Import Config.

(** ** Errors *)

Inductive sentinel :=
| ErrUnknownProfile
| ErrSeededThroughputLimit
| ErrDuplicatePort
| ErrParamOutOfBounds
| ErrUnknownToProfile
| ErrParamNotExposed
| ErrMissingParam
| ErrInvalidEnum
| ErrInvalidAddressRange
| ErrTLSCertKeyMismatch
| ErrTLSCertNotFound
| ErrTLSCertWithoutEnabled.

#[export] Instance sentinel_eq_dec : EqDecision sentinel.
Proof. solve_decision. Defined.

Record cfg_error := mkErr { err_is : sentinel; err_field : string }.

Definition fail_if (b : bool) (s : sentinel) (field : string) : list cfg_error :=
  if b then [mkErr s field] else [].

Definition not_in (lo hi v : Z) : bool := (v <? lo) || (v >? hi).

(** ** Weights and clocks *)

(** [uint] sums wrap at 64 bits. *)
Fixpoint validateWeights_loop (field : string) (weights : list Z) (sum : Z) : list cfg_error :=
  match weights with
  | [] => fail_if (sum =? 0) ErrParamOutOfBounds field
  | w :: ws =>
      if w >? weightMax then [mkErr ErrParamOutOfBounds field]
      else validateWeights_loop field ws (sum +64 w)
  end.

Definition validateWeights (field : string) (weights : list Z) : list cfg_error :=
  validateWeights_loop field weights 0.

Definition validateClock (field : string) (c : Clock) : list cfg_error :=
  if String.eqb c "" || String.eqb c ClockLogical then [] else [mkErr ErrInvalidEnum field].

(** ** Scenario parameters *)

Definition knob_set {A} (o : option A) (knob : string) : list string :=
  match o with Some _ => [knob] | None => [] end.

Definition setParamKnobs (p : ScenarioParams) : list string :=
  knob_set (SP_SuccessRate p) knobSuccessRate ++
  knob_set (SP_ErrorMix p) knobErrorMix ++
  knob_set (SP_DisconnectIntervalTicks p) knobDisconnectIntervalTicks ++
  knob_set (SP_ThroughputCapPerSec p) knobThroughputCapPerSec ++
  knob_set (SP_ErrorCode p) knobErrorCode ++
  knob_set (SP_Mode p) knobMode.

(** [fail_set o exposed bad e]: the field is set, exposed by the profile and bad. *)
Definition fail_set {A} (o : option A) (exposed : bool) (bad : A -> bool)
    (s : sentinel) (field : string) : list cfg_error :=
  match o with Some v => fail_if (exposed && bad v) s field | None => [] end.

Definition rate_ok (r : float64) : bool := SFleb f64_zero r && SFleb r f64_one.

Definition validateErrorMix (mix : gmap SMPPErrorCode Z) : list cfg_error :=
  (sorted_keys mix ≫= fun code =>
     fail_if (negb (SMPPErrorCode_ValidError code)) ErrInvalidEnum "scenario.params.error_mix")
  ++ validateWeights "scenario.params.error_mix" (map_to_list mix).*2.

Definition validateScenarioParams (p : ScenarioParams) (spec : profileSpec) : list cfg_error :=
  (setParamKnobs p ≫= fun knob =>
     fail_if (negb (PS_has spec knob)) ErrParamNotExposed ("scenario.params." +:+ knob)) ++
  fail_if (negb (String.eqb (PS_requires spec) "") && negb (one_of (setParamKnobs p) (PS_requires spec)))
    ErrMissingParam ("scenario.params." +:+ PS_requires spec) ++
  fail_set (SP_SuccessRate p) (PS_has spec knobSuccessRate) (fun r => negb (rate_ok r))
    ErrParamOutOfBounds "scenario.params.success_rate" ++
  fail_set (SP_ThroughputCapPerSec p) (PS_has spec knobThroughputCapPerSec)
    (not_in throughputCapMin throughputCapMax) ErrParamOutOfBounds
    "scenario.params.throughput_cap_per_sec" ++
  fail_set (SP_DisconnectIntervalTicks p) (PS_has spec knobDisconnectIntervalTicks)
    (fun t => t <? 1) ErrParamOutOfBounds "scenario.params.disconnect_interval_ticks" ++
  fail_set (SP_ErrorCode p) (PS_has spec knobErrorCode)
    (fun c => negb (SMPPErrorCode_ValidError c)) ErrInvalidEnum "scenario.params.error_code" ++
  fail_set (SP_Mode p) (PS_has spec knobMode) (fun m => negb (DeadCarrierMode_Valid m))
    ErrInvalidEnum "scenario.params.mode" ++
  match SP_ErrorMix p with
  | Some mix => if PS_has spec knobErrorMix then validateErrorMix mix else []
  | None => []
  end.

(** ** Latency *)

Definition latMS : string := "ms".
Definition latMinMS : string := "min_ms".
Definition latMaxMS : string := "max_ms".
Definition latMeanMS : string := "mean_ms".
Definition latStddevMS : string := "stddev_ms".
Definition latBaseMS : string := "base_ms".
Definition latSpikeMS : string := "spike_ms".
Definition latIntervalTicks : string := "interval_ticks".

Definition latency_knobs (p : LatencyParams) : list (string * option Z) :=
  [(latMS, LP_MS p); (latMinMS, LP_MinMS p); (latMaxMS, LP_MaxMS p); (latMeanMS, LP_MeanMS p);
   (latStddevMS, LP_StddevMS p); (latBaseMS, LP_BaseMS p); (latSpikeMS, LP_SpikeMS p);
   (latIntervalTicks, LP_IntervalTicks p)].

Definition setLatencyKnobs (p : LatencyParams) : gmap string Z :=
  foldr (fun kv (m : gmap string Z) => match kv.2 with Some v => <[kv.1 := v]> m | None => m end)
    ∅ (latency_knobs p).

Definition latencyRequiredKnobs (d : LatencyDistribution) : list string :=
  if String.eqb d LatencyFixed then [latMS]
  else if String.eqb d LatencyUniform then [latMinMS; latMaxMS]
  else if String.eqb d LatencyNormal then [latMeanMS; latStddevMS]
  else if String.eqb d LatencySpike then [latBaseMS; latSpikeMS; latIntervalTicks]
  else [].

Definition lat_field (knob : string) : string := "scenario.latency.params." +:+ knob.

Definition validateLatency (lat : LatencyConfig) (spec : profileSpec) : list cfg_error :=
  if negb (LatencyDistribution_Valid (LC_Distribution lat))
  then [mkErr ErrInvalidEnum "scenario.latency.distribution"]
  else
    let set := setLatencyKnobs (LC_Params lat) in
    let required := latencyRequiredKnobs (LC_Distribution lat) in
    (sorted_keys set ≫= fun knob =>
       fail_if (negb (one_of required knob)) ErrParamNotExposed (lat_field knob)) ++
    (required ≫= fun knob =>
       fail_if (negb (bool_decide (is_Some (set !! knob)))) ErrMissingParam (lat_field knob)) ++
    ([latMS; latMinMS; latMaxMS; latMeanMS; latBaseMS; latSpikeMS] ≫= fun knob =>
       fail_set (set !! knob) true (not_in (PS_latencyMinMS spec) (PS_latencyMaxMS spec))
         ErrParamOutOfBounds (lat_field knob)) ++
    (match set !! latMinMS, set !! latMaxMS with
     | Some lo, Some hi => fail_if (lo >? hi) ErrParamOutOfBounds (lat_field latMinMS)
     | _, _ => []
     end) ++
    fail_set (set !! latStddevMS) true (fun v => v >? PS_latencyMaxMS spec)
      ErrParamOutOfBounds (lat_field latStddevMS) ++
    fail_set (set !! latIntervalTicks) true (fun v => v <? 1)
      ErrParamOutOfBounds (lat_field latIntervalTicks).

(** ** DLR, edge cases, scenario *)

Definition validateDLR (dlr : option DLRConfig) : list cfg_error :=
  match dlr with
  | None => []
  | Some dlr =>
      let delay := DC_Delay dlr in
      let w := DC_OutcomeWeights dlr in
      validateClock "scenario.dlr.clock" (DC_Clock dlr) ++
      (if negb (String.eqb (DD_Distribution delay) LatencyFixed)
       then [mkErr ErrInvalidEnum "scenario.dlr.delay.distribution"]
       else match DD_Ticks delay with
            | None => [mkErr ErrMissingParam "scenario.dlr.delay.ticks"]
            | Some t => fail_if (t <? 1) ErrParamOutOfBounds "scenario.dlr.delay.ticks"
            end) ++
      fail_set (DD_MinTicks delay) true (fun _ => true) ErrParamNotExposed "scenario.dlr.delay.min_ticks" ++
      fail_set (DD_MaxTicks delay) true (fun _ => true) ErrParamNotExposed "scenario.dlr.delay.max_ticks" ++
      validateWeights "scenario.dlr.outcome_weights" [OW_Delivered w; OW_Failed w; OW_Expired w]
  end.

Definition validateEdgeCases (sc : ScenarioConfig) : list cfg_error :=
  match SC_ProtocolEdgeCases sc with
  | None => []
  | Some ec =>
      if negb (SC_ProtocolEdgeCasesEnabled sc)
      then [mkErr ErrParamNotExposed "scenario.protocol_edge_cases"]
      else
        fail_set (EC_InjectEveryTicks ec) true (fun t => t <? 1) ErrParamOutOfBounds
          "scenario.protocol_edge_cases.inject_every_ticks" ++
        (EC_Kinds ec ≫= fun k =>
           fail_if (negb (EdgeCaseKind_Valid k)) ErrInvalidEnum "scenario.protocol_edge_cases.kinds")
  end.

Definition throughputExempt (p : Profile) : bool :=
  String.eqb p ProfileThrottlingCarrier || String.eqb p ProfileThroughputCapped.

Definition validateScenario (sc : ScenarioConfig) : list cfg_error :=
  match profileCatalogue (SC_Profile sc) with
  | None => [mkErr ErrUnknownProfile "scenario.profile"]
  | Some spec =>
      validateScenarioParams (SC_Params sc) spec ++
      validateLatency (SC_Latency sc) spec ++
      validateDLR (SC_DLR sc) ++
      validateEdgeCases sc
  end.

(** ** MO injection and schedules *)

Definition validateMOEvent (ev : MOEvent) : list cfg_error :=
  fail_if (slen (MO_SourceAddr ev) >? moAddrMaxLen) ErrParamOutOfBounds "mo_injection.events.source_addr" ++
  fail_if (slen (MO_DestAddr ev) >? moAddrMaxLen) ErrParamOutOfBounds "mo_injection.events.dest_addr" ++
  fail_if (slen (MO_Content ev) >? moContentMaxLen) ErrParamOutOfBounds "mo_injection.events.content".

Definition validateMOInjection (mo : option MOInjectionConfig) : list cfg_error :=
  match mo with
  | None => []
  | Some mo =>
      if negb (MOMode_Valid (MI_Mode mo)) then [mkErr ErrInvalidEnum "mo_injection.mode"]
      else
        let unused {A} (o : option A) field :=
          fail_set o true (fun _ => true) ErrParamNotExposed field in
        validateClock "mo_injection.clock" (MI_Clock mo) ++
        (if String.eqb (MI_Mode mo) MOModeScheduled then
           fail_if (len (MI_Events mo) =? 0) ErrMissingParam "mo_injection.events" ++
           unused (MI_RatePerSec mo) "mo_injection.rate_per_sec" ++
           unused (MI_ContentTemplate mo) "mo_injection.content_template" ++
           (MI_Events mo ≫= validateMOEvent)
         else if String.eqb (MI_Mode mo) MOModeAuto then [mkErr ErrInvalidEnum "mo_injection.mode"]
         else
           unused (MI_RatePerSec mo) "mo_injection.rate_per_sec" ++
           unused (MI_ContentTemplate mo) "mo_injection.content_template" ++
           fail_if (len (MI_Events mo) >? 0) ErrParamNotExposed "mo_injection.events")
  end.

Definition validateScheduledDisconnect (d : ScheduledDisconnect) : list cfg_error :=
  fail_if (negb (DisconnectScope_Valid (SD_Scope d))) ErrInvalidEnum "scheduled_disconnects.scope" ++
  fail_if (negb (DisconnectWhen_Valid (SD_When d))) ErrInvalidEnum "scheduled_disconnects.when".

Section Gate.
Context (regexp_compiles : string -> bool) (file_exists : string -> bool).

Definition validateTLS (tls : TLSConfig) : list cfg_error :=
  let certSet := negb (String.eqb (TLS_CertFile tls) "") in
  let keySet := negb (String.eqb (TLS_KeyFile tls) "") in
  if negb (Bool.eqb certSet keySet) then [mkErr ErrTLSCertKeyMismatch "tls"]
  else if negb certSet then []
  else
    fail_if (negb (TLS_Enabled tls)) ErrTLSCertWithoutEnabled "tls" ++
    fail_if (negb (file_exists (TLS_CertFile tls))) ErrTLSCertNotFound "tls.cert_file" ++
    fail_if (negb (file_exists (TLS_KeyFile tls))) ErrTLSCertNotFound "tls.key_file".

Definition validateVirtualSMSC (vs : VirtualSMSCConfig) : list cfg_error :=
  let seeded := match VS_Seed vs with Some _ => true | None => false end in
  fail_if (String.eqb (VS_Name vs) "") ErrMissingParam "virtual_smscs.name" ++
  fail_if (not_in portMin portMax (VS_Port vs)) ErrParamOutOfBounds "virtual_smscs.port" ++
  fail_if (not_in 0 octetMax (VS_AddrTON vs)) ErrParamOutOfBounds "virtual_smscs.addr_ton" ++
  fail_if (not_in 0 octetMax (VS_AddrNPI vs)) ErrParamOutOfBounds "virtual_smscs.addr_npi" ++
  fail_if (not_in pduBufferSizeMin pduBufferSizeMax (VS_PDUBufferSize vs)) ErrParamOutOfBounds
    "virtual_smscs.pdu_buffer_size" ++
  fail_set (VS_ThroughputLimitPerSec vs) true (fun l => l <? 1) ErrParamOutOfBounds
    "virtual_smscs.throughput_limit_per_sec" ++
  fail_set (VS_QuiescenceFlushMs vs) true (not_in quiescenceFlushMinMs quiescenceFlushMaxMs)
    ErrParamOutOfBounds "virtual_smscs.quiescence_flush_ms" ++
  fail_set (VS_ThroughputLimitPerSec vs) seeded
    (fun _ => negb (throughputExempt (SC_Profile (VS_Scenario vs)))) ErrSeededThroughputLimit
    "virtual_smscs.throughput_limit_per_sec" ++
  (if seeded then
     VS_ScheduledTransitions vs ≫= fun tr =>
       fail_if (throughputExempt (ST_ToProfile tr)) ErrSeededThroughputLimit
         "scheduled_transitions.to_profile"
   else []) ++
  fail_if (negb (String.eqb (VS_AddressRange vs) "") && negb (regexp_compiles (VS_AddressRange vs)))
    ErrInvalidAddressRange "virtual_smscs.address_range" ++
  validateTLS (VS_TLS vs) ++
  validateScenario (VS_Scenario vs) ++
  validateMOInjection (VS_MOInjection vs) ++
  (VS_ScheduledDisconnects vs ≫= validateScheduledDisconnect) ++
  (VS_ScheduledTransitions vs ≫= fun tr =>
     fail_if (negb (Profile_Valid (ST_ToProfile tr))) ErrUnknownToProfile
       "scheduled_transitions.to_profile").

(** The port loop of [validate], threading the [seenPort] map. *)
Fixpoint validate_ports (vss : list VirtualSMSCConfig) (seenPort : gmap Z string) : list cfg_error :=
  match vss with
  | [] => []
  | vs :: vss =>
      validateVirtualSMSC vs ++
      match seenPort !! VS_Port vs with
      | Some _ => mkErr ErrDuplicatePort "virtual_smscs.port" :: validate_ports vss seenPort
      | None => validate_ports vss (<[VS_Port vs := VS_Name vs]> seenPort)
      end
  end.

Definition validate (cfg : Config) : list cfg_error :=
  fail_set (CFG_Observability cfg) true (fun o => not_in 0 portMax (OC_HTTPPort o))
    ErrParamOutOfBounds "observability.http_port" ++
  validate_ports (CFG_VirtualSMSCs cfg)
    match CFG_Observability cfg with
    | Some o => if 0 <? OC_HTTPPort o then {[ OC_HTTPPort o := "observability.http_port" ]} else ∅
    | None => ∅
    end.
End Gate.
