(* ===== verification/ValidateThms.v ===== *)
(** * What passing the gate means

    [config_ok] states declaratively what a valid configuration is; [validate]
    returns no error exactly on those. *)

From S2P Require Import Prelude.
From S2P Require Import Rng.
From S2P Require Import Config.
From S2P Require Import Validate.

(** ** No error from a list of checks *)

Create Rewrite HintDb validate.

Lemma app_nil_iff {A} (l1 l2 : list A) : l1 ++ l2 = [] <-> l1 = [] /\ l2 = [].
Proof. split; [apply app_eq_nil | by intros [-> ->]]. Qed.

Lemma bind_nil_iff {A B} (l : list A) (f : A -> list B) :
  l ≫= f = [] <-> Forall (fun x => f x = []) l.
Proof.
  induction l as [|x l IH]; [by split|]. rewrite bind_cons, app_nil_iff, IH.
  by rewrite Forall_cons.
Qed.

Lemma fail_if_nil b s field : fail_if b s field = [] <-> b = false.
Proof. by destruct b. Qed.

Lemma fail_set_nil {A} (o : option A) exposed bad s field :
  fail_set o exposed bad s field = [] <-> (forall v, o = Some v -> exposed = true -> bad v = false).
Proof.
  destruct o as [v|]; simpl; [|naive_solver]. rewrite fail_if_nil, andb_false_iff.
  destruct exposed, (bad v) eqn:?; naive_solver.
Qed.

Lemma fail_set_true_nil {A} (o : option A) bad s field :
  fail_set o true bad s field = [] <-> (forall v, o = Some v -> bad v = false).
Proof. rewrite fail_set_nil. naive_solver. Qed.

Lemma singleton_not_nil {A} (x : A) : [x] = [] <-> False.
Proof. done. Qed.

Lemma not_in_false lo hi v : not_in lo hi v = false <-> lo <= v <= hi.
Proof. unfold not_in. rewrite orb_false_iff, Z.gtb_ltb, !Z.ltb_ge. lia. Qed.

#[export] Hint Rewrite @app_nil_iff @bind_nil_iff fail_if_nil @fail_set_nil @singleton_not_nil
  not_in_false negb_false_iff one_of_true : validate.

(** ** Weights *)

Definition sum_list (ws : list Z) : Z := foldr Z.add 0 ws.

Definition weights_ok (ws : list Z) : Prop := Forall (fun w => w <= weightMax) ws /\ 1 <= sum_list ws.

Lemma validateWeights_loop_nil field ws sum :
  Forall (fun w => 0 <= w) ws -> 0 <= sum -> sum + len ws * weightMax < 2 ^ 64 ->
  validateWeights_loop field ws sum = [] <->
  Forall (fun w => w <= weightMax) ws /\ 1 <= sum + sum_list ws.
Proof.
  revert sum. induction ws as [|w ws IH]; intros sum Hnn Hsum Hlen.
  - simpl. rewrite fail_if_nil, Z.eqb_neq. split; [split; [done|lia] | lia].
  - apply Forall_cons_1 in Hnn as [Hw Hnn]. rewrite len_cons in Hlen.
    cbn [validateWeights_loop]. rewrite Forall_cons, Z.gtb_ltb.
    destruct (Z.ltb_spec weightMax w) as [Hbig|Hsmall]; [split; [done|intros [[? _] _]; lia]|].
    pose proof (len_nonneg ws). unfold weightMax in *.
    rewrite u64_small, IH by (done || (unfold is_u64; lia)). simpl. unfold sum_list.
    split; [intros [? ?] | intros [[? ?] ?]]; split_and!; done || lia.
Qed.

Lemma validateWeights_nil field ws :
  Forall (fun w => 0 <= w) ws -> len ws <= 2 ^ 32 ->
  validateWeights field ws = [] <-> weights_ok ws.
Proof.
  intros Hnn Hlen. unfold validateWeights. rewrite validateWeights_loop_nil by (done || (unfold weightMax; lia)).
  done.
Qed.

Lemma validateClock_nil field c : validateClock field c = [] <-> c = "" \/ c = ClockLogical.
Proof.
  unfold validateClock. destruct (String.eqb_spec c ""), (String.eqb_spec c ClockLogical); simpl;
    naive_solver.
Qed.
#[export] Hint Rewrite validateClock_nil : validate.

(** ** Latency *)

Definition in_window (spec : profileSpec) (ms : Z) : Prop :=
  PS_latencyMinMS spec <= ms <= PS_latencyMaxMS spec.

(** A latency block sets exactly the parameters of its distribution, in range. *)
Inductive latency_ok (spec : profileSpec) : LatencyConfig -> Prop :=
| lat_fixed ms : in_window spec ms ->
    latency_ok spec (mkLatencyConfig LatencyFixed
      (mkLatencyParams (Some ms) None None None None None None None))
| lat_uniform lo hi : in_window spec lo -> in_window spec hi -> lo <= hi ->
    latency_ok spec (mkLatencyConfig LatencyUniform
      (mkLatencyParams None (Some lo) (Some hi) None None None None None))
| lat_normal mean stddev : in_window spec mean -> stddev <= PS_latencyMaxMS spec ->
    latency_ok spec (mkLatencyConfig LatencyNormal
      (mkLatencyParams None None None (Some mean) (Some stddev) None None None))
| lat_spike base spike interval : in_window spec base -> in_window spec spike -> 1 <= interval ->
    latency_ok spec (mkLatencyConfig LatencySpike
      (mkLatencyParams None None None None None (Some base) (Some spike) (Some interval))).

Lemma setLatencyKnobs_lookup p k :
  setLatencyKnobs p !! k =
  foldr (fun kv acc => match kv.2 with
                       | Some v => if String.eqb kv.1 k then Some v else acc
                       | None => acc end) None (latency_knobs p).
Proof.
  unfold setLatencyKnobs. induction (latency_knobs p) as [|[k' [v|]] l IH]; simpl; [done| |done].
  destruct (String.eqb_spec k' k) as [->|]; [by rewrite lookup_insert_eq | by rewrite lookup_insert_ne].
Qed.

Lemma setLatencyKnobs_field p k o :
  (k, o) ∈ latency_knobs p -> setLatencyKnobs p !! k = o.
Proof.
  rewrite setLatencyKnobs_lookup. unfold latency_knobs. intros H. set_unfold in H. simpl in H.
  destruct_or?; simplify_eq; simpl; repeat case_match; congruence.
Qed.

Lemma keys_within_nil (set : gmap string Z) required f :
  (sorted_keys set ≫= fun knob => fail_if (negb (one_of required knob)) ErrParamNotExposed (f knob)) = []
  <-> (forall k v, set !! k = Some v -> one_of required k = true).
Proof.
  rewrite bind_nil_iff, Forall_forall. setoid_rewrite fail_if_nil. setoid_rewrite negb_false_iff.
  setoid_rewrite elem_of_sorted_keys. split; [eauto | intros H k [v Hv]; eauto].
Qed.

Lemma required_nil (set : gmap string Z) required f :
  (required ≫= fun knob =>
     fail_if (negb (bool_decide (is_Some (set !! knob)))) ErrMissingParam (f knob)) = []
  <-> Forall (fun k => is_Some (set !! k)) required.
Proof.
  rewrite bind_nil_iff. apply Forall_iff. intros k.
  by rewrite fail_if_nil, negb_false_iff, bool_decide_eq_true.
Qed.

Lemma setLatencyKnobs_elem p k v :
  setLatencyKnobs p !! k = Some v -> (k, Some v) ∈ latency_knobs p.
Proof.
  rewrite setLatencyKnobs_lookup. induction (latency_knobs p) as [|[k' [w|]] l IH]; simpl; [done|..].
  - destruct (String.eqb_spec k' k) as [->|]; [|by right; apply IH].
    intros [= ->]. left.
  - by right; apply IH.
Qed.

(** The checks of [validateLatency] on a valid distribution, over the fields. *)
Definition latency_checks (spec : profileSpec) (lat : LatencyConfig) : Prop :=
  let set := setLatencyKnobs (LC_Params lat) in
  let p := LC_Params lat in
  (forall k v, set !! k = Some v -> one_of (latencyRequiredKnobs (LC_Distribution lat)) k = true) /\
  Forall (fun k => is_Some (set !! k)) (latencyRequiredKnobs (LC_Distribution lat)) /\
  Forall (fun o => forall v, o = Some v -> in_window spec v)
    [LP_MS p; LP_MinMS p; LP_MaxMS p; LP_MeanMS p; LP_BaseMS p; LP_SpikeMS p] /\
  (forall lo hi, LP_MinMS p = Some lo -> LP_MaxMS p = Some hi -> lo <= hi) /\
  (forall v, LP_StddevMS p = Some v -> v <= PS_latencyMaxMS spec) /\
  (forall v, LP_IntervalTicks p = Some v -> 1 <= v).

Lemma set_latency_fields p :
  let set := setLatencyKnobs p in
  set !! latMS = LP_MS p /\ set !! latMinMS = LP_MinMS p /\ set !! latMaxMS = LP_MaxMS p /\
  set !! latMeanMS = LP_MeanMS p /\ set !! latStddevMS = LP_StddevMS p /\
  set !! latBaseMS = LP_BaseMS p /\ set !! latSpikeMS = LP_SpikeMS p /\
  set !! latIntervalTicks = LP_IntervalTicks p.
Proof. split_and!; apply setLatencyKnobs_field; set_solver. Qed.

Lemma validateLatency_checks lat spec :
  validateLatency lat spec = [] <->
  LatencyDistribution_Valid (LC_Distribution lat) = true /\ latency_checks spec lat.
Proof.
  unfold validateLatency, latency_checks.
  destruct (LatencyDistribution_Valid _); simpl negb; cbv iota; [|naive_solver].
  destruct (set_latency_fields (LC_Params lat)) as (H1 & H2 & H3 & H4 & H5 & H6 & H7 & H8).
  rewrite !app_nil_iff, keys_within_nil, required_nil, bind_nil_iff.
  rewrite !Forall_cons, !Forall_nil, !fail_set_true_nil, H1, H2, H3, H4, H5, H6, H7, H8.
  unfold in_window. setoid_rewrite not_in_false.
  assert (match LP_MinMS (LC_Params lat), LP_MaxMS (LC_Params lat) with
          | Some lo, Some hi => fail_if (lo >? hi) ErrParamOutOfBounds (lat_field latMinMS)
          | _, _ => [] end = [] <->
          (forall lo hi, LP_MinMS (LC_Params lat) = Some lo -> LP_MaxMS (LC_Params lat) = Some hi -> lo <= hi)) as ->.
  { destruct (LP_MinMS _) as [lo|], (LP_MaxMS _) as [hi|]; try naive_solver.
    rewrite fail_if_nil, Z.gtb_ltb, Z.ltb_ge. naive_solver. }
  setoid_rewrite Z.gtb_ltb. setoid_rewrite Z.ltb_ge. tauto.
Qed.

Lemma latency_ok_checks spec lat :
  latency_ok spec lat -> LatencyDistribution_Valid (LC_Distribution lat) = true /\ latency_checks spec lat.
Proof.
  intros H; inv H; (split; [done|]); unfold latency_checks; rewrite !Forall_cons; split_and!; simpl;
    try (intros; simplify_eq; done); try by eexists.
  all: lazymatch goal with
    | |- Forall _ _ => repeat (apply Forall_cons_2; [by eexists|]); apply Forall_nil_2
    | _ => idtac end.
  all: intros k v Hv; apply setLatencyKnobs_elem in Hv; unfold latency_knobs in Hv; simpl in Hv;
    rewrite !elem_of_cons in Hv; destruct_or?; simplify_eq; try reflexivity;
    by apply elem_of_nil in Hv.
Qed.

Lemma absent_knob (set : gmap string Z) (required : list string) k o :
  (forall k v, set !! k = Some v -> one_of required k = true) ->
  set !! k = o -> one_of required k = false -> o = None.
Proof. intros H Ho Hk. destruct o as [v|]; [|done]. rewrite (H k v Ho) in Hk. done. Qed.

Lemma latency_checks_ok spec lat :
  LatencyDistribution_Valid (LC_Distribution lat) = true -> latency_checks spec lat -> latency_ok spec lat.
Proof.
  destruct lat as [d p]. intros Hd (Hin & Hreq & Hwin & Hlohi & Hsd & Hiv). simpl in *.
  destruct (set_latency_fields p) as (H1 & H2 & H3 & H4 & H5 & H6 & H7 & H8).
  destruct p as [ms lo hi mean sd base spike iv]; simpl in *.
  apply one_of_true in Hd. set_unfold in Hd. destruct_or?; subst d.
  1: change (latencyRequiredKnobs LatencyFixed) with [latMS] in *.
  2: change (latencyRequiredKnobs LatencyUniform) with [latMinMS; latMaxMS] in *.
  3: change (latencyRequiredKnobs LatencyNormal) with [latMeanMS; latStddevMS] in *.
  4: change (latencyRequiredKnobs LatencySpike) with [latBaseMS; latSpikeMS; latIntervalTicks] in *.
  all: rewrite ?Forall_cons in Hreq.
  all: repeat match goal with
    | H : setLatencyKnobs _ !! ?k = ?o |- _ =>
        try (assert (o = None) as -> by (by eapply absent_knob));
        rewrite ?H in Hreq; clear H
    end.
  all: destruct_and?; repeat match goal with H : is_Some _ |- _ => destruct H as [? ->] end.
  all: rewrite !Forall_cons in Hwin; destruct_and?; constructor; eauto.
Qed.

Lemma validateLatency_nil lat spec : validateLatency lat spec = [] <-> latency_ok spec lat.
Proof.
  rewrite validateLatency_checks. split; [intros []; by apply latency_checks_ok | apply latency_ok_checks].
Qed.

(** ** Scenario *)

(** Weights are Go [uint]s. *)
Definition uint_weights (ws : list Z) : Prop := Forall is_u64 ws.

Definition mix_ok (mix : gmap SMPPErrorCode Z) : Prop :=
  map_Forall (fun code _ => SMPPErrorCode_ValidError code = true) mix /\
  weights_ok (map_to_list mix).*2.

Lemma uint_weights_nonneg ws : uint_weights ws -> Forall (fun w => 0 <= w) ws.
Proof. intros H. eapply Forall_impl; [exact H|]. unfold is_u64. simpl. lia. Qed.

Lemma valid_mix_small (mix : gmap SMPPErrorCode Z) :
  map_Forall (fun code _ => SMPPErrorCode_ValidError code = true) mix -> len (map_to_list mix).*2 <= 7.
Proof.
  intros Hv. rewrite length_fmap.
  assert (length (map_to_list mix).*1 <= length
    [ErrorCodeROK; ErrorCodeRThrottled; ErrorCodeRSubmitFail; ErrorCodeRInvDstAdr;
     ErrorCodeRSysErr; ErrorCodeRMsgQFul; ErrorCodeRInvSrcAdr])%nat as H.
  { apply submseteq_length, NoDup_submseteq; [apply NoDup_fst_map_to_list|].
    intros k Hk. apply list_elem_of_fmap in Hk as ([k' w] & -> & Hkw).
    apply elem_of_map_to_list in Hkw. specialize (Hv _ _ Hkw). simpl in *.
    unfold SMPPErrorCode_ValidError in Hv. apply andb_prop in Hv as [_ Hv].
    by apply one_of_true in Hv. }
  rewrite length_fmap in H. simpl in H. lia.
Qed.

Lemma validateErrorMix_nil mix :
  uint_weights (map_to_list mix).*2 -> validateErrorMix mix = [] <-> mix_ok mix.
Proof.
  intros Hu. unfold validateErrorMix, mix_ok. rewrite app_nil_iff, bind_nil_iff.
  assert (Forall (fun code => fail_if (negb (SMPPErrorCode_ValidError code)) ErrInvalidEnum
            "scenario.params.error_mix" = []) (sorted_keys mix) <->
          map_Forall (fun code _ => SMPPErrorCode_ValidError code = true) mix) as ->.
  { rewrite Forall_forall. setoid_rewrite fail_if_nil. setoid_rewrite negb_false_iff.
    setoid_rewrite elem_of_sorted_keys. unfold map_Forall. split; [eauto | intros H k [v Hv]; eauto]. }
  split; intros [Hv Hw]; (split; [done|]).
  - apply validateWeights_nil in Hw; [done|by apply uint_weights_nonneg|].
    pose proof (valid_mix_small mix Hv). lia.
  - apply validateWeights_nil; [by apply uint_weights_nonneg| |done].
    pose proof (valid_mix_small mix Hv). lia.
Qed.

(** What a profile's parameter block may contain. *)
Record params_ok (spec : profileSpec) (p : ScenarioParams) : Prop := {
  pk_exposed : forall k, k ∈ setParamKnobs p -> k ∈ PS_exposes spec;
  pk_required : PS_requires spec <> "" -> PS_requires spec ∈ setParamKnobs p;
  pk_rate : forall r, SP_SuccessRate p = Some r -> rate_ok r = true;
  pk_cap : forall c, SP_ThroughputCapPerSec p = Some c -> throughputCapMin <= c <= throughputCapMax;
  pk_interval : forall t, SP_DisconnectIntervalTicks p = Some t -> 1 <= t;
  pk_code : forall c, SP_ErrorCode p = Some c -> SMPPErrorCode_ValidError c = true;
  pk_mode : forall m, SP_Mode p = Some m -> DeadCarrierMode_Valid m = true;
  pk_mix : forall mix, SP_ErrorMix p = Some mix -> mix_ok mix
}.

Definition params_typed (p : ScenarioParams) : Prop :=
  forall mix, SP_ErrorMix p = Some mix -> uint_weights (map_to_list mix).*2.

Lemma knob_set_elem {A} (o : option A) k k' : k' ∈ knob_set o k <-> k' = k /\ is_Some o.
Proof.
  destruct o; simpl; rewrite ?list_elem_of_singleton, ?elem_of_nil; split; try naive_solver.
Qed.

Lemma exposed_knob {A} p (exposed : list string) :
  (forall k, k ∈ setParamKnobs p -> k ∈ exposed) ->
  forall (o : option A) k, (forall x, x ∈ knob_set o k -> x ∈ setParamKnobs p) ->
  is_Some o -> k ∈ exposed.
Proof. intros He o k Hsub Ho. by apply He, Hsub, knob_set_elem. Qed.

(** The knob of a set field of [p] is exposed. *)
Ltac exposed_by o :=
  match goal with Hex : forall A (o : option A) k, _ |- _ => eapply (Hex _ o) end;
  [unfold setParamKnobs; set_solver | by eexists].

Lemma validateScenarioParams_nil p spec :
  params_typed p -> validateScenarioParams p spec = [] <-> params_ok spec p.
Proof.
  intros Hty. unfold validateScenarioParams.
  rewrite !app_nil_iff, bind_nil_iff, fail_if_nil, !fail_set_nil, Forall_forall.
  setoid_rewrite fail_if_nil. unfold PS_has. setoid_rewrite negb_false_iff.
  setoid_rewrite one_of_true. rewrite andb_false_iff, !negb_false_iff, String.eqb_eq, one_of_true.
  setoid_rewrite not_in_false. setoid_rewrite Z.ltb_ge.
  split.
  - intros (He & Hr & H1 & H2 & H3 & H4 & H5 & H6).
    pose proof (fun A => exposed_knob (A := A) p (PS_exposes spec) He) as Hex.
    split; try done.
    + intros Hne. destruct Hr; [done|by subst].
    + intros r Hs. eapply H1; [done|]. exposed_by (SP_SuccessRate p).
    + intros r Hs. eapply H2; [done|]. exposed_by (SP_ThroughputCapPerSec p).
    + intros r Hs. eapply H3; [done|]. exposed_by (SP_DisconnectIntervalTicks p).
    + intros r Hs. eapply H4; [done|]. exposed_by (SP_ErrorCode p).
    + intros r Hs. apply one_of_true. eapply H5; [done|]. exposed_by (SP_Mode p).
    + intros mix Hs. rewrite Hs in H6.
      assert (one_of (PS_exposes spec) knobErrorMix = true) as Hk.
      { apply one_of_true. exposed_by (SP_ErrorMix p). }
      rewrite Hk in H6. apply validateErrorMix_nil; [by apply Hty|done].
  - intros [He Hr H1 H2 H3 H4 H5 H6]. split_and!;
      [done| |by eauto|by eauto|by eauto|by eauto|intros v Hv _; by apply one_of_true, H5|].
    + destruct (decide (PS_requires spec = "")); [by left | right; by apply Hr].
    + destruct (SP_ErrorMix p) as [mix|] eqn:Hmix; [|done].
      destruct (one_of _ _); [|done]. apply validateErrorMix_nil; [by apply Hty|by apply H6].
Qed.

(** A DLR block fires a receipt a fixed number of ticks later, at least one. *)
Inductive dlr_ok : DLRConfig -> Prop :=
| dlr_fixed t w c :
    1 <= t -> weights_ok [OW_Delivered w; OW_Failed w; OW_Expired w] -> c = "" \/ c = ClockLogical ->
    dlr_ok (mkDLRConfig (mkDLRDelay LatencyFixed (Some t) None None) w c).

Definition dlr_typed (dlr : DLRConfig) : Prop :=
  let w := DC_OutcomeWeights dlr in uint_weights [OW_Delivered w; OW_Failed w; OW_Expired w].

Lemma unused_nil {A} (o : option A) s field :
  fail_set o true (fun _ => true) s field = [] <-> o = None.
Proof. destruct o; simpl; naive_solver. Qed.

Lemma validateDLR_nil o :
  (forall dlr, o = Some dlr -> dlr_typed dlr) ->
  validateDLR o = [] <-> (forall dlr, o = Some dlr -> dlr_ok dlr).
Proof.
  intros Hty. destruct o as [[[dist ticks mn mx] w c]|]; simpl; [|by split].
  specialize (Hty _ eq_refl). unfold dlr_typed in Hty. simpl in Hty.
  rewrite !app_nil_iff, validateClock_nil, !unused_nil, validateWeights_nil
    by (simpl; lia || by apply uint_weights_nonneg).
  destruct (String.eqb_spec dist LatencyFixed) as [->|Hne]; simpl negb; cbv iota.
  - destruct ticks as [t|].
    + rewrite fail_if_nil, Z.ltb_ge. split.
      * intros (? & ? & -> & -> & ?) dlr [= <-]. by constructor.
      * intros H. specialize (H _ eq_refl). inv H. done.
    + split; [naive_solver|]. intros H. specialize (H _ eq_refl). inv H.
  - split; [naive_solver|]. intros H. specialize (H _ eq_refl). inv H.
Qed.

(** An edge-case block needs the master switch, a positive cadence and known kinds. *)
Definition edge_cases_ok (sc : ScenarioConfig) : Prop :=
  forall ec, SC_ProtocolEdgeCases sc = Some ec ->
    SC_ProtocolEdgeCasesEnabled sc = true /\
    (forall t, EC_InjectEveryTicks ec = Some t -> 1 <= t) /\
    Forall (fun k => EdgeCaseKind_Valid k = true) (EC_Kinds ec).

Lemma validateEdgeCases_nil sc : validateEdgeCases sc = [] <-> edge_cases_ok sc.
Proof.
  unfold validateEdgeCases, edge_cases_ok.
  destruct (SC_ProtocolEdgeCases sc) as [ec|]; [|by split].
  destruct (SC_ProtocolEdgeCasesEnabled sc); simpl negb; cbv iota.
  - rewrite app_nil_iff, fail_set_true_nil, bind_nil_iff. setoid_rewrite Z.ltb_ge.
    rewrite (Forall_iff _ _ (fun k => EdgeCaseKind_Valid k = true))
      by (intros k; by rewrite fail_if_nil, negb_false_iff).
    split; [intros [? ?] ? [= <-]; done | intros H; by destruct (H _ eq_refl) as (_ & ? & ?)].
  - split; [done|]. intros H. by destruct (H _ eq_refl) as [? _].
Qed.

(** A scenario block of a known profile. *)
Definition scenario_ok (sc : ScenarioConfig) : Prop :=
  exists spec, profileCatalogue (SC_Profile sc) = Some spec /\
    params_ok spec (SC_Params sc) /\ latency_ok spec (SC_Latency sc) /\
    (forall dlr, SC_DLR sc = Some dlr -> dlr_ok dlr) /\ edge_cases_ok sc.

Definition scenario_typed (sc : ScenarioConfig) : Prop :=
  params_typed (SC_Params sc) /\ (forall dlr, SC_DLR sc = Some dlr -> dlr_typed dlr).

Lemma validateScenario_nil sc :
  scenario_typed sc -> validateScenario sc = [] <-> scenario_ok sc.
Proof.
  intros [Hp Hd]. unfold validateScenario, scenario_ok.
  destruct (profileCatalogue (SC_Profile sc)) as [spec|].
  - rewrite !app_nil_iff, validateScenarioParams_nil, validateLatency_nil, validateDLR_nil,
      validateEdgeCases_nil by done.
    split; [eauto|]. intros (spec' & [= <-] & ?). done.
  - split; [done|]. by intros (spec & ? & _).
Qed.

(** ** MO injection and schedules *)

Definition mo_event_ok (ev : MOEvent) : Prop :=
  slen (MO_SourceAddr ev) <= moAddrMaxLen /\ slen (MO_DestAddr ev) <= moAddrMaxLen /\
  slen (MO_Content ev) <= moContentMaxLen.

(** Only the scheduled mode injects; the disabled mode carries no data. *)
Inductive mo_ok : MOInjectionConfig -> Prop :=
| mo_scheduled c events : c = "" \/ c = ClockLogical -> events <> [] -> Forall mo_event_ok events ->
    mo_ok (mkMOInjectionConfig MOModeScheduled c events None None)
| mo_disabled c : c = "" \/ c = ClockLogical ->
    mo_ok (mkMOInjectionConfig MOModeDisabled c [] None None).

Lemma validateMOEvent_nil ev : validateMOEvent ev = [] <-> mo_event_ok ev.
Proof.
  unfold validateMOEvent, mo_event_ok. rewrite !app_nil_iff, !fail_if_nil, !Z.gtb_ltb, !Z.ltb_ge.
  tauto.
Qed.

Lemma validateMOInjection_nil o :
  validateMOInjection o = [] <-> (forall mo, o = Some mo -> mo_ok mo).
Proof.
  destruct o as [[mode c events rate tmpl]|]; simpl; [|by split].
  transitivity (mo_ok (mkMOInjectionConfig mode c events rate tmpl)); [|naive_solver].
  destruct (MOMode_Valid mode) eqn:Hm; simpl negb; cbv iota.
  2:{ split; [done|]. intros H. by inv H. }
  apply one_of_true in Hm. set_unfold in Hm. rewrite app_nil_iff, validateClock_nil.
  destruct_or?; subst mode; simpl String.eqb; cbv iota.
  - rewrite !app_nil_iff, !unused_nil, fail_if_nil, bind_nil_iff, Z.eqb_neq.
    rewrite (Forall_iff _ _ mo_event_ok) by apply validateMOEvent_nil. split.
    + intros (? & ? & -> & -> & ?). constructor; [done| |done]. by intros ->.
    + intros H. inv H. split_and!; try done. destruct events; [done|]. rewrite len_cons. lia.
  - split; [naive_solver|]. intros H. inv H.
  - rewrite !app_nil_iff, !unused_nil, fail_if_nil, Z.gtb_ltb, Z.ltb_ge. split.
    + intros (? & -> & -> & ?). destruct events; [by constructor|]. rewrite len_cons in *. lia.
    + intros H. inv H. done.
Qed.

Definition disconnect_ok (d : ScheduledDisconnect) : Prop :=
  SD_Scope d ∈ [DisconnectScopeAll; DisconnectScopeOldest; DisconnectScopeRandom] /\
  SD_When d ∈ [DisconnectBeforeResponse; DisconnectAfterResponse].

Lemma validateScheduledDisconnect_nil d : validateScheduledDisconnect d = [] <-> disconnect_ok d.
Proof.
  unfold validateScheduledDisconnect, disconnect_ok.
  by rewrite app_nil_iff, !fail_if_nil, !negb_false_iff, <- !one_of_true.
Qed.

(** ** Virtual SMSCs and the whole configuration *)

Section Gate.
Context (regexp_compiles : string -> bool) (file_exists : string -> bool).

Definition tls_ok (tls : TLSConfig) : Prop :=
  (TLS_CertFile tls = "" /\ TLS_KeyFile tls = "") \/
  (TLS_CertFile tls <> "" /\ TLS_KeyFile tls <> "" /\ TLS_Enabled tls = true /\
   file_exists (TLS_CertFile tls) = true /\ file_exists (TLS_KeyFile tls) = true).

Lemma validateTLS_nil tls : validateTLS file_exists tls = [] <-> tls_ok tls.
Proof.
  unfold validateTLS, tls_ok.
  destruct (String.eqb_spec (TLS_CertFile tls) ""), (String.eqb_spec (TLS_KeyFile tls) "");
    simpl; rewrite ?app_nil_iff, ?fail_if_nil, ?negb_false_iff; naive_solver.
Qed.

(** A seeded virtual SMSC keeps the wall clock out of its decisions. *)
Definition seeded_ok (vs : VirtualSMSCConfig) : Prop :=
  is_Some (VS_Seed vs) ->
  (is_Some (VS_ThroughputLimitPerSec vs) -> throughputExempt (SC_Profile (VS_Scenario vs)) = true) /\
  Forall (fun tr => throughputExempt (ST_ToProfile tr) = false) (VS_ScheduledTransitions vs).

Record vs_ok (vs : VirtualSMSCConfig) : Prop := {
  vk_name : VS_Name vs <> "";
  vk_port : portMin <= VS_Port vs <= portMax;
  vk_ton : 0 <= VS_AddrTON vs <= octetMax;
  vk_npi : 0 <= VS_AddrNPI vs <= octetMax;
  vk_buffer : pduBufferSizeMin <= VS_PDUBufferSize vs <= pduBufferSizeMax;
  vk_limit : forall l, VS_ThroughputLimitPerSec vs = Some l -> 1 <= l;
  vk_flush : forall ms, VS_QuiescenceFlushMs vs = Some ms ->
    quiescenceFlushMinMs <= ms <= quiescenceFlushMaxMs;
  vk_seeded : seeded_ok vs;
  vk_range : VS_AddressRange vs = "" \/ regexp_compiles (VS_AddressRange vs) = true;
  vk_tls : tls_ok (VS_TLS vs);
  vk_scenario : scenario_ok (VS_Scenario vs);
  vk_mo : forall mo, VS_MOInjection vs = Some mo -> mo_ok mo;
  vk_disconnects : Forall disconnect_ok (VS_ScheduledDisconnects vs);
  vk_transitions : Forall (fun tr => Profile_Valid (ST_ToProfile tr) = true) (VS_ScheduledTransitions vs)
}.

Lemma seeded_checks_nil vs seeded (f1 f2 : string) :
  seeded = bool_decide (is_Some (VS_Seed vs)) ->
  (fail_set (VS_ThroughputLimitPerSec vs) seeded
     (fun _ => negb (throughputExempt (SC_Profile (VS_Scenario vs)))) ErrSeededThroughputLimit f1 = [] /\
   (if seeded then VS_ScheduledTransitions vs ≫= fun tr =>
      fail_if (throughputExempt (ST_ToProfile tr)) ErrSeededThroughputLimit f2 else []) = [])
  <-> seeded_ok vs.
Proof.
  intros ->. unfold seeded_ok. rewrite fail_set_nil. setoid_rewrite negb_false_iff.
  case_bool_decide as Hs; [|split; [done | split; [done|done]]].
  rewrite bind_nil_iff. setoid_rewrite fail_if_nil. split.
  - intros [H1 H2] _. split; [|done]. intros [l Hl]. by eapply H1.
  - intros H. destruct (H Hs) as [H1 H2]. split; [|done]. intros l Hl _. apply H1. by eexists.
Qed.

Definition vs_typed (vs : VirtualSMSCConfig) : Prop := scenario_typed (VS_Scenario vs).

Lemma validateVirtualSMSC_nil vs :
  vs_typed vs -> validateVirtualSMSC regexp_compiles file_exists vs = [] <-> vs_ok vs.
Proof.
  intros Hty. unfold validateVirtualSMSC. rewrite !app_nil_iff.
  rewrite !fail_if_nil, !fail_set_true_nil, !not_in_false, validateTLS_nil, validateScenario_nil,
    validateMOInjection_nil, !bind_nil_iff, String.eqb_neq, andb_false_iff, !negb_false_iff,
    String.eqb_eq by done.
  rewrite (Forall_iff _ _ disconnect_ok) by apply validateScheduledDisconnect_nil.
  rewrite (Forall_iff _ _ (fun tr => Profile_Valid (ST_ToProfile tr) = true))
    by (intros tr; by rewrite fail_if_nil, negb_false_iff).
  setoid_rewrite Z.ltb_ge. setoid_rewrite not_in_false.
  pose proof (seeded_checks_nil vs _ "virtual_smscs.throughput_limit_per_sec"
    "scheduled_transitions.to_profile" eq_refl) as Hseed.
  replace (match VS_Seed vs with Some _ => true | None => false end)
    with (bool_decide (is_Some (VS_Seed vs))) by (by destruct (VS_Seed vs)).
  split.
  - intros (? & ? & ? & ? & ? & ? & ? & H1 & H2 & ? & ? & ? & ? & ? & ?). split; try done.
    by apply Hseed.
  - intros []. apply Hseed in vk_seeded0 as [? ?]. repeat (split; [done|]). done.
Qed.

(** The ports the process listens on; an HTTP port of 0 is assigned by the OS. *)
Definition http_ports (cfg : Config) : list Z :=
  match CFG_Observability cfg with
  | Some o => if 0 <? OC_HTTPPort o then [OC_HTTPPort o] else []
  | None => []
  end.

Record config_ok (cfg : Config) : Prop := {
  ck_http : forall o, CFG_Observability cfg = Some o -> 0 <= OC_HTTPPort o <= portMax;
  ck_vs : Forall vs_ok (CFG_VirtualSMSCs cfg);
  ck_ports : NoDup (http_ports cfg ++ (VS_Port <$> CFG_VirtualSMSCs cfg))
}.

Definition config_typed (cfg : Config) : Prop := Forall vs_typed (CFG_VirtualSMSCs cfg).

Lemma validate_ports_nil vss seen :
  Forall vs_typed vss ->
  validate_ports regexp_compiles file_exists vss seen = [] <->
  Forall vs_ok vss /\ NoDup (VS_Port <$> vss) /\ Forall (fun vs => seen !! VS_Port vs = None) vss.
Proof.
  intros Hty. revert seen. induction Hty as [|vs vss Hvs _ IH]; intros seen; simpl.
  { split; [|done]. intros _. split_and!; constructor. }
  rewrite app_nil_iff, validateVirtualSMSC_nil, !Forall_cons, NoDup_cons by done.
  destruct (seen !! VS_Port vs) as [prev|] eqn:Hseen.
  { split; [by intros [_ ?]|]. by intros (_ & _ & ? & _). }
  rewrite IH. rewrite list_elem_of_fmap, !Forall_forall. split.
  - intros (? & ? & ? & Hno). split_and!; try done.
    + intros (vs' & Heq & Hin). specialize (Hno vs' Hin). rewrite Heq in Hno.
      by rewrite lookup_insert_eq in Hno.
    + intros vs' Hin. specialize (Hno vs' Hin). by apply lookup_insert_None in Hno as [? _].
  - intros ((? & ?) & (Hnin & ?) & _ & Hno). split_and!; try done.
    intros vs' Hin. apply lookup_insert_None. split; [by apply Hno|]. intros Heq. apply Hnin. eauto.
Qed.

Lemma NoDup_seen ports vss (seen : gmap Z string) :
  (forall p, seen !! p = None <-> p ∉ ports) -> NoDup ports ->
  NoDup (ports ++ (VS_Port <$> vss)) <->
  NoDup (VS_Port <$> vss) /\ Forall (fun vs => seen !! VS_Port vs = None) vss.
Proof.
  intros Hseen Hnd. rewrite NoDup_app, Forall_forall. setoid_rewrite Hseen.
  setoid_rewrite list_elem_of_fmap. split.
  - intros (_ & Hdis & ?). split; [done|]. intros vs Hin Hp. eapply Hdis; eauto.
  - intros [? Hno]. split_and!; [done| |done]. intros p Hp (vs & -> & Hin). by eapply Hno.
Qed.

Lemma validate_nil cfg :
  config_typed cfg -> validate regexp_compiles file_exists cfg = [] <-> config_ok cfg.
Proof.
  intros Hty. unfold validate.
  rewrite app_nil_iff, fail_set_true_nil, validate_ports_nil by done. setoid_rewrite not_in_false.
  rewrite <- (NoDup_seen (http_ports cfg)); [split; [intros (? & ? & ?); by split | by intros []]|..];
    unfold http_ports; destruct (CFG_Observability cfg) as [o|]; try destruct (0 <? OC_HTTPPort o);
    try (intros p; rewrite ?lookup_singleton_None, ?list_elem_of_singleton, ?lookup_empty); try set_solver;
    try apply NoDup_nil_2; try apply NoDup_singleton.
Qed.
End Gate.

(** C31: the boot gate is exact.  On a configuration whose weights are unsigned
    words, [validate] reports no error exactly when the configuration is valid:
    every virtual SMSC is well formed, its scenario sets exactly the knobs its
    profile and distributions use with values in range, a seeded one keeps
    wall-clock throttling out, and no two listeners share a port.  The reserved
    [clock: wallclock] is valid in no configuration, seeded or not. *)
Theorem validate_exact regexp_compiles file_exists cfg :
  config_typed cfg ->
  validate regexp_compiles file_exists cfg = [] <-> config_ok regexp_compiles file_exists cfg.
Proof. apply validate_nil. Qed.

(** A one-carrier fixture: a seeded flaky carrier with receipts. *)
Definition no_params : ScenarioParams := mkScenarioParams None None None None None None.

Definition fixed_latency (ms : Z) : LatencyConfig :=
  mkLatencyConfig LatencyFixed (mkLatencyParams (Some ms) None None None None None None None).

Definition sample_scenario : ScenarioConfig :=
  mkScenarioConfig ProfileFlakyCarrier
    (mkScenarioParams (Some (f64_fraction (2 ^ 52)))
       (Some {[ErrorCodeRThrottled := 3; ErrorCodeRSysErr := 1]}) (Some 5) None None None)
    (fixed_latency 20)
    (Some (mkDLRConfig (mkDLRDelay LatencyFixed (Some 2) None None) (mkDLROutcomeWeights 8 1 1) ""))
    false None.

Definition sample_smsc (name : string) (port : Z) : VirtualSMSCConfig :=
  mkVirtualSMSCConfig name port (mkBindCredentials "gw" "secret") 1 1 "" (mkTLSConfig false "" "")
    (Some 42) 100 None None sample_scenario None
    [mkScheduledDisconnect 9 DisconnectScopeAll DisconnectAfterResponse]
    [mkScheduledTransition 7 ProfileHealthy].

Definition sample_config : Config :=
  mkConfig (Some (mkObservabilityConfig 8080)) [sample_smsc "a" 2775; sample_smsc "b" 2776].

Lemma sample_scenario_typed : scenario_typed sample_scenario.
Proof.
  split; [intros mix Hmix | intros dlr Hdlr].
  - assert (mix = {[ErrorCodeRThrottled := 3; ErrorCodeRSysErr := 1]}) as -> by (simpl in Hmix; congruence).
    by_decide.
  - simpl in Hdlr. simplify_eq. by_decide.
Qed.

Lemma sample_scenario_ok : scenario_ok sample_scenario.
Proof. apply (validateScenario_nil _ sample_scenario_typed). vm_compute. reflexivity. Qed.

Lemma sample_config_typed : config_typed sample_config.
Proof. repeat (constructor; [exact sample_scenario_typed|]). constructor. Qed.

Lemma validate_exact_witness :
  config_typed sample_config /\
  config_ok (fun _ => true) (fun _ => true) sample_config /\
  ~ config_ok (fun _ => true) (fun _ => true)
      (mkConfig None [sample_smsc "a" 2775; sample_smsc "b" 2775]).
Proof.
  split; [exact sample_config_typed|]. split.
  - apply (validate_exact (fun _ => true) (fun _ => true) sample_config sample_config_typed).
    vm_compute. reflexivity.
  - intros [_ _ H]. apply NoDup_cons in H as [H _]. apply H. left.
Defined.
