(* ===== verification/Scenario.v ===== *)
(** * The scenario engine ([internal/scenario/scenario.go], [status.go])

    Given the active profile and a bind's random source, what outcome and what
    latency for each submit_sm.  The engine is immutable; a [BindState] carries
    the source and the throughput gate and is threaded through every call.  The
    wall clock enters only as the argument [now] of the gate. *)

From S2P Require Import Prelude.
From S2P Require Import SmppPdu.
From S2P Require Import SmppEdge.
From S2P Require Import Rng.
From S2P Require Import Config.
From S2P Require Import Fault.

(** ** Data *)

Inductive Outcome := OutcomeSuccess | OutcomeError | OutcomeTimeout | OutcomeDisconnect.

Inductive DLROutcome := DLRDelivered | DLRFailed | DLRExpired.

#[export] Instance Outcome_eq_dec : EqDecision Outcome.
Proof. solve_decision. Defined.
#[export] Instance DLROutcome_eq_dec : EqDecision DLROutcome.
Proof. solve_decision. Defined.

Definition DLROutcome_String (o : DLROutcome) : string :=
  match o with DLRDelivered => "delivered" | DLRFailed => "failed" | DLRExpired => "expired" end.

Record DLRPlan := mkDLRPlan { DP_Outcome : DLROutcome; DP_DelayTicks : Z }.

Record EdgeCasePlan := mkEdgeCasePlan { EP_Kind : EdgeCaseKind }.

Record Decision := mkDecision {
  D_Outcome : Outcome;
  D_Status : CommandStatus;
  D_LatencyMS : Z;
  D_DisconnectWhen : DisconnectWhen;
  D_DLR : option DLRPlan;
  D_EdgeCase : option EdgeCasePlan
}.

(** [Decision{Outcome: o, Status: s, LatencyMS: l}] with zero values elsewhere. *)
Definition decision (o : Outcome) (s : CommandStatus) (l : Z) : Decision :=
  mkDecision o s l "" None None.

(** An entry of a flattened weight table: the item and the running total. *)
Record weighted (A : Type) := mkWeighted { wt_item : A; wt_cum : Z }.
Arguments mkWeighted {A}. Arguments wt_item {A}. Arguments wt_cum {A}.

Abbreviation weightedDLR := (weighted DLROutcome).
Abbreviation weightedCode := (weighted CommandStatus).

Record Engine := mkEngine {
  e_profile : Profile;
  e_params : ScenarioParams;
  e_latency : LatencyConfig;
  e_errorMix : list weightedCode;
  e_limitPerSec : option Z;
  e_dlrEnabled : bool;
  e_dlrMix : list weightedDLR;
  e_dlrDelayTicks : Z;
  e_edgeEnabled : bool;
  e_edgeEveryTicks : Z;
  e_edgeKinds : list EdgeCaseKind
}.

Record BindState (R : Type) := mkBindState { rng : R; schedBase : Z; gate : option WallWindow }.
Arguments mkBindState {R}. Arguments rng {R}. Arguments schedBase {R}. Arguments gate {R}.

(** ** Construction *)

Definition statusFor (c : SMPPErrorCode) : CommandStatus :=
  if String.eqb c ErrorCodeROK then StatusROK
  else if String.eqb c ErrorCodeRThrottled then StatusThrottled
  else if String.eqb c ErrorCodeRSubmitFail then StatusSubmitFail
  else if String.eqb c ErrorCodeRInvDstAdr then StatusInvDstAdr
  else if String.eqb c ErrorCodeRSysErr then StatusSysErr
  else if String.eqb c ErrorCodeRMsgQFul then StatusMsgQFul
  else if String.eqb c ErrorCodeRInvSrcAdr then StatusInvSrcAdr
  else StatusSysErr.

(** The loop shared by [buildErrorMix] and [buildDLRMix]: skip zero weights,
    accumulate the others. *)
Fixpoint flatten_weights {A} (entries : list (A * Z)) (cum : Z) : list (weighted A) :=
  match entries with
  | [] => []
  | (a, w) :: entries =>
      if w =? 0 then flatten_weights entries cum
      else mkWeighted a (cum +64 w) :: flatten_weights entries (cum +64 w)
  end.

(** [mix[c]] on an absent key is the zero value. *)
Definition buildErrorMix (mix : option (gmap SMPPErrorCode Z)) : list weightedCode :=
  match mix with
  | None => []
  | Some mix =>
      flatten_weights ((fun c => (statusFor c, default 0 (mix !! c))) <$> sorted_keys mix) 0
  end.

Definition buildDLRMix (w : DLROutcomeWeights) : list weightedDLR :=
  flatten_weights [(DLRDelivered, OW_Delivered w); (DLRFailed, OW_Failed w);
                   (DLRExpired, OW_Expired w)] 0.

Definition allEdgeKinds : list EdgeCaseKind := [EdgeBadLength; EdgeUnknownCmdID; EdgeBadSequence].

Definition mapEdgeKinds (kinds : list ConfigEdgeCaseKind) : list EdgeCaseKind :=
  kinds ≫= fun k =>
    if String.eqb k EdgeCaseBadLength then [EdgeBadLength]
    else if String.eqb k EdgeCaseUnknownCmdID then [EdgeUnknownCmdID]
    else if String.eqb k EdgeCaseBadSequence then [EdgeBadSequence]
    else [].

Definition New (cfg : ScenarioConfig) (limitPerSec : option Z) : Engine :=
  let ec := SC_ProtocolEdgeCases cfg in
  let enabled := SC_ProtocolEdgeCasesEnabled cfg in
  mkEngine (SC_Profile cfg) (SC_Params cfg) (SC_Latency cfg)
    (buildErrorMix (SP_ErrorMix (SC_Params cfg))) limitPerSec
    (match SC_DLR cfg with Some _ => true | None => false end)
    (match SC_DLR cfg with Some dlr => buildDLRMix (DC_OutcomeWeights dlr) | None => [] end)
    (match SC_DLR cfg with Some dlr => default 0 (DD_Ticks (DC_Delay dlr)) | None => 0 end)
    enabled
    (if enabled then
       match ec with Some ec => default 1 (EC_InjectEveryTicks ec) | None => 1 end
     else 0)
    (if enabled then
       match ec with
       | Some ec => match EC_Kinds ec with [] => allEdgeKinds | ks => mapEdgeKinds ks end
       | None => allEdgeKinds
       end
     else []).

(** The tightest of the limits that apply. *)
Definition consider (c : Z) (acc : Z * bool) : Z * bool :=
  let '(cap, ok) := acc in if negb ok || (c <? cap) then (c, true) else (cap, ok).

Definition effectiveCap (e : Engine) : Z * bool :=
  let acc := (0, false) in
  let acc := match e_limitPerSec e with Some l => consider l acc | None => acc end in
  if String.eqb (e_profile e) ProfileThrottlingCarrier
     || String.eqb (e_profile e) ProfileThroughputCapped
  then match SP_ThroughputCapPerSec (e_params e) with Some c => consider c acc | None => acc end
  else acc.

Definition RejectBind (e : Engine) : bool :=
  String.eqb (e_profile e) ProfileDeadCarrier &&
  match SP_Mode (e_params e) with Some m => String.eqb m DeadCarrierRejectBind | None => false end.

Section Engine.
Context {R : Type} `{RandSource R}.
Implicit Types (st : BindState R) (e : Engine).

(** [entropy] and [chaosBase] stand for the three draws of the process-seeded
    global source that an unseeded bind makes. *)
Definition NewBindState e (seed : option Z) (smscID : string) (bindOrdinal : Z)
    (entropy : Z * Z) (chaosBase : Z) : BindState R :=
  let '(r, base) :=
    match seed with
    | Some s => (NewBind s smscID bindOrdinal, ScheduleBase s smscID bindOrdinal)
    | None => (NewChaos entropy, chaosBase)
    end in
  let '(cap, ok) := effectiveCap e in
  mkBindState r base (if ok then Some (NewWallWindow cap) else None).

Definition DisconnectDraw st (tick : Z) : bool := ScheduleCoin (schedBase st) tick.

(** ** Decisions *)

Definition set_rng st (r : R) : BindState R := mkBindState r (schedBase st) (gate st).

(** The first entry whose running total exceeds the draw, or the fallback. *)
Fixpoint find_cum {A} (n : Z) (mix : list (weighted A)) (fallback : A) : A :=
  match mix with
  | [] => fallback
  | w :: mix => if n <? wt_cum w then wt_item w else find_cum n mix fallback
  end.

Definition pick_weighted {A} (mix : list (weighted A)) (absent : A) (r : R) : may_panic (A * R) :=
  match last mix with
  | None => Ok (absent, r)
  | Some w => let* draw := Uint64N (wt_cum w) r in Ok (find_cum draw.1 mix (wt_item w), draw.2)
  end.

Definition pickDLROutcome e (r : R) : may_panic (DLROutcome * R) :=
  pick_weighted (e_dlrMix e) DLRDelivered r.

Definition pickErrorStatus e (r : R) : may_panic (CommandStatus * R) :=
  pick_weighted (e_errorMix e) StatusSubmitFail r.

Definition edgeCaseFor e (t : Z) : may_panic (option EdgeCaseKind) :=
  if negb (e_edgeEnabled e) || (t =? 0) || (len (e_edgeKinds e) =? 0)
     || (e_edgeEveryTicks e =? 0) || negb (t mod e_edgeEveryTicks e =? 0)
  then Ok None
  else
    let idx := (t / e_edgeEveryTicks e -64 1) mod len (e_edgeKinds e) in
    let* k := go_index (e_edgeKinds e) idx in Ok (Some k).

Definition throttleStatus e : CommandStatus :=
  if String.eqb (e_profile e) ProfileThrottlingCarrier then
    match SP_ErrorCode (e_params e) with Some c => statusFor c | None => StatusThrottled end
  else StatusThrottled.

Definition latencyMS e st (t : Z) : may_panic (Z * BindState R) :=
  let* l := LatencyMS (e_latency e) t (rng st) in Ok (l.1, set_rng st l.2).

(** [iv != nil && *iv != 0 && t % *iv == 0]. *)
Definition interval_fires (iv : option Z) (t : Z) : bool :=
  match iv with Some iv => negb (iv =? 0) && (t mod iv =? 0) | None => false end.

Definition evaluateFlaky e st (t : Z) : may_panic (Decision * BindState R) :=
  let successRate := default f64_one (SP_SuccessRate (e_params e)) in
  let '(x, r) := Float64_draw (rng st) in
  let* os :=
    if SFleb successRate x
    then let* s := pickErrorStatus e r in Ok (OutcomeError, s.1, s.2)
    else Ok (OutcomeSuccess, 0, r) in
  let '(o, s, r) := os in
  let* l := latencyMS e (set_rng st r) t in
  let d := decision o s l.1 in
  Ok (if interval_fires (SP_DisconnectIntervalTicks (e_params e)) t
      then mkDecision OutcomeDisconnect (D_Status d) (D_LatencyMS d) DisconnectAfterResponse None None
      else d, l.2).

(** The gate, then the profile. *)
Definition evaluate e (now : Z) st (t : Z) : may_panic (Decision * BindState R) :=
  let '(allowed, g) :=
    match gate st with
    | None => (true, None)
    | Some g => let '(b, g) := Allow now g in (b, Some g)
    end in
  let st := mkBindState (rng st) (schedBase st) g in
  if negb allowed then Ok (decision OutcomeError (throttleStatus e) 0, st)
  else if String.eqb (e_profile e) ProfileFlakyCarrier then evaluateFlaky e st t
  else if String.eqb (e_profile e) ProfileDeadCarrier then Ok (decision OutcomeTimeout 0 0, st)
  else let* l := latencyMS e st t in Ok (decision OutcomeSuccess 0 l.1, l.2).

Definition set_DLR (d : Decision) (p : option DLRPlan) : Decision :=
  mkDecision (D_Outcome d) (D_Status d) (D_LatencyMS d) (D_DisconnectWhen d) p (D_EdgeCase d).

Definition set_EdgeCase (d : Decision) (p : option EdgeCasePlan) : Decision :=
  mkDecision (D_Outcome d) (D_Status d) (D_LatencyMS d) (D_DisconnectWhen d) (D_DLR d) p.

Definition Evaluate e (now : Z) st (t : Z) : may_panic (Decision * BindState R) :=
  let* ds := evaluate e now st t in
  let '(d, st) := ds in
  let* ds :=
    if e_dlrEnabled e && bool_decide (D_Outcome d = OutcomeSuccess) then
      let* o := pickDLROutcome e (rng st) in
      Ok (set_DLR d (Some (mkDLRPlan o.1 (e_dlrDelayTicks e))), set_rng st o.2)
    else Ok (d, st) in
  let '(d, st) := ds in
  let* k := edgeCaseFor e t in
  Ok (match k with Some k => set_EdgeCase d (Some (mkEdgeCasePlan k)) | None => d end, st).

End Engine.
