(* ===== verification/ScenarioThms.v ===== *)
(** * Correctness of the scenario engine *)

From S2P Require Import Prelude.
From S2P Require Import SmppPdu.
From S2P Require Import SmppEdge.
From S2P Require Import Rng.
From S2P Require Import Config.
From S2P Require Import Fault.
From S2P Require Import Validate.
From S2P Require Import ValidateThms.
From S2P Require Import Scenario.

(** ** Weighted picks *)

Section Weights.
Context {A : Type}.
Implicit Types (entries : list (A * Z)).

Definition total_weight entries : Z := foldr (fun e acc => e.2 + acc) 0 entries.

Lemma total_weight_sum entries : total_weight entries = sum_list entries.*2.
Proof. induction entries as [|e entries IH]; [done|]. csimpl. by rewrite IH. Qed.

Lemma total_weight_cons a w entries : total_weight ((a, w) :: entries) = w + total_weight entries.
Proof. done. Qed.

Lemma total_weight_app e1 e2 : total_weight (e1 ++ e2) = total_weight e1 + total_weight e2.
Proof.
  induction e1 as [|[a w] e1 IH]; [done|]. cbn [app]. rewrite !total_weight_cons, IH. lia.
Qed.

Definition weights_fit entries (cum : Z) : Prop :=
  Forall (fun e => 0 <= e.2) entries /\ 0 <= cum /\ cum + total_weight entries < 2 ^ 64.

Lemma total_weight_nonneg entries : Forall (fun e => 0 <= e.2) entries -> 0 <= total_weight entries.
Proof.
  induction 1 as [|[a w] entries Hw _ IH]; [done|]. rewrite total_weight_cons. simpl in Hw. lia.
Qed.

Lemma weights_fit_cons a w entries cum :
  weights_fit ((a, w) :: entries) cum ->
  0 <= w /\ u64 (cum + w) = cum + w /\ weights_fit entries (cum + w).
Proof.
  intros (Hnn & Hc & Hs). apply Forall_cons_1 in Hnn as [Hw Hnn]. simpl in Hw.
  rewrite total_weight_cons in Hs. pose proof (total_weight_nonneg entries Hnn).
  split_and!; [done|apply u64_small; unfold is_u64; lia|]. split_and!; [done|lia..].
Qed.

(** A draw in the window of an entry selects that entry. *)
Lemma find_flatten e1 a w e2 cum n fb :
  weights_fit (e1 ++ (a, w) :: e2) cum ->
  cum + total_weight e1 <= n < cum + total_weight e1 + w ->
  find_cum n (flatten_weights (e1 ++ (a, w) :: e2) cum) fb = a.
Proof.
  revert cum. induction e1 as [|[b v] e1 IH]; intros cum Hfit Hn; cbn [app] in *.
  - apply weights_fit_cons in Hfit as (Hw & Hu & _). unfold total_weight in Hn. simpl in Hn.
    cbn [flatten_weights]. replace (w =? 0) with false by (symmetry; bool_lia). simpl.
    rewrite Hu. by replace (n <? cum + w) with true by (symmetry; bool_lia).
  - apply weights_fit_cons in Hfit as (Hv & Hu & Hfit).
    rewrite total_weight_cons in Hn.
    assert (0 <= total_weight e1) as Hnn.
    { destruct Hfit as (Hf & _ & _). apply Forall_app in Hf as [Hf _]. by apply total_weight_nonneg. }
    cbn [flatten_weights]. rewrite Hu. destruct (Z.eqb_spec v 0) as [->|Hne].
    + rewrite Z.add_0_r in Hfit. apply IH; [done|lia].
    + simpl. replace (n <? cum + v) with false by (symmetry; bool_lia). apply IH; [done|lia].
Qed.

(** Every draw below the total falls in the window of one entry. *)
Lemma draw_window entries n :
  Forall (fun e => 0 <= e.2) entries -> 0 <= n < total_weight entries ->
  exists e1 a w e2, entries = e1 ++ (a, w) :: e2 /\
    total_weight e1 <= n < total_weight e1 + w.
Proof.
  intros Hnn. revert n. induction Hnn as [|[b v] entries Hv Hnn IH]; intros n Hn; [unfold total_weight in Hn; simpl in Hn; lia|].
  rewrite total_weight_cons in Hn. simpl in Hv.
  destruct (Z.lt_ge_cases n v) as [Hlt|Hge].
  - exists [], b, v, entries. split; [done|]. unfold total_weight. simpl. lia.
  - destruct (IH (n - v)) as (e1 & a & w & e2 & -> & Hw); [lia|].
    exists ((b, v) :: e1), a, w, e2. split; [done|].
    rewrite total_weight_cons. lia.
Qed.

(** With distinct items, an item is selected by exactly its weight's worth of
    consecutive draws. *)
Lemma flatten_exact entries a w fb :
  weights_fit entries 0 -> NoDup entries.*1 -> (a, w) ∈ entries ->
  exists lo, 0 <= lo /\ lo + w <= total_weight entries /\
    forall n, 0 <= n < total_weight entries ->
      (find_cum n (flatten_weights entries 0) fb = a <-> lo <= n < lo + w).
Proof.
  intros Hfit Hnd Hin. apply list_elem_of_split in Hin as (e1 & e2 & ->).
  pose proof Hfit as (Hnn & _ & _). pose proof Hnn as Hnn0. apply Forall_app in Hnn as [Hn1 Hn2].
  apply Forall_cons_1 in Hn2 as [Hw Hn2]. simpl in Hw.
  pose proof (total_weight_nonneg _ Hn1). pose proof (total_weight_nonneg _ Hn2).
  exists (total_weight e1). rewrite total_weight_app, total_weight_cons. split_and!; [done|lia|].
  intros n Hn. split.
  - intros Hfind. destruct (draw_window (e1 ++ (a, w) :: e2) n) as (f1 & b & v & f2 & Heq & Hv).
    { done. } { by rewrite total_weight_app, total_weight_cons. }
    rewrite Heq in Hfind, Hfit. rewrite find_flatten in Hfind by (done || lia). subst b.
    assert (length f1 = length e1) as Hl.
    { eapply (NoDup_lookup (e1 ++ (a, w) :: e2).*1); [done| |].
      - rewrite Heq, fmap_app, lookup_app_r by by rewrite length_fmap.
        rewrite length_fmap, Nat.sub_diag. simpl. reflexivity.
      - rewrite fmap_app, lookup_app_r by by rewrite length_fmap.
        rewrite length_fmap, Nat.sub_diag. done. }
    apply app_inj_1 in Heq as [-> Heq]; [|done]. simplify_eq. done.
  - intros Hlo. apply find_flatten; [done|lia].
Qed.

(** The last running total is the sum of the weights. *)
Lemma last_flatten entries cum :
  weights_fit entries cum -> 0 < total_weight entries ->
  exists z, last (flatten_weights entries cum) = Some z /\ wt_cum z = cum + total_weight entries.
Proof.
  revert cum. induction entries as [|[a w] entries IH]; intros cum Hfit Hpos.
  { unfold total_weight in Hpos. simpl in Hpos. lia. }
  apply weights_fit_cons in Hfit as (Hw & Hu & Hfit). rewrite total_weight_cons in Hpos |- *.
  cbn [flatten_weights]. rewrite Hu.
  assert (0 <= total_weight entries) as Hnn by (destruct Hfit as (? & _); by apply total_weight_nonneg).
  destruct (Z.eqb_spec w 0) as [->|Hne].
  { rewrite Z.add_0_r in Hfit. apply IH; [done|lia]. }
  destruct (decide (0 < total_weight entries)) as [Hp|Hz].
  - destruct (IH (cum + w) Hfit Hp) as (z & Hlast & Hz). exists z. split; [|lia].
    rewrite last_cons, Hlast. done.
  - assert (flatten_weights entries (cum + w) = []) as ->.
    { destruct Hfit as (Hf & _). assert (total_weight entries = 0) as H0 by lia.
      clear -Hf H0. induction Hf as [|[a w'] entries Hw Hf IH]; [done|].
      rewrite total_weight_cons in H0. simpl in *. pose proof (total_weight_nonneg _ Hf).
      replace (w' =? 0) with true by (symmetry; bool_lia). apply IH. lia. }
    eexists. split; [done|]. simpl. lia.
Qed.

Lemma pick_weighted_draw {R} `{RandSource R} entries (fb : A) (r : R) :
  weights_fit entries 0 -> 0 < total_weight entries ->
  exists z, pick_weighted (flatten_weights entries 0) fb r =
    Ok (find_cum (Uint64N_draw (total_weight entries) r).1 (flatten_weights entries 0) z,
        (Uint64N_draw (total_weight entries) r).2).
Proof.
  intros Hfit Hpos. destruct (last_flatten entries 0 Hfit Hpos) as (z & Hlast & Hz).
  exists (wt_item z). unfold pick_weighted. rewrite Hlast. unfold Uint64N. rewrite Hz, Z.add_0_l.
  replace (total_weight entries =? 0) with false by (symmetry; bool_lia). done.
Qed.
End Weights.

(** ** What a validated scenario builds *)

Definition mix_entries (mix : gmap SMPPErrorCode Z) : list (CommandStatus * Z) :=
  (fun c => (statusFor c, default 0 (mix !! c))) <$> sorted_keys mix.

Definition dlr_entries (w : DLROutcomeWeights) : list (DLROutcome * Z) :=
  [(DLRDelivered, OW_Delivered w); (DLRFailed, OW_Failed w); (DLRExpired, OW_Expired w)].

Lemma statusFor_inj c c' :
  SMPPErrorCode_ValidError c = true -> SMPPErrorCode_ValidError c' = true ->
  statusFor c = statusFor c' -> c = c'.
Proof.
  unfold SMPPErrorCode_ValidError. rewrite !andb_true_iff, !negb_true_iff, !String.eqb_neq.
  intros [Hn Hv] [Hn' Hv']. apply one_of_true in Hv, Hv'. set_unfold in Hv. set_unfold in Hv'.
  destruct_or?; subst; try done.
Qed.

Lemma statusFor_error c : SMPPErrorCode_ValidError c = true -> statusFor c <> StatusROK.
Proof.
  unfold SMPPErrorCode_ValidError. rewrite andb_true_iff. intros [Hn Hv].
  apply one_of_true in Hv. set_unfold in Hv. destruct_or?; subst; done.
Qed.

Lemma mix_entries_elem mix c w :
  mix !! c = Some w -> (statusFor c, w) ∈ mix_entries mix.
Proof.
  intros Hw. apply list_elem_of_fmap. exists c. rewrite Hw. split; [done|].
  apply elem_of_sorted_keys. by eexists.
Qed.

Lemma mix_entries_inv mix s w :
  (s, w) ∈ mix_entries mix -> exists c, s = statusFor c /\ mix !! c = Some w.
Proof.
  intros Hin. apply list_elem_of_fmap in Hin as (c & Heq & Hc).
  apply elem_of_sorted_keys in Hc as [v Hv]. rewrite Hv in Heq. simplify_eq. eauto.
Qed.

Lemma mix_entries_NoDup mix : mix_ok mix -> NoDup (mix_entries mix).*1.
Proof.
  intros [Hv _]. unfold mix_entries. rewrite <- list_fmap_compose.
  pose proof (NoDup_sorted_keys mix) as Hnd.
  assert (Forall (fun c => SMPPErrorCode_ValidError c = true) (sorted_keys mix)) as Hall.
  { apply Forall_forall. intros c [w Hw]%elem_of_sorted_keys. by eapply Hv. }
  induction Hnd as [|c l Hnin Hnd IH]; csimpl; constructor.
  - intros Hin. apply list_elem_of_fmap in Hin as (c' & Heq & Hc'). simpl in Heq.
    apply Forall_cons_1 in Hall as [Hc Hall]. rewrite Forall_forall in Hall.
    apply statusFor_inj in Heq; [by subst|done|by apply Hall].
  - apply IH. by apply Forall_cons_1 in Hall as [_ ?].
Qed.

Lemma mix_entries_perm mix : (mix_entries mix).*2 ≡ₚ (map_to_list mix).*2.
Proof.
  unfold mix_entries. rewrite <- list_fmap_compose.
  assert (sorted_keys mix ≡ₚ (map_to_list mix).*1) as ->.
  { rewrite sorted_keys_perm. apply NoDup_Permutation;
      [apply NoDup_elements | apply NoDup_fst_map_to_list|].
    intros k. rewrite elem_of_elements, elem_of_dom. split.
    - intros [w Hw]. apply list_elem_of_fmap. exists (k, w). by rewrite elem_of_map_to_list.
    - intros Hk. apply list_elem_of_fmap in Hk as ([k' w] & -> & Hkw).
      apply elem_of_map_to_list in Hkw. by eexists. }
  rewrite <- list_fmap_compose. apply reflexive_eq. apply Forall_fmap_ext_1, Forall_forall.
  intros [k w] Hkw. apply elem_of_map_to_list in Hkw. simpl. by rewrite Hkw.
Qed.

Lemma sum_list_perm l1 l2 : l1 ≡ₚ l2 -> sum_list l1 = sum_list l2.
Proof. unfold sum_list. induction 1; simpl; lia. Qed.

Lemma sum_list_bound ws : Forall (fun w => w <= weightMax) ws -> sum_list ws <= len ws * weightMax.
Proof.
  induction 1 as [|w ws Hw _ IH]; [done|]. rewrite len_cons. unfold sum_list in *. simpl. lia.
Qed.

Lemma mix_entries_fit mix :
  mix_ok mix -> uint_weights (map_to_list mix).*2 ->
  weights_fit (mix_entries mix) 0 /\ 1 <= total_weight (mix_entries mix).
Proof.
  intros [Hv [Hmax Hsum]] Hu. unfold weights_fit.
  rewrite !total_weight_sum, (sum_list_perm _ _ (mix_entries_perm mix)).
  split_and!; [|lia| |done].
  - assert (Forall (fun w => 0 <= w) (mix_entries mix).*2) as H.
    { rewrite mix_entries_perm. by apply uint_weights_nonneg. }
    rewrite Forall_fmap in H. exact H.
  - pose proof (sum_list_bound _ Hmax). pose proof (valid_mix_small mix Hv). unfold weightMax in *. lia.
Qed.

Lemma dlr_entries_fit w :
  weights_ok [OW_Delivered w; OW_Failed w; OW_Expired w] ->
  uint_weights [OW_Delivered w; OW_Failed w; OW_Expired w] ->
  weights_fit (dlr_entries w) 0 /\ 1 <= total_weight (dlr_entries w).
Proof.
  intros [Hmax Hsum] Hu. pose proof (sum_list_bound _ Hmax). apply uint_weights_nonneg in Hu.
  unfold weights_fit. rewrite total_weight_sum. split_and!; [|lia| |done].
  - change (Forall (fun w => 0 <= w) (dlr_entries w).*2) in Hu. rewrite Forall_fmap in Hu. exact Hu.
  - change (len [OW_Delivered w; OW_Failed w; OW_Expired w]) with 3 in *. unfold weightMax in *.
    change (sum_list (dlr_entries w).*2) with
      (sum_list [OW_Delivered w; OW_Failed w; OW_Expired w]). lia.
Qed.

Lemma buildErrorMix_entries mix : buildErrorMix (Some mix) = flatten_weights (mix_entries mix) 0.
Proof. done. Qed.

Lemma buildDLRMix_entries w : buildDLRMix w = flatten_weights (dlr_entries w) 0.
Proof. done. Qed.

(** Weighted picks are exact.  For a validated [error_mix] every configured
    code of weight [w] owns exactly [w] consecutive values of the draw
    [Uint64N(total)], [total] being the sum of the weights, and the pick answers
    that code's status on precisely those values; the same holds of the DLR
    outcome weights.  Nothing depends on the order in which the map is
    enumerated. *)
Theorem weighted_picks_exact {R} `{RandSource R} (e : Engine) (r : R) mix w :
  mix_ok mix -> uint_weights (map_to_list mix).*2 ->
  weights_ok [OW_Delivered w; OW_Failed w; OW_Expired w] ->
  uint_weights [OW_Delivered w; OW_Failed w; OW_Expired w] ->
  e_errorMix e = buildErrorMix (Some mix) -> e_dlrMix e = buildDLRMix w ->
  let total := sum_list (map_to_list mix).*2 in
  let dtotal := OW_Delivered w + OW_Failed w + OW_Expired w in
  (exists pick, pickErrorStatus e r =
     Ok (pick (Uint64N_draw total r).1, (Uint64N_draw total r).2) /\
   forall c v, mix !! c = Some v -> exists lo, 0 <= lo /\ lo + v <= total /\
     forall n, 0 <= n < total -> (pick n = statusFor c <-> lo <= n < lo + v)) /\
  (exists pick, pickDLROutcome e r =
     Ok (pick (Uint64N_draw dtotal r).1, (Uint64N_draw dtotal r).2) /\
   forall o v, (o, v) ∈ dlr_entries w -> exists lo, 0 <= lo /\ lo + v <= dtotal /\
     forall n, 0 <= n < dtotal -> (pick n = o <-> lo <= n < lo + v)).
Proof.
  intros Hmix Humix Hw Huw He Hd total dtotal.
  destruct (mix_entries_fit mix Hmix Humix) as [Hfit Hpos].
  destruct (dlr_entries_fit w Hw Huw) as [Hdfit Hdpos].
  assert (total_weight (mix_entries mix) = total) as Ht.
  { by rewrite total_weight_sum, (sum_list_perm _ _ (mix_entries_perm mix)). }
  assert (total_weight (dlr_entries w) = dtotal) as Hdt.
  { unfold total_weight, dtotal. simpl. lia. }
  unfold pickErrorStatus, pickDLROutcome.
  rewrite He, Hd, buildErrorMix_entries, buildDLRMix_entries. split.
  - destruct (pick_weighted_draw (mix_entries mix) StatusSubmitFail r Hfit ltac:(lia)) as [z ->].
    rewrite Ht. exists (fun n => find_cum n (flatten_weights (mix_entries mix) 0) z). split; [done|].
    intros c v Hc. rewrite <- Ht. apply flatten_exact; [done|by apply mix_entries_NoDup|].
    by apply mix_entries_elem.
  - destruct (pick_weighted_draw (dlr_entries w) DLRDelivered r Hdfit ltac:(lia)) as [z ->].
    rewrite Hdt. exists (fun n => find_cum n (flatten_weights (dlr_entries w) 0) z). split; [done|].
    intros o v Ho. rewrite <- Hdt. apply flatten_exact; [done|by_decide|done].
Qed.

Definition sample_mix : gmap SMPPErrorCode Z := {[ErrorCodeRThrottled := 3; ErrorCodeRSysErr := 1]}.

Lemma sample_mix_ok : mix_ok sample_mix /\ uint_weights (map_to_list sample_mix).*2.
Proof. split; [split; [by_decide | split; [by_decide | vm_compute; done]] | by_decide]. Qed.

Lemma weighted_picks_exact_witness :
  exists lo, 0 <= lo /\ lo + 3 <= 4.
Proof.
  destruct (weighted_picks_exact (New sample_scenario None) (NewPCG 1 2) sample_mix
    (mkDLROutcomeWeights 8 1 1) (proj1 sample_mix_ok) (proj2 sample_mix_ok)) as [(pick & _ & H) _].
  - split; [by_decide | vm_compute; done].
  - by_decide.
  - reflexivity.
  - reflexivity.
  - destruct (H ErrorCodeRThrottled 3) as (lo & Hlo & Hhi & _); [vm_compute; reflexivity|].
    exists lo. split; [exact Hlo | exact Hhi].
Defined.

(** ** The verdict on a submit *)

Definition error_status (sc : ScenarioConfig) (s : CommandStatus) : Prop :=
  match SP_ErrorMix (SC_Params sc) with
  | Some mix => exists c w, mix !! c = Some w /\ 0 < w /\ s = statusFor c
  | None => s = StatusSubmitFail
  end.

Definition periodic_disconnect (sc : ScenarioConfig) (t : Z) : bool :=
  interval_fires (SP_DisconnectIntervalTicks (SC_Params sc)) t.

(** What the profile decides; [gated] says that the throughput gate refused. *)
Inductive verdict (sc : ScenarioConfig) (t : Z) (gated : bool) (throttle : CommandStatus)
  : Outcome -> CommandStatus -> Z -> DisconnectWhen -> Prop :=
| v_throttled : gated = true -> verdict sc t gated throttle OutcomeError throttle 0 ""
| v_timeout : gated = false -> SC_Profile sc = ProfileDeadCarrier ->
    verdict sc t gated throttle OutcomeTimeout 0 0 ""
| v_success l : gated = false -> SC_Profile sc <> ProfileDeadCarrier -> serves (SC_Latency sc) l ->
    (SC_Profile sc = ProfileFlakyCarrier -> periodic_disconnect sc t = false) ->
    verdict sc t gated throttle OutcomeSuccess 0 l ""
| v_error s l : gated = false -> SC_Profile sc = ProfileFlakyCarrier -> error_status sc s ->
    serves (SC_Latency sc) l -> periodic_disconnect sc t = false ->
    verdict sc t gated throttle OutcomeError s l ""
| v_disconnect s l : gated = false -> SC_Profile sc = ProfileFlakyCarrier ->
    serves (SC_Latency sc) l -> periodic_disconnect sc t = true ->
    verdict sc t gated throttle OutcomeDisconnect s l DisconnectAfterResponse.

Definition edge_cadence (sc : ScenarioConfig) : Z :=
  match SC_ProtocolEdgeCases sc with Some ec => default 1 (EC_InjectEveryTicks ec) | None => 1 end.

Definition edge_rotation (sc : ScenarioConfig) : list EdgeCaseKind :=
  match SC_ProtocolEdgeCases sc with
  | Some ec => match EC_Kinds ec with [] => allEdgeKinds | ks => mapEdgeKinds ks end
  | None => allEdgeKinds
  end.

(** The malformation expected on tick [t]: every [edge_cadence] ticks, the next
    kind of the rotation. *)
Definition expected_edge (sc : ScenarioConfig) (t : Z) : option EdgeCaseKind :=
  if SC_ProtocolEdgeCasesEnabled sc && (t mod edge_cadence sc =? 0)
  then edge_rotation sc !! Z.to_nat ((t / edge_cadence sc - 1) mod len (edge_rotation sc))
  else None.

Definition dlr_decided (sc : ScenarioConfig) (d : Decision) : Prop :=
  match SC_DLR sc with
  | Some dlr =>
      if decide (D_Outcome d = OutcomeSuccess) then
        exists o v ticks, D_DLR d = Some (mkDLRPlan o ticks) /\
          (o, v) ∈ dlr_entries (DC_OutcomeWeights dlr) /\ 0 < v /\
          DD_Ticks (DC_Delay dlr) = Some ticks /\ 1 <= ticks
      else D_DLR d = None
  | None => D_DLR d = None
  end.

Lemma profile_window p spec :
  profileCatalogue p = Some spec -> 0 <= PS_latencyMinMS spec /\ PS_latencyMaxMS spec <= latencyMSMax.
Proof.
  unfold profileCatalogue. intros H. repeat case_match; simplify_eq; simpl; by vm_compute.
Qed.

Section Verdict.
Context {R : Type} `{RandLaws R}.
Implicit Types (st : BindState R) (r : R).

Lemma LatencyMS_ok p spec lat t r :
  profileCatalogue p = Some spec -> latency_ok spec lat ->
  exists l r', LatencyMS lat t r = Ok (l, r') /\ serves lat l.
Proof.
  intros Hp Hl. apply profile_window in Hp as [Hmin Hmax]. unfold latencyMSMax in Hmax.
  apply LatencyMS_serves; inv Hl; simpl; unfold in_window in *; lia.
Qed.

Lemma pick_positive {A} (entries : list (A * Z)) (fb : A) r :
  weights_fit entries 0 -> 0 < total_weight entries ->
  exists a w r', pick_weighted (flatten_weights entries 0) fb r = Ok (a, r') /\
    (a, w) ∈ entries /\ 0 < w.
Proof.
  intros Hfit Hpos. destruct (pick_weighted_draw entries fb r Hfit Hpos) as [z ->].
  pose proof Hfit as (Hnn & _ & Hs).
  pose proof (Uint64N_range (total_weight entries) r Hpos ltac:(unfold is_u64; lia)) as Hn.
  destruct (draw_window entries _ Hnn Hn) as (e1 & a & w & e2 & -> & Hw).
  rewrite find_flatten by (done || lia). eexists a, w, _. split_and!; [done| |lia].
  apply elem_of_app. right. left.
Qed.

Lemma pickErrorStatus_ok sc limit spec r :
  params_ok spec (SC_Params sc) -> params_typed (SC_Params sc) ->
  exists s r', pickErrorStatus (New sc limit) r = Ok (s, r') /\ error_status sc s.
Proof.
  intros Hp Hty. unfold pickErrorStatus, error_status, New. simpl.
  destruct (SP_ErrorMix (SC_Params sc)) as [mix|] eqn:Hmix.
  - destruct (mix_entries_fit mix (pk_mix _ _ Hp mix Hmix) (Hty mix Hmix)) as [Hfit Hpos].
    rewrite buildErrorMix_entries.
    destruct (pick_positive (mix_entries mix) StatusSubmitFail r Hfit ltac:(lia))
      as (s & w & r' & -> & Hin & Hw).
    exists s, r'. split; [done|]. apply mix_entries_inv in Hin as (c & -> & Hc). eauto.
  - simpl. eauto.
Qed.

Lemma evaluateFlaky_ok sc limit spec st t :
  SC_Profile sc = ProfileFlakyCarrier -> profileCatalogue (SC_Profile sc) = Some spec ->
  params_ok spec (SC_Params sc) -> params_typed (SC_Params sc) -> latency_ok spec (SC_Latency sc) ->
  exists o s l w st', evaluateFlaky (New sc limit) st t = Ok (mkDecision o s l w None None, st') /\
    verdict sc t false (throttleStatus (New sc limit)) o s l w.
Proof.
  intros Hprof Hspec Hp Hty Hlat. unfold evaluateFlaky.
  destruct (Float64_draw (rng st)) as [x r0].
  assert (exists o s r1,
    (if SFleb (default f64_one (SP_SuccessRate (e_params (New sc limit)))) x
     then let* s := pickErrorStatus (New sc limit) r0 in Ok (OutcomeError, s.1, s.2)
     else Ok (OutcomeSuccess, 0, r0)) = Ok (E := Empty_set) (o, s, r1) /\
    ((o = OutcomeSuccess /\ s = 0) \/ (o = OutcomeError /\ error_status sc s)))
    as (o & s & r1 & -> & Ho).
  { destruct (SFleb _ _); [|by eauto 8].
    destruct (pickErrorStatus_ok sc limit spec r0 Hp Hty) as (s & r1 & -> & Hs). simpl. eauto 8. }
  rewrite obind_Ok. unfold latencyMS. simpl.
  destruct (LatencyMS_ok _ spec (SC_Latency sc) t r1 Hspec Hlat) as (l & r2 & -> & Hl). simpl.
  destruct (interval_fires (SP_DisconnectIntervalTicks (SC_Params sc)) t) eqn:Hf.
  - eexists _, _, _, _, _. split; [reflexivity|]. by constructor.
  - eexists _, _, _, _, _. split; [reflexivity|].
    destruct Ho as [[-> ->] | [-> Hs]]; constructor; try done. by rewrite Hprof.
Qed.

Lemma evaluate_ok sc limit now st t :
  scenario_ok sc -> scenario_typed sc ->
  let gated := match gate st with Some g => negb (Allow now g).1 | None => false end in
  exists o s l w st', evaluate (New sc limit) now st t = Ok (mkDecision o s l w None None, st') /\
    verdict sc t gated (throttleStatus (New sc limit)) o s l w.
Proof.
  intros (spec & Hspec & Hp & Hlat & _) [Hty _] gated. unfold evaluate.
  assert (exists g, (match gate st with None => (true, None)
     | Some g => let '(b, g) := Allow now g in (b, Some g) end) = (negb gated, g)) as [g ->].
  { unfold gated. destruct (gate st) as [g|]; [|by eauto].
    destruct (Allow now g) as [b g']. simpl. rewrite negb_involutive. eauto. }
  rewrite negb_involutive. destruct gated.
  { eexists _, _, _, _, _. split; [reflexivity|]. by constructor. }
  simpl e_profile. destruct (String.eqb_spec (SC_Profile sc) ProfileFlakyCarrier) as [Hf|Hf].
  { by eapply evaluateFlaky_ok. }
  destruct (String.eqb_spec (SC_Profile sc) ProfileDeadCarrier) as [Hd|Hd].
  { eexists _, _, _, _, _. split; [reflexivity|]. by constructor. }
  unfold latencyMS. simpl.
  destruct (LatencyMS_ok _ spec (SC_Latency sc) t (rng st) Hspec Hlat) as (l & r2 & -> & Hl).
  eexists _, _, _, _, _. split; [reflexivity|]. by constructor.
Qed.

Lemma edgeCaseFor_ok sc limit t :
  edge_cases_ok sc -> 1 <= t < 2 ^ 64 -> edgeCaseFor (New sc limit) t = Ok (expected_edge sc t).
Proof.
  intros Hec Ht. unfold edgeCaseFor, expected_edge, New. cbn [e_edgeEnabled e_edgeEveryTicks e_edgeKinds].
  destruct (SC_ProtocolEdgeCasesEnabled sc) eqn:Hen; [|done]. simpl negb. cbn [orb andb].
  fold (edge_cadence sc). fold (edge_rotation sc).
  assert (1 <= edge_cadence sc) as Hcad.
  { unfold edge_cadence. destruct (SC_ProtocolEdgeCases sc) as [ec|] eqn:Hp; [|done].
    destruct (Hec ec Hp) as (_ & Ht1 & _). destruct (EC_InjectEveryTicks ec) as [n|] eqn:Hn; simpl; [|done].
    by apply Ht1. }
  assert (0 < len (edge_rotation sc)) as Hlen.
  { unfold edge_rotation. destruct (SC_ProtocolEdgeCases sc) as [ec|] eqn:Hp; [|done].
    destruct (Hec ec Hp) as (_ & _ & Hk). destruct (EC_Kinds ec) as [|k ks]; [done|].
    apply Forall_cons_1 in Hk as [Hk _]. apply one_of_true in Hk. set_unfold in Hk.
    unfold mapEdgeKinds. rewrite bind_cons, length_app. destruct_or?; subst k; simpl; lia. }
  replace (t =? 0) with false by (symmetry; bool_lia).
  replace (len (edge_rotation sc) =? 0) with false by (symmetry; bool_lia).
  replace (edge_cadence sc =? 0) with false by (symmetry; bool_lia). cbn [orb].
  destruct (Z.eqb_spec (t mod edge_cadence sc) 0) as [Hm|Hm]; simpl negb; cbv iota; [|done].
  assert (1 <= t / edge_cadence sc) as Hq.
  { apply Z.div_le_lower_bound; [lia|]. apply Z.mod_divide in Hm as [k Hk]; [|lia].
    assert (1 <= k) by nia. nia. }
  rewrite u64_small.
  2:{ unfold is_u64. assert (t / edge_cadence sc <= t) by (apply Z.div_le_upper_bound; nia). lia. }
  pose proof (Z.mod_pos_bound (t / edge_cadence sc - 1) (len (edge_rotation sc)) Hlen).
  destruct (go_index_ok (E := Empty_set) (edge_rotation sc)
    ((t / edge_cadence sc - 1) mod len (edge_rotation sc))) as (k & Hk & ->); [lia|].
  by rewrite Hk.
Qed.

Lemma verdict_error_status sc limit t gated o s l w :
  scenario_ok sc -> verdict sc t gated (throttleStatus (New sc limit)) o s l w ->
  o = OutcomeError -> s <> StatusROK.
Proof.
  intros (spec & _ & Hp & _) Hv ->. inv Hv.
  - unfold throttleStatus. simpl. destruct (String.eqb _ _); [|done].
    destruct (SP_ErrorCode (SC_Params sc)) as [c|] eqn:Hc; [|done].
    by apply statusFor_error, (pk_code _ _ Hp).
  - unfold error_status in *. destruct (SP_ErrorMix (SC_Params sc)) as [mix|] eqn:Hm; [|by subst].
    destruct H3 as (c & v & Hc & _ & ->). apply statusFor_error.
    by apply (pk_mix _ _ Hp mix Hm) in Hc.
Qed.

(** The DLR draw of [Evaluate]. *)
Lemma dlr_step sc limit o s l w st :
  (forall dlr, SC_DLR sc = Some dlr -> dlr_ok dlr) -> (forall dlr, SC_DLR sc = Some dlr -> dlr_typed dlr) ->
  exists p st',
    (if e_dlrEnabled (New sc limit) && bool_decide (o = OutcomeSuccess) then
       let* o' := pickDLROutcome (New sc limit) (rng st) in
       Ok (set_DLR (mkDecision o s l w None None) (Some (mkDLRPlan o'.1 (e_dlrDelayTicks (New sc limit)))),
           set_rng st o'.2)
     else Ok (mkDecision o s l w None None, st)) = Ok (E := Empty_set) (mkDecision o s l w p None, st') /\
    dlr_decided sc (mkDecision o s l w p None).
Proof.
  intros Hok Hty. unfold New, pickDLROutcome, dlr_decided. simpl.
  destruct (SC_DLR sc) as [dlr|] eqn:Hd; [|by simpl; eauto]. simpl.
  destruct (decide (o = OutcomeSuccess)) as [Ho|Ho];
    [rewrite bool_decide_eq_true_2 by done | rewrite bool_decide_eq_false_2 by done; eauto].
  specialize (Hok dlr eq_refl). specialize (Hty dlr eq_refl). destruct Hok as [ticks ws c Ht Hw _].
  destruct (dlr_entries_fit ws Hw Hty) as [Hfit Hpos]. simpl. rewrite buildDLRMix_entries.
  destruct (pick_positive (dlr_entries ws) DLRDelivered (rng st) Hfit ltac:(lia))
    as (a & v & r' & -> & Hin & Hv).
  eexists _, _. split; [reflexivity|]. eauto 10.
Qed.
End Verdict.

(** C30: a validated scenario always decides, and decides as specified.  For every
    lawful source, every bind state, clock reading and tick from 1 on, [Evaluate]
    returns without panicking a decision in which: the outcome follows the
    profile and the gate; a latency is one the configuration can serve; an error
    never carries ESME_ROK; a DLR is planned exactly on success under a DLR
    block, with an outcome of positive weight and the configured delay; and the
    malformation is the one the edge-case cadence and rotation expect. *)
Theorem Evaluate_decides {R} `{RandLaws R} sc limit now (st : BindState R) t :
  scenario_ok sc -> scenario_typed sc -> 1 <= t < 2 ^ 64 ->
  let e := New sc limit in
  let gated := match gate st with Some g => negb (Allow now g).1 | None => false end in
  exists d st', Evaluate e now st t = Ok (d, st') /\
    verdict sc t gated (throttleStatus e) (D_Outcome d) (D_Status d) (D_LatencyMS d) (D_DisconnectWhen d) /\
    (D_Outcome d = OutcomeError -> D_Status d <> StatusROK) /\
    dlr_decided sc d /\
    D_EdgeCase d = mkEdgeCasePlan <$> expected_edge sc t.
Proof.
  intros Hok Hty Ht e gated.
  destruct (evaluate_ok sc limit now st t Hok Hty) as (o & s & l & w & st1 & He & Hv).
  fold e gated in He, Hv. pose proof (verdict_error_status sc limit t gated o s l w Hok Hv) as Herr.
  destruct Hok as (spec & Hspec & _ & _ & Hdlr & Hec). destruct Hty as [_ Hdty].
  unfold Evaluate. rewrite He, obind_Ok. cbn [D_Outcome].
  destruct (dlr_step sc limit o s l w st1 Hdlr Hdty) as (p & st2 & Hstep & Hp).
  fold e in Hstep. rewrite Hstep, obind_Ok. unfold e at 1. rewrite edgeCaseFor_ok, obind_Ok by done.
  destruct (expected_edge sc t) as [k|];
    eexists _, _; (split; [reflexivity|]); simpl; split_and!; done.
Qed.

Lemma Evaluate_decides_witness :
  exists d st', Evaluate (New sample_scenario None) 0
      (NewBindState (R := PCG) (New sample_scenario None) (Some 42) "carrier-a" 1 (0, 0) 0) 5 = Ok (d, st') /\
    D_Outcome d = OutcomeDisconnect.
Proof.
  destruct (Evaluate_decides sample_scenario None 0
    (NewBindState (R := PCG) (New sample_scenario None) (Some 42) "carrier-a" 1 (0, 0) 0) 5
    sample_scenario_ok sample_scenario_typed ltac:(lia)) as (d & st' & He & Hv & _).
  exists d, st'. split; [exact He|].
  inversion Hv as [Hg|Hg Hd|l Hg Hd Hl Hp|s l Hg Hf Hs Hl Hp|s l Hg Hf Hl Hp Ho]; [discriminate Hg|discriminate Hd| | |reflexivity].
  - discriminate (Hp eq_refl).
  - discriminate Hp.
Defined.

(** ** Runs of submits on one bind *)

Section Run.
Context {R : Type} `{RandSource R}.
Implicit Types (st : BindState R).

(** One submit: the engine active on the bind, the clock reading and the tick. *)
Record submit := mkSubmit { sub_engine : Engine; sub_now : Z; sub_tick : Z }.

Fixpoint decide_run (subs : list submit) st : may_panic (list Decision * BindState R) :=
  match subs with
  | [] => Ok ([], st)
  | s :: subs =>
      let* ds := Evaluate (sub_engine s) (sub_now s) st (sub_tick s) in
      let* dss := decide_run subs ds.2 in
      Ok (ds.1 :: dss.1, dss.2)
  end.

(** *** Edge-case injection *)

Definition without_edges (e : Engine) : Engine :=
  mkEngine (e_profile e) (e_params e) (e_latency e) (e_errorMix e) (e_limitPerSec e)
    (e_dlrEnabled e) (e_dlrMix e) (e_dlrDelayTicks e) false 0 [].

Definition plain_submit (s : submit) : submit :=
  mkSubmit (without_edges (sub_engine s)) (sub_now s) (sub_tick s).

Lemma evaluate_no_edge e now st t d st' :
  evaluate e now st t = Ok (d, st') -> D_EdgeCase d = None.
Proof.
  unfold evaluate, evaluateFlaky, latencyMS. intros He.
  repeat (case_match; simplify_eq/=; try done); repeat (apply obind_Ok_inv in He as (? & ? & He); simplify_eq/=);
    repeat (case_match; simplify_eq/=; try done);
    repeat (apply obind_Ok_inv in He as (? & ? & He); simplify_eq/=); try done;
    by repeat case_match.
Qed.

Lemma evaluate_without_edges e now st t :
  evaluate (without_edges e) now st t = evaluate e now st t.
Proof. done. Qed.

Lemma Evaluate_without_edges e now st t d st' :
  Evaluate e now st t = Ok (d, st') ->
  Evaluate (without_edges e) now st t = Ok (set_EdgeCase d None, st').
Proof.
  unfold Evaluate. rewrite evaluate_without_edges. intros He.
  apply obind_Ok_inv in He as ([d1 st1] & Hev & He). rewrite Hev, obind_Ok.
  apply evaluate_no_edge in Hev. destruct d1 as [o s l w dlr ec]. simpl in Hev. subst ec.
  apply obind_Ok_inv in He as ([d2 st2] & Hd & He).
  apply obind_Ok_inv in He as (k & _ & He). simplify_eq.
  change (pickDLROutcome (without_edges e)) with (pickDLROutcome (R := R) e).
  change (e_dlrEnabled (without_edges e)) with (e_dlrEnabled e).
  change (e_dlrDelayTicks (without_edges e)) with (e_dlrDelayTicks e). rewrite Hd, obind_Ok. simpl.
  assert (D_EdgeCase d2 = None) as Hn.
  { destruct (e_dlrEnabled e && _); [|by simplify_eq].
    apply obind_Ok_inv in Hd as (? & _ & Hd). by simplify_eq. }
  destruct d2 as [o2 s2 l2 w2 dlr2 ec2]. simpl in Hn. subst ec2. by destruct k.
Qed.

Lemma decide_run_without_edges subs st ds st' :
  decide_run subs st = Ok (ds, st') ->
  decide_run (plain_submit <$> subs) st = Ok ((fun d => set_EdgeCase d None) <$> ds, st').
Proof.
  revert st ds. induction subs as [|s subs IH]; intros st ds Hrun; simpl in *; [by simplify_eq|].
  apply obind_Ok_inv in Hrun as ([d st1] & Hd & Hrun).
  apply obind_Ok_inv in Hrun as ([ds1 st2] & Hds & Hrun). simplify_eq. simpl in *.
  rewrite (Evaluate_without_edges _ _ _ _ _ _ Hd), obind_Ok. simpl.
  change (list_fmap _ _ plain_submit subs) with (plain_submit <$> subs).
  by rewrite (IH _ _ Hds).
Qed.

(** *** The wall clock *)

Lemma Evaluate_no_gate e now now' st t :
  gate st = None -> Evaluate e now st t = Evaluate e now' st t.
Proof. intros Hg. unfold Evaluate, evaluate. by rewrite Hg. Qed.

Lemma evaluate_gate_none e now st t d st' :
  gate st = None -> evaluate e now st t = Ok (d, st') -> gate st' = None.
Proof.
  unfold evaluate, evaluateFlaky, latencyMS. intros Hg He. rewrite Hg in He. simpl in He.
  repeat (case_match; simplify_eq/=; try done); repeat (apply obind_Ok_inv in He as (? & ? & He); simplify_eq/=);
    repeat (case_match; simplify_eq/=; try done);
    repeat (apply obind_Ok_inv in He as (? & ? & He); simplify_eq/=); try done;
    repeat match goal with H : obind _ _ = Ok _ |- _ => apply obind_Ok_inv in H as (? & ? & H); simplify_eq/= end; done.
Qed.

Lemma Evaluate_gate_none e now st t d st' :
  gate st = None -> Evaluate e now st t = Ok (d, st') -> gate st' = None.
Proof.
  unfold Evaluate. intros Hg He. apply obind_Ok_inv in He as ([d1 st1] & Hev & He).
  apply evaluate_gate_none in Hev; [|done].
  apply obind_Ok_inv in He as ([d2 st2] & Hd & He).
  apply obind_Ok_inv in He as (k & _ & He). simplify_eq.
  destruct (e_dlrEnabled e && _); [|by simplify_eq].
  apply obind_Ok_inv in Hd as (? & _ & Hd). by simplify_eq.
Qed.

(** Without a gate, the clock readings do not matter. *)
Lemma decide_run_no_gate subs nows st :
  gate st = None -> length nows = length subs ->
  decide_run (zip_with (fun s n => mkSubmit (sub_engine s) n (sub_tick s)) subs nows) st =
  decide_run subs st.
Proof.
  revert nows st. induction subs as [|s subs IH]; intros [|n nows] st Hg Hlen; simplify_eq/=; [done|].
  rewrite (Evaluate_no_gate _ n (sub_now s)) by done.
  destruct (Evaluate _ _ _ _) as [[d st1]| |] eqn:He; simpl; [|done|done].
  rewrite IH; [done| |done]. by eapply Evaluate_gate_none.
Qed.

Lemma seeded_no_gate vs seed ordinal entropy base regexp files :
  vs_ok regexp files vs -> VS_Seed vs = Some seed ->
  throughputExempt (SC_Profile (VS_Scenario vs)) = false ->
  NewBindState (R := R) (New (VS_Scenario vs) (VS_ThroughputLimitPerSec vs)) (VS_Seed vs) (VS_Name vs)
    ordinal entropy base =
  mkBindState (NewBind seed (VS_Name vs) ordinal) (ScheduleBase seed (VS_Name vs) ordinal) None.
Proof.
  intros Hok Hs He. unfold NewBindState. rewrite Hs.
  destruct (vk_seeded _ _ _ Hok) as [Hl _]; [by rewrite Hs|].
  unfold effectiveCap, New. simpl. unfold throughputExempt in He. rewrite He.
  destruct (VS_ThroughputLimitPerSec vs) as [l|]; [|done].
  unfold throughputExempt in Hl. rewrite He in Hl. by discriminate Hl.
Qed.
End Run.

(** Malformed-response injection never perturbs a replay.  A run of submits
    on a bind makes the same decisions, draw for draw, with edge-case injection
    switched off in every engine; only the malformation plans disappear. *)
Theorem edge_cases_do_not_perturb {R} `{RandSource R} (subs : list submit) (st : BindState R) ds st' :
  decide_run subs st = Ok (ds, st') ->
  decide_run (plain_submit <$> subs) st = Ok ((fun d => set_EdgeCase d None) <$> ds, st').
Proof. apply decide_run_without_edges. Qed.

Definition edge_scenario : ScenarioConfig :=
  mkScenarioConfig ProfileHealthy no_params (fixed_latency 5) None true
    (Some (mkProtocolEdgeCasesConfig (Some 2) [EdgeCaseBadSequence; EdgeCaseBadLength])).

Definition edge_subs : list submit := mkSubmit (New edge_scenario None) 0 <$> [1; 2; 3; 4; 6].

Lemma edge_cases_do_not_perturb_witness :
  exists ds st', decide_run edge_subs (mkBindState (NewPCG (R := PCG) 1 2) 0 None) = Ok (ds, st') /\
    D_EdgeCase <$> ds = [None; Some (mkEdgeCasePlan EdgeBadSequence); None;
                         Some (mkEdgeCasePlan EdgeBadLength); Some (mkEdgeCasePlan EdgeBadSequence)] /\
    decide_run (plain_submit <$> edge_subs) (mkBindState (NewPCG (R := PCG) 1 2) 0 None) =
      Ok ((fun d => set_EdgeCase d None) <$> ds, st').
Proof.
  eexists _, _. split; [vm_compute; reflexivity|]. split; [vm_compute; reflexivity|].
  apply edge_cases_do_not_perturb. vm_compute. reflexivity.
Defined.

(** A seeded deterministic bind never reads the clock.  For a valid, seeded
    virtual SMSC whose profile is not a throughput profile, every run of submits
    under any engines (so across scheduled transitions) makes the same decisions
    whatever the clock reads and whatever the process entropy was. *)
Theorem seeded_replay {R} `{RandSource R} regexp files vs seed ordinal subs nows entropy base entropy' base' :
  vs_ok regexp files vs -> VS_Seed vs = Some seed ->
  throughputExempt (SC_Profile (VS_Scenario vs)) = false -> length nows = length subs ->
  let e := New (VS_Scenario vs) (VS_ThroughputLimitPerSec vs) in
  decide_run (zip_with (fun s n => mkSubmit (sub_engine s) n (sub_tick s)) subs nows)
    (NewBindState (R := R) e (VS_Seed vs) (VS_Name vs) ordinal entropy base) =
  decide_run subs (NewBindState (R := R) e (VS_Seed vs) (VS_Name vs) ordinal entropy' base').
Proof.
  intros Hok Hs He Hlen e. unfold e.
  rewrite !(seeded_no_gate vs seed ordinal _ _ regexp files) by done. by apply decide_run_no_gate.
Qed.

Lemma seeded_replay_witness :
  vs_ok (fun _ => true) (fun _ => true) (sample_smsc "a" 2775) /\
  decide_run (zip_with (fun s n => mkSubmit (sub_engine s) n (sub_tick s)) edge_subs [9; 8; 7; 6; 5])
    (NewBindState (R := PCG) (New sample_scenario None) (Some 42) "a" 1 (1, 1) 1) =
  decide_run edge_subs (NewBindState (R := PCG) (New sample_scenario None) (Some 42) "a" 1 (2, 2) 2).
Proof.
  assert (vs_ok (fun _ => true) (fun _ => true) (sample_smsc "a" 2775)) as Hok.
  { apply (validateVirtualSMSC_nil _ _ (sample_smsc "a" 2775) sample_scenario_typed). vm_compute. reflexivity. }
  split; [exact Hok|].
  exact (seeded_replay _ _ (sample_smsc "a" 2775) 42 1 edge_subs [9; 8; 7; 6; 5] (1, 1) 1 (2, 2) 2
    Hok eq_refl eq_refl eq_refl).
Defined.

(** ** The success rate *)

Lemma SFltb_not_SFleb x y : SFltb x y = true -> SFleb y x = false.
Proof.
  unfold SFltb, SFleb. destruct x as [[]|[]| |[] m e], y as [[]|[]| |[] n f]; try done; simpl.
  - rewrite (Z.compare_antisym f e). pose proof (Pos.compare_antisym n m) as Hp.
    unfold Pos.compare in Hp. rewrite Hp.
    destruct (f ?= e); simpl; try done. by destruct (Pos.compare_cont Eq n m).
  - rewrite (Z.compare_antisym f e). pose proof (Pos.compare_antisym n m) as Hp.
    unfold Pos.compare in Hp. rewrite Hp.
    destruct (f ?= e); simpl; try done. by destruct (Pos.compare_cont Eq n m).
Qed.

(** The success rate is honoured at its ends.  On an ungated flaky carrier,
    rate 1 never answers an error and rate 0 never answers a success, whatever
    the source draws. *)
Theorem success_rate_ends {R} `{RandLaws R} e now (st : BindState R) t d st' :
  e_profile e = ProfileFlakyCarrier -> gate st = None -> Evaluate e now st t = Ok (d, st') ->
  (SP_SuccessRate (e_params e) = Some f64_one -> D_Outcome d <> OutcomeError) /\
  (SP_SuccessRate (e_params e) = Some f64_zero -> D_Outcome d <> OutcomeSuccess).
Proof.
  intros Hp Hg He. unfold Evaluate in He. apply obind_Ok_inv in He as ([d1 st1] & Hev & He).
  assert (D_Outcome d = D_Outcome d1) as ->.
  { apply obind_Ok_inv in He as ([d2 st2] & Hd & He).
    apply obind_Ok_inv in He as (k & _ & He). simplify_eq.
    assert (D_Outcome d2 = D_Outcome d1) as <-; [|by destruct k].
    destruct (e_dlrEnabled e && _); [|by simplify_eq].
    apply obind_Ok_inv in Hd as (? & _ & Hd). by simplify_eq. }
  clear He. unfold evaluate in Hev. rewrite Hg, Hp in Hev. simpl in Hev. unfold evaluateFlaky in Hev.
  simpl in Hev. destruct (Float64_range (rng st)) as [Hge Hlt].
  destruct (Float64_draw (rng st)) as [x r]. simpl in *.
  split; intros Hrate; rewrite Hrate in Hev; simpl in Hev;
    rewrite ?(SFltb_not_SFleb _ _ Hlt), ?Hge in Hev;
    repeat (apply obind_Ok_inv in Hev as (? & ? & Hev); simplify_eq/=); try (by case_match).
  repeat match goal with H : obind _ _ = Ok _ |- _ => apply obind_Ok_inv in H as (? & ? & H); simplify_eq/= end.
  by repeat case_match.
Qed.

Definition always_error : Engine :=
  New (mkScenarioConfig ProfileFlakyCarrier
         (mkScenarioParams (Some f64_zero) None None None None None) (fixed_latency 5) None false None) None.

Lemma success_rate_ends_witness :
  exists d st', Evaluate always_error 0 (mkBindState (NewPCG (R := PCG) 1 2) 0 None) 1 = Ok (d, st') /\
    D_Outcome d <> OutcomeSuccess.
Proof.
  eexists _, _. split; [vm_compute; reflexivity|].
  refine (proj2 (success_rate_ends always_error 0 (mkBindState (NewPCG (R := PCG) 1 2) 0 None) 1 _ _ _ _ _) _);
    vm_compute; reflexivity.
Defined.

(** ** Served latencies *)

(** A validated latency block stays in its profile's window.  Unless the
    distribution is normal, every latency served lies within the window of the
    profile (2 to 4 seconds on a slow carrier); fixed and spike consume no draw;
    and the tick never changes how many draws are consumed. *)
Theorem latency_window {R} `{RandLaws R} p spec lat t t' (r : R) :
  profileCatalogue p = Some spec -> latency_ok spec lat ->
  exists ms r', LatencyMS lat t r = Ok (ms, r') /\
    (LC_Distribution lat <> LatencyNormal -> in_window spec ms) /\
    (LC_Distribution lat = LatencyFixed \/ LC_Distribution lat = LatencySpike -> r' = r) /\
    (exists ms', LatencyMS lat t' r = Ok (ms', r')).
Proof.
  intros Hp Hlat. destruct (LatencyMS_ok p spec lat t r Hp Hlat) as (ms & r' & He & Hs).
  exists ms, r'. split_and!; [done| | |by eapply LatencyMS_tick_draws].
  - intros Hn. unfold serves in Hs. inv Hlat; simpl in *; try done.
    + by subst.
    + unfold in_window in *. lia.
    + by destruct Hs as [-> | ->].
  - intros Hd. destruct (LatencyMS_no_draw lat t r) as [ms' He'].
    { unfold draws_nothing. by destruct Hd as [-> | ->]. }
    rewrite He' in He. by simplify_eq.
Qed.

Definition slow_spec : profileSpec :=
  mkProfileSpec [] "" slowCarrierLatencyMinMS slowCarrierLatencyMaxMS.

Lemma latency_window_witness :
  exists ms r', LatencyMS (fixed_latency 2500) 1 (NewPCG (R := PCG) 1 2) = Ok (ms, r') /\
    in_window slow_spec ms.
Proof.
  destruct (latency_window ProfileSlowCarrier slow_spec (fixed_latency 2500) 1 2 (NewPCG (R := PCG) 1 2))
    as (ms & r' & He & Hw & _); [reflexivity|constructor; split; done|].
  exists ms, r'. split; [exact He | apply Hw; discriminate].
Defined.

(** A normal latency escapes the window of the slow carrier: a block the gate
    accepts serves more than four seconds on some lawful source. *)
Definition slow_normal : LatencyConfig :=
  mkLatencyConfig LatencyNormal (mkLatencyParams None None None (Some 3000) (Some 4000) None None None).

Lemma slow_carrier_normal_escapes :
  validateLatency slow_normal slow_spec = [] /\
  exists ms r', LatencyMS slow_normal 1 (NewPCG (R := PCG) 1 2) = Ok (ms, r') /\
    slowCarrierLatencyMaxMS < ms.
Proof.
  split; [reflexivity|]. eexists _, _. split; [vm_compute; reflexivity|]. vm_compute. reflexivity.
Qed.
