(* ===== verification/Dlr.v ===== *)
(** * Message ids and receipt dates ([internal/smsc/session.go], [dlr.go])

    The two strings the simulator mints deterministically: the message id of a
    submit and the dates of its delivery receipt. *)

From S2P Require Import Prelude.
From S2P Require Import SmppReceipt.
From S2P Require Import Scenario.

(** ** Decimal formatting ([%d] and [%04d]) *)

Definition digit_char (d : Z) : Ascii.ascii := Ascii.ascii_of_N (Z.to_N (48 + d)).

(** Twenty digits are enough for a 64-bit word. *)
Fixpoint dec_loop (fuel : nat) (v : Z) (acc : string) : string :=
  match fuel with
  | O => acc
  | S fuel' =>
      let acc := String (digit_char (v mod 10)) acc in
      if v / 10 =? 0 then acc else dec_loop fuel' (v / 10) acc
  end.

Definition FormatInt (v : Z) : string := dec_loop 20 v "".

Fixpoint zeros (n : nat) (s : string) : string :=
  match n with O => s | S n => String (digit_char 0) (zeros n s) end.

Definition pad_left (width : nat) (s : string) : string := zeros (width - String.length s) s.

(** [fmt.Sprintf("%d-%04d", id, clock)]. *)
Definition messageID (id clock : Z) : string :=
  FormatInt id +:+ "-" +:+ pad_left 4 (FormatInt clock).

(** Reading a number back: the digits up to the first other character. *)
Definition char_digit (c : Ascii.ascii) : option Z :=
  let n := Z.of_N (Ascii.N_of_ascii c) in
  if (48 <=? n) && (n <=? 57) then Some (n - 48) else None.

Fixpoint parse_dec (acc : Z) (s : string) : Z * string :=
  match s with
  | String c s' =>
      match char_digit c with Some d => parse_dec (10 * acc + d) s' | None => (acc, s) end
  | EmptyString => (acc, EmptyString)
  end.

Lemma char_digit_char d : 0 <= d < 10 -> char_digit (digit_char d) = Some d.
Proof.
  intros Hd. unfold char_digit, digit_char. rewrite Ascii.N_ascii_embedding by lia.
  rewrite Z2N.id by lia.
  replace ((48 <=? 48 + d) && (48 + d <=? 57)) with true
    by (symmetry; apply andb_true_iff; split; apply Z.leb_le; lia).
  f_equal. lia.
Qed.

Lemma parse_dec_loop fuel v acc :
  0 <= v < 10 ^ Z.of_nat fuel -> (0 < fuel)%nat ->
  parse_dec 0 (dec_loop fuel v acc) = parse_dec v acc.
Proof.
  revert v acc. induction fuel as [|fuel IH]; intros v acc Hv Hf; [lia|].
  cbn [dec_loop]. pose proof (Z.mod_pos_bound v 10 ltac:(lia)) as Hm.
  pose proof (Z.div_mod v 10 ltac:(lia)) as Hdm.
  destruct (Z.eqb_spec (v / 10) 0) as [H0|H0].
  - cbn [parse_dec]. rewrite char_digit_char by lia. f_equal. lia.
  - rewrite Nat2Z.inj_succ, Z.pow_succ_r in Hv by lia.
    rewrite IH.
    + cbn [parse_dec]. rewrite char_digit_char by lia. f_equal. lia.
    + split; [apply Z.div_pos; lia | apply Z.div_lt_upper_bound; lia].
    + destruct fuel; [|lia]. change (10 * 10 ^ Z.of_nat 0) with 10 in Hv. lia.
Qed.

Lemma parse_FormatInt v s : is_u64 v -> parse_dec 0 (FormatInt v +:+ s) = parse_dec v s.
Proof.
  intros Hv. unfold FormatInt.
  assert (forall fuel w acc, dec_loop fuel w acc +:+ s = dec_loop fuel w (acc +:+ s)) as Happ.
  { induction fuel as [|fuel IH]; intros w acc; [done|]. cbn [dec_loop].
    destruct (_ =? 0); [done|]. by rewrite IH. }
  rewrite Happ. apply parse_dec_loop; [|lia]. unfold is_u64 in Hv. change (10 ^ Z.of_nat 20) with (10 ^ 20). lia.
Qed.

Lemma parse_zeros n s : parse_dec 0 (zeros n s) = parse_dec 0 s.
Proof. induction n as [|n IH]; [done|]. cbn [zeros parse_dec]. exact IH. Qed.

Lemma string_app_nil_r (s : string) : s +:+ "" = s.
Proof. induction s as [|c s IH]; [done|]. change (String c (s +:+ "") = String c s). by rewrite IH. Qed.

(** [messageID] read back. *)
Definition parse_messageID (s : string) : Z * Z :=
  let '(id, rest) := parse_dec 0 s in
  match rest with String _ rest => (id, (parse_dec 0 rest).1) | EmptyString => (id, 0) end.

Lemma parse_messageID_messageID id clock :
  is_u64 id -> is_u64 clock -> parse_messageID (messageID id clock) = (id, clock).
Proof.
  intros Hid Hc. unfold parse_messageID, messageID. rewrite parse_FormatInt by done. simpl.
  unfold pad_left.
  change ((id, (parse_dec 0 (zeros (4 - String.length (FormatInt clock)) (FormatInt clock))).1) = (id, clock)).
  rewrite parse_zeros, <- (string_app_nil_r (FormatInt clock)), parse_FormatInt by done.
  done.
Qed.

(** ** Receipt state *)

Definition dlrWireState (o : DLROutcome) : MessageState * string :=
  match o with
  | DLRDelivered => (StateDelivered, "000")
  | DLRExpired => (StateExpired, "001")
  | DLRFailed => (StateUndeliverable, "001")
  end.

(** ** Receipt dates

    [time.Date(2000, 1, 1).Add(mins).Format("0601021504")], with Go's calendar:
    whole years, then months, are peeled off the day count.  The span keeps the
    year below 2100, so [101] years of fuel suffice. *)

Definition dlrDateSpanMinutes : Z := 100 * 365 * 24 * 60.

Definition leap (y : Z) : bool := (y mod 4 =? 0) && (negb (y mod 100 =? 0) || (y mod 400 =? 0)).

Fixpoint peel_years (fuel : nat) (y d : Z) : Z * Z :=
  match fuel with
  | O => (y, d)
  | S fuel' =>
      let n := if leap y then 366 else 365 in
      if d <? n then (y, d) else peel_years fuel' (y + 1) (d - n)
  end.

Fixpoint peel_months (lengths : list Z) (m d : Z) : Z * Z :=
  match lengths with
  | [] => (m, d)
  | n :: lengths => if d <? n then (m, d) else peel_months lengths (m + 1) (d - n)
  end.

(** Year, month and day of the [d]-th day after January 1, 2000. *)
Definition civil (d : Z) : Z * Z * Z :=
  let '(y, d) := peel_years 101 2000 d in
  let '(m, d) :=
    peel_months [31; if leap y then 29 else 28; 31; 30; 31; 30; 31; 31; 30; 31; 30; 31] 1 d in
  (y, m, d + 1).

Definition two_digits (v : Z) : string :=
  String (digit_char (v / 10 mod 10)) (String (digit_char (v mod 10)) "").

Definition dlrDate (tick : Z) : string :=
  let mins := tick mod dlrDateSpanMinutes in
  let '(y, m, d) := civil (mins / 1440) in
  two_digits (y mod 100) +:+ two_digits m +:+ two_digits d +:+
  two_digits (mins mod 1440 / 60) +:+ two_digits (mins mod 60).

(** The date as the number YYMMDD. *)
Definition date_number (d : Z) : Z :=
  let '(y, m, d) := civil d in (y mod 100) * 10000 + m * 100 + d.

Definition spanDays : Z := 100 * 365.

(** The calendar order: peeling is monotone lexicographically, and stays in range. *)
Definition lex (p q : Z * Z) : Prop := p.1 < q.1 \/ (p.1 = q.1 /\ p.2 < q.2).

Lemma year_length y : 365 <= (if leap y then 366 else 365) <= 366.
Proof. destruct (leap y); lia. Qed.

Lemma peel_years_ge fuel y d : y <= (peel_years fuel y d).1.
Proof.
  revert y d. induction fuel as [|fuel IH]; intros y d; cbn [peel_years]; [simpl; lia|].
  set (n := if leap y then 366 else 365). destruct (d <? n); [simpl; lia|].
  specialize (IH (y + 1) (d - n)). lia.
Qed.

Lemma peel_years_range fuel k y d :
  (k <= fuel)%nat -> 0 <= d < 365 * Z.of_nat k ->
  (peel_years fuel y d).1 < y + Z.of_nat k /\
  0 <= (peel_years fuel y d).2 < (if leap (peel_years fuel y d).1 then 366 else 365).
Proof.
  revert k y d. induction fuel as [|fuel IH]; intros k y d Hk Hd; [lia|]. cbn [peel_years].
  pose proof (year_length y) as Hn. destruct k as [|k]; [lia|].
  destruct (Z.ltb_spec d (if leap y then 366 else 365)) as [Hlt|Hge]; [simpl; lia|].
  specialize (IH k (y + 1) (d - (if leap y then 366 else 365)) ltac:(lia) ltac:(lia)). lia.
Qed.

Lemma peel_years_lex fuel y d d' :
  d < d' -> lex (peel_years fuel y d) (peel_years fuel y d').
Proof.
  revert y d d'. induction fuel as [|fuel IH]; intros y d d' Hd; cbn [peel_years]; [right; simpl; lia|].
  set (n := if leap y then 366 else 365).
  destruct (Z.ltb_spec d n), (Z.ltb_spec d' n); [right; simpl; lia | | lia | apply IH; lia].
  left. pose proof (peel_years_ge fuel (y + 1) (d' - n)). simpl. lia.
Qed.

Lemma peel_months_ge ls m d : m <= (peel_months ls m d).1.
Proof.
  revert m d. induction ls as [|n ls IH]; intros m d; cbn [peel_months]; [simpl; lia|].
  destruct (d <? n); [simpl; lia|]. specialize (IH (m + 1) (d - n)). lia.
Qed.

Lemma peel_months_range ls m d :
  Forall (fun n => n <= 31) ls -> 0 <= d < foldr Z.add 0 ls ->
  (peel_months ls m d).1 < m + Z.of_nat (length ls) /\ 0 <= (peel_months ls m d).2 < 31.
Proof.
  intros Hls. revert m d. induction Hls as [|n ls Hn Hls IH]; intros m d Hd; cbn [foldr] in Hd; [lia|].
  cbn [peel_months length]. destruct (Z.ltb_spec d n); [simpl; lia|].
  specialize (IH (m + 1) (d - n) ltac:(lia)). lia.
Qed.

Lemma peel_months_lex ls m d d' :
  d < d' -> lex (peel_months ls m d) (peel_months ls m d').
Proof.
  revert m d d'. induction ls as [|n ls IH]; intros m d d' Hd; cbn [peel_months]; [right; simpl; lia|].
  destruct (Z.ltb_spec d n), (Z.ltb_spec d' n); [right; simpl; lia | | lia | apply IH; lia].
  left. pose proof (peel_months_ge ls (m + 1) (d' - n)). simpl. lia.
Qed.

Definition month_lengths (y : Z) : list Z :=
  [31; if leap y then 29 else 28; 31; 30; 31; 30; 31; 31; 30; 31; 30; 31].

Lemma civil_eq d :
  civil d = (let yd := peel_years 101 2000 d in
             let md := peel_months (month_lengths yd.1) 1 yd.2 in (yd.1, md.1, md.2 + 1)).
Proof.
  unfold civil. destruct (peel_years 101 2000 d) as [y d1]. cbn [fst snd].
  change [31; if leap y then 29 else 28; 31; 30; 31; 30; 31; 31; 30; 31; 30; 31] with (month_lengths y).
  by destruct (peel_months (month_lengths y) 1 d1).
Qed.

Lemma civil_range d :
  0 <= d < spanDays ->
  2000 <= (civil d).1.1 < 2100 /\ 1 <= (civil d).1.2 <= 12 /\ 1 <= (civil d).2 <= 31.
Proof.
  intros Hd. rewrite civil_eq. cbn [fst snd].
  pose proof (peel_years_ge 101 2000 d) as Hge.
  destruct (peel_years_range 101 100 2000 d) as [Hy Hd1]; [lia | unfold spanDays in Hd; lia|].
  destruct (peel_years 101 2000 d) as [y d1]. cbn [fst snd] in *.
  pose proof (peel_months_ge (month_lengths y) 1 d1).
  destruct (peel_months_range (month_lengths y) 1 d1) as [Hm Hdd].
  - unfold month_lengths. destruct (leap y); repeat constructor; lia.
  - unfold month_lengths. destruct (leap y); simpl; lia.
  - change (Z.of_nat (length (month_lengths y))) with 12 in Hm. lia.
Qed.

Lemma date_number_eq d :
  date_number d = (civil d).1.1 mod 100 * 10000 + (civil d).1.2 * 100 + (civil d).2.
Proof. unfold date_number. by destruct (civil d) as [[y m] dd]. Qed.

Lemma date_number_mono d d' : 0 <= d < d' -> d' < spanDays -> date_number d < date_number d'.
Proof.
  intros Hd Hd'. rewrite !date_number_eq.
  pose proof (civil_range d ltac:(lia)) as (Hy & Hm & Hdd).
  pose proof (civil_range d' ltac:(lia)) as (Hy' & Hm' & Hdd').
  rewrite <- (Zmod_unique (civil d).1.1 100 20 ((civil d).1.1 - 2000)) by lia.
  rewrite <- (Zmod_unique (civil d').1.1 100 20 ((civil d').1.1 - 2000)) by lia.
  assert ((civil d).1.1 < (civil d').1.1 \/
          ((civil d).1.1 = (civil d').1.1 /\ lex ((civil d).1.2, (civil d).2) ((civil d').1.2, (civil d').2))) as Hlex.
  { rewrite !civil_eq. cbn [fst snd].
    pose proof (peel_years_lex 101 2000 d d' ltac:(lia)) as Hlex.
    destruct (peel_years 101 2000 d) as [y e], (peel_years 101 2000 d') as [y' e']. cbn [fst snd].
    destruct Hlex as [Hlt|[Heq Hlt]]; [by left|]. cbn [fst snd] in *. subst y'. right. split; [done|].
    pose proof (peel_months_lex (month_lengths y) 1 e e' Hlt) as Hlex.
    destruct (peel_months (month_lengths y) 1 e), (peel_months (month_lengths y) 1 e').
    destruct Hlex as [?|[? ?]]; [left | right]; cbn [fst snd] in *; lia. }
  destruct Hlex as [?|[? [?|[? ?]]]]; cbn [fst snd] in *; lia.
Qed.

Lemma parse_two_digits acc v s :
  0 <= v < 100 -> parse_dec acc (two_digits v +:+ s) = parse_dec (100 * acc + v) s.
Proof.
  intros Hv. unfold two_digits.
  pose proof (Z.mod_pos_bound v 10 ltac:(lia)). pose proof (Z.div_mod v 10 ltac:(lia)).
  assert (v / 10 mod 10 = v / 10) as -> by (apply Z.mod_small; lia).
  change (parse_dec acc (String (digit_char (v / 10)) (String (digit_char (v mod 10)) s)) =
          parse_dec (100 * acc + v) s).
  cbn [parse_dec]. rewrite !char_digit_char by lia. f_equal. lia.
Qed.

(** The date string as a number, YYMMDDhhmm. *)
Lemma parse_dlrDate t :
  0 <= t -> parse_dec 0 (dlrDate t) =
  (let mins := t mod dlrDateSpanMinutes in
   date_number (mins / 1440) * 10000 + mins mod 1440 / 60 * 100 + mins mod 60, "").
Proof.
  intros Ht. unfold dlrDate. set (mins := t mod dlrDateSpanMinutes).
  assert (0 <= mins < dlrDateSpanMinutes) as Hm by (by apply Z.mod_pos_bound).
  assert (0 <= mins / 1440 < spanDays) as Hd.
  { unfold dlrDateSpanMinutes, spanDays in *. split; [apply Z.div_pos; lia | apply Z.div_lt_upper_bound; lia]. }
  pose proof (civil_range _ Hd) as Hc. rewrite date_number_eq.
  destruct (civil (mins / 1440)) as [[y m] dd]. cbn [fst snd] in *. destruct Hc as (Hy & Hmo & Hdd).
  pose proof (Z.mod_pos_bound y 100 ltac:(lia)). pose proof (Z.mod_pos_bound mins 60 ltac:(lia)).
  pose proof (Z.mod_pos_bound mins 1440 ltac:(lia)).
  assert (0 <= mins mod 1440 / 60 < 24).
  { split; [apply Z.div_pos; lia | apply Z.div_lt_upper_bound; lia]. }
  rewrite !parse_two_digits by lia. rewrite <- (string_app_nil_r (two_digits (mins mod 60))).
  rewrite parse_two_digits by lia. cbn [parse_dec]. f_equal. lia.
Qed.

Lemma mins_order mins mins' :
  0 <= mins < mins' -> mins' < dlrDateSpanMinutes ->
  date_number (mins / 1440) * 10000 + mins mod 1440 / 60 * 100 + mins mod 60 <
  date_number (mins' / 1440) * 10000 + mins' mod 1440 / 60 * 100 + mins' mod 60.
Proof.
  intros Hm Hm'. unfold dlrDateSpanMinutes in Hm'.
  assert (forall x, x mod 60 = x mod 1440 - 60 * (x mod 1440 / 60)) as H60.
  { intros x. rewrite <- Z.mod_eq by lia. symmetry. apply Z.mod_mod_divide. by exists 24. }
  rewrite (H60 mins), (H60 mins').
  pose proof (Z.div_mod mins 1440 ltac:(lia)). pose proof (Z.div_mod mins' 1440 ltac:(lia)).
  pose proof (Z.mod_pos_bound mins 1440 ltac:(lia)). pose proof (Z.mod_pos_bound mins' 1440 ltac:(lia)).
  pose proof (Z.div_mod (mins mod 1440) 60 ltac:(lia)).
  pose proof (Z.div_mod (mins' mod 1440) 60 ltac:(lia)).
  pose proof (Z.mod_pos_bound (mins mod 1440) 60 ltac:(lia)).
  pose proof (Z.mod_pos_bound (mins' mod 1440) 60 ltac:(lia)).
  assert (0 <= mins / 1440 <= mins' / 1440) as Hd.
  { split; [apply Z.div_pos; lia | apply Z.div_le_mono; lia]. }
  assert (mins' / 1440 < spanDays) by (apply Z.div_lt_upper_bound; unfold spanDays; lia).
  destruct (decide (mins / 1440 = mins' / 1440)) as [Heq|Hne].
  - rewrite Heq in *. lia.
  - pose proof (date_number_mono (mins / 1440) (mins' / 1440) ltac:(lia) ltac:(lia)). lia.
Qed.

(** Minted ids and dates are unambiguous.  A message id read back gives the
    bind ordinal and the tick it was minted from, so two submits of a virtual
    SMSC never share one; and receipt dates are ten digits that increase strictly
    with the tick over the whole span of about a hundred years. *)
Theorem minted_strings id clock t t' :
  is_u64 id -> is_u64 clock -> 0 <= t < t' -> t' < dlrDateSpanMinutes ->
  parse_messageID (messageID id clock) = (id, clock) /\
  String.length (dlrDate t) = 10%nat /\
  (parse_dec 0 (dlrDate t)).2 = "" /\
  (parse_dec 0 (dlrDate t)).1 < (parse_dec 0 (dlrDate t')).1.
Proof.
  intros Hid Hc Ht Ht'. split; [by apply parse_messageID_messageID|]. split.
  { unfold dlrDate. by destruct (civil _) as [[y m] d]. }
  rewrite !parse_dlrDate by lia. split; [done|]. cbn [fst].
  rewrite (Z.mod_small t dlrDateSpanMinutes), (Z.mod_small t' dlrDateSpanMinutes) by lia. by apply mins_order.
Qed.

Lemma minted_strings_witness :
  messageID 3 41 = "3-0041" /\ dlrDate 0 = "0001010000" /\ dlrDate 90000 = "0003031200" /\
  (parse_dec 0 (dlrDate 0)).1 < (parse_dec 0 (dlrDate 90000)).1.
Proof.
  split; [vm_compute; reflexivity|]. split; [vm_compute; reflexivity|]. split; [vm_compute; reflexivity|].
  refine (proj2 (proj2 (proj2 (minted_strings 3 41 0 90000 _ _ _ _)))); by_decide || (vm_compute; done) || lia.
Defined.
