(* ===== verification/Close.v ===== *)
(** * Why a session ends ([internal/smsc/close_reason.go], [metrics.go])

    The closed set of close reasons with their metric labels, the side each one
    is attributed to, and the outcome label of a submit. *)

From S2P Require Import Prelude.
From S2P Require Import SmppCodec.
From S2P Require Import Scenario.

#[local] Open Scope string_scope.

Inductive closeReason :=
| reasonClientUnbind | reasonClientEOF | reasonReadError | reasonWriteError | reasonWriteTimeout
| reasonIdleTimeout | reasonPartialFrameTimeout | reasonProtocolError | reasonAuthFailed
| reasonBindRejected | reasonFaultInjection | reasonScheduledDisconnect | reasonShutdown
| reasonPanic.

#[export] Instance closeReason_eq_dec : EqDecision closeReason.
Proof. solve_decision. Defined.

(** [string(reason)]. *)
Definition reason_label (r : closeReason) : string :=
  match r with
  | reasonClientUnbind => "client_unbind"
  | reasonClientEOF => "client_eof"
  | reasonReadError => "read_error"
  | reasonWriteError => "write_error"
  | reasonWriteTimeout => "write_timeout"
  | reasonIdleTimeout => "idle_timeout"
  | reasonPartialFrameTimeout => "partial_frame_timeout"
  | reasonProtocolError => "protocol_error"
  | reasonAuthFailed => "auth_failed"
  | reasonBindRejected => "bind_rejected"
  | reasonFaultInjection => "fault_injection"
  | reasonScheduledDisconnect => "scheduled_disconnect"
  | reasonShutdown => "shutdown"
  | reasonPanic => "panic"
  end.

Definition closeReasons : list closeReason :=
  [reasonClientUnbind; reasonClientEOF; reasonReadError; reasonWriteError; reasonWriteTimeout;
   reasonIdleTimeout; reasonPartialFrameTimeout; reasonProtocolError; reasonAuthFailed;
   reasonBindRejected; reasonFaultInjection; reasonScheduledDisconnect; reasonShutdown; reasonPanic].

Definition initiator (r : closeReason) : string :=
  match r with
  | reasonClientUnbind | reasonClientEOF | reasonReadError | reasonWriteError => "client"
  | _ => "server"
  end.

(** A net error whose [Timeout] method answers true is [Timeout]. *)
Definition writeFailure (err : io_error) : closeReason :=
  match err with Timeout => reasonWriteTimeout | _ => reasonWriteError end.

Definition outcomeLabel (o : Outcome) : string :=
  match o with
  | OutcomeSuccess => "success"
  | OutcomeError => "error"
  | OutcomeTimeout => "timeout"
  | OutcomeDisconnect => "disconnect"
  end.

(** The labels name the reasons one for one, and the documented list is all of them. *)
Lemma closeReasons_complete r : r ∈ closeReasons.
Proof. destruct r; by_decide. Qed.

Lemma closeReasons_NoDup : NoDup (reason_label <$> closeReasons).
Proof. by_decide. Qed.

#[export] Instance reason_label_inj : Inj (=) (=) reason_label.
Proof. intros [] []; done. Qed.

Lemma initiator_side r : initiator r = "client" \/ initiator r = "server".
Proof. destruct r; auto. Qed.
