(* ===== verification/Binds.v ===== *)
(** * The registry of bound sessions ([internal/smsc/binds.go])

    A mutex-guarded map from bind id to the bind, shared by the session
    goroutines and the inspection handlers; each operation is one atomic step.
    It is specified by the queue of open binds in bind order: the oldest bind is
    the head of the queue. *)

From S2P Require Import Prelude.

(** ** Data *)

(** [connectedAt] is an instant in nanoseconds since the epoch. *)
Record bindInfo := mkBindInfo {
  bi_id : Z;
  bi_systemID : string;
  bi_bindType : string;
  bi_connectedAt : Z
}.

Record bindRegistry := mkBindRegistry { binds : gmap Z bindInfo }.

(** [observability.BindView], with the instant still to be formatted. *)
Record BindView := mkBindView {
  BV_ID : Z;
  BV_SystemID : string;
  BV_BindType : string;
  BV_ConnectedAt : Z
}.

(** ** Operations *)

Definition newBindRegistry : bindRegistry := mkBindRegistry ∅.

Definition add (b : bindInfo) (r : bindRegistry) : bindRegistry :=
  mkBindRegistry (<[bi_id b := b]> (binds r)).

Definition remove (id : Z) (r : bindRegistry) : bindRegistry :=
  mkBindRegistry (delete id (binds r)).

Definition count (r : bindRegistry) : Z := Z.of_nat (size (binds r)).

(** The range over the map returns at the first smaller id; whichever order the
    keys come in, it returns exactly when there is one. *)
Definition isOldest (r : bindRegistry) (id : Z) : bool :=
  if existsb (fun other => other <? id) (map_to_list (binds r)).*1 then false
  else match binds r !! id with Some _ => true | None => false end.

Definition to_view (b : bindInfo) : BindView :=
  mkBindView (bi_id b) (bi_systemID b) (bi_bindType b) (bi_connectedAt b).

Definition view_le (a b : BindView) : Prop := BV_ID a <= BV_ID b.

#[export] Instance view_le_dec a b : Decision (view_le a b).
Proof. unfold view_le. apply _. Defined.

#[export] Instance view_le_trans : Transitive view_le.
Proof. intros a b c. unfold view_le. lia. Qed.

#[export] Instance view_le_total : Total view_le.
Proof. intros a b. unfold view_le. lia. Qed.

(** [sort.Slice] of the views collected in some map order [vs]. *)
Definition sort_views (vs : list BindView) : list BindView := merge_sort view_le vs.

Definition views (r : bindRegistry) : list BindView :=
  sort_views ((fun kv => to_view kv.2) <$> map_to_list (binds r)).

(** ** The queue of open binds *)

Definition bind_lt (a b : bindInfo) : Prop := bi_id a < bi_id b.

Definition registry_of (q : list bindInfo) : bindRegistry :=
  mkBindRegistry (list_to_map ((fun b => (bi_id b, b)) <$> q)).

Lemma bind_lt_NoDup q : StronglySorted bind_lt q -> NoDup (bi_id <$> q).
Proof.
  induction 1 as [|b q _ IH Hall]; csimpl; constructor; [|done].
  intros (c & Heq & Hc)%list_elem_of_fmap. rewrite Forall_forall in Hall.
  specialize (Hall c Hc). unfold bind_lt in Hall. lia.
Qed.

Lemma registry_keys q : ((fun b => (bi_id b, b)) <$> q).*1 = bi_id <$> q.
Proof. by rewrite <- list_fmap_compose. Qed.

Lemma registry_of_list q :
  StronglySorted bind_lt q ->
  map_to_list (binds (registry_of q)) ≡ₚ (fun b => (bi_id b, b)) <$> q.
Proof. intros Hq. apply map_to_list_to_map. rewrite registry_keys. by apply bind_lt_NoDup. Qed.

Lemma lookup_registry_of q id b :
  StronglySorted bind_lt q -> binds (registry_of q) !! id = Some b <-> b ∈ q /\ bi_id b = id.
Proof.
  intros Hq. simpl. rewrite <- elem_of_list_to_map by (rewrite registry_keys; by apply bind_lt_NoDup).
  rewrite list_elem_of_fmap. naive_solver.
Qed.

Lemma add_registry_of q b :
  Forall (fun c => bi_id c <> bi_id b) q -> add b (registry_of q) = registry_of (q ++ [b]).
Proof.
  intros Hq. unfold add, registry_of. f_equal. simpl.
  rewrite fmap_app, list_to_map_app. simpl. rewrite <- insert_union_r, map_union_empty; [done|].
  apply not_elem_of_list_to_map. rewrite registry_keys. intros (c & Heq & Hc)%list_elem_of_fmap.
  rewrite Forall_forall in Hq. by apply (Hq c).
Qed.

Definition drop_bind (id : Z) (q : list bindInfo) : list bindInfo :=
  base.filter (fun b => bi_id b <> id) q.

Lemma remove_registry_of q id : remove id (registry_of q) = registry_of (drop_bind id q).
Proof.
  unfold remove, registry_of, drop_bind. f_equal. simpl.
  induction q as [|b q IH]; [apply delete_empty|]. csimpl. rewrite filter_cons.
  destruct (decide (bi_id b <> id)) as [Hne|Heq]; csimpl.
  - rewrite delete_insert_ne by done. by rewrite IH.
  - assert (bi_id b = id) as -> by lia. by rewrite delete_insert_eq.
Qed.

Lemma sort_views_perm vs : sort_views vs ≡ₚ vs.
Proof. exact (merge_sort_Permutation view_le vs). Qed.

Lemma views_unique vs vs' :
  NoDup (BV_ID <$> vs) -> vs ≡ₚ vs' -> Sorted view_le vs' -> sort_views vs = vs'.
Proof.
  intros Hnd Hp Hs. apply (Sorted_unique_strong view_le).
  - intros x1 x2 Hx1 Hx2 H1 H2. rewrite sort_views_perm in Hx1.
    rewrite <- Hp in Hx2. assert (BV_ID x1 = BV_ID x2) as Heq by (unfold view_le in *; lia).
    apply list_elem_of_lookup in Hx1 as [i Hi], Hx2 as [j Hj].
    assert (i = j) as ->; [|congruence].
    apply (NoDup_lookup (BV_ID <$> vs) i j (BV_ID x1)); [done| |];
      rewrite list_lookup_fmap; [rewrite Hi|rewrite Hj]; simpl; congruence.
  - apply Sorted_merge_sort. apply _.
  - done.
  - by rewrite sort_views_perm.
Qed.

(** The outcome does not depend on the order in which the map is ranged over. *)
Lemma views_any_order r vs :
  vs ≡ₚ (fun kv => to_view kv.2) <$> map_to_list (binds r) ->
  NoDup (BV_ID <$> vs) -> sort_views vs = views r.
Proof.
  intros Hp Hnd. apply views_unique; [done| |apply Sorted_merge_sort; apply _].
  unfold views. by rewrite sort_views_perm.
Qed.

Lemma views_registry_of q : StronglySorted bind_lt q -> views (registry_of q) = to_view <$> q.
Proof.
  intros Hq. unfold views. apply views_unique.
  - rewrite registry_of_list, <- !list_fmap_compose by done.
    change (NoDup (bi_id <$> q)). by apply bind_lt_NoDup.
  - rewrite registry_of_list by done. by rewrite <- list_fmap_compose.
  - apply StronglySorted_Sorted. induction Hq as [|b q _ IH Hall]; csimpl; constructor; [done|].
    apply Forall_fmap. eapply Forall_impl; [exact Hall|]. unfold bind_lt, view_le. simpl. lia.
Qed.

Lemma count_registry_of q : StronglySorted bind_lt q -> count (registry_of q) = len q.
Proof.
  intros Hq. unfold count. rewrite <- length_map_to_list, registry_of_list by done.
  by rewrite length_fmap.
Qed.

Lemma existsb_perm {A} (f : A -> bool) l l' : l ≡ₚ l' -> existsb f l = existsb f l'.
Proof. induction 1; simpl; try congruence. by rewrite !orb_assoc, (orb_comm (f y)). Qed.

Lemma isOldest_registry_of q id :
  StronglySorted bind_lt q ->
  isOldest (registry_of q) id = match q with b :: _ => bi_id b =? id | [] => false end.
Proof.
  intros Hq. unfold isOldest.
  rewrite (existsb_perm _ _ (bi_id <$> q)) by (rewrite registry_of_list by done; by rewrite registry_keys).
  destruct Hq as [|b q Hq Hall]; [done|]. csimpl.
  destruct (Z.ltb_spec (bi_id b) id) as [Hlt|Hge]; simpl.
  { symmetry. apply Z.eqb_neq. lia. }
  destruct (existsb _ _) eqn:He.
  { apply existsb_exists in He as (i & (c & -> & Hc)%list_elem_of_In%list_elem_of_fmap & Hi).
    rewrite Forall_forall in Hall. specialize (Hall c Hc). unfold bind_lt in Hall. symmetry. bool_lia. }
  destruct (Z.eqb_spec (bi_id b) id) as [->|Hne]; [by rewrite lookup_insert_eq|].
  rewrite lookup_insert_ne by done.
  destruct (list_to_map _ !! id) as [c|] eqn:Hc; [|done].
  apply (lookup_registry_of q id c Hq) in Hc as [Hc <-].
  rewrite Forall_forall in Hall. specialize (Hall c Hc). unfold bind_lt in Hall. lia.
Qed.

(** ** Refinement *)

Inductive bind_op := OpAdd (b : bindInfo) | OpRemove (id : Z).

Definition run_op (o : bind_op) (r : bindRegistry) : bindRegistry :=
  match o with OpAdd b => add b r | OpRemove id => remove id r end.

Definition queue_op (o : bind_op) (q : list bindInfo) : list bindInfo :=
  match o with OpAdd b => q ++ [b] | OpRemove id => drop_bind id q end.

Definition run_ops (ops : list bind_op) (r : bindRegistry) : bindRegistry := foldl (flip run_op) r ops.
Definition queue_ops (ops : list bind_op) (q : list bindInfo) : list bindInfo := foldl (flip queue_op) q ops.

(** Binds are added in bind order, as the counter [bindSeq] hands out their ids. *)
Fixpoint in_bind_order (last : Z) (ops : list bind_op) : Prop :=
  match ops with
  | [] => True
  | OpAdd b :: ops => last < bi_id b /\ in_bind_order (bi_id b) ops
  | OpRemove _ :: ops => in_bind_order last ops
  end.

Definition queue_ok (last : Z) (q : list bindInfo) : Prop :=
  StronglySorted bind_lt q /\ Forall (fun b => bi_id b <= last) q.

Lemma StronglySorted_snoc {A} (R : A -> A -> Prop) l x :
  StronglySorted R l -> Forall (fun y => R y x) l -> StronglySorted R (l ++ [x]).
Proof.
  induction 1 as [|y l Hs IH Hall]; intros Hx; [by repeat constructor|].
  apply Forall_cons in Hx as [Hy Hx]. simpl. constructor; [by apply IH|].
  apply Forall_app. auto.
Qed.

Lemma run_ops_queue ops last q :
  queue_ok last q -> in_bind_order last ops ->
  run_ops ops (registry_of q) = registry_of (queue_ops ops q) /\ StronglySorted bind_lt (queue_ops ops q).
Proof.
  revert last q. induction ops as [|[b|id] ops IH]; intros last q [Hs Hle] Ho; [by split| |].
  - destruct Ho as [Hlt Ho]. cbn [run_ops queue_ops foldl flip run_op queue_op].
    rewrite add_registry_of by (eapply Forall_impl; [exact Hle|]; simpl; lia).
    apply (IH (bi_id b)); [|done]. split.
    + apply StronglySorted_snoc; [done|]. eapply Forall_impl; [exact Hle|]. unfold bind_lt. lia.
    + apply Forall_app. split; [|by repeat constructor]. eapply Forall_impl; [exact Hle|]. simpl. lia.
  - cbn [run_ops queue_ops foldl flip run_op queue_op]. rewrite remove_registry_of.
    apply (IH last); [|done]. split; [by apply StronglySorted_filter | by apply Forall_filter_1].
Qed.

(** C40: the registry is the queue of open binds.  Whatever binds come and go, as
    long as ids are handed out in increasing order, the summary lists exactly the
    open binds in bind order, the count is their number, and a bind is the oldest
    exactly when it is the first of them: at most one bind ever answers true. *)
Theorem registry_refines_queue ops :
  in_bind_order 0 ops ->
  let r := run_ops ops newBindRegistry in
  let q := queue_ops ops [] in
  views r = to_view <$> q /\ count r = len q /\
  (forall id, isOldest r id = true <-> exists b q', q = b :: q' /\ bi_id b = id) /\
  (forall id id', isOldest r id = true -> isOldest r id' = true -> id = id').
Proof.
  intros Ho r q. destruct (run_ops_queue ops 0 []) as [Hr Hs]; [by repeat constructor | done|].
  change (registry_of []) with newBindRegistry in Hr. subst r q. rewrite Hr.
  assert (forall id, isOldest (registry_of (queue_ops ops [])) id = true <->
    exists b q', queue_ops ops [] = b :: q' /\ bi_id b = id) as Hold.
  { intros id. rewrite isOldest_registry_of by done. destruct (queue_ops ops []) as [|b q'].
    - split; [done | by intros (? & ? & ? & _)].
    - rewrite Z.eqb_eq. naive_solver. }
  split; [by apply views_registry_of|]. split; [by apply count_registry_of|]. split; [done|].
  intros id id' (b & q' & Hq & <-)%Hold (b' & q'' & Hq' & <-)%Hold. congruence.
Qed.

Definition sample_bind (id : Z) : bindInfo := mkBindInfo id "esme" "transceiver" 0.

Lemma registry_refines_queue_witness :
  let r := run_ops [OpAdd (sample_bind 1); OpAdd (sample_bind 2); OpRemove 1; OpAdd (sample_bind 3)]
             newBindRegistry in
  isOldest r 2 = true /\ count r = 2 /\ BV_ID <$> views r = [2; 3].
Proof.
  destruct (registry_refines_queue
    [OpAdd (sample_bind 1); OpAdd (sample_bind 2); OpRemove 1; OpAdd (sample_bind 3)]) as (Hv & Hc & Ho & _).
  { simpl. lia. }
  split; [apply Ho; by eexists _, _|]. split; [exact Hc|]. by rewrite Hv.
Defined.
