(* ===== verification/VirtualSMSC.v ===== *)
(** * One virtual SMSC ([internal/smsc/virtualsmsc.go], [internal/metrics/metrics.go])

    The state the sessions of a virtual SMSC share: the recorder, the registry of
    binds, the engines its transitions can reach and the observable counters.
    The listener and the loggers are not state of the model; the Prometheus
    collectors are the sequence of metric calls. *)

From S2P Require Import Prelude.
From S2P Require Import Rng.
From S2P Require Import Config.
From S2P Require Import Recorder.
From S2P Require Import Scenario.
From S2P Require Import Binds.

#[local] Open Scope string_scope.

(** ** The metrics sink *)

(** The kind label of an outbound PDU. *)
Inductive Kind := kindResp | kindDLR | kindMO.

#[export] Instance Kind_eq_dec : EqDecision Kind.
Proof. solve_decision. Defined.

Definition kind_label (k : Kind) : string :=
  match k with kindResp => "resp" | kindDLR => "dlr" | kindMO => "mo" end.

(** One call on the sink, with its labels. *)
Inductive metric :=
| IncBind (virtualSMSC bindType : string)
| DecBind (virtualSMSC bindType : string)
| IncSubmit (virtualSMSC : string)
| IncOutcome (virtualSMSC outcome : string)
| ObserveServedLatency (virtualSMSC scenario : string) (seconds : float64)
| SetActiveScenario (virtualSMSC scenario : string)
| IncSessionClosed (virtualSMSC bindType reason initiator : string)
| AddOutboundDepth (virtualSMSC : string) (delta : Z)
| IncOutboundDropped (virtualSMSC kind : string).

(** ** State *)

Record virtualSMSC := mkVirtualSMSC {
  v_cfg : VirtualSMSCConfig;
  v_recorder : Recorder;
  v_scenario : Engine;
  v_engines : gmap Profile Engine;
  v_binds : bindRegistry;
  v_idleTimeout : Z;
  v_activeProfile : string;
  v_logicalClock : Z;
  v_bindSeq : Z
}.

Definition set_v_recorder (x : Recorder) (v : virtualSMSC) : virtualSMSC :=
  mkVirtualSMSC (v_cfg v) x (v_scenario v) (v_engines v) (v_binds v) (v_idleTimeout v)
    (v_activeProfile v) (v_logicalClock v) (v_bindSeq v).
Definition set_v_binds (x : bindRegistry) (v : virtualSMSC) : virtualSMSC :=
  mkVirtualSMSC (v_cfg v) (v_recorder v) (v_scenario v) (v_engines v) x (v_idleTimeout v)
    (v_activeProfile v) (v_logicalClock v) (v_bindSeq v).
Definition set_v_activeProfile (x : string) (v : virtualSMSC) : virtualSMSC :=
  mkVirtualSMSC (v_cfg v) (v_recorder v) (v_scenario v) (v_engines v) (v_binds v) (v_idleTimeout v)
    x (v_logicalClock v) (v_bindSeq v).
Definition set_v_logicalClock (x : Z) (v : virtualSMSC) : virtualSMSC :=
  mkVirtualSMSC (v_cfg v) (v_recorder v) (v_scenario v) (v_engines v) (v_binds v) (v_idleTimeout v)
    (v_activeProfile v) x (v_bindSeq v).
Definition set_v_bindSeq (x : Z) (v : virtualSMSC) : virtualSMSC :=
  mkVirtualSMSC (v_cfg v) (v_recorder v) (v_scenario v) (v_engines v) (v_binds v) (v_idleTimeout v)
    (v_activeProfile v) (v_logicalClock v) x.

(** [time.Duration] values are nanoseconds. *)
Definition Millisecond : Z := 1000000.
Definition idleTimeout : Z := 5 * 60 * 1000 * Millisecond.

(** ** Construction *)

Definition zero_params : ScenarioParams := mkScenarioParams None None None None None None.
Definition zero_latency_params : LatencyParams := mkLatencyParams None None None None None None None None.

(** [config.ScenarioConfig{Profile: p}]. *)
Definition bare_scenario (p : Profile) : ScenarioConfig :=
  mkScenarioConfig p zero_params (mkLatencyConfig "" zero_latency_params) None false None.

Definition buildEngines (cfg : VirtualSMSCConfig) (initial : Engine) : gmap Profile Engine :=
  foldl (fun engines tr =>
    match engines !! ST_ToProfile tr with
    | Some _ => engines
    | None =>
        <[ST_ToProfile tr := Scenario.New (bare_scenario (ST_ToProfile tr)) (VS_ThroughputLimitPerSec cfg)]>
          engines
    end)
    {[SC_Profile (VS_Scenario cfg) := initial]} (VS_ScheduledTransitions cfg).

(** The SMSC and the metric call its construction makes. *)
Definition newVirtualSMSC (cfg : VirtualSMSCConfig) : virtualSMSC * metric :=
  let initial := Scenario.New (VS_Scenario cfg) (VS_ThroughputLimitPerSec cfg) in
  (mkVirtualSMSC cfg (Recorder.New (VS_PDUBufferSize cfg)) initial (buildEngines cfg initial)
     newBindRegistry idleTimeout (SC_Profile (VS_Scenario cfg)) 0 0,
   SetActiveScenario (VS_Name cfg) (SC_Profile (VS_Scenario cfg))).

Definition setActiveProfile (p : Profile) (v : virtualSMSC) : virtualSMSC * metric :=
  (set_v_activeProfile p v, SetActiveScenario (VS_Name (v_cfg v)) p).

(** ** The summary *)

Record VirtualSMSCView := mkVirtualSMSCView {
  VV_Name : string;
  VV_Port : Z;
  VV_ActiveProfile : string;
  VV_BindCount : Z;
  VV_LogicalClock : Z;
  VV_RecordedPDUs : Z
}.

Definition view (v : virtualSMSC) : VirtualSMSCView :=
  mkVirtualSMSCView (VS_Name (v_cfg v)) (VS_Port (v_cfg v)) (v_activeProfile v)
    (count (v_binds v)) (v_logicalClock v) (Recorder.Len (v_recorder v)).

(** ** The engine map *)

Definition target_engine (cfg : VirtualSMSCConfig) (p : Profile) : Engine :=
  if String.eqb p (SC_Profile (VS_Scenario cfg))
  then Scenario.New (VS_Scenario cfg) (VS_ThroughputLimitPerSec cfg)
  else Scenario.New (bare_scenario p) (VS_ThroughputLimitPerSec cfg).

(** The profiles a session of this SMSC can run. *)
Definition reachable_profiles (cfg : VirtualSMSCConfig) : list Profile :=
  SC_Profile (VS_Scenario cfg) :: (ST_ToProfile <$> VS_ScheduledTransitions cfg).

Definition add_engine (limit : option Z) (engines : gmap Profile Engine) (tr : ScheduledTransition)
  : gmap Profile Engine :=
  match engines !! ST_ToProfile tr with
  | Some _ => engines
  | None => <[ST_ToProfile tr := Scenario.New (bare_scenario (ST_ToProfile tr)) limit]> engines
  end.

Lemma buildEngines_foldl cfg initial :
  buildEngines cfg initial =
  foldl (add_engine (VS_ThroughputLimitPerSec cfg)) {[SC_Profile (VS_Scenario cfg) := initial]}
    (VS_ScheduledTransitions cfg).
Proof. done. Qed.

Lemma add_engines_lookup limit trs m p :
  foldl (add_engine limit) m trs !! p =
  match m !! p with
  | Some e => Some e
  | None => if bool_decide (p ∈ ST_ToProfile <$> trs) then Some (Scenario.New (bare_scenario p) limit)
            else None
  end.
Proof.
  revert m. induction trs as [|tr trs IH]; intros m; simpl; [by destruct (m !! p)|].
  rewrite IH. unfold add_engine. destruct (decide (p = ST_ToProfile tr)) as [->|Hne].
  - rewrite (bool_decide_true (ST_ToProfile tr ∈ ST_ToProfile tr :: _)) by set_solver.
    destruct (m !! ST_ToProfile tr) as [e|] eqn:He; [by rewrite He | by rewrite lookup_insert_eq].
  - rewrite (bool_decide_ext (p ∈ ST_ToProfile tr :: _) (p ∈ ST_ToProfile <$> trs)) by set_solver.
    destruct (m !! ST_ToProfile tr); [done|]. by rewrite lookup_insert_ne.
Qed.

(** Every transition target has an engine, and it is the configured one for the
    initial profile and a bare one for any other. *)
Lemma buildEngines_lookup cfg p :
  buildEngines cfg (Scenario.New (VS_Scenario cfg) (VS_ThroughputLimitPerSec cfg)) !! p =
  if bool_decide (p ∈ reachable_profiles cfg) then Some (target_engine cfg p) else None.
Proof.
  rewrite buildEngines_foldl, add_engines_lookup. unfold reachable_profiles, target_engine.
  destruct (String.eqb_spec p (SC_Profile (VS_Scenario cfg))) as [->|Hne].
  - by rewrite lookup_singleton_eq, bool_decide_true by set_solver.
  - rewrite lookup_singleton_ne by done.
    by rewrite (bool_decide_ext (p ∈ _ :: _) (p ∈ ST_ToProfile <$> VS_ScheduledTransitions cfg)) by set_solver.
Qed.
