(* ===== verification/EngineSafety.v ===== *)
(** * Engines that never panic

    The run-time panics of the scenario engine are draws with a zero bound.  The
    engines a virtual SMSC builds, the configured one and the bare engines of its
    transition targets, never make one, whatever the bind state and the tick. *)

From S2P Require Import Prelude.
From S2P Require Import SmppPdu.
From S2P Require Import SmppEdge.
From S2P Require Import Rng.
From S2P Require Import Config.
From S2P Require Import Fault.
From S2P Require Import Validate.
From S2P Require Import ValidateThms.
From S2P Require Import Scenario.
From S2P Require Import ScenarioThms.
From S2P Require Import VirtualSMSC.

(** The last running total is the bound of the draw. *)
Definition mix_safe {A} (mix : list (weighted A)) : Prop :=
  forall w, last mix = Some w -> wt_cum w <> 0.

Definition latency_safe (lat : LatencyConfig) : Prop :=
  let p := LC_Params lat in
  deref (LP_MaxMS p) <= deref (LP_MinMS p) \/ deref (LP_MaxMS p) -64 deref (LP_MinMS p) +64 1 <> 0.

Record engine_safe (e : Engine) : Prop := {
  es_error : mix_safe (e_errorMix e);
  es_dlr : mix_safe (e_dlrMix e);
  es_latency : latency_safe (e_latency e)
}.

Section Safe.
Context {R : Type} `{RandSource R}.
Implicit Types (st : BindState R) (r : R) (e : Engine).

Lemma pick_weighted_safe {A} (mix : list (weighted A)) absent r :
  mix_safe mix -> exists a r', pick_weighted mix absent r = Ok (a, r').
Proof.
  intros Hm. unfold pick_weighted. destruct (last mix) as [w|] eqn:Hw; [|eauto].
  unfold Uint64N. replace (wt_cum w =? 0) with false by (symmetry; apply Z.eqb_neq; by apply Hm).
  simpl. eauto.
Qed.

Lemma LatencyMS_safe lat t r : latency_safe lat -> exists ms r', LatencyMS lat t r = Ok (ms, r').
Proof.
  intros Hl. unfold LatencyMS. destruct (String.eqb _ LatencyFixed); [eauto|].
  destruct (String.eqb _ LatencyUniform).
  { destruct (Z.leb_spec (deref (LP_MaxMS (LC_Params lat))) (deref (LP_MinMS (LC_Params lat)))); [eauto|].
    destruct Hl as [|Hne]; [lia|]. unfold Uint64N.
    replace (_ =? 0) with false by (symmetry; by apply Z.eqb_neq). simpl. eauto. }
  destruct (String.eqb _ LatencyNormal).
  { destruct (NormFloat64_draw r). destruct (SFleb _ _); eauto. }
  destruct (String.eqb _ LatencySpike); [|eauto]. destruct (negb _ && _); eauto.
Qed.

Lemma latencyMS_safe e st t : engine_safe e -> exists l st', latencyMS e st t = Ok (l, st').
Proof.
  intros He. unfold latencyMS.
  destruct (LatencyMS_safe (e_latency e) t (rng st) (es_latency e He)) as (ms & r' & ->). simpl. eauto.
Qed.

Lemma edgeCaseFor_safe e t : exists k, edgeCaseFor e t = Ok k.
Proof.
  unfold edgeCaseFor. destruct (_ || _) eqn:Hg; [eauto|].
  repeat (apply orb_false_elim in Hg as [Hg ?]).
  set (n := len (e_edgeKinds e)) in *. assert (n <> 0) as Hn by bool_lia.
  pose proof (Z.mod_pos_bound (t / e_edgeEveryTicks e -64 1) n ltac:(lia)) as Hb.
  destruct (go_index_ok (E := Empty_set) (e_edgeKinds e) _ Hb) as (k & _ & ->). simpl. eauto.
Qed.

Lemma evaluateFlaky_safe e st t : engine_safe e -> exists d st', evaluateFlaky e st t = Ok (d, st').
Proof.
  intros He. unfold evaluateFlaky. destruct (Float64_draw (rng st)) as [x r].
  destruct (SFleb _ _).
  - destruct (pick_weighted_safe (e_errorMix e) StatusSubmitFail r (es_error e He)) as (s & r' & Hs).
    unfold pickErrorStatus. rewrite Hs. cbn [obind fst snd].
    destruct (latencyMS_safe e (set_rng st r') t He) as (l & st' & ->). simpl. eauto.
  - cbn [obind fst snd]. destruct (latencyMS_safe e (set_rng st r) t He) as (l & st' & ->). simpl. eauto.
Qed.

Lemma evaluate_safe e now st t : engine_safe e -> exists d st', evaluate e now st t = Ok (d, st').
Proof.
  intros He. unfold evaluate.
  destruct (match gate st with Some g => _ | None => _ end) as [allowed g].
  destruct (negb allowed); [eauto|].
  destruct (String.eqb _ ProfileFlakyCarrier); [by apply evaluateFlaky_safe|].
  destruct (String.eqb _ ProfileDeadCarrier); [eauto|].
  destruct (latencyMS_safe e (mkBindState (rng st) (schedBase st) g) t He) as (l & st' & ->). simpl. eauto.
Qed.

Lemma Evaluate_safe e now st t : engine_safe e -> exists d st', Evaluate e now st t = Ok (d, st').
Proof.
  intros He. unfold Evaluate. destruct (evaluate_safe e now st t He) as (d & st' & ->). simpl.
  destruct (edgeCaseFor_safe e t) as [k Hk]. destruct (e_dlrEnabled e && _).
  - destruct (pick_weighted_safe (e_dlrMix e) DLRDelivered (rng st') (es_dlr e He)) as (o & r' & Ho).
    unfold pickDLROutcome. rewrite Ho. simpl. rewrite Hk. simpl. eauto.
  - simpl. rewrite Hk. simpl. eauto.
Qed.
End Safe.

(** ** The engines of a virtual SMSC *)

Lemma mix_safe_nil {A} : mix_safe (A := A) [].
Proof. by intros w ?. Qed.

Lemma mix_safe_flatten {A} (entries : list (A * Z)) :
  weights_fit entries 0 -> 1 <= total_weight entries -> mix_safe (flatten_weights entries 0).
Proof.
  intros Hf Ht w Hw. destruct (last_flatten entries 0 Hf) as (z & Hz & Hc); [lia|].
  rewrite Hz in Hw. simplify_eq. lia.
Qed.

Lemma latency_ok_safe p spec lat :
  profileCatalogue p = Some spec -> latency_ok spec lat -> latency_safe lat.
Proof.
  intros Hp Hl. apply profile_window in Hp as [Hmin Hmax]. unfold latencyMSMax in Hmax.
  unfold latency_safe. set (hi := deref _). set (lo := deref _).
  destruct (Z.le_gt_cases hi lo) as [|Hlt]; [by left|].
  assert (0 <= hi < 2 ^ 64 - 1 /\ (hi <= lo \/ 0 <= lo)) as (Hhi & Hlo).
  { subst lo hi. inv Hl; simpl; unfold in_window in *; lia. }
  destruct Hlo as [|Hlo]; [by left|]. right.
  rewrite (u64_small (_ - _)) by (unfold is_u64; lia). rewrite u64_small by (unfold is_u64; lia). lia.
Qed.

Lemma New_engine_safe sc limit :
  scenario_ok sc -> scenario_typed sc -> engine_safe (Scenario.New sc limit).
Proof.
  intros (spec & Hp & Hpar & Hl & Hd & _) [Htp Htd]. split; simpl.
  - destruct (SP_ErrorMix (SC_Params sc)) as [mix|] eqn:Hm; [|apply mix_safe_nil].
    rewrite buildErrorMix_entries.
    destruct (mix_entries_fit mix (pk_mix _ _ Hpar mix Hm) (Htp mix Hm)). by apply mix_safe_flatten.
  - destruct (SC_DLR sc) as [dlr|] eqn:Hdlr; [|apply mix_safe_nil]. rewrite buildDLRMix_entries.
    destruct (dlr_entries_fit (DC_OutcomeWeights dlr)) as [? ?]; [| |by apply mix_safe_flatten].
    + specialize (Hd _ eq_refl). inv Hd; simpl in *; done.
    + by apply (Htd _ eq_refl).
  - by eapply latency_ok_safe.
Qed.

Lemma bare_engine_safe p limit : engine_safe (Scenario.New (bare_scenario p) limit).
Proof.
  split; simpl; try apply mix_safe_nil. left. unfold latency_safe. simpl. lia.
Qed.

Lemma target_engine_safe cfg p :
  scenario_ok (VS_Scenario cfg) -> scenario_typed (VS_Scenario cfg) -> engine_safe (target_engine cfg p).
Proof.
  intros Ho Ht. unfold target_engine. destruct (String.eqb _ _); [by apply New_engine_safe|].
  apply bare_engine_safe.
Qed.
