(* ===== verification/SessionState.v ===== *)
(** * The state of a session ([internal/smsc/session.go], [dlr.go], [schedule_events.go])

    The fields of [session] that the read goroutine owns, the payloads its
    schedule runner carries, and what a handler does to the outside: the bytes it
    queues, the goroutines it spawns and the metric calls it makes.  The channels
    and the goroutines themselves are the subject of Pipeline. *)

From S2P Require Import Prelude.
From S2P Require Import SmppCodec.
From S2P Require Import Rng.
From S2P Require Import Schedule.
From S2P Require Import Config.
From S2P Require Import Scenario.
From S2P Require Import Close.
From S2P Require Import VirtualSMSC.

Inductive sessionState := stateOpen | stateBound | stateClosed.

#[export] Instance sessionState_eq_dec : EqDecision sessionState.
Proof. solve_decision. Defined.

(** A channel that closes once a held-back response is queued. *)
Definition chan := Z.

Record dlrEvent := mkDlrEvent {
  d_messageID : string;
  d_outcome : DLROutcome;
  d_originTick : Z;
  d_dueTick : Z;
  d_sourceAddr : string;
  d_sourceAddrTON : byte;
  d_sourceAddrNPI : byte;
  d_destAddr : string;
  d_destAddrTON : byte;
  d_destAddrNPI : byte;
  d_text : string;
  d_respSent : option chan
}.

Record moEvent := mkMoEvent { m_sourceAddr : string; m_destAddr : string; m_content : string }.

(** The dynamic type of an event's payload; [PayloadOther] is any other type. *)
Inductive payload := PayloadDLR (d : dlrEvent) | PayloadMO (m : moEvent) | PayloadOther.

Record session (R : Type) := mkSession {
  s_id : Z;
  s_state : sessionState;
  s_bindType : string;
  s_canSubmit : bool;
  s_canReceive : bool;
  s_systemID : string;
  s_perBindClock : Z;
  s_scenarioState : option (BindState R);
  s_currentEngine : option Engine;
  s_transitions : list ScheduledTransition;
  s_transitionCursor : nat;
  s_disconnects : list ScheduledDisconnect;
  s_disconnectCursor : nat;
  s_sched : Runner payload;
  s_quiescence : Z;
  s_lastSubmit : Z;
  s_bound : bool;
  s_openedAt : Z;
  s_closeReason : option closeReason;
  s_closeErr : option CodecError;
  s_readDeadline : Z;
  s_pdusRead : Z
}.
Arguments mkSession {R}. Arguments s_id {R}. Arguments s_state {R}. Arguments s_bindType {R}.
Arguments s_canSubmit {R}. Arguments s_canReceive {R}. Arguments s_systemID {R}. Arguments
s_perBindClock {R}. Arguments s_scenarioState {R}. Arguments s_currentEngine {R}. Arguments
s_transitions {R}. Arguments s_transitionCursor {R}. Arguments s_disconnects {R}. Arguments
s_disconnectCursor {R}. Arguments s_sched {R}. Arguments s_quiescence {R}. Arguments s_lastSubmit
{R}. Arguments s_bound {R}. Arguments s_openedAt {R}. Arguments s_closeReason {R}. Arguments
s_closeErr {R}. Arguments s_readDeadline {R}. Arguments s_pdusRead {R}.

(** ** What a handler does outside the session *)

(** When a held-back PDU may be queued: after a latency, or once [c] is closed. *)
Inductive ready := ReadyAfter (d : Z) | ReadySent (c : chan).

Inductive effect :=
| SendBytes (b : bytes) (kind : Kind)
    (* sendBytes, called on the read goroutine *)
| SendWhen (r : ready) (b : bytes) (kind : Kind) (sent : option chan)
    (* the goroutine sendWhen starts; it closes [sent] once [b] is queued *)
| Metric (m : metric).

(** The session, the SMSC it shares, the effects so far and the next channel. *)
Record world (R : Type) := mkWorld {
  w_session : session R;
  w_smsc : virtualSMSC;
  w_out : list effect;
  w_nextChan : chan
}.
Arguments mkWorld {R}. Arguments w_session {R}. Arguments w_smsc {R}. Arguments w_out {R}.
Arguments w_nextChan {R}.

(** What a handler reads from outside: two readings of the wall clock (the gate's
    and the bookkeeping one), whether the engine shuts down while a latency is
    served, which channels are closed, and the draws of the process-seeded
    source for an unseeded bind. *)
Record Env := mkEnv {
  env_gateNow : Z;
  env_now : Z;
  env_quit : bool;
  env_closed : chan -> bool;
  env_entropy : Z * Z;
  env_chaosBase : Z
}.

(** ** Field updates *)

Section Setters.
Context {R : Type}.
Implicit Types (s : session R) (w : world R).

Definition set_s_id (x : Z) (s : session R) : session R :=
  mkSession x (s_state s) (s_bindType s) (s_canSubmit s) (s_canReceive s) (s_systemID s)
    (s_perBindClock s) (s_scenarioState s) (s_currentEngine s) (s_transitions s) (s_transitionCursor
    s) (s_disconnects s) (s_disconnectCursor s) (s_sched s) (s_quiescence s) (s_lastSubmit s)
    (s_bound s) (s_openedAt s) (s_closeReason s) (s_closeErr s) (s_readDeadline s) (s_pdusRead s).
Definition set_s_state (x : sessionState) (s : session R) : session R :=
  mkSession (s_id s) x (s_bindType s) (s_canSubmit s) (s_canReceive s) (s_systemID s)
    (s_perBindClock s) (s_scenarioState s) (s_currentEngine s) (s_transitions s) (s_transitionCursor
    s) (s_disconnects s) (s_disconnectCursor s) (s_sched s) (s_quiescence s) (s_lastSubmit s)
    (s_bound s) (s_openedAt s) (s_closeReason s) (s_closeErr s) (s_readDeadline s) (s_pdusRead s).
Definition set_s_bindType (x : string) (s : session R) : session R :=
  mkSession (s_id s) (s_state s) x (s_canSubmit s) (s_canReceive s) (s_systemID s) (s_perBindClock
    s) (s_scenarioState s) (s_currentEngine s) (s_transitions s) (s_transitionCursor s)
    (s_disconnects s) (s_disconnectCursor s) (s_sched s) (s_quiescence s) (s_lastSubmit s) (s_bound
    s) (s_openedAt s) (s_closeReason s) (s_closeErr s) (s_readDeadline s) (s_pdusRead s).
Definition set_s_canSubmit (x : bool) (s : session R) : session R :=
  mkSession (s_id s) (s_state s) (s_bindType s) x (s_canReceive s) (s_systemID s) (s_perBindClock s)
    (s_scenarioState s) (s_currentEngine s) (s_transitions s) (s_transitionCursor s) (s_disconnects
    s) (s_disconnectCursor s) (s_sched s) (s_quiescence s) (s_lastSubmit s) (s_bound s) (s_openedAt
    s) (s_closeReason s) (s_closeErr s) (s_readDeadline s) (s_pdusRead s).
Definition set_s_canReceive (x : bool) (s : session R) : session R :=
  mkSession (s_id s) (s_state s) (s_bindType s) (s_canSubmit s) x (s_systemID s) (s_perBindClock s)
    (s_scenarioState s) (s_currentEngine s) (s_transitions s) (s_transitionCursor s) (s_disconnects
    s) (s_disconnectCursor s) (s_sched s) (s_quiescence s) (s_lastSubmit s) (s_bound s) (s_openedAt
    s) (s_closeReason s) (s_closeErr s) (s_readDeadline s) (s_pdusRead s).
Definition set_s_systemID (x : string) (s : session R) : session R :=
  mkSession (s_id s) (s_state s) (s_bindType s) (s_canSubmit s) (s_canReceive s) x (s_perBindClock
    s) (s_scenarioState s) (s_currentEngine s) (s_transitions s) (s_transitionCursor s)
    (s_disconnects s) (s_disconnectCursor s) (s_sched s) (s_quiescence s) (s_lastSubmit s) (s_bound
    s) (s_openedAt s) (s_closeReason s) (s_closeErr s) (s_readDeadline s) (s_pdusRead s).
Definition set_s_perBindClock (x : Z) (s : session R) : session R :=
  mkSession (s_id s) (s_state s) (s_bindType s) (s_canSubmit s) (s_canReceive s) (s_systemID s) x
    (s_scenarioState s) (s_currentEngine s) (s_transitions s) (s_transitionCursor s) (s_disconnects
    s) (s_disconnectCursor s) (s_sched s) (s_quiescence s) (s_lastSubmit s) (s_bound s) (s_openedAt
    s) (s_closeReason s) (s_closeErr s) (s_readDeadline s) (s_pdusRead s).
Definition set_s_scenarioState (x : option (BindState R)) (s : session R) : session R :=
  mkSession (s_id s) (s_state s) (s_bindType s) (s_canSubmit s) (s_canReceive s) (s_systemID s)
    (s_perBindClock s) x (s_currentEngine s) (s_transitions s) (s_transitionCursor s) (s_disconnects
    s) (s_disconnectCursor s) (s_sched s) (s_quiescence s) (s_lastSubmit s) (s_bound s) (s_openedAt
    s) (s_closeReason s) (s_closeErr s) (s_readDeadline s) (s_pdusRead s).
Definition set_s_currentEngine (x : option Engine) (s : session R) : session R :=
  mkSession (s_id s) (s_state s) (s_bindType s) (s_canSubmit s) (s_canReceive s) (s_systemID s)
    (s_perBindClock s) (s_scenarioState s) x (s_transitions s) (s_transitionCursor s) (s_disconnects
    s) (s_disconnectCursor s) (s_sched s) (s_quiescence s) (s_lastSubmit s) (s_bound s) (s_openedAt
    s) (s_closeReason s) (s_closeErr s) (s_readDeadline s) (s_pdusRead s).
Definition set_s_transitions (x : list ScheduledTransition) (s : session R) : session R :=
  mkSession (s_id s) (s_state s) (s_bindType s) (s_canSubmit s) (s_canReceive s) (s_systemID s)
    (s_perBindClock s) (s_scenarioState s) (s_currentEngine s) x (s_transitionCursor s)
    (s_disconnects s) (s_disconnectCursor s) (s_sched s) (s_quiescence s) (s_lastSubmit s) (s_bound
    s) (s_openedAt s) (s_closeReason s) (s_closeErr s) (s_readDeadline s) (s_pdusRead s).
Definition set_s_transitionCursor (x : nat) (s : session R) : session R :=
  mkSession (s_id s) (s_state s) (s_bindType s) (s_canSubmit s) (s_canReceive s) (s_systemID s)
    (s_perBindClock s) (s_scenarioState s) (s_currentEngine s) (s_transitions s) x (s_disconnects s)
    (s_disconnectCursor s) (s_sched s) (s_quiescence s) (s_lastSubmit s) (s_bound s) (s_openedAt s)
    (s_closeReason s) (s_closeErr s) (s_readDeadline s) (s_pdusRead s).
Definition set_s_disconnects (x : list ScheduledDisconnect) (s : session R) : session R :=
  mkSession (s_id s) (s_state s) (s_bindType s) (s_canSubmit s) (s_canReceive s) (s_systemID s)
    (s_perBindClock s) (s_scenarioState s) (s_currentEngine s) (s_transitions s) (s_transitionCursor
    s) x (s_disconnectCursor s) (s_sched s) (s_quiescence s) (s_lastSubmit s) (s_bound s)
    (s_openedAt s) (s_closeReason s) (s_closeErr s) (s_readDeadline s) (s_pdusRead s).
Definition set_s_disconnectCursor (x : nat) (s : session R) : session R :=
  mkSession (s_id s) (s_state s) (s_bindType s) (s_canSubmit s) (s_canReceive s) (s_systemID s)
    (s_perBindClock s) (s_scenarioState s) (s_currentEngine s) (s_transitions s) (s_transitionCursor
    s) (s_disconnects s) x (s_sched s) (s_quiescence s) (s_lastSubmit s) (s_bound s) (s_openedAt s)
    (s_closeReason s) (s_closeErr s) (s_readDeadline s) (s_pdusRead s).
Definition set_s_sched (x : Runner payload) (s : session R) : session R :=
  mkSession (s_id s) (s_state s) (s_bindType s) (s_canSubmit s) (s_canReceive s) (s_systemID s)
    (s_perBindClock s) (s_scenarioState s) (s_currentEngine s) (s_transitions s) (s_transitionCursor
    s) (s_disconnects s) (s_disconnectCursor s) x (s_quiescence s) (s_lastSubmit s) (s_bound s)
    (s_openedAt s) (s_closeReason s) (s_closeErr s) (s_readDeadline s) (s_pdusRead s).
Definition set_s_lastSubmit (x : Z) (s : session R) : session R :=
  mkSession (s_id s) (s_state s) (s_bindType s) (s_canSubmit s) (s_canReceive s) (s_systemID s)
    (s_perBindClock s) (s_scenarioState s) (s_currentEngine s) (s_transitions s) (s_transitionCursor
    s) (s_disconnects s) (s_disconnectCursor s) (s_sched s) (s_quiescence s) x (s_bound s)
    (s_openedAt s) (s_closeReason s) (s_closeErr s) (s_readDeadline s) (s_pdusRead s).
Definition set_s_bound (x : bool) (s : session R) : session R :=
  mkSession (s_id s) (s_state s) (s_bindType s) (s_canSubmit s) (s_canReceive s) (s_systemID s)
    (s_perBindClock s) (s_scenarioState s) (s_currentEngine s) (s_transitions s) (s_transitionCursor
    s) (s_disconnects s) (s_disconnectCursor s) (s_sched s) (s_quiescence s) (s_lastSubmit s) x
    (s_openedAt s) (s_closeReason s) (s_closeErr s) (s_readDeadline s) (s_pdusRead s).
Definition set_s_closeReason (x : option closeReason) (s : session R) : session R :=
  mkSession (s_id s) (s_state s) (s_bindType s) (s_canSubmit s) (s_canReceive s) (s_systemID s)
    (s_perBindClock s) (s_scenarioState s) (s_currentEngine s) (s_transitions s) (s_transitionCursor
    s) (s_disconnects s) (s_disconnectCursor s) (s_sched s) (s_quiescence s) (s_lastSubmit s)
    (s_bound s) (s_openedAt s) x (s_closeErr s) (s_readDeadline s) (s_pdusRead s).
Definition set_s_closeErr (x : option CodecError) (s : session R) : session R :=
  mkSession (s_id s) (s_state s) (s_bindType s) (s_canSubmit s) (s_canReceive s) (s_systemID s)
    (s_perBindClock s) (s_scenarioState s) (s_currentEngine s) (s_transitions s) (s_transitionCursor
    s) (s_disconnects s) (s_disconnectCursor s) (s_sched s) (s_quiescence s) (s_lastSubmit s)
    (s_bound s) (s_openedAt s) (s_closeReason s) x (s_readDeadline s) (s_pdusRead s).
Definition set_s_readDeadline (x : Z) (s : session R) : session R :=
  mkSession (s_id s) (s_state s) (s_bindType s) (s_canSubmit s) (s_canReceive s) (s_systemID s)
    (s_perBindClock s) (s_scenarioState s) (s_currentEngine s) (s_transitions s) (s_transitionCursor
    s) (s_disconnects s) (s_disconnectCursor s) (s_sched s) (s_quiescence s) (s_lastSubmit s)
    (s_bound s) (s_openedAt s) (s_closeReason s) (s_closeErr s) x (s_pdusRead s).
Definition set_s_pdusRead (x : Z) (s : session R) : session R :=
  mkSession (s_id s) (s_state s) (s_bindType s) (s_canSubmit s) (s_canReceive s) (s_systemID s)
    (s_perBindClock s) (s_scenarioState s) (s_currentEngine s) (s_transitions s) (s_transitionCursor
    s) (s_disconnects s) (s_disconnectCursor s) (s_sched s) (s_quiescence s) (s_lastSubmit s)
    (s_bound s) (s_openedAt s) (s_closeReason s) (s_closeErr s) (s_readDeadline s) x.

Definition set_w_session (x : session R) (w : world R) : world R :=
  mkWorld x (w_smsc w) (w_out w) (w_nextChan w).
Definition set_w_smsc (x : virtualSMSC) (w : world R) : world R :=
  mkWorld (w_session w) x (w_out w) (w_nextChan w).
Definition set_w_out (x : list effect) (w : world R) : world R :=
  mkWorld (w_session w) (w_smsc w) x (w_nextChan w).
Definition set_w_nextChan (x : chan) (w : world R) : world R :=
  mkWorld (w_session w) (w_smsc w) (w_out w) x.
End Setters.

(** ** A fresh session *)

Definition maxQuiescenceFlushMS : Z := 600000.

(** The zero [time.Time], in nanoseconds since the epoch. *)
Definition zeroTime : Z := -62135596800 * 1000 * Millisecond.

Definition newSession {R} (v : virtualSMSC) (now : Z) : session R :=
  let quiescenceMS := EffectiveQuiescenceFlushMs (v_cfg v) in
  let quiescenceMS := if quiescenceMS >? maxQuiescenceFlushMS then maxQuiescenceFlushMS
                      else quiescenceMS in
  {| s_id := 0;
     s_state := stateOpen;
     s_bindType := "";
     s_canSubmit := false;
     s_canReceive := false;
     s_systemID := "";
     s_perBindClock := 0;
     s_scenarioState := None;
     s_currentEngine := None;
     s_transitions := [];
     s_transitionCursor := 0;
     s_disconnects := [];
     s_disconnectCursor := 0;
     s_sched := new_Runner;
     s_quiescence := quiescenceMS * Millisecond;
     s_lastSubmit := zeroTime;
     s_bound := false;
     s_openedAt := now;
     s_closeReason := None;
     s_closeErr := None;
     s_readDeadline := zeroTime;
     s_pdusRead := 0 |}.
