(* ===== verification/Session.v ===== *)
(** * The session handlers ([internal/smsc/session.go], [dlr.go], [schedule_events.go])

    Everything the read goroutine does for one decoded PDU, one drained event or
    one read failure, in the order of the source.  A computation threads the
    [world], reads the [Env] and may panic (a nil pointer, an index out of
    range). *)

From S2P Require Import Prelude.
From S2P Require Import SmppPdu.
From S2P Require Import SmppCodec.
From S2P Require Import SmppEdge.
From S2P Require Import SmppReceipt.
From S2P Require Import Rng.
From S2P Require Import Schedule.
From S2P Require Import Recorder.
From S2P Require Import Config.
From S2P Require Import Fault.
From S2P Require Import Scenario.
From S2P Require Import Dlr.
From S2P Require Import Close.
From S2P Require Import Binds.
From S2P Require Import VirtualSMSC.
From S2P Require Import SessionState.

(** ** The monad *)

Definition M (R A : Type) : Type := Env -> world R -> may_panic (A * world R).

#[export] Instance M_ret {R} : MRet (M R) := fun A a _ w => Ok (a, w).
#[export] Instance M_bind {R} : MBind (M R) := fun A B f m env w =>
  match m env w with
  | Ok (a, w) => f a env w
  | Err e => Err e
  | Panic => Panic
  end.

Section Primitives.
Context {R : Type}.

Definition gets {A} (f : session R -> A) : M R A := fun _ w => Ok (f (w_session w), w).
Definition gets_v {A} (f : virtualSMSC -> A) : M R A := fun _ w => Ok (f (w_smsc w), w).
Definition modify (f : session R -> session R) : M R () := fun _ w =>
  Ok ((), set_w_session (f (w_session w)) w).
Definition modify_v (f : virtualSMSC -> virtualSMSC) : M R () := fun _ w =>
  Ok ((), set_w_smsc (f (w_smsc w)) w).
Definition ask {A} (f : Env -> A) : M R A := fun env w => Ok (f env, w).
Definition emit (e : effect) : M R () := fun _ w => Ok ((), set_w_out (w_out w ++ [e]) w).

(** A computation without effects that may panic. *)
Definition lift {A} (m : may_panic A) : M R A := fun _ w =>
  match m with Ok a => Ok (a, w) | Err e => Err e | Panic => Panic end.

(** Dereferencing a pointer. *)
Definition nonnil {A} (p : option A) : M R A := fun _ w =>
  match p with Some a => Ok (a, w) | None => Panic end.

(** [make(chan struct{})]. *)
Definition make_chan : M R chan := fun _ w =>
  Ok (w_nextChan w, set_w_nextChan (w_nextChan w + 1) w).

Definition when (b : bool) (m : M R ()) : M R () := if b then m else mret ().

Fixpoint for_each {A} (l : list A) (f : A -> M R ()) : M R () :=
  match l with
  | [] => mret ()
  | x :: l => f x;; for_each l f
  end.

(** ** Sending *)

(** An encode error is logged and yields nil. *)
Definition encode (pdu : PDU) (edge : option EdgeCasePlan) : M R (option bytes) := fun _ w =>
  match match edge with
        | None => Encode pdu
        | Some plan => EncodeEdgeCase pdu (EP_Kind plan)
        end with
  | Ok b => Ok (Some b, w)
  | Err _ => Ok (None, w)
  | Panic => Panic
  end.

Definition sendBytes (b : bytes) (kind : Kind) : M R () := emit (SendBytes b kind).

Definition sendKind (pdu : PDU) (kind : Kind) : M R () :=
  b ← encode pdu None;
  match b with Some b => sendBytes b kind | None => mret () end.

Definition send (pdu : PDU) : M R () := sendKind pdu kindResp.

Definition sendWhen (r : ready) (b : bytes) (kind : Kind) (sent : option chan) : M R () :=
  emit (SendWhen r b kind sent).

Definition maxServedLatencyMS : Z := 24 * 60 * 60 * 1000.

Definition latencyDuration (ms : Z) : Z :=
  (if ms >? maxServedLatencyMS then maxServedLatencyMS else ms) * Millisecond.

Definition respond (b : option bytes) (latencyMS : Z) : M R (option chan) :=
  match b with
  | None => mret None
  | Some b =>
      if latencyMS =? 0 then sendBytes b kindResp;; mret None
      else
        sent ← make_chan;
        sendWhen (ReadyAfter (latencyDuration latencyMS)) b kindResp (Some sent);;
        mret (Some sent)
  end.

Definition closeWith (reason : closeReason) (err : option CodecError) : M R () :=
  modify (set_s_state stateClosed);;
  modify (set_s_closeReason (Some reason));;
  modify (set_s_closeErr err).

Definition messageID : M R string :=
  id ← gets s_id; clock ← gets s_perBindClock; mret (Dlr.messageID id clock).

(** ** Scheduled receipts and mobile-originated messages *)

Definition schedule (dueTick : Z) (p : payload) : M R () :=
  sched ← gets s_sched;
  sched ← lift (Schedule dueTick p sched);
  modify (set_s_sched sched).

Definition scheduleDLR (messageID : string) (msg : Message) (plan : DLRPlan) (respSent : option chan)
  : M R () :=
  canReceive ← gets s_canReceive;
  if negb canReceive then mret ()
  else
    clock ← gets s_perBindClock;
    let dueTick := clock +64 DP_DelayTicks plan in
    schedule dueTick (PayloadDLR {|
      d_messageID := messageID;
      d_outcome := DP_Outcome plan;
      d_originTick := clock;
      d_dueTick := dueTick;
      d_sourceAddr := SourceAddr msg;
      d_sourceAddrTON := SourceAddrTON msg;
      d_sourceAddrNPI := SourceAddrNPI msg;
      d_destAddr := DestAddr msg;
      d_destAddrTON := DestAddrTON msg;
      d_destAddrNPI := DestAddrNPI msg;
      d_text := string_of_bytes (ShortMessage msg);
      d_respSent := respSent
    |}).

(** The receipt of a scheduled event. *)
Definition receipt_pdu (d : dlrEvent) : PDU :=
  let '(state, errCode) := dlrWireState (d_outcome d) in
  NewDeliveryReceipt {|
    DR_MessageID := d_messageID d;
    DR_State := state;
    DR_ErrorCode := errCode;
    DR_SubmitDate := dlrDate (d_originTick d);
    DR_DoneDate := dlrDate (d_dueTick d);
    DR_Text := d_text d;
    DR_SourceAddr := d_destAddr d;
    DR_SourceAddrTON := d_destAddrTON d;
    DR_SourceAddrNPI := d_destAddrNPI d;
    DR_DestAddr := d_sourceAddr d;
    DR_DestAddrTON := d_sourceAddrTON d;
    DR_DestAddrNPI := d_sourceAddrNPI d
  |}.

Definition emitDLR (d : dlrEvent) : M R () :=
  let pdu := receipt_pdu d in
  match d_respSent d with
  | None => sendKind pdu kindDLR
  | Some c =>
      closed ← ask (fun env => env_closed env c);
      if closed : bool then sendKind pdu kindDLR
      else
        b ← encode pdu None;
        match b with Some b => sendWhen (ReadySent c) b kindDLR None | None => mret () end
  end.

Definition emitMO (m : moEvent) : M R () :=
  canReceive ← gets s_canReceive;
  if negb canReceive then mret ()
  else sendKind (NewMobileOriginated (m_sourceAddr m) (m_destAddr m) (m_content m)) kindMO.

Definition dispatch (ev : Event payload) : M R () :=
  match Payload ev with
  | PayloadDLR d => emitDLR d
  | PayloadMO m => emitMO m
  | PayloadOther => mret ()
  end.

(** The loop of [drainDue] and [flushSchedule]: stop once the session is closed. *)
Fixpoint dispatch_all (evs : list (Event payload)) : M R () :=
  match evs with
  | [] => mret ()
  | ev :: evs =>
      dispatch ev;;
      state ← gets s_state;
      if bool_decide (state = stateClosed) then mret () else dispatch_all evs
  end.

Definition drainDue (clock : Z) : M R () :=
  sched ← gets s_sched;
  drained ← lift (DrainDue clock sched);
  modify (set_s_sched drained.2);;
  dispatch_all drained.1.

Definition flushSchedule : M R () :=
  sched ← gets s_sched;
  let drained := DrainAll sched in
  modify (set_s_sched drained.2);;
  dispatch_all drained.1.

(** ** Scheduled transitions and disconnects *)

(** [slices.SortedStableFunc] by tick: insertion from the right end, each entry
    before the later ones of the same tick. *)
Fixpoint insert_by_tick {T} (tick : T -> Z) (x : T) (l : list T) : list T :=
  match l with
  | [] => [x]
  | y :: l' => if tick x <=? tick y then x :: l else y :: insert_by_tick tick x l'
  end.

Definition sortedByTick {T} (inp : list T) (tick : T -> Z) : list T :=
  foldr (insert_by_tick tick) [] inp.

Definition scheduleConfiguredEvents : M R () :=
  cfg ← gets_v v_cfg;
  match VS_MOInjection cfg with
  | Some mo =>
      when (String.eqb (MI_Mode mo) MOModeScheduled)
        (for_each (MI_Events mo) (fun ev =>
           schedule (MO_AtTick ev)
             (PayloadMO (mkMoEvent (MO_SourceAddr ev) (MO_DestAddr ev) (MO_Content ev)))))
  | None => mret ()
  end;;
  modify (set_s_transitions (sortedByTick (VS_ScheduledTransitions cfg) ST_AtTick));;
  modify (set_s_disconnects (sortedByTick (VS_ScheduledDisconnects cfg) SD_AtTick)).

(** A target without an engine is ignored. *)
Definition applyTransition (to : Profile) : M R () :=
  engines ← gets_v v_engines;
  match engines !! to with
  | None => mret ()
  | Some engine =>
      modify (set_s_currentEngine (Some engine));;
      v ← gets_v id;
      let '(v, m) := setActiveProfile to v in
      modify_v (fun _ => v);;
      emit (Metric m)
  end.

(** The loop over the transitions from the cursor on. *)
Fixpoint applyDueTransitions_loop (ts : list ScheduledTransition) (tick : Z) : M R () :=
  match ts with
  | [] => mret ()
  | t :: ts =>
      if ST_AtTick t <=? tick then
        applyTransition (ST_ToProfile t);;
        modify (fun s => set_s_transitionCursor (S (s_transitionCursor s)) s);;
        applyDueTransitions_loop ts tick
      else mret ()
  end.

Definition applyDueTransitions (tick : Z) : M R () :=
  cursor ← gets s_transitionCursor;
  transitions ← gets s_transitions;
  applyDueTransitions_loop (drop cursor transitions) tick.

Definition isDisconnectTarget (scope : DisconnectScope) (dueTick : Z) : M R bool :=
  if String.eqb scope DisconnectScopeAll then mret true
  else if String.eqb scope DisconnectScopeOldest then
    id ← gets s_id;
    binds ← gets_v v_binds;
    mret (isOldest binds id)
  else if String.eqb scope DisconnectScopeRandom then
    state ← gets s_scenarioState;
    state ← nonnil state;
    mret (DisconnectDraw state dueTick)
  else mret false.

Fixpoint dueDisconnect_loop (ds : list ScheduledDisconnect) (clock : Z) : M R bool :=
  match ds with
  | [] => mret false
  | d :: ds =>
      if SD_AtTick d >? clock then mret false
      else if String.eqb (SD_When d) DisconnectBeforeResponse then
        target ← isDisconnectTarget (SD_Scope d) (SD_AtTick d);
        if target : bool then mret true else dueDisconnect_loop ds clock
      else dueDisconnect_loop ds clock
  end.

Definition dueDisconnectBeforeResponse : M R bool :=
  disconnects ← gets s_disconnects;
  cursor ← gets s_disconnectCursor;
  clock ← gets s_perBindClock;
  ds ← lift (go_slice disconnects (Z.of_nat cursor) (len disconnects));
  dueDisconnect_loop ds clock.

Fixpoint applyDueDisconnects_loop (ds : list ScheduledDisconnect) (tick : Z) : M R () :=
  match ds with
  | [] => mret ()
  | d :: ds =>
      if SD_AtTick d <=? tick then
        modify (fun s => set_s_disconnectCursor (S (s_disconnectCursor s)) s);;
        target ← isDisconnectTarget (SD_Scope d) (SD_AtTick d);
        when target (closeWith reasonScheduledDisconnect None);;
        applyDueDisconnects_loop ds tick
      else mret ()
  end.

Definition applyDueDisconnects (tick : Z) : M R () :=
  cursor ← gets s_disconnectCursor;
  disconnects ← gets s_disconnects;
  applyDueDisconnects_loop (drop cursor disconnects) tick.

End Primitives.

(** ** PDU handlers *)

(** [subtle.ConstantTimeCompare]. *)
Definition ConstantTimeCompare (x y : bytes) : Z :=
  if negb (len x =? len y) then 0
  else
    let v := foldl (fun v p => Z.lor v (Z.lxor (byte_to_Z p.1) (byte_to_Z p.2))) 0 (zip x y) in
    if v =? 0 then 1 else 0.

Definition bindKind (id : CommandID) : string * CommandID :=
  if id =? BindTransmitter then ("transmitter"%string, BindTransmitterResp)
  else if id =? BindReceiver then ("receiver"%string, BindReceiverResp)
  else ("transceiver"%string, BindTransceiverResp).

Section Handlers.
Context {R : Type} `{RandSource R}.
Implicit Types pdu : PDU.

Definition reply pdu (id : CommandID) (status : CommandStatus) (body : option Body) : PDU :=
  mkPDU id status (PDU_SequenceNumber pdu) body.

Definition handleBind pdu : M R () :=
  let '(bindType, respID) := bindKind (PDU_CommandID pdu) in
  state ← gets s_state;
  if negb (bool_decide (state = stateOpen)) then send (reply pdu respID StatusInvBndSts None)
  else
    match PDU_Body pdu with
    | Some (BodyBind bind) =>
        scenario ← gets_v v_scenario;
        if RejectBind scenario then
          modify (set_s_bindType bindType);;
          send (reply pdu respID StatusBindFail None);;
          closeWith reasonBindRejected None
        else
          cfg ← gets_v v_cfg;
          let creds := VS_BindCredentials cfg in
          let idOK := ConstantTimeCompare (bytes_of_string (Bind_SystemID bind))
                        (bytes_of_string (BC_SystemID creds)) =? 1 in
          let pwOK := ConstantTimeCompare (bytes_of_string (Bind_Password bind))
                        (bytes_of_string (BC_Password creds)) =? 1 in
          if negb idOK || negb pwOK then
            modify (set_s_bindType bindType);;
            modify (set_s_systemID (Bind_SystemID bind));;
            send (reply pdu respID StatusBindFail None);;
            closeWith reasonAuthFailed None
          else
            modify_v (fun v => set_v_bindSeq (v_bindSeq v +64 1) v);;
            id ← gets_v v_bindSeq;
            modify (set_s_id id);;
            modify (set_s_state stateBound);;
            modify (set_s_systemID (Bind_SystemID bind));;
            modify (set_s_bindType bindType);;
            modify (set_s_canSubmit (negb (PDU_CommandID pdu =? BindReceiver)));;
            modify (set_s_canReceive (negb (PDU_CommandID pdu =? BindTransmitter)));;
            entropy ← ask env_entropy;
            chaosBase ← ask env_chaosBase;
            modify (set_s_scenarioState
                      (Some (NewBindState scenario (VS_Seed cfg) (VS_Name cfg) id entropy chaosBase)));;
            modify (set_s_currentEngine (Some scenario));;
            now ← ask env_now;
            modify_v (fun v =>
              set_v_binds (add (mkBindInfo id (Bind_SystemID bind) bindType now) (v_binds v)) v);;
            emit (Metric (IncBind (VS_Name cfg) bindType));;
            modify (set_s_bound true);;
            modify (set_s_lastSubmit now);;
            scheduleConfiguredEvents;;
            send (reply pdu respID StatusROK (Some (BodyBindResp (mkBindResp (VS_Name cfg) []))))
    | _ => send (reply pdu respID StatusSysErr None)
    end.

(** [s.currentEngine.Evaluate(s.scenarioState, tick)], which advances the bind
    state in place. *)
Definition evaluateSubmit (tick : Z) : M R Decision :=
  engine ← gets s_currentEngine;
  engine ← nonnil engine;
  state ← gets s_scenarioState;
  state ← nonnil state;
  now ← ask env_gateNow;
  ds ← lift (Evaluate engine now state tick);
  modify (set_s_scenarioState (Some ds.2));;
  mret ds.1.

(** The wait itself is real time; [env_quit] tells whether the shutdown came
    before the timer. *)
Definition serveLatency (ms : Z) : M R bool :=
  if ms =? 0 then mret true else quit ← ask env_quit; mret (negb quit).

(** [float64(ms) / 1000]. *)
Definition seconds_of_ms (ms : Z) : float64 := SFdiv 53 1024 (f64_of_u64 ms) (f64_of_u64 1000).

Definition observeServed (latencyMS : Z) : M R () :=
  cfg ← gets_v v_cfg;
  engine ← gets s_currentEngine;
  engine ← nonnil engine;
  emit (Metric (ObserveServedLatency (VS_Name cfg) (e_profile engine) (seconds_of_ms latencyMS))).

Definition recordSubmit (messageID : string) (msg : Message) : M R () :=
  clock ← gets s_perBindClock;
  r ← gets_v v_recorder;
  r ← lift (Append {|
    Rec_Index := 0;
    Rec_MessageID := messageID;
    Rec_SourceAddr := SourceAddr msg;
    Rec_SourceTON := SourceAddrTON msg;
    Rec_SourceNPI := SourceAddrNPI msg;
    Rec_DestAddr := DestAddr msg;
    Rec_DestTON := DestAddrTON msg;
    Rec_DestNPI := DestAddrNPI msg;
    Rec_DataCoding := DataCoding msg;
    Rec_ShortMessage := ShortMessage msg;
    Rec_PerBindClock := clock
  |} r);
  modify_v (set_v_recorder r).

(** Both clocks advance, the submit is counted and recorded. *)
Definition commitSubmit (tick : Z) (d : Decision) (msg : Message) : M R string :=
  modify (set_s_perBindClock tick);;
  modify_v (fun v => set_v_logicalClock (v_logicalClock v +64 1) v);;
  cfg ← gets_v v_cfg;
  emit (Metric (IncSubmit (VS_Name cfg)));;
  emit (Metric (IncOutcome (VS_Name cfg) (outcomeLabel (D_Outcome d))));;
  now ← ask env_now;
  modify (set_s_lastSubmit now);;
  id ← messageID;
  recordSubmit id msg;;
  mret id.

(** The closure [resp] of [handleSubmit]. *)
Definition submitResp pdu (d : Decision) (status : CommandStatus) (body : option Body)
  : M R (option chan) :=
  observeServed (D_LatencyMS d);;
  b ← encode (reply pdu SubmitSMResp status body) (D_EdgeCase d);
  respond b (D_LatencyMS d).

(** The drains after an answered or withheld submit. *)
Definition drainSubmit : M R () :=
  clock ← gets s_perBindClock;
  drainDue clock;;
  applyDueDisconnects clock.

(** The switch on the outcome. *)
Definition answerSubmit pdu (d : Decision) (msg : Message) (id : string) : M R () :=
  match D_Outcome d with
  | OutcomeSuccess =>
      sent ← submitResp pdu d StatusROK (Some (BodySubmitResp (mkSubmitResp id)));
      match D_DLR d with
      | Some plan => scheduleDLR id msg plan sent
      | None => mret ()
      end;;
      drainSubmit
  | OutcomeError =>
      submitResp pdu d (D_Status d) None;;
      drainSubmit
  | OutcomeTimeout => drainSubmit
  | OutcomeDisconnect =>
      when (String.eqb (D_DisconnectWhen d) DisconnectAfterResponse)
        (send (reply pdu SubmitSMResp StatusROK (Some (BodySubmitResp (mkSubmitResp id))));;
         observeServed (D_LatencyMS d));;
      closeWith reasonFaultInjection None
  end.

Definition handleSubmit pdu : M R () :=
  state ← gets s_state;
  canSubmit ← gets s_canSubmit;
  if negb (bool_decide (state = stateBound)) || negb canSubmit
  then send (reply pdu SubmitSMResp StatusInvBndSts None)
  else
    match PDU_Body pdu with
    | Some (BodyMessage msg) =>
        clock ← gets s_perBindClock;
        let tick := clock +64 1 in
        applyDueTransitions tick;;
        d ← evaluateSubmit tick;
        served ← (if bool_decide (D_Outcome d = OutcomeDisconnect) then serveLatency (D_LatencyMS d)
                  else mret true);
        if negb served then closeWith reasonShutdown None
        else
          id ← commitSubmit tick d msg;
          cut ← dueDisconnectBeforeResponse;
          if cut : bool then closeWith reasonScheduledDisconnect None
          else answerSubmit pdu d msg id
    | _ => send (reply pdu SubmitSMResp StatusSysErr None)
    end.

Definition handle pdu : M R () :=
  let id := PDU_CommandID pdu in
  if bool_decide (id ∈ [BindTransmitter; BindReceiver; BindTransceiver]) then handleBind pdu
  else if id =? SubmitSM then handleSubmit pdu
  else if id =? EnquireLink then send (reply pdu EnquireLinkResp StatusROK None)
  else if id =? Unbind then
    send (reply pdu UnbindResp StatusROK None);;
    closeWith reasonClientUnbind None
  else if id =? DeliverSMResp then mret ()
  else send (reply pdu GenericNack StatusInvCmdID None).

(** ** Frames that do not decode *)

Definition rejectMalformed (frame : bytes) (err : CodecError) : M R () :=
  w ← lift (go_slice frame 4 8);
  id ← lift (be_uint 4 w);
  w ← lift (go_slice frame 12 16);
  seq ← lift (be_uint 4 w);
  match err with
  | ErrUnknownCommand _ => send (mkPDU GenericNack StatusInvCmdID seq None)
  | _ =>
      if IsResponse id then mret ()
      else
        let status :=
          match err with
          | ErrBadShortMessage _ => StatusInvMsgLen
          | ErrTruncated => StatusInvCmdLen
          | _ => StatusSysErr
          end in
        send (mkPDU (Response id) status seq None)
  end.

End Handlers.
