(* ===== verification/SessionRuns.v ===== *)
(** * Running the session handlers

    Each handler of [Session] computed on an arbitrary world: the equations that
    the session theorems rewrite with.  Under the invariant [session_safe] no
    handler panics. *)

From S2P Require Import Prelude.
From S2P Require Import SmppPdu.
From S2P Require Import SmppCodec.
From S2P Require Import SmppCodecThms.
From S2P Require Import SmppEdge.
From S2P Require Import SmppReceipt.
From S2P Require Import Rng.
From S2P Require Import Schedule.
From S2P Require Import Recorder.
From S2P Require Import Config.
From S2P Require Import Fault.
From S2P Require Import Scenario.
From S2P Require Import Dlr.
From S2P Require Import Close.
From S2P Require Import Binds.
From S2P Require Import VirtualSMSC.
From S2P Require Import EngineSafety.
From S2P Require Import SessionState.
From S2P Require Import Session.

(** ** Computations that cannot panic *)

Lemma Encode_no_panic p : no_panic (Encode p).
Proof. unfold Encode. by destruct (_ >? _). Qed.

Lemma EncodeEdgeCase_no_panic p k : no_panic (EncodeEdgeCase p k).
Proof.
  pose proof (Encode_no_panic p) as Hp.
  unfold EncodeEdgeCase. destruct (Encode p) as [f| |] eqn:He; [rewrite bind_Ok|done..].
  assert (HeaderLen <= len f) as Hlen.
  { apply Encode_Ok in He as [_ ->]. rewrite !length_app, !length_be_encode. unfold HeaderLen. lia. }
  destruct (word_of_slice (E := CodecError) f 0) as (w & Hw & Hu); [lia | unfold HeaderLen in Hlen; lia|].
  destruct (word_of_slice (E := CodecError) f 12) as (w' & Hw' & Hu'); [lia | unfold HeaderLen in Hlen; lia|].
  change (0 + 4) with 4 in Hw. change (12 + 4) with 16 in Hw'.
  rewrite Hw, Hw', !bind_Ok, Hu, Hu', !bind_Ok. by repeat destruct (_ =? _).
Qed.

Lemma sort_Search_total {A} (P : A -> bool) l fuel i j :
  (i <= j)%nat -> (j <= length l)%nat ->
  exists n, sort_Search_loop fuel (search_pred P l) i j = Ok n /\ (i <= n <= j)%nat.
Proof.
  revert i j. induction fuel as [|fuel IH]; intros i j Hij Hj; cbn [sort_Search_loop]; [eauto|].
  destruct (Nat.ltb_spec i j) as [Hlt|]; [|eauto].
  pose proof (midpoint_bounds i j Hlt) as Hh. generalize dependent ((i + j) / 2)%nat. intros h Hh.
  destruct (lookup_lt_is_Some_2 l h) as [a Ha]; [lia|].
  unfold search_pred at 1, slice_at. rewrite Ha. cbn [obind].
  destruct (P a); [destruct (IH i h) as (n & ? & ?) | destruct (IH (S h) j) as (n & ? & ?)];
    try lia; eauto with lia.
Qed.

Lemma Schedule_total {P} t (x : P) r : exists r', Schedule t x r = Ok r'.
Proof.
  unfold Schedule, sort_Search.
  destruct (sort_Search_total (sorts_after (mkEvent t (seq r) x)) (pending r)
    (length (pending r)) 0 (length (pending r))) as (n & Hn & _); [lia..|].
  rewrite Hn. simpl. eauto.
Qed.

Lemma DrainDue_total {P} c (r : Runner P) :
  exists n, DrainDue c r = Ok (take n (pending r), mkRunner (drop n (pending r)) (seq r)).
Proof.
  unfold DrainDue, sort_Search.
  destruct (sort_Search_total (fun p : Event P => DueTick p >? c) (pending r)
    (length (pending r)) 0 (length (pending r))) as (n & Hn & _); [lia..|].
  rewrite Hn. simpl. eauto.
Qed.

(** The ring's slot is always in range. *)
Definition ring_ok (r : Recorder) : Prop := 0 < capN r /\ len (ring r) = capN r.

Lemma New_ring_ok n : ring_ok (Recorder.New n).
Proof.
  unfold Recorder.New, ring_ok. destruct (Z.ltb_spec n 1); simpl; rewrite ?length_replicate; lia.
Qed.

Lemma Append_total p r :
  ring_ok r -> exists r', Append p r = Ok r' /\ ring_ok r' /\ total r' = total r +64 1.
Proof.
  intros [Hc Hl]. unfold Append, go_mod, slice_set.
  replace (capN r =? 0) with false by (symmetry; bool_lia). rewrite obind_Ok.
  pose proof (Z.mod_pos_bound (total r) (capN r) Hc).
  replace ((0 <=? total r mod capN r) && (total r mod capN r <? len (ring r))) with true
    by (symmetry; apply andb_true_iff; split; bool_lia).
  rewrite obind_Ok. eexists. split; [done|]. split; [|done].
  split; [done|]. simpl. by rewrite length_insert.
Qed.

(** ** The effects of the sending operations *)

Definition encoded (pdu : PDU) (edge : option EdgeCasePlan) : option bytes :=
  match match edge with None => Encode pdu | Some plan => EncodeEdgeCase pdu (EP_Kind plan) end with
  | Ok b => Some b
  | _ => None
  end.

Definition send_out (pdu : PDU) (kind : Kind) : list effect :=
  match encoded pdu None with Some b => [SendBytes b kind] | None => [] end.

Definition dlr_out (env : Env) (d : dlrEvent) : list effect :=
  match d_respSent d with
  | None => send_out (receipt_pdu d) kindDLR
  | Some c =>
      if env_closed env c then send_out (receipt_pdu d) kindDLR
      else match encoded (receipt_pdu d) None with
           | Some b => [SendWhen (ReadySent c) b kindDLR None]
           | None => []
           end
  end.

Definition mo_out (canReceive : bool) (m : moEvent) : list effect :=
  if canReceive then send_out (NewMobileOriginated (m_sourceAddr m) (m_destAddr m) (m_content m)) kindMO
  else [].

Definition dispatch_out (env : Env) (canReceive : bool) (ev : Event payload) : list effect :=
  match Payload ev with
  | PayloadDLR d => dlr_out env d
  | PayloadMO m => mo_out canReceive m
  | PayloadOther => []
  end.

Section Runs.
Context {R : Type}.
Implicit Types (w : world R) (s : session R).

Definition add_out (es : list effect) w : world R := set_w_out (w_out w ++ es) w.
Definition upd (f : session R -> session R) w : world R := set_w_session (f (w_session w)) w.
Definition upd_v (f : virtualSMSC -> virtualSMSC) w : world R := set_w_smsc (f (w_smsc w)) w.

Lemma add_out_nil w : add_out [] w = w.
Proof. unfold add_out, set_w_out. rewrite app_nil_r. by destruct w. Qed.

Lemma add_out_app es1 es2 w : add_out es2 (add_out es1 w) = add_out (es1 ++ es2) w.
Proof. unfold add_out, set_w_out. simpl. by rewrite app_assoc. Qed.

Lemma M_bind_run {A B} (m : M R A) (f : A -> M R B) env w a w' :
  m env w = Ok (a, w') -> (m ≫= f) env w = f a env w'.
Proof. intros Hm. unfold mbind, M_bind. by rewrite Hm. Qed.

Lemma encode_run pdu edge env w : encode (R := R) pdu edge env w = Ok (encoded pdu edge, w).
Proof.
  unfold encode, encoded. destruct edge as [plan|].
  - pose proof (EncodeEdgeCase_no_panic pdu (EP_Kind plan)). by destruct (EncodeEdgeCase _ _).
  - pose proof (Encode_no_panic pdu). by destruct (Encode _).
Qed.

Lemma sendKind_run pdu kind env w : sendKind pdu kind env w = Ok ((), add_out (send_out pdu kind) w).
Proof.
  unfold sendKind. erewrite M_bind_run by apply encode_run. unfold send_out.
  destruct (encoded pdu None); [done|]. by rewrite add_out_nil.
Qed.

Lemma emitDLR_run d env w : emitDLR d env w = Ok ((), add_out (dlr_out env d) w).
Proof.
  unfold emitDLR, dlr_out. destruct (d_respSent d) as [c|]; [|apply sendKind_run].
  erewrite M_bind_run by reflexivity. destruct (env_closed env c); [apply sendKind_run|].
  erewrite M_bind_run by apply encode_run. destruct (encoded _ None); [done|].
  by rewrite add_out_nil.
Qed.

Lemma emitMO_run m env w :
  emitMO m env w = Ok ((), add_out (mo_out (s_canReceive (w_session w)) m) w).
Proof.
  unfold emitMO, mo_out. erewrite M_bind_run by reflexivity.
  destruct (s_canReceive _); simpl; [apply sendKind_run|]. by rewrite add_out_nil.
Qed.

Lemma dispatch_run ev env w :
  dispatch ev env w = Ok ((), add_out (dispatch_out env (s_canReceive (w_session w)) ev) w).
Proof.
  unfold dispatch, dispatch_out. destruct (Payload ev).
  - apply emitDLR_run.
  - apply emitMO_run.
  - by rewrite add_out_nil.
Qed.

(** No event changes the session, so the loop dispatches every event. *)
Lemma dispatch_all_run evs env w :
  s_state (w_session w) <> stateClosed ->
  dispatch_all evs env w =
  Ok ((), add_out (concat (dispatch_out env (s_canReceive (w_session w)) <$> evs)) w).
Proof.
  revert w. induction evs as [|ev evs IH]; intros w Hs; simpl; [by rewrite add_out_nil|].
  erewrite M_bind_run by apply dispatch_run. erewrite M_bind_run by reflexivity.
  rewrite bool_decide_false by done. rewrite IH by done. by rewrite add_out_app.
Qed.

Lemma drainDue_run clock env w :
  s_state (w_session w) <> stateClosed ->
  exists due rest, DrainDue clock (s_sched (w_session w)) = Ok (due, rest) /\
  drainDue clock env w =
  Ok ((), add_out (concat (dispatch_out env (s_canReceive (w_session w)) <$> due))
            (upd (set_s_sched rest) w)).
Proof.
  intros Hs. destruct (DrainDue_total clock (s_sched (w_session w))) as (n & Hn).
  eexists _, _. split; [exact Hn|]. unfold drainDue. erewrite M_bind_run by reflexivity.
  erewrite M_bind_run by (unfold lift; by rewrite Hn). erewrite M_bind_run by reflexivity.
  by rewrite dispatch_all_run.
Qed.

Lemma flushSchedule_run env w :
  s_state (w_session w) <> stateClosed ->
  flushSchedule env w =
  Ok ((), add_out (concat (dispatch_out env (s_canReceive (w_session w)) <$>
                           pending (s_sched (w_session w))))
            (upd (set_s_sched (DrainAll (s_sched (w_session w))).2) w)).
Proof.
  intros Hs. unfold flushSchedule. erewrite M_bind_run by reflexivity.
  erewrite M_bind_run by reflexivity. by rewrite dispatch_all_run.
Qed.

Lemma schedule_run t p env w :
  exists r, Schedule t p (s_sched (w_session w)) = Ok r /\
  schedule t p env w = Ok ((), upd (set_s_sched r) w).
Proof.
  destruct (Schedule_total t p (s_sched (w_session w))) as [r Hr].
  exists r. split; [done|]. unfold schedule. erewrite M_bind_run by reflexivity.
  by erewrite M_bind_run by (unfold lift; by rewrite Hr).
Qed.

Definition closed_world (reason : closeReason) (err : option CodecError) w : world R :=
  upd (fun s => set_s_closeErr err (set_s_closeReason (Some reason) (set_s_state stateClosed s))) w.

Lemma closeWith_run reason err env w :
  closeWith reason err env w = Ok ((), closed_world reason err w).
Proof. reflexivity. Qed.

(** One step of a handler, without evaluating the world it leaves. *)
Lemma modify_run {A} f (k : () -> M R A) env w : (modify f ≫= k) env w = k () env (upd f w).
Proof. done. Qed.

Lemma modify_v_run {A} f (k : () -> M R A) env w : (modify_v f ≫= k) env w = k () env (upd_v f w).
Proof. done. Qed.

Lemma gets_run {A B} (f : session R -> A) (k : A -> M R B) env w :
  (gets f ≫= k) env w = k (f (w_session w)) env w.
Proof. done. Qed.

Lemma gets_v_run {A B} (f : virtualSMSC -> A) (k : A -> M R B) env w :
  (gets_v f ≫= k) env w = k (f (w_smsc w)) env w.
Proof. done. Qed.

Lemma ask_run {A B} (f : Env -> A) (k : A -> M R B) env w : (ask f ≫= k) env w = k (f env) env w.
Proof. done. Qed.

Lemma emit_run {A} e (k : () -> M R A) env w : (emit e ≫= k) env w = k () env (add_out [e] w).
Proof. done. Qed.

Definition respond_out (b : option bytes) (latencyMS : Z) (c : chan) : list effect :=
  match b with
  | None => []
  | Some b =>
      if latencyMS =? 0 then [SendBytes b kindResp]
      else [SendWhen (ReadyAfter (latencyDuration latencyMS)) b kindResp (Some c)]
  end.

Definition defers (b : option bytes) (latencyMS : Z) : bool :=
  match b with Some _ => negb (latencyMS =? 0) | None => false end.

Lemma respond_run b latencyMS env w :
  respond b latencyMS env w =
  let w' := if defers b latencyMS then set_w_nextChan (w_nextChan w + 1) w else w in
  Ok (if defers b latencyMS then Some (w_nextChan w) else None,
      add_out (respond_out b latencyMS (w_nextChan w)) w').
Proof.
  unfold respond, defers, respond_out. destruct b as [b|]; [|by rewrite add_out_nil].
  by destruct (latencyMS =? 0).
Qed.

(** ** Transitions and disconnects *)

(** The entries at the front of a tick-ordered list whose tick is reached. *)
Fixpoint due_prefix {T} (tick : T -> Z) (clock : Z) (l : list T) : list T :=
  match l with
  | [] => []
  | x :: l => if tick x <=? clock then x :: due_prefix tick clock l else []
  end.

Definition transition_world (to : Profile) w : world R :=
  match v_engines (w_smsc w) !! to with
  | None => w
  | Some engine =>
      add_out [Metric (SetActiveScenario (VS_Name (v_cfg (w_smsc w))) to)]
        (upd_v (set_v_activeProfile to) (upd (set_s_currentEngine (Some engine)) w))
  end.

Definition transition_step w (t : ScheduledTransition) : world R :=
  upd (fun s => set_s_transitionCursor (S (s_transitionCursor s)) s)
    (transition_world (ST_ToProfile t) w).

Definition due_transitions (tick : Z) s : list ScheduledTransition :=
  due_prefix ST_AtTick tick (drop (s_transitionCursor s) (s_transitions s)).

Lemma applyTransition_run to env w : applyTransition to env w = Ok ((), transition_world to w).
Proof.
  unfold applyTransition, transition_world. erewrite M_bind_run by reflexivity.
  by destruct (v_engines (w_smsc w) !! to).
Qed.

Lemma applyDueTransitions_run tick env w :
  applyDueTransitions tick env w = Ok ((), foldl transition_step w (due_transitions tick (w_session w))).
Proof.
  unfold applyDueTransitions, due_transitions.
  erewrite M_bind_run by reflexivity. erewrite M_bind_run by reflexivity.
  generalize (drop (s_transitionCursor (w_session w)) (s_transitions (w_session w))). intros ts.
  revert w. induction ts as [|t ts IH]; intros w; simpl; [done|].
  destruct (ST_AtTick t <=? tick); [|done].
  erewrite M_bind_run by apply applyTransition_run. erewrite M_bind_run by reflexivity.
  by rewrite IH.
Qed.

(** What a scheduled disconnect decides for this bind. *)
Definition is_target w (scope : DisconnectScope) (dueTick : Z) : bool :=
  if String.eqb scope DisconnectScopeAll then true
  else if String.eqb scope DisconnectScopeOldest then isOldest (v_binds (w_smsc w)) (s_id (w_session w))
  else if String.eqb scope DisconnectScopeRandom then
    match s_scenarioState (w_session w) with Some st => DisconnectDraw st dueTick | None => false end
  else false.

Definition targeted w (d : ScheduledDisconnect) : bool := is_target w (SD_Scope d) (SD_AtTick d).

Definition fires_before w (d : ScheduledDisconnect) : bool :=
  String.eqb (SD_When d) DisconnectBeforeResponse && targeted w d.

Definition due_disconnects (clock : Z) s : list ScheduledDisconnect :=
  due_prefix SD_AtTick clock (drop (s_disconnectCursor s) (s_disconnects s)).

Lemma isDisconnectTarget_run scope t env w :
  is_Some (s_scenarioState (w_session w)) ->
  isDisconnectTarget scope t env w = Ok (is_target w scope t, w).
Proof.
  intros [st Hst]. unfold isDisconnectTarget, is_target.
  destruct (String.eqb scope DisconnectScopeAll); [done|].
  destruct (String.eqb scope DisconnectScopeOldest); [done|].
  destruct (String.eqb scope DisconnectScopeRandom); [|done].
  erewrite M_bind_run by reflexivity. unfold nonnil. by rewrite Hst.
Qed.

Lemma dueDisconnectBeforeResponse_run env w :
  is_Some (s_scenarioState (w_session w)) ->
  (s_disconnectCursor (w_session w) <= length (s_disconnects (w_session w)))%nat ->
  dueDisconnectBeforeResponse env w =
  Ok (existsb (fires_before w) (due_disconnects (s_perBindClock (w_session w)) (w_session w)), w).
Proof.
  intros Hst Hcur. unfold dueDisconnectBeforeResponse, due_disconnects.
  do 3 (erewrite M_bind_run by reflexivity).
  erewrite M_bind_run by (unfold lift; by rewrite go_slice_ok by lia).
  rewrite Nat2Z.id, take_ge by (rewrite length_drop; lia).
  generalize (drop (s_disconnectCursor (w_session w)) (s_disconnects (w_session w))). intros ds.
  induction ds as [|d ds IH]; [done|]. cbn [dueDisconnect_loop due_prefix].
  rewrite Z.gtb_ltb, Z.ltb_antisym. destruct (SD_AtTick d <=? _); simpl; [|done].
  unfold fires_before at 1. destruct (String.eqb _ _); simpl; [|done].
  erewrite M_bind_run by (by apply isDisconnectTarget_run). unfold targeted.
  by destruct (is_target w _ _).
Qed.

Definition cut_world (cut : bool) w : world R :=
  if cut then closed_world reasonScheduledDisconnect None w else w.

Definition consume (n : nat) w : world R :=
  upd (fun s => set_s_disconnectCursor (s_disconnectCursor s + n)%nat s) w.

Lemma applyDueDisconnects_run clock env w :
  is_Some (s_scenarioState (w_session w)) ->
  applyDueDisconnects clock env w =
  let ds := due_disconnects clock (w_session w) in
  Ok ((), cut_world (existsb (targeted w) ds) (consume (length ds) w)).
Proof.
  intros Hst. unfold applyDueDisconnects, due_disconnects.
  do 2 (erewrite M_bind_run by reflexivity).
  generalize (drop (s_disconnectCursor (w_session w)) (s_disconnects (w_session w))). intros ds.
  revert w Hst. induction ds as [|d ds IH]; intros w Hst; cbn [applyDueDisconnects_loop due_prefix].
  { unfold cut_world, consume, upd. cbn [length existsb]. rewrite Nat.add_0_r. by destruct w as [[]]. }
  destruct (SD_AtTick d <=? clock).
  2: { unfold cut_world, consume, upd. cbn [length existsb]. rewrite Nat.add_0_r. by destruct w as [[]]. }
  erewrite M_bind_run by reflexivity.
  erewrite M_bind_run by (by apply isDisconnectTarget_run).
  unfold when. change (is_target _ (SD_Scope d) (SD_AtTick d)) with (targeted w d).
  cbn [existsb length]. destruct (targeted w d) eqn:Ht; cbn [orb].
  - erewrite M_bind_run by apply closeWith_run. rewrite IH by done. cbn zeta. f_equal. f_equal.
    destruct (existsb _ _); unfold cut_world, consume, closed_world, upd; destruct w as [[]]; simpl;
      by rewrite Nat.add_succ_r.
  - erewrite M_bind_run by reflexivity. rewrite IH by done. cbn zeta. f_equal. f_equal.
    change (existsb (targeted (set_w_session _ w)) ?l) with (existsb (targeted w) l).
    destruct (existsb _ _); unfold cut_world, consume, closed_world, upd; destruct w as [[]]; simpl;
      by rewrite Nat.add_succ_r.
Qed.

End Runs.

(** Worlds are compared field by field, evaluating updates inside out. *)
Ltac world_eq :=
  cbv [
    s_id s_state s_bindType s_canSubmit s_canReceive s_systemID s_perBindClock s_scenarioState
    s_currentEngine s_transitions s_transitionCursor s_disconnects s_disconnectCursor s_sched
    s_quiescence s_lastSubmit s_bound s_openedAt s_closeReason s_closeErr s_readDeadline
    s_pdusRead set_s_id set_s_state set_s_bindType set_s_canSubmit set_s_canReceive
    set_s_systemID set_s_perBindClock set_s_scenarioState set_s_currentEngine set_s_transitions
    set_s_transitionCursor set_s_disconnects set_s_disconnectCursor set_s_sched set_s_lastSubmit
    set_s_bound set_s_closeReason set_s_closeErr set_s_readDeadline set_s_pdusRead set_w_session
    set_w_smsc set_w_out set_w_nextChan v_cfg v_recorder v_scenario v_engines v_binds
    v_idleTimeout v_activeProfile v_logicalClock v_bindSeq set_v_recorder set_v_binds
    set_v_activeProfile set_v_logicalClock set_v_bindSeq w_session w_smsc w_out w_nextChan
    add_out upd upd_v closed_world
  ]; cbn [app]; rewrite <- ?app_assoc; reflexivity.

(** ** Submits *)

Section SubmitRuns.
Context {R : Type} `{RandSource R}.
Implicit Types (w : world R) (s : session R) (pdu : PDU) (d : Decision).

(** The record a committed submit leaves. *)
Definition record_of (tick : Z) (id : string) (msg : Message) : RecordedPDU := {|
  Rec_Index := 0;
  Rec_MessageID := id;
  Rec_SourceAddr := SourceAddr msg;
  Rec_SourceTON := SourceAddrTON msg;
  Rec_SourceNPI := SourceAddrNPI msg;
  Rec_DestAddr := DestAddr msg;
  Rec_DestTON := DestAddrTON msg;
  Rec_DestNPI := DestAddrNPI msg;
  Rec_DataCoding := DataCoding msg;
  Rec_ShortMessage := ShortMessage msg;
  Rec_PerBindClock := tick
|}.

Definition commit_world (env : Env) (tick : Z) d (r : Recorder) w : world R :=
  let name := VS_Name (v_cfg (w_smsc w)) in
  add_out [Metric (IncSubmit name); Metric (IncOutcome name (outcomeLabel (D_Outcome d)))]
    (upd (fun s => set_s_lastSubmit (env_now env) (set_s_perBindClock tick s))
       (upd_v (fun v => set_v_recorder r (set_v_logicalClock (v_logicalClock v +64 1) v)) w)).

Lemma commitSubmit_run tick d msg env w :
  ring_ok (v_recorder (w_smsc w)) ->
  let id := Dlr.messageID (s_id (w_session w)) tick in
  exists r, Append (record_of tick id msg) (v_recorder (w_smsc w)) = Ok r /\
    commitSubmit tick d msg env w = Ok (id, commit_world env tick d r w).
Proof.
  intros Hr id. destruct (Append_total (record_of tick id msg) _ Hr) as (r & Ha & _).
  exists r. split; [done|]. unfold commitSubmit, recordSubmit, messageID.
  do 8 (erewrite M_bind_run by reflexivity). cbn -[Append Dlr.messageID].
  unfold mbind, M_bind, lift, gets, gets_v. cbn -[Append Dlr.messageID].
  fold id. unfold record_of in Ha. rewrite Ha. cbn -[Dlr.messageID].
  unfold mret, M_ret, commit_world, add_out, upd, upd_v. cbn -[Dlr.messageID].
  unfold set_w_out, set_w_session, set_w_smsc. cbn -[Dlr.messageID]. by rewrite <- app_assoc.
Qed.

Definition latency_metric w (latencyMS : Z) (e : Engine) : effect :=
  Metric (ObserveServedLatency (VS_Name (v_cfg (w_smsc w))) (e_profile e) (seconds_of_ms latencyMS)).

Lemma submitResp_run pdu d status body env w e :
  s_currentEngine (w_session w) = Some e ->
  submitResp pdu d status body env w =
  let b := encoded (reply pdu SubmitSMResp status body) (D_EdgeCase d) in
  let w' := if defers b (D_LatencyMS d) then set_w_nextChan (w_nextChan w + 1) w else w in
  Ok (if defers b (D_LatencyMS d) then Some (w_nextChan w) else None,
      add_out (latency_metric w (D_LatencyMS d) e :: respond_out b (D_LatencyMS d) (w_nextChan w)) w').
Proof.
  intros He. unfold submitResp. erewrite M_bind_run.
  2: { unfold observeServed. do 2 (erewrite M_bind_run by reflexivity).
       erewrite M_bind_run by (unfold nonnil; by rewrite He). reflexivity. }
  erewrite M_bind_run by apply encode_run. rewrite respond_run. cbn zeta.
  unfold latency_metric, add_out, set_w_out. destruct (defers _ _); cbn -[encoded]; by rewrite <- app_assoc.
Qed.

(** The receipt scheduled for an accepted submit. *)
Definition dlr_payload (clock : Z) (id : string) (msg : Message) (plan : DLRPlan) (sent : option chan)
  : payload :=
  PayloadDLR {|
    d_messageID := id;
    d_outcome := DP_Outcome plan;
    d_originTick := clock;
    d_dueTick := clock +64 DP_DelayTicks plan;
    d_sourceAddr := SourceAddr msg;
    d_sourceAddrTON := SourceAddrTON msg;
    d_sourceAddrNPI := SourceAddrNPI msg;
    d_destAddr := DestAddr msg;
    d_destAddrTON := DestAddrTON msg;
    d_destAddrNPI := DestAddrNPI msg;
    d_text := string_of_bytes (ShortMessage msg);
    d_respSent := sent
  |}.

(** How the runner changes for the plan of a success. *)
Definition dlr_scheduled s (id : string) (msg : Message) (plan : option DLRPlan) (sent : option chan)
    (r : Runner payload) : Prop :=
  match plan with
  | Some plan =>
      if s_canReceive s then
        Schedule (s_perBindClock s +64 DP_DelayTicks plan) (dlr_payload (s_perBindClock s) id msg plan sent)
          (s_sched s) = Ok r
      else r = s_sched s
  | None => r = s_sched s
  end.

Lemma upd_sched_same w : upd (set_s_sched (s_sched (w_session w))) w = w.
Proof. by destruct w as [[]]. Qed.

Lemma scheduleDLR_run id msg plan sent env w :
  exists r, dlr_scheduled (w_session w) id msg plan sent r /\
    (match plan with Some plan => scheduleDLR id msg plan sent | None => mret () end) env w =
    Ok ((), upd (set_s_sched r) w).
Proof.
  unfold dlr_scheduled. destruct plan as [plan|].
  2: { eexists. split; [done|]. by rewrite upd_sched_same. }
  unfold scheduleDLR. erewrite M_bind_run by reflexivity.
  destruct (s_canReceive (w_session w)) eqn:Hc; simpl.
  - erewrite M_bind_run by reflexivity. apply schedule_run.
  - eexists. split; [done|]. by rewrite upd_sched_same.
Qed.

(** The drains: due events leave, then due disconnects are consumed. *)
Definition drained_world (env : Env) (due : list (Event payload)) (rest : Runner payload) w : world R :=
  let ds := due_disconnects (s_perBindClock (w_session w)) (w_session w) in
  cut_world (existsb (targeted w) ds)
    (consume (length ds)
       (add_out (concat (dispatch_out env (s_canReceive (w_session w)) <$> due))
          (upd (set_s_sched rest) w))).

Lemma drainSubmit_run env w :
  s_state (w_session w) <> stateClosed -> is_Some (s_scenarioState (w_session w)) ->
  exists due rest, DrainDue (s_perBindClock (w_session w)) (s_sched (w_session w)) = Ok (due, rest) /\
    drainSubmit env w = Ok ((), drained_world env due rest w).
Proof.
  intros Hs Hst. destruct (drainDue_run (s_perBindClock (w_session w)) env w Hs) as (due & rest & Hd & Hrun).
  eexists _, _. split; [exact Hd|]. unfold drainSubmit. erewrite M_bind_run by reflexivity.
  erewrite M_bind_run by exact Hrun. by rewrite applyDueDisconnects_run.
Qed.

(** What a committed submit sends back, and the channel a later receipt waits on. *)
Definition answer_pdu pdu d (id : string) : option PDU :=
  match D_Outcome d with
  | OutcomeSuccess => Some (reply pdu SubmitSMResp StatusROK (Some (BodySubmitResp (mkSubmitResp id))))
  | OutcomeError => Some (reply pdu SubmitSMResp (D_Status d) None)
  | OutcomeTimeout => None
  | OutcomeDisconnect =>
      if String.eqb (D_DisconnectWhen d) DisconnectAfterResponse
      then Some (reply pdu SubmitSMResp StatusROK (Some (BodySubmitResp (mkSubmitResp id)))) else None
  end.

(** A cut link answers strictly and at once; any other answer is held back for
    the latency and malformed by the plan. *)
Definition answer_out w pdu d (id : string) (e : Engine) : list effect :=
  match answer_pdu pdu d id with
  | None => []
  | Some p =>
      if bool_decide (D_Outcome d = OutcomeDisconnect)
      then send_out p kindResp ++ [latency_metric w (D_LatencyMS d) e]
      else latency_metric w (D_LatencyMS d) e ::
           respond_out (encoded p (D_EdgeCase d)) (D_LatencyMS d) (w_nextChan w)
  end.

Definition answer_defers pdu d (id : string) : bool :=
  match answer_pdu pdu d id with
  | Some p => negb (bool_decide (D_Outcome d = OutcomeDisconnect)) &&
              defers (encoded p (D_EdgeCase d)) (D_LatencyMS d)
  | None => false
  end.

Definition answered_world pdu d (id : string) (e : Engine) w : world R :=
  add_out (answer_out w pdu d id e)
    (if answer_defers pdu d id then set_w_nextChan (w_nextChan w + 1) w else w).

Definition success_plan d : option DLRPlan :=
  match D_Outcome d with OutcomeSuccess => D_DLR d | _ => None end.

Lemma answerSubmit_disconnect pdu d msg id e env w :
  s_currentEngine (w_session w) = Some e -> D_Outcome d = OutcomeDisconnect ->
  answerSubmit pdu d msg id env w =
  Ok ((), closed_world reasonFaultInjection None (answered_world pdu d id e w)).
Proof.
  intros He Hd. unfold answerSubmit, answered_world, answer_out, answer_defers, answer_pdu.
  rewrite Hd. unfold when. destruct (String.eqb (D_DisconnectWhen d) DisconnectAfterResponse).
  - erewrite M_bind_run.
    2: { erewrite M_bind_run by apply sendKind_run. unfold observeServed.
         do 2 (erewrite M_bind_run by reflexivity).
         erewrite M_bind_run by (unfold nonnil; simpl; by rewrite He). reflexivity. }
    rewrite closeWith_run. rewrite bool_decide_true by done. cbn -[encoded].
    unfold closed_world, upd, add_out, set_w_out, set_w_session. cbn -[encoded]. by rewrite <- app_assoc.
  - erewrite M_bind_run by reflexivity. by rewrite add_out_nil.
Qed.

Lemma answerSubmit_kept pdu d msg id e env w :
  s_currentEngine (w_session w) = Some e -> D_Outcome d <> OutcomeDisconnect ->
  s_state (w_session w) <> stateClosed -> is_Some (s_scenarioState (w_session w)) ->
  let sent := if answer_defers pdu d id then Some (w_nextChan w) else None in
  exists r due rest,
    dlr_scheduled (w_session w) id msg (success_plan d) sent r /\
    DrainDue (s_perBindClock (w_session w)) r = Ok (due, rest) /\
    answerSubmit pdu d msg id env w =
    Ok ((), drained_world env due rest (upd (set_s_sched r) (answered_world pdu d id e w))).
Proof.
  intros He Hd Hs Hst. unfold answerSubmit, answered_world, answer_out, answer_defers, answer_pdu, success_plan.
  destruct (D_Outcome d) eqn:Ho; [| | |done]; cbn zeta.
  - rewrite bool_decide_false by done. simpl andb. set (b := encoded _ _).
    set (w1 := add_out _ _).
    destruct (scheduleDLR_run id msg (D_DLR d)
      (if defers b (D_LatencyMS d) then Some (w_nextChan w) else None) env w1) as (r & Hr & Hrun).
    destruct (drainSubmit_run env (upd (set_s_sched r) w1)) as (due & rest & Hdr & Hdrain).
    { subst w1. simpl. by destruct (defers _ _). } { subst w1. simpl. by destruct (defers _ _). }
    exists r, due, rest. split; [subst w1; by destruct (defers b _)|].
    split; [subst w1; by destruct (defers b _)|].
    erewrite M_bind_run by (by apply submitResp_run). cbn zeta. fold b. fold w1.
    erewrite M_bind_run by exact Hrun. exact Hdrain.
  - rewrite bool_decide_false by done. simpl andb. set (b := encoded _ _).
    set (w1 := add_out _ _).
    destruct (drainSubmit_run env w1) as (due & rest & Hdr & Hdrain).
    { subst w1. simpl. by destruct (defers _ _). } { subst w1. simpl. by destruct (defers _ _). }
    exists (s_sched (w_session w)), due, rest. split; [done|].
    split; [subst w1; by destruct (defers b _)|].
    erewrite M_bind_run by (by apply submitResp_run). cbn zeta. fold b. fold w1.
    rewrite Hdrain, <- (upd_sched_same w1) at 1. by do 3 f_equal.
  - destruct (drainSubmit_run env w) as (due & rest & Hdr & Hdrain); [done..|].
    exists (s_sched (w_session w)), due, rest. split; [done|]. split; [done|].
    rewrite Hdrain. by rewrite add_out_nil, upd_sched_same.
Qed.

(** ** The invariant under which no handler panics *)

Record smsc_safe (v : virtualSMSC) : Prop := {
  vs_ring : ring_ok (v_recorder v);
  vs_scenario : engine_safe (v_scenario v);
  vs_engines : forall p e, v_engines v !! p = Some e -> engine_safe e
}.

Record session_safe s : Prop := {
  ss_bound : s_state s = stateBound ->
    is_Some (s_scenarioState s) /\ exists e, s_currentEngine s = Some e /\ engine_safe e;
  ss_cursor : (s_disconnectCursor s <= length (s_disconnects s))%nat;
  ss_open : s_state s = stateOpen -> s_disconnectCursor s = 0%nat;
  ss_closed : s_state s = stateClosed -> is_Some (s_closeReason s)
}.

Definition world_safe w : Prop := smsc_safe (w_smsc w) /\ session_safe (w_session w).

(** Transitions touch the current engine, the active profile and the cursor. *)
Record transitions_frame w w' : Prop := {
  tf_smsc : w_smsc w' = set_v_activeProfile (v_activeProfile (w_smsc w')) (w_smsc w);
  tf_session : w_session w' =
    set_s_transitionCursor (s_transitionCursor (w_session w'))
      (set_s_currentEngine (s_currentEngine (w_session w')) (w_session w));
  tf_chan : w_nextChan w' = w_nextChan w;
  tf_out : exists ps, w_out w' =
    w_out w ++ ((fun p => Metric (SetActiveScenario (VS_Name (v_cfg (w_smsc w))) p)) <$> ps);
  tf_engine : s_currentEngine (w_session w') = s_currentEngine (w_session w) \/
    exists p e, v_engines (w_smsc w) !! p = Some e /\ s_currentEngine (w_session w') = Some e
}.

Lemma transitions_frame_refl w : transitions_frame w w.
Proof.
  destruct w as [[] [] out c]. split; simpl; try done; [|by left]. exists []. by rewrite app_nil_r.
Qed.

Lemma transitions_frame_step w w' t :
  transitions_frame w w' -> transitions_frame w (transition_step w' t).
Proof.
  intros [Hv Hs Hc [ps Ho] He]. unfold transition_step, transition_world.
  destruct (v_engines (w_smsc w') !! ST_ToProfile t) as [e|] eqn:Ht.
  - split; simpl; try done.
    + by rewrite Hv.
    + by rewrite Hs.
    + exists (ps ++ [ST_ToProfile t]). rewrite Ho, fmap_app, app_assoc, Hv. done.
    + right. exists (ST_ToProfile t), e. split; [|done]. by rewrite Hv in Ht.
  - split; simpl; try done; [by rewrite Hs | by exists ps].
Qed.

Lemma transitions_frame_all ts w : transitions_frame w (foldl transition_step w ts).
Proof.
  induction ts as [|t ts IH] using rev_ind; [apply transitions_frame_refl|].
  rewrite foldl_app. by apply transitions_frame_step.
Qed.

(** The shutdown came while the latency of a cut was being served. *)
Definition abandoned (env : Env) d : bool :=
  bool_decide (D_Outcome d = OutcomeDisconnect) && negb (D_LatencyMS d =? 0) && env_quit env.

Lemma served_run env d w :
  (if bool_decide (D_Outcome d = OutcomeDisconnect) then serveLatency (D_LatencyMS d) else mret true) env w =
  Ok (negb (abandoned env d), w).
Proof.
  unfold abandoned, serveLatency. case_bool_decide; [|done]. by destruct (D_LatencyMS d =? 0).
Qed.

Lemma evaluateSubmit_run tick env w e st :
  s_currentEngine (w_session w) = Some e -> engine_safe e -> s_scenarioState (w_session w) = Some st ->
  exists d st', Evaluate e (env_gateNow env) st tick = Ok (d, st') /\
    evaluateSubmit tick env w = Ok (d, upd (set_s_scenarioState (Some st')) w).
Proof.
  intros He Hs Hst. destruct (Evaluate_safe e (env_gateNow env) st tick Hs) as (d & st' & Hev).
  exists d, st'. split; [done|]. unfold evaluateSubmit, mbind, M_bind, gets, nonnil, ask, lift, modify.
  rewrite He, Hst, Hev. done.
Qed.

Lemma handleSubmit_run pdu msg env w :
  world_safe w -> s_state (w_session w) = stateBound -> s_canSubmit (w_session w) = true ->
  PDU_Body pdu = Some (BodyMessage msg) ->
  let tick := s_perBindClock (w_session w) +64 1 in
  let id := Dlr.messageID (s_id (w_session w)) tick in
  let w1 := foldl transition_step w (due_transitions tick (w_session w)) in
  exists e st d st',
    s_currentEngine (w_session w1) = Some e /\ engine_safe e /\ s_scenarioState (w_session w) = Some st /\
    Evaluate e (env_gateNow env) st tick = Ok (d, st') /\
    let w2 := upd (set_s_scenarioState (Some st')) w1 in
    if abandoned env d then handleSubmit pdu env w = Ok ((), closed_world reasonShutdown None w2)
    else exists r, Append (record_of tick id msg) (v_recorder (w_smsc w)) = Ok r /\
      let w3 := commit_world env tick d r w2 in
      handleSubmit pdu env w =
      if existsb (fires_before w3) (due_disconnects tick (w_session w3))
      then Ok ((), closed_world reasonScheduledDisconnect None w3)
      else answerSubmit pdu d msg id env w3.
Proof.
  intros [[Hring Hsc Hen] [Hb Hcur _ _]] Hstate Hcan Hbody tick id w1.
  destruct (Hb Hstate) as [[st Hst] (e0 & He0 & Hs0)].
  pose proof (transitions_frame_all (due_transitions tick (w_session w)) w) as [Hv Hs Hch _ Heng].
  fold w1 in Hv, Hs, Hch, Heng.
  assert (exists e, s_currentEngine (w_session w1) = Some e /\ engine_safe e) as (e & He & Hes).
  { destruct Heng as [->|(p & e & Hp & ->)]; [by exists e0 | exists e; split; [done | by eapply Hen]]. }
  assert (s_scenarioState (w_session w1) = Some st) as Hst1 by (by rewrite Hs).
  destruct (evaluateSubmit_run tick env w1 e st He Hes Hst1) as (d & st' & Hev & Hrun).
  exists e, st, d, st'. repeat (split; [done|]). intros w2.
  assert (handleSubmit pdu env w =
    (if negb (negb (abandoned env d)) then closeWith reasonShutdown None
     else id ← commitSubmit tick d msg; cut ← dueDisconnectBeforeResponse;
       if cut : bool then closeWith reasonScheduledDisconnect None else answerSubmit pdu d msg id) env w2) as ->.
  { unfold handleSubmit. do 2 (erewrite M_bind_run by reflexivity).
    rewrite Hstate, Hcan, Hbody. cbn [bool_decide negb orb].
    rewrite bool_decide_true by done. cbn [negb orb].
    erewrite M_bind_run by reflexivity. fold tick.
    erewrite M_bind_run by apply applyDueTransitions_run. fold w1.
    erewrite M_bind_run by exact Hrun. fold w2.
    by erewrite M_bind_run by apply served_run. }
  rewrite negb_involutive. destruct (abandoned env d); [apply closeWith_run|].
  assert (v_recorder (w_smsc w2) = v_recorder (w_smsc w)) as Hrec
    by (change (w_smsc w2) with (w_smsc w1); by rewrite Hv).
  destruct (commitSubmit_run tick d msg env w2) as (r & Ha & Hc); [by rewrite Hrec|].
  change (s_id (w_session w2)) with (s_id (w_session w1)) in Ha, Hc.
  assert (s_id (w_session w1) = s_id (w_session w)) as Hid by (by rewrite Hs). rewrite Hid in Ha, Hc.
  exists r. split; [by rewrite <- Hrec|]. intros w3.
  erewrite M_bind_run by exact Hc. fold w3.
  assert ((s_disconnectCursor (w_session w1) <= length (s_disconnects (w_session w1)))%nat) as Hcur1
    by (by rewrite Hs).
  erewrite M_bind_run by (apply dueDisconnectBeforeResponse_run; [by eexists | exact Hcur1]).
  change (s_perBindClock (w_session w3)) with tick.
  destruct (existsb (fires_before w3) (due_disconnects tick (w_session w3)));
    [apply closeWith_run | reflexivity].
Qed.

End SubmitRuns.
