(* ===== verification/SessionBind.v ===== *)
(** * Binding a session

    [handleBind] computed on every path: who gets a bind, what is answered, and
    what the SMSC and the session look like afterwards. *)

From S2P Require Import Prelude.
From S2P Require Import SmppPdu.
From S2P Require Import SmppCodec.
From S2P Require Import SmppCodecThms.
From S2P Require Import SmppEdge.
From S2P Require Import SmppReceipt.
From S2P Require Import Rng.
From S2P Require Import Schedule.
From S2P Require Import Recorder.
From S2P Require Import Config.
From S2P Require Import Fault.
From S2P Require Import Scenario.
From S2P Require Import Dlr.
From S2P Require Import Close.
From S2P Require Import Binds.
From S2P Require Import VirtualSMSC.
From S2P Require Import EngineSafety.
From S2P Require Import SessionState.
From S2P Require Import Session.
From S2P Require Import SessionRuns.

(** ** Constant-time comparison *)

Lemma lor_fold_zero l v :
  0 <= v ->
  foldl (fun v (p : byte * byte) => Z.lor v (Z.lxor (byte_to_Z p.1) (byte_to_Z p.2))) v l = 0 <->
  v = 0 /\ Forall (fun p => p.1 = p.2) l.
Proof.
  revert v. induction l as [|[a b] l IH]; intros v Hv; simpl; [split; [auto | by intros []]|].
  pose proof (byte_to_Z_range a) as Ha. pose proof (byte_to_Z_range b) as Hb.
  assert (0 <= Z.lxor (byte_to_Z a) (byte_to_Z b)) as Hx by (apply Z.lxor_nonneg; unfold is_u8 in *; lia).
  rewrite IH by (apply Z.lor_nonneg; lia). rewrite Z.lor_eq_0_iff, Z.lxor_eq_0_iff, Forall_cons. simpl.
  split.
  - by intros [[-> ->%(inj byte_to_Z)] ?].
  - by intros [-> [-> ?]].
Qed.

Lemma zip_Forall_eq {A} (x y : list A) :
  length x = length y -> Forall (fun p => p.1 = p.2) (zip x y) -> x = y.
Proof.
  revert y. induction x as [|a x IH]; intros [|b y] Hl; try done. simpl in *.
  intros [Hab Hz]%Forall_cons. simpl in Hab. f_equal; [done|]. apply IH; [lia|done].
Qed.

(** The comparison is equality. *)
Lemma ConstantTimeCompare_eq x y : ConstantTimeCompare x y = if decide (x = y) then 1 else 0.
Proof.
  unfold ConstantTimeCompare. destruct (Z.eqb_spec (len x) (len y)) as [Hl|Hl]; simpl.
  2: { rewrite decide_False; [done|]. intros ->. lia. }
  destruct (Z.eqb_spec (foldl (fun v p => Z.lor v (Z.lxor (byte_to_Z p.1) (byte_to_Z p.2))) 0 (zip x y)) 0)
    as [H0|H0].
  - apply lor_fold_zero in H0 as [_ Hz]; [|lia]. rewrite decide_True; [done|].
    apply zip_Forall_eq; [lia|done].
  - rewrite decide_False; [done|]. intros ->. apply H0, lor_fold_zero; [lia|]. split; [done|].
    clear. induction y; constructor; done.
Qed.

Lemma credential_check a b :
  (ConstantTimeCompare (bytes_of_string a) (bytes_of_string b) =? 1) = bool_decide (a = b).
Proof.
  rewrite ConstantTimeCompare_eq. destruct (decide _) as [He|He].
  - apply (inj bytes_of_string) in He as ->. by rewrite bool_decide_true.
  - rewrite bool_decide_false by congruence. done.
Qed.

(** ** The configured schedule *)

Definition mo_payload (ev : MOEvent) : payload :=
  PayloadMO (mkMoEvent (MO_SourceAddr ev) (MO_DestAddr ev) (MO_Content ev)).

Definition configured_mo (cfg : VirtualSMSCConfig) : list MOEvent :=
  match VS_MOInjection cfg with
  | Some mo => if String.eqb (MI_Mode mo) MOModeScheduled then MI_Events mo else []
  | None => []
  end.

Fixpoint schedule_all {P} (evs : list (Z * P)) (r : Runner P) : may_panic (Runner P) :=
  match evs with
  | [] => Ok r
  | (t, p) :: evs => let* r := Schedule t p r in schedule_all evs r
  end.

Definition mo_schedule (cfg : VirtualSMSCConfig) : list (Z * payload) :=
  (fun ev => (MO_AtTick ev, mo_payload ev)) <$> configured_mo cfg.

Lemma schedule_all_total {P} (evs : list (Z * P)) r : exists r', schedule_all evs r = Ok r'.
Proof.
  revert r. induction evs as [|[t p] evs IH]; intros r; simpl; [eauto|].
  destruct (Schedule_total t p r) as [r' ->]. apply IH.
Qed.

Section BindRuns.
Context {R : Type} `{RandSource R}.
Implicit Types (w : world R) (s : session R) (pdu : PDU).

Lemma for_each_schedule evs env w :
  exists r, schedule_all ((fun ev => (MO_AtTick ev, mo_payload ev)) <$> evs) (s_sched (w_session w)) = Ok r /\
  for_each evs (fun ev => schedule (MO_AtTick ev)
    (PayloadMO (mkMoEvent (MO_SourceAddr ev) (MO_DestAddr ev) (MO_Content ev)))) env w =
  Ok ((), upd (set_s_sched r) w).
Proof.
  revert w. induction evs as [|ev evs IH]; intros w; csimpl.
  { eexists. split; [done|]. by rewrite upd_sched_same. }
  destruct (schedule_run (MO_AtTick ev) (mo_payload ev) env w) as (r & Hr & Hrun). rewrite Hr.
  destruct (IH (upd (set_s_sched r) w)) as (r' & Hr' & Hrun').
  exists r'. split; [exact Hr'|]. erewrite M_bind_run by exact Hrun. exact Hrun'.
Qed.

(** The transitions and disconnects in tick order. *)
Definition scheduled_world (r : Runner payload) w : world R :=
  let cfg := v_cfg (w_smsc w) in
  upd (fun s => set_s_disconnects (sortedByTick (VS_ScheduledDisconnects cfg) SD_AtTick)
         (set_s_transitions (sortedByTick (VS_ScheduledTransitions cfg) ST_AtTick) (set_s_sched r s))) w.

Lemma scheduleConfiguredEvents_run env w :
  exists r, schedule_all (mo_schedule (v_cfg (w_smsc w))) (s_sched (w_session w)) = Ok r /\
    scheduleConfiguredEvents env w = Ok ((), scheduled_world r w).
Proof.
  unfold scheduleConfiguredEvents, mo_schedule, configured_mo.
  destruct (VS_MOInjection (v_cfg (w_smsc w))) as [mo|] eqn:Hmo.
  - destruct (String.eqb (MI_Mode mo) MOModeScheduled) eqn:Hm.
    + destruct (for_each_schedule (MI_Events mo) env w) as (r & Hr & Hrun).
      exists r. split; [done|]. erewrite M_bind_run by reflexivity. rewrite Hmo, Hm.
      cbn [when]. erewrite M_bind_run by exact Hrun. reflexivity.
    + eexists. split; [done|]. erewrite M_bind_run by reflexivity. rewrite Hmo, Hm.
      cbn [when]. erewrite M_bind_run by reflexivity.
      rewrite <- (upd_sched_same w) at 1. reflexivity.
  - eexists. split; [done|]. erewrite M_bind_run by reflexivity. rewrite Hmo.
    erewrite M_bind_run by reflexivity. rewrite <- (upd_sched_same w) at 1. reflexivity.
Qed.

(** ** The paths of [handleBind] *)

(** What the handler decides. *)
Inductive verdict_of_bind :=
| BindNotOpen | BindNoBody | BindRefused | BindBadCredentials (b : Bind) | BindAccepted (b : Bind).

Definition judge_bind w pdu : verdict_of_bind :=
  if negb (bool_decide (s_state (w_session w) = stateOpen)) then BindNotOpen
  else match PDU_Body pdu with
       | Some (BodyBind b) =>
           if RejectBind (v_scenario (w_smsc w)) then BindRefused
           else if bool_decide (Bind_SystemID b = BC_SystemID (VS_BindCredentials (v_cfg (w_smsc w))) /\
                                Bind_Password b = BC_Password (VS_BindCredentials (v_cfg (w_smsc w))))
           then BindAccepted b else BindBadCredentials b
       | _ => BindNoBody
       end.

Definition bind_reply pdu (status : CommandStatus) (body : option Body) : list effect :=
  send_out (reply pdu (bindKind (PDU_CommandID pdu)).2 status body) kindResp.

(** The session of an accepted bind, before its schedule is loaded. *)
Definition bound_session (env : Env) w pdu (b : Bind) (id : Z) : session R :=
  let v := w_smsc w in
  let s := w_session w in
  set_s_lastSubmit (env_now env)
   (set_s_bound true
    (set_s_currentEngine (Some (v_scenario v))
     (set_s_scenarioState (Some (NewBindState (v_scenario v) (VS_Seed (v_cfg v)) (VS_Name (v_cfg v)) id
                                   (env_entropy env) (env_chaosBase env)))
      (set_s_canReceive (negb (PDU_CommandID pdu =? BindTransmitter))
       (set_s_canSubmit (negb (PDU_CommandID pdu =? BindReceiver))
        (set_s_bindType (bindKind (PDU_CommandID pdu)).1
         (set_s_systemID (Bind_SystemID b)
          (set_s_state stateBound (set_s_id id s))))))))).

Definition registered (env : Env) w pdu (b : Bind) (id : Z) : virtualSMSC :=
  let v := set_v_bindSeq id (w_smsc w) in
  set_v_binds (add (mkBindInfo id (Bind_SystemID b) (bindKind (PDU_CommandID pdu)).1 (env_now env))
                 (v_binds v)) v.

Definition accepted_world (env : Env) pdu (b : Bind) (r : Runner payload) w : world R :=
  let id := v_bindSeq (w_smsc w) +64 1 in
  let name := VS_Name (v_cfg (w_smsc w)) in
  add_out (bind_reply pdu StatusROK (Some (BodyBindResp (mkBindResp name []))))
    (scheduled_world r
       (add_out [Metric (IncBind name (bindKind (PDU_CommandID pdu)).1)]
          (set_w_session (bound_session env w pdu b id) (set_w_smsc (registered env w pdu b id) w)))).

Lemma handleBind_run pdu env w :
  match judge_bind w pdu with
  | BindNotOpen => handleBind pdu env w = Ok ((), add_out (bind_reply pdu StatusInvBndSts None) w)
  | BindNoBody => handleBind pdu env w = Ok ((), add_out (bind_reply pdu StatusSysErr None) w)
  | BindRefused =>
      handleBind pdu env w =
      Ok ((), closed_world reasonBindRejected None
                (add_out (bind_reply pdu StatusBindFail None)
                   (upd (set_s_bindType (bindKind (PDU_CommandID pdu)).1) w)))
  | BindBadCredentials b =>
      handleBind pdu env w =
      Ok ((), closed_world reasonAuthFailed None
                (add_out (bind_reply pdu StatusBindFail None)
                   (upd (fun s => set_s_systemID (Bind_SystemID b)
                                    (set_s_bindType (bindKind (PDU_CommandID pdu)).1 s)) w)))
  | BindAccepted b =>
      exists r, schedule_all (mo_schedule (v_cfg (w_smsc w))) (s_sched (w_session w)) = Ok r /\
        handleBind pdu env w = Ok ((), accepted_world env pdu b r w)
  end.
Proof.
  unfold judge_bind, handleBind, bind_reply.
  rewrite (surjective_pairing (bindKind (PDU_CommandID pdu))). cbn [fst snd].
  destruct (bool_decide (s_state (w_session w) = stateOpen)) eqn:Ho; cbn [negb].
  2: { erewrite M_bind_run by reflexivity. rewrite Ho. cbn [negb]. apply sendKind_run. }
  destruct (PDU_Body pdu) as [[b| | |]|] eqn:Hb.
  2-5: erewrite M_bind_run by reflexivity; rewrite Ho; cbn [negb]; apply sendKind_run.
  destruct (RejectBind (v_scenario (w_smsc w))) eqn:Hrej.
  { do 2 (erewrite M_bind_run by reflexivity; rewrite ?Ho; cbn [negb]). rewrite Hrej.
    erewrite M_bind_run by reflexivity. by erewrite M_bind_run by apply sendKind_run. }
  destruct (bool_decide (_ /\ _)) eqn:Hcred.
  2: { do 3 (erewrite M_bind_run by reflexivity; rewrite ?Ho, ?Hrej; cbn [negb]).
       rewrite !credential_check, <- negb_andb, <- bool_decide_and, Hcred. cbn [negb].
       do 2 (erewrite M_bind_run by reflexivity). by erewrite M_bind_run by apply sendKind_run. }
  set (w1 := add_out [Metric (IncBind (VS_Name (v_cfg (w_smsc w))) (bindKind (PDU_CommandID pdu)).1)]
    (set_w_session (bound_session env w pdu b (v_bindSeq (w_smsc w) +64 1))
       (set_w_smsc (registered env w pdu b (v_bindSeq (w_smsc w) +64 1)) w))).
  destruct (scheduleConfiguredEvents_run env w1) as (r & Hr & Hrun).
  exists r. split; [exact Hr|].
  do 3 (erewrite M_bind_run by reflexivity; rewrite ?Ho, ?Hrej; cbn [negb]).
  rewrite !credential_check, <- negb_andb, <- bool_decide_and, Hcred. cbn [negb].
  repeat rewrite ?modify_run, ?modify_v_run, ?gets_v_run, ?ask_run, ?emit_run.
  match goal with |- (_ ≫= _) env ?w' = _ => replace w' with w1 end.
  2: { subst w1. unfold bound_session, registered. destruct w as [[] [] out c]. world_eq. }
  erewrite M_bind_run by exact Hrun. unfold send. rewrite sendKind_run.
  unfold accepted_world, bind_reply. subst w1. reflexivity.
Qed.

End BindRuns.

(** ** The contract of a bind *)

Lemma send_out_header pdu id status :
  exists b, Encode (reply pdu id status None) = Ok b /\
    send_out (reply pdu id status None) kindResp = [SendBytes b kindResp].
Proof. by eexists. Qed.

Definition bind_admitted {R} (w : world R) (pdu : PDU) (b : Bind) : Prop :=
  s_state (w_session w) = stateOpen /\ PDU_Body pdu = Some (BodyBind b) /\
  RejectBind (v_scenario (w_smsc w)) = false /\
  Bind_SystemID b = BC_SystemID (VS_BindCredentials (v_cfg (w_smsc w))) /\
  Bind_Password b = BC_Password (VS_BindCredentials (v_cfg (w_smsc w))).

Lemma judge_bind_admitted {R} (w : world R) pdu b :
  judge_bind w pdu = BindAccepted b <-> bind_admitted w pdu b.
Proof.
  unfold judge_bind, bind_admitted. split.
  - intros Hj. repeat case_match; simplify_eq. case_bool_decide; [|done].
    case_bool_decide; naive_solver.
  - intros (-> & -> & -> & -> & ->). by rewrite !bool_decide_true.
Qed.

Lemma judge_bind_open {R} (w : world R) pdu :
  judge_bind w pdu <> BindNotOpen -> s_state (w_session w) = stateOpen.
Proof. unfold judge_bind. by case_bool_decide. Qed.

(** C28: a bind is admitted on exact credentials only.  [handleBind] never panics.
    It admits a bind exactly when the session is still open, the body is a bind,
    the profile does not turn everyone away, and the system id and password are
    the configured ones, octet for octet; then the bind takes the next ordinal,
    is registered under it with its type, may submit unless it is a receiver and
    receive unless it is a transmitter, and is answered ESME_ROK.  Any other
    bind PDU gets exactly one error reply, leaves the SMSC (and in particular
    the bind ordinals) untouched, and ends the session if it was a refused bind. *)
Theorem handleBind_admits {R} `{RandSource R} pdu env (w : world R) :
  exists w', handleBind pdu env w = Ok ((), w') /\
  (forall b, bind_admitted w pdu b ->
     let id := v_bindSeq (w_smsc w) +64 1 in
     let '(bindType, respID) := bindKind (PDU_CommandID pdu) in
     s_state (w_session w') = stateBound /\ s_bound (w_session w') = true /\
     s_id (w_session w') = id /\ v_bindSeq (w_smsc w') = id /\
     binds (v_binds (w_smsc w')) =
       <[id := mkBindInfo id (Bind_SystemID b) bindType (env_now env)]> (binds (v_binds (w_smsc w))) /\
     s_canSubmit (w_session w') = negb (PDU_CommandID pdu =? BindReceiver) /\
     s_canReceive (w_session w') = negb (PDU_CommandID pdu =? BindTransmitter) /\
     w_out w' = w_out w ++ Metric (IncBind (VS_Name (v_cfg (w_smsc w))) bindType) ::
       send_out (reply pdu respID StatusROK
         (Some (BodyBindResp (mkBindResp (VS_Name (v_cfg (w_smsc w))) [])))) kindResp) /\
  ((forall b, ~ bind_admitted w pdu b) ->
     exists status frame,
       status <> StatusROK /\
       Encode (reply pdu (bindKind (PDU_CommandID pdu)).2 status None) = Ok frame /\
       w_out w' = w_out w ++ [SendBytes frame kindResp] /\ w_smsc w' = w_smsc w /\
       s_id (w_session w') = s_id (w_session w) /\ s_bound (w_session w') = s_bound (w_session w) /\
       (s_state (w_session w') = s_state (w_session w) \/
        (s_state (w_session w) = stateOpen /\ s_state (w_session w') = stateClosed))).
Proof.
  pose proof (handleBind_run pdu env w) as Hrun.
  assert (forall status, exists frame,
    Encode (reply pdu (bindKind (PDU_CommandID pdu)).2 status None) = Ok frame /\
    bind_reply pdu status None = [SendBytes frame kindResp]) as Hreply.
  { intros status. apply send_out_header. }
  destruct (judge_bind w pdu) as [| | |b|b] eqn:Hj.
  1-4: eexists; split; [exact Hrun|]; split; [intros b' Hb'%judge_bind_admitted; congruence|]; intros _.
  - destruct (Hreply StatusInvBndSts) as (f & Hf & Ho). exists StatusInvBndSts, f. rewrite Ho. auto 10.
  - destruct (Hreply StatusSysErr) as (f & Hf & Ho). exists StatusSysErr, f. rewrite Ho. auto 10.
  - destruct (Hreply StatusBindFail) as (f & Hf & Ho). exists StatusBindFail, f. rewrite Ho.
    repeat (split; [done|]). right. split; [|done]. apply (judge_bind_open w pdu). by rewrite Hj.
  - destruct (Hreply StatusBindFail) as (f & Hf & Ho). exists StatusBindFail, f. rewrite Ho.
    repeat (split; [done|]). right. split; [|done]. apply (judge_bind_open w pdu). by rewrite Hj.
  - destruct Hrun as (r & _ & Hrun). eexists. split; [exact Hrun|]. split.
    + intros b' Hb'%judge_bind_admitted. assert (b' = b) as -> by congruence. cbn zeta.
      unfold accepted_world, bind_reply. destruct (bindKind (PDU_CommandID pdu)) as [bindType respID] eqn:Hk.
      cbn [fst snd]. unfold bound_session, registered. rewrite Hk. cbn [fst snd].
      repeat (split; [done|]).
      transitivity ((w_out w ++ [Metric (IncBind (VS_Name (v_cfg (w_smsc w))) bindType)]) ++
        send_out (reply pdu respID StatusROK
          (Some (BodyBindResp (mkBindResp (VS_Name (v_cfg (w_smsc w))) [])))) kindResp);
        [reflexivity | by rewrite <- app_assoc].
    + intros Hno. exfalso. by apply (Hno b), judge_bind_admitted.
Qed.

(** ** A concrete virtual SMSC *)

(** A healthy carrier serving 20 ms and receipts two ticks later. *)
Definition receipts_scenario : ScenarioConfig :=
  mkScenarioConfig ProfileHealthy zero_params
    (mkLatencyConfig LatencyFixed (mkLatencyParams (Some 20) None None None None None None None))
    (Some (mkDLRConfig (mkDLRDelay LatencyFixed (Some 2) None None) (mkDLROutcomeWeights 1 0 0) ClockLogical))
    false None.

Definition sample_vs : VirtualSMSCConfig :=
  mkVirtualSMSCConfig "carrier-a" 2775 (mkBindCredentials "esme" "secret") 0 0 ""
    (mkTLSConfig false "" "") (Some 42) 10 None None receipts_scenario None
    [mkScheduledDisconnect 3 DisconnectScopeAll DisconnectAfterResponse] [].

Definition sample_world : world PCG :=
  mkWorld (newSession (newVirtualSMSC sample_vs).1 0) (newVirtualSMSC sample_vs).1 [] 0.

Definition sample_env : Env := mkEnv 0 0 false (fun _ => false) (0, 0) 0.

Definition sample_bind_pdu : PDU :=
  mkPDU BindTransceiver 0 1 (Some (BodyBind (SmppPdu.mkBind "esme" "secret" "" Byte.x34 NUL NUL ""))).

Lemma handleBind_admits_witness :
  exists w', handleBind sample_bind_pdu sample_env sample_world = Ok ((), w') /\
    s_id (w_session w') = 1 /\ s_state (w_session w') = stateBound.
Proof.
  destruct (handleBind_admits sample_bind_pdu sample_env sample_world) as (w' & Hrun & Hyes & _).
  exists w'. split; [exact Hrun|].
  destruct (Hyes (SmppPdu.mkBind "esme" "secret" "" Byte.x34 NUL NUL "")) as (H1 & _ & H2 & _).
  { by_decide || (split; [reflexivity|]; repeat (split; [reflexivity|]); reflexivity). }
  split; [rewrite H2; reflexivity | exact H1].
Defined.
