(* ===== verification/SessionThms.v ===== *)
(** * What a submit does

    The contract of [handleSubmit] for a bound session: the clocks and the
    journal, the answer, the receipt and the scheduled events, and the end of the
    session. *)

From S2P Require Import Prelude.
From S2P Require Import SmppPdu.
From S2P Require Import SmppCodec.
From S2P Require Import SmppCodecThms.
From S2P Require Import SmppEdge.
From S2P Require Import SmppReceipt.
From S2P Require Import Rng.
From S2P Require Import Schedule.
From S2P Require Import Recorder.
From S2P Require Import Config.
From S2P Require Import Fault.
From S2P Require Import Validate.
From S2P Require Import ValidateThms.
From S2P Require Import Scenario.
From S2P Require Import Dlr.
From S2P Require Import Close.
From S2P Require Import Binds.
From S2P Require Import VirtualSMSC.
From S2P Require Import EngineSafety.
From S2P Require Import SessionState.
From S2P Require Import Session.
From S2P Require Import SessionRuns.
From S2P Require Import SessionBind.

(** ** Outbound PDUs among the effects *)

Definition outbound (es : list effect) : list (bytes * Kind) :=
  es ≫= fun e =>
    match e with
    | SendBytes b kind | SendWhen _ b kind _ => [(b, kind)]
    | Metric _ => []
    end.

Definition responses (es : list effect) : list bytes :=
  (base.filter (fun p => p.2 = kindResp) (outbound es)).*1.

(** Deliveries: receipts and mobile-originated messages. *)
Definition deliveries (es : list effect) : list (bytes * Kind) :=
  base.filter (fun p => p.2 <> kindResp) (outbound es).

Definition metrics_of (es : list effect) : list metric :=
  es ≫= fun e => match e with Metric m => [m] | _ => [] end.

Lemma outbound_app es1 es2 : outbound (es1 ++ es2) = outbound es1 ++ outbound es2.
Proof. apply bind_app. Qed.

Lemma responses_app es1 es2 : responses (es1 ++ es2) = responses es1 ++ responses es2.
Proof. unfold responses. by rewrite outbound_app, filter_app, fmap_app. Qed.

Lemma deliveries_app es1 es2 : deliveries (es1 ++ es2) = deliveries es1 ++ deliveries es2.
Proof. unfold deliveries. by rewrite outbound_app, filter_app. Qed.

Lemma metrics_of_app es1 es2 : metrics_of (es1 ++ es2) = metrics_of es1 ++ metrics_of es2.
Proof. apply bind_app. Qed.

#[export] Hint Rewrite outbound_app responses_app deliveries_app metrics_of_app : go_rw.

Lemma responses_Metrics {A} (f : A -> metric) ps : responses ((fun p => Metric (f p)) <$> ps) = [].
Proof. unfold responses. by induction ps. Qed.

Lemma deliveries_Metrics {A} (f : A -> metric) ps : deliveries ((fun p => Metric (f p)) <$> ps) = [].
Proof. unfold deliveries. by induction ps. Qed.

Lemma metrics_of_Metrics {A} (f : A -> metric) ps : metrics_of ((fun p => Metric (f p)) <$> ps) = f <$> ps.
Proof. induction ps as [|p ps IH]; [done|]. csimpl. by f_equal. Qed.

(** The PDU of an event, encoded; it only waits, or not, depending on the channels. *)
Definition event_frame (canReceive : bool) (ev : Event payload) : list (bytes * Kind) :=
  match Payload ev with
  | PayloadDLR d => (fun b => (b, kindDLR)) <$> option_list (encoded (receipt_pdu d) None)
  | PayloadMO m =>
      if canReceive then
        (fun b => (b, kindMO)) <$>
          option_list (encoded (NewMobileOriginated (m_sourceAddr m) (m_destAddr m) (m_content m)) None)
      else []
  | PayloadOther => []
  end.

Lemma dispatch_out_outbound env canReceive ev :
  outbound (dispatch_out env canReceive ev) = event_frame canReceive ev.
Proof.
  unfold dispatch_out, event_frame, dlr_out, mo_out, send_out. destruct (Payload ev) as [d|m|]; [| |done].
  - destruct (d_respSent d) as [c|]; [destruct (env_closed env c)|]; by destruct (encoded _ None).
  - destruct canReceive; [|done]. by destruct (encoded _ None).
Qed.

Lemma event_frame_kind canReceive ev : Forall (fun p => p.2 <> kindResp) (event_frame canReceive ev).
Proof.
  unfold event_frame. destruct (Payload ev) as [d|m|]; [|destruct canReceive|]; try constructor;
    destruct (encoded _ None); repeat constructor; done.
Qed.

Lemma dispatches_outbound env canReceive evs :
  outbound (concat (dispatch_out env canReceive <$> evs)) = evs ≫= event_frame canReceive.
Proof.
  induction evs as [|ev evs IH]; [done|]. csimpl. rewrite outbound_app, IH.
  by rewrite dispatch_out_outbound.
Qed.

Lemma dispatches_metrics env canReceive evs :
  metrics_of (concat (dispatch_out env canReceive <$> evs)) = [].
Proof.
  induction evs as [|ev evs IH]; [done|]. csimpl. rewrite metrics_of_app, IH, app_nil_r.
  unfold dispatch_out, dlr_out, mo_out, send_out. destruct (Payload ev) as [d|m|]; [| |done].
  - destruct (d_respSent d) as [c|]; [destruct (env_closed env c)|]; by destruct (encoded _ None).
  - destruct canReceive; [|done]. by destruct (encoded _ None).
Qed.

Lemma event_frames_kind canReceive evs : Forall (fun p => p.2 <> kindResp) (evs ≫= event_frame canReceive).
Proof.
  induction evs as [|ev evs IH]; [constructor|]. csimpl. apply Forall_app. split; [|done].
  apply event_frame_kind.
Qed.

Lemma dispatches_responses env canReceive evs :
  responses (concat (dispatch_out env canReceive <$> evs)) = [].
Proof.
  unfold responses. rewrite dispatches_outbound, filter_none; [done|].
  eapply Forall_impl; [apply event_frames_kind|]. simpl. auto.
Qed.

Lemma dispatches_deliveries env canReceive evs :
  deliveries (concat (dispatch_out env canReceive <$> evs)) = evs ≫= event_frame canReceive.
Proof. unfold deliveries. rewrite dispatches_outbound, filter_all; [done|]. apply event_frames_kind. Qed.

#[export] Hint Rewrite @responses_Metrics @deliveries_Metrics @metrics_of_Metrics dispatches_responses
  dispatches_metrics dispatches_deliveries : go_rw.

(** ** The answer *)

Definition answer_edge (d : Decision) : option EdgeCasePlan :=
  if bool_decide (D_Outcome d = OutcomeDisconnect) then None else D_EdgeCase d.

(** The frame that answers a committed submit, if any. *)
Definition answer_frame (pdu : PDU) (d : Decision) (id : string) : option bytes :=
  p ← answer_pdu pdu d id; encoded p (answer_edge d).

Section Submit.
Context {R : Type} `{RandSource R}.
Implicit Types (w : world R) (pdu : PDU) (d : Decision).

Lemma answer_out_responses w pdu d id e :
  responses (answer_out w pdu d id e) = option_list (answer_frame pdu d id).
Proof.
  unfold answer_out, answer_frame, answer_edge. destruct (answer_pdu pdu d id) as [p|]; [|done].
  case_bool_decide; simpl.
  - rewrite responses_app. unfold send_out. by destruct (encoded p None).
  - unfold respond_out. destruct (encoded p (D_EdgeCase d)); [|done]. by destruct (_ =? 0).
Qed.

Lemma answer_out_deliveries w pdu d id e : deliveries (answer_out w pdu d id e) = [].
Proof.
  unfold answer_out. destruct (answer_pdu pdu d id) as [p|]; [|done].
  case_bool_decide; simpl.
  - rewrite deliveries_app. unfold send_out. by destruct (encoded p None).
  - unfold respond_out. destruct (encoded p (D_EdgeCase d)); [|done]. by destruct (_ =? 0).
Qed.

Lemma answer_out_metrics w pdu d id e :
  metrics_of (answer_out w pdu d id e) =
  match answer_pdu pdu d id with
  | Some _ => [ObserveServedLatency (VS_Name (v_cfg (w_smsc w))) (e_profile e) (seconds_of_ms (D_LatencyMS d))]
  | None => []
  end.
Proof.
  unfold answer_out. destruct (answer_pdu pdu d id) as [p|]; [|done].
  case_bool_decide; simpl.
  - rewrite metrics_of_app. unfold send_out. by destruct (encoded p None).
  - unfold respond_out. destruct (encoded p (D_EdgeCase d)); [|done]. by destruct (_ =? 0).
Qed.

(** Evaluating leaves the schedule coin's base alone. *)
Lemma evaluate_schedBase e now (st : BindState R) t d st' :
  evaluate e now st t = Ok (d, st') -> schedBase st' = schedBase st.
Proof.
  unfold evaluate, evaluateFlaky, latencyMS. intros He.
  repeat (case_match; simplify_eq/=; try done); repeat (apply obind_Ok_inv in He as (? & ? & He); simplify_eq/=);
    repeat (case_match; simplify_eq/=; try done);
    repeat (apply obind_Ok_inv in He as (? & ? & He); simplify_eq/=); try done;
    try (repeat match goal with Hl : obind _ _ = Ok _ |- _ => apply obind_Ok_inv in Hl as (? & ? & Hl) end;
         by simplify_eq/=).
Qed.

Lemma Evaluate_schedBase e now (st : BindState R) t d st' :
  Evaluate e now st t = Ok (d, st') -> schedBase st' = schedBase st.
Proof.
  unfold Evaluate. intros He. apply obind_Ok_inv in He as ([d1 st1] & Hev & He).
  apply evaluate_schedBase in Hev. apply obind_Ok_inv in He as ([d2 st2] & Hd & He).
  apply obind_Ok_inv in He as (k & _ & He). simplify_eq.
  destruct (e_dlrEnabled e && _); [|by simplify_eq].
  apply obind_Ok_inv in Hd as (? & _ & Hd). by simplify_eq.
Qed.

(** Two worlds in which this bind answers every scheduled disconnect alike. *)
Lemma targeted_same w w' sd st st' :
  v_binds (w_smsc w') = v_binds (w_smsc w) -> s_id (w_session w') = s_id (w_session w) ->
  s_scenarioState (w_session w) = Some st -> s_scenarioState (w_session w') = Some st' ->
  schedBase st' = schedBase st -> targeted w' sd = targeted w sd.
Proof.
  intros Hb Hid Hst Hst' Hbase. unfold targeted, is_target, DisconnectDraw. by rewrite Hb, Hid, Hst, Hst', Hbase.
Qed.

Lemma existsb_ext_all {A} (f g : A -> bool) l : (forall x, f x = g x) -> existsb f l = existsb g l.
Proof. intros Hfg. induction l as [|x l IH]; [done|]. simpl. by rewrite Hfg, IH. Qed.

(** ** The effects of a submit *)

(** The decision this submit gets: the engine current once the transitions due
    at its tick are applied, on the bind's own state. *)
Definition decided env w (tick : Z) d (e : Engine) (st st' : BindState R) : Prop :=
  s_currentEngine (w_session (foldl transition_step w (due_transitions tick (w_session w)))) = Some e /\
  s_scenarioState (w_session w) = Some st /\ Evaluate e (env_gateNow env) st tick = Ok (d, st').

(** A scheduled disconnect due at this tick withholds the answer, or cuts after it. *)
Definition cut_before w (tick : Z) : bool :=
  existsb (fires_before w) (due_disconnects tick (w_session w)).

Definition cut_due w (tick : Z) : bool := existsb (targeted w) (due_disconnects tick (w_session w)).

Definition is_disconnect d : bool := bool_decide (D_Outcome d = OutcomeDisconnect).

(** The fields a submit never touches. *)
Record kept w w' : Prop := {
  k_cfg : v_cfg (w_smsc w') = v_cfg (w_smsc w);
  k_scenario : v_scenario (w_smsc w') = v_scenario (w_smsc w);
  k_engines : v_engines (w_smsc w') = v_engines (w_smsc w);
  k_binds : v_binds (w_smsc w') = v_binds (w_smsc w);
  k_bindSeq : v_bindSeq (w_smsc w') = v_bindSeq (w_smsc w);
  k_id : s_id (w_session w') = s_id (w_session w);
  k_bound : s_bound (w_session w') = s_bound (w_session w);
  k_canSubmit : s_canSubmit (w_session w') = s_canSubmit (w_session w);
  k_canReceive : s_canReceive (w_session w') = s_canReceive (w_session w);
  k_transitions : s_transitions (w_session w') = s_transitions (w_session w);
  k_disconnects : s_disconnects (w_session w') = s_disconnects (w_session w);
  k_bindType : s_bindType (w_session w') = s_bindType (w_session w)
}.

Lemma transitions_frame_kept w w' : transitions_frame w w' -> kept w w'.
Proof. intros [Hv Hs _ _ _]. split; first [by rewrite Hv | by rewrite Hs]. Qed.

Lemma kept_trans w1 w2 w3 : kept w1 w2 -> kept w2 w3 -> kept w1 w3.
Proof. intros [] []. split; congruence. Qed.

Lemma commit_kept env tick d r w : kept w (commit_world env tick d r w).
Proof. by split. Qed.

Lemma upd_state_kept st w : kept w (upd (set_s_scenarioState st) w).
Proof. by split. Qed.

Lemma closed_kept reason w : kept w (closed_world reason None w).
Proof. by split. Qed.

Lemma drained_kept env due rest w : kept w (drained_world env due rest w).
Proof. unfold drained_world, cut_world. destruct (existsb _ _); by split. Qed.

Lemma answered_kept pdu d id e w : kept w (answered_world pdu d id e w).
Proof. unfold answered_world. destruct (answer_defers pdu d id); by split. Qed.

(** What stays the same of the runner and what is drained, when the session goes on. *)
Definition schedule_step w w' (tick : Z) (id : string) (pdu : PDU) (msg : Message) d
    (due : list (Event payload)) : Prop :=
  exists r,
    dlr_scheduled (set_s_perBindClock tick (w_session w)) id msg (success_plan d)
      (if answer_defers pdu d id then Some (w_nextChan w) else None) r /\
    DrainDue tick r = Ok (due, s_sched (w_session w')).

Definition count_out w d : list effect :=
  let name := VS_Name (v_cfg (w_smsc w)) in
  [Metric (IncSubmit name); Metric (IncOutcome name (outcomeLabel (D_Outcome d)))].

Definition transition_out w (ps : list Profile) : list effect :=
  (fun p => Metric (SetActiveScenario (VS_Name (v_cfg (w_smsc w))) p)) <$> ps.

Record submit_run pdu msg env w (tick : Z) (id : string) d e (st' : BindState R) w' : Prop := {
  sr_kept : kept w w';
  sr_clock : s_perBindClock (w_session w') = tick;
  sr_logical : v_logicalClock (w_smsc w') = v_logicalClock (w_smsc w) +64 1;
  sr_record : Append (record_of tick id msg) (v_recorder (w_smsc w)) = Ok (v_recorder (w_smsc w'));
  sr_anchor : s_lastSubmit (w_session w') = env_now env;
  sr_engine : s_currentEngine (w_session w') = Some e;
  sr_bindState : s_scenarioState (w_session w') = Some st';
  sr_effects : exists ps due,
    w_out w' = w_out w ++ transition_out w ps ++ count_out w d ++
      (if cut_before w tick then []
       else answer_out w pdu d id e ++ concat (dispatch_out env (s_canReceive (w_session w)) <$> due)) /\
    if cut_before w tick || is_disconnect d then due = [] /\ s_sched (w_session w') = s_sched (w_session w)
    else schedule_step w w' tick id pdu msg d due;
  sr_state : s_state (w_session w') =
    if is_disconnect d || cut_due w tick then stateClosed else stateBound;
  sr_reason : s_state (w_session w') = stateClosed ->
    s_closeReason (w_session w') =
    Some (if cut_before w tick || negb (is_disconnect d) then reasonScheduledDisconnect
          else reasonFaultInjection);
  sr_cursor : s_disconnectCursor (w_session w') =
    (if cut_before w tick || is_disconnect d then s_disconnectCursor (w_session w)
     else s_disconnectCursor (w_session w) + length (due_disconnects tick (w_session w)))%nat;
  sr_chan : w_nextChan w <= w_nextChan w'
}.

Lemma cut_before_due w tick : cut_before w tick = true -> cut_due w tick = true.
Proof.
  unfold cut_before, cut_due. rewrite !existsb_exists. intros (d & Hin & Hf).
  apply andb_prop in Hf as [_ Ht]. eauto.
Qed.

Lemma transitions_fields w w' :
  transitions_frame w w' ->
  v_recorder (w_smsc w') = v_recorder (w_smsc w) /\
  v_logicalClock (w_smsc w') = v_logicalClock (w_smsc w) /\
  s_state (w_session w') = s_state (w_session w) /\
  s_perBindClock (w_session w') = s_perBindClock (w_session w) /\
  s_sched (w_session w') = s_sched (w_session w) /\
  s_disconnectCursor (w_session w') = s_disconnectCursor (w_session w) /\
  s_scenarioState (w_session w') = s_scenarioState (w_session w).
Proof. intros [Hv Hs _ _ _]. split_and!; first [by rewrite Hv | by rewrite Hs]. Qed.

(** The committed world: its fields in terms of the world before. *)
Record committed_as env w (tick : Z) d e (st' : BindState R) (rec : Recorder) w3 : Prop := {
  ca_kept : kept w w3;
  ca_state : s_state (w_session w3) = s_state (w_session w);
  ca_clock : s_perBindClock (w_session w3) = tick;
  ca_logical : v_logicalClock (w_smsc w3) = v_logicalClock (w_smsc w) +64 1;
  ca_record : v_recorder (w_smsc w3) = rec;
  ca_anchor : s_lastSubmit (w_session w3) = env_now env;
  ca_engine : s_currentEngine (w_session w3) = Some e;
  ca_sched : s_sched (w_session w3) = s_sched (w_session w);
  ca_cursor : s_disconnectCursor (w_session w3) = s_disconnectCursor (w_session w);
  ca_scenario : s_scenarioState (w_session w3) = Some st';
  ca_chan : w_nextChan w3 = w_nextChan w;
  ca_out : exists ps, w_out w3 = w_out w ++ transition_out w ps ++ count_out w d
}.

Lemma commit_committed env w w1 tick d e st' r :
  transitions_frame w w1 -> s_currentEngine (w_session w1) = Some e ->
  committed_as env w tick d e st' r (commit_world env tick d r (upd (set_s_scenarioState (Some st')) w1)).
Proof.
  intros Hf He. pose proof (transitions_frame_kept _ _ Hf) as Hk.
  destruct (transitions_fields _ _ Hf) as (Hrec & Hlog & Hst & Hcl & Hsch & Hcur & Hsc).
  destruct (tf_out _ _ Hf) as [ps Hout].
  split; try done.
  - eapply kept_trans; [exact Hk|]. by split.
  - simpl. by rewrite Hlog.
  - by apply (tf_chan _ _ Hf).
  - exists ps. unfold commit_world, count_out, add_out, set_w_out. simpl.
    rewrite Hout, (k_cfg _ _ Hk). by rewrite <- app_assoc.
Qed.

Lemma committed_targeted env w tick d e st st' r w3 :
  committed_as env w tick d e st' r w3 -> s_scenarioState (w_session w) = Some st ->
  schedBase st' = schedBase st ->
  (forall sd, targeted w3 sd = targeted w sd) /\
  (forall sd, fires_before w3 sd = fires_before w sd) /\
  due_disconnects tick (w_session w3) = due_disconnects tick (w_session w).
Proof.
  intros Hc Hst Hb. pose proof (ca_kept _ _ _ _ _ _ _ _ Hc) as Hk.
  assert (forall sd, targeted w3 sd = targeted w sd) as Ht.
  { intros sd. apply (targeted_same _ _ _ st st'); try done; [apply Hk | apply Hk | apply Hc]. }
  split; [done|]. split; [intros sd; unfold fires_before; by rewrite Ht|].
  unfold due_disconnects. by rewrite (ca_cursor _ _ _ _ _ _ _ _ Hc), (k_disconnects _ _ Hk).
Qed.

(** Case 1: a scheduled disconnect withholds the answer. *)
Lemma submit_run_cut pdu msg env w w3 tick id d e st st' r :
  committed_as env w tick d e st' r w3 -> s_scenarioState (w_session w) = Some st ->
  schedBase st' = schedBase st -> Append (record_of tick id msg) (v_recorder (w_smsc w)) = Ok r ->
  cut_before w tick = true ->
  submit_run pdu msg env w tick id d e st' (closed_world reasonScheduledDisconnect None w3).
Proof.
  intros Hc Hst Hb Ha Hcut. pose proof (cut_before_due w tick Hcut) as Hdue.
  split; rewrite ?Hcut, ?Hdue, ?orb_true_r; cbn [orb]; try (by apply Hc); try done.
  - eapply kept_trans; [by apply Hc | apply closed_kept].
  - simpl. by rewrite (ca_record _ _ _ _ _ _ _ _ Hc).
  - destruct (ca_out _ _ _ _ _ _ _ _ Hc) as [ps Ho]. exists ps, [].
    split; [by rewrite app_nil_r|]. split; [done | by apply Hc].
  - by rewrite <- (ca_chan _ _ _ _ _ _ _ _ Hc).
Qed.

Lemma answer_out_cfg w w' pdu d id e :
  v_cfg (w_smsc w') = v_cfg (w_smsc w) -> w_nextChan w' = w_nextChan w ->
  answer_out w' pdu d id e = answer_out w pdu d id e.
Proof. intros Hc Hn. unfold answer_out, latency_metric. by rewrite Hc, Hn. Qed.

Lemma answered_world_out w w' pdu d id e :
  v_cfg (w_smsc w') = v_cfg (w_smsc w) -> w_nextChan w' = w_nextChan w ->
  w_out (answered_world pdu d id e w') = w_out w' ++ answer_out w pdu d id e.
Proof.
  intros Hc Hn. unfold answered_world. rewrite (answer_out_cfg w w' _ _ _ _ Hc Hn).
  by destruct (answer_defers pdu d id).
Qed.

Lemma answered_world_same pdu d id e w :
  w_smsc (answered_world pdu d id e w) = w_smsc w /\
  w_session (answered_world pdu d id e w) = w_session w /\
  w_nextChan w <= w_nextChan (answered_world pdu d id e w).
Proof. unfold answered_world. destruct (answer_defers pdu d id); simpl; auto with lia. Qed.

(** Case 2: the outcome is a disconnect. *)
Lemma submit_run_disconnect pdu msg env w w3 tick id d e st st' r :
  committed_as env w tick d e st' r w3 -> s_scenarioState (w_session w) = Some st ->
  schedBase st' = schedBase st -> Append (record_of tick id msg) (v_recorder (w_smsc w)) = Ok r ->
  cut_before w tick = false -> D_Outcome d = OutcomeDisconnect ->
  submit_run pdu msg env w tick id d e st'
    (closed_world reasonFaultInjection None (answered_world pdu d id e w3)).
Proof.
  intros Hc Hst Hb Ha Hcut Hd.
  pose proof (ca_kept _ _ _ _ _ _ _ _ Hc) as Hk.
  destruct (answered_world_same pdu d id e w3) as (Hv & Hs & Hn).
  pose proof (answered_kept pdu d id e w3) as Hk4.
  pose proof (answered_world_out w w3 pdu d id e (k_cfg _ _ Hk) (ca_chan _ _ _ _ _ _ _ _ Hc)) as Ho4.
  generalize dependent (answered_world pdu d id e w3). intros w4 Hv Hs Hn Hk4 Ho4.
  assert (is_disconnect d = true) as Hdis by (by apply bool_decide_true).
  split; rewrite ?Hcut, ?Hdis, ?orb_true_r; cbn [orb negb]; try done.
  - eapply kept_trans; [exact Hk|]. eapply kept_trans; [exact Hk4 | apply closed_kept].
  - simpl. rewrite Hs. by apply Hc.
  - simpl. rewrite Hv. by apply Hc.
  - simpl. by rewrite Hv, (ca_record _ _ _ _ _ _ _ _ Hc).
  - simpl. rewrite Hs. by apply Hc.
  - simpl. rewrite Hs. by apply Hc.
  - simpl. rewrite Hs. by apply Hc.
  - destruct (ca_out _ _ _ _ _ _ _ _ Hc) as [ps Ho]. exists ps, [].
    split; [|split; [done | simpl; rewrite Hs; by apply Hc]].
    simpl w_out. rewrite Ho4, Ho, app_nil_r. by rewrite <- !app_assoc.
  - simpl. rewrite Hs. by apply Hc.
  - simpl. rewrite <- (ca_chan _ _ _ _ _ _ _ _ Hc). done.
Qed.

Lemma drained_world_fields env due rest w :
  let w' := drained_world env due rest w in
  w_smsc w' = w_smsc w /\ s_perBindClock (w_session w') = s_perBindClock (w_session w) /\
  s_lastSubmit (w_session w') = s_lastSubmit (w_session w) /\
  s_currentEngine (w_session w') = s_currentEngine (w_session w) /\
  s_scenarioState (w_session w') = s_scenarioState (w_session w) /\
  s_sched (w_session w') = rest /\ w_nextChan w' = w_nextChan w /\
  w_out w' = w_out w ++ concat (dispatch_out env (s_canReceive (w_session w)) <$> due) /\
  s_state (w_session w') =
    (if existsb (targeted w) (due_disconnects (s_perBindClock (w_session w)) (w_session w))
     then stateClosed else s_state (w_session w)) /\
  s_closeReason (w_session w') =
    (if existsb (targeted w) (due_disconnects (s_perBindClock (w_session w)) (w_session w))
     then Some reasonScheduledDisconnect else s_closeReason (w_session w)) /\
  s_disconnectCursor (w_session w') =
    (s_disconnectCursor (w_session w) +
     length (due_disconnects (s_perBindClock (w_session w)) (w_session w)))%nat.
Proof.
  cbn zeta. unfold drained_world, cut_world. destruct (existsb _ _); repeat (split; [done|]); done.
Qed.

(** Case 3: the session goes on to the drains. *)
Lemma submit_run_kept pdu msg env w w3 tick id d e st st' rec r due rest :
  committed_as env w tick d e st' rec w3 -> s_scenarioState (w_session w) = Some st ->
  schedBase st' = schedBase st -> Append (record_of tick id msg) (v_recorder (w_smsc w)) = Ok rec ->
  s_state (w_session w) = stateBound ->
  cut_before w tick = false -> D_Outcome d <> OutcomeDisconnect ->
  dlr_scheduled (w_session w3) id msg (success_plan d)
    (if answer_defers pdu d id then Some (w_nextChan w3) else None) r ->
  DrainDue tick r = Ok (due, rest) ->
  submit_run pdu msg env w tick id d e st'
    (drained_world env due rest (upd (set_s_sched r) (answered_world pdu d id e w3))).
Proof.
  intros Hc Hst Hb Ha Hstate Hcut Hd Hr Hdue.
  pose proof (ca_kept _ _ _ _ _ _ _ _ Hc) as Hk.
  destruct (committed_targeted _ _ _ _ _ _ _ _ _ Hc Hst Hb) as (Ht & _ & Hds).
  destruct (answered_world_same pdu d id e w3) as (Hv & Hs & Hn).
  pose proof (answered_kept pdu d id e w3) as Hk4.
  pose proof (answered_world_out w w3 pdu d id e (k_cfg _ _ Hk) (ca_chan _ _ _ _ _ _ _ _ Hc)) as Ho4.
  generalize dependent (answered_world pdu d id e w3). intros w5 Hv Hs Hn Hk4 Ho4.
  set (w4 := upd (set_s_sched r) w5).
  destruct (drained_world_fields env due rest w4) as (Hv' & Hcl & Hla & Hen & Hsc & Hsch & Hn' & Ho' & Hst' & Hre & Hcu).
  assert (s_perBindClock (w_session w4) = tick) as Hclock by (simpl; rewrite Hs; apply Hc).
  assert (due_disconnects (s_perBindClock (w_session w4)) (w_session w4) =
          due_disconnects tick (w_session w)) as Hds4.
  { rewrite Hclock, <- Hds. unfold due_disconnects. simpl. by rewrite Hs. }
  assert (existsb (targeted w4) (due_disconnects (s_perBindClock (w_session w4)) (w_session w4)) =
          cut_due w tick) as Hcutd.
  { rewrite Hds4. unfold cut_due. apply existsb_ext_all. intros sd. rewrite <- Ht.
    unfold targeted, is_target. simpl. by rewrite Hv, Hs. }
  rewrite Hcutd in Hst', Hre. rewrite Hds4 in Hcu.
  assert (is_disconnect d = false) as Hdis by (by apply bool_decide_false).
  split; rewrite ?Hcut, ?Hdis; cbn [orb negb].
  - eapply kept_trans; [exact Hk|]. eapply kept_trans; [exact Hk4|].
    eapply kept_trans; [|apply drained_kept]. by split.
  - by rewrite Hcl.
  - rewrite Hv'. simpl. rewrite Hv. apply Hc.
  - rewrite Hv'. simpl. by rewrite Hv, (ca_record _ _ _ _ _ _ _ _ Hc).
  - rewrite Hla. simpl. rewrite Hs. apply Hc.
  - rewrite Hen. simpl. rewrite Hs. apply Hc.
  - rewrite Hsc. simpl. rewrite Hs. apply Hc.
  - destruct (ca_out _ _ _ _ _ _ _ _ Hc) as [ps Ho]. exists ps, due. split.
    + rewrite Ho'. simpl. rewrite Ho4, Hs, (k_canReceive _ _ Hk), Ho. by rewrite <- !app_assoc.
    + exists r. rewrite Hsch. split; [|done].
      unfold dlr_scheduled in *. simpl. rewrite <- (ca_sched _ _ _ _ _ _ _ _ Hc), <- (k_canReceive _ _ Hk).
      rewrite (ca_clock _ _ _ _ _ _ _ _ Hc), (ca_chan _ _ _ _ _ _ _ _ Hc) in Hr. exact Hr.
  - rewrite Hst'. destruct (cut_due w tick); [done|]. simpl. by rewrite Hs, (ca_state _ _ _ _ _ _ _ _ Hc).
  - rewrite Hst', Hre. destruct (cut_due w tick); [done|]. simpl.
    by rewrite Hs, (ca_state _ _ _ _ _ _ _ _ Hc), Hstate.
  - rewrite Hcu. simpl. by rewrite Hs, (ca_cursor _ _ _ _ _ _ _ _ Hc).
  - rewrite Hn'. simpl. by rewrite <- (ca_chan _ _ _ _ _ _ _ _ Hc).
Qed.

(** ** Every submit of a bound session *)

Lemma handleSubmit_step pdu msg env w :
  world_safe w -> s_state (w_session w) = stateBound -> s_canSubmit (w_session w) = true ->
  PDU_Body pdu = Some (BodyMessage msg) ->
  let tick := s_perBindClock (w_session w) +64 1 in
  let id := Dlr.messageID (s_id (w_session w)) tick in
  exists d e st st' w', decided env w tick d e st st' /\ engine_safe e /\
    handleSubmit pdu env w = Ok ((), w') /\
    if abandoned env d then
      exists w1, transitions_frame w w1 /\
        w' = closed_world reasonShutdown None (upd (set_s_scenarioState (Some st')) w1)
    else submit_run pdu msg env w tick id d e st' w'.
Proof.
  intros Hsafe Hstate Hcan Hbody tick id.
  destruct (handleSubmit_run pdu msg env w Hsafe Hstate Hcan Hbody)
    as (e & st & d & st' & He & Hes & Hst & Hev & Hrun). fold tick id in He, Hev, Hrun.
  set (w1 := foldl transition_step w (due_transitions tick (w_session w))) in *.
  pose proof (transitions_frame_all (due_transitions tick (w_session w)) w) as Hf. fold w1 in Hf.
  exists d, e, st, st'. destruct (abandoned env d).
  { eexists. split; [done|]. split; [done|]. split; [exact Hrun|]. by exists w1. }
  destruct Hrun as (r & Ha & Hrun).
  pose proof (commit_committed env w w1 tick d e st' r Hf He) as Hc.
  set (w3 := commit_world env tick d r (upd (set_s_scenarioState (Some st')) w1)) in *.
  pose proof (Evaluate_schedBase _ _ _ _ _ _ Hev) as Hb.
  destruct (committed_targeted _ _ _ _ _ _ _ _ _ Hc Hst Hb) as (_ & Hfb & Hds).
  assert (existsb (fires_before w3) (due_disconnects tick (w_session w3)) = cut_before w tick) as Hcut.
  { rewrite Hds. by apply existsb_ext_all. }
  cbv zeta in Hrun. rewrite Hcut in Hrun. destruct (cut_before w tick) eqn:Hcb.
  { eexists. split; [done|]. split; [done|]. split; [exact Hrun|]. by eapply submit_run_cut. }
  assert (s_currentEngine (w_session w3) = Some e) as He3 by exact He.
  destruct (decide (D_Outcome d = OutcomeDisconnect)) as [Hd|Hd].
  { rewrite (answerSubmit_disconnect _ _ _ _ _ _ _ He3 Hd) in Hrun.
    eexists. split; [done|]. split; [done|]. split; [exact Hrun|]. by eapply submit_run_disconnect. }
  destruct (answerSubmit_kept pdu d msg id e env w3 He3 Hd) as (rr & due & rest & Hr & Hdue & Hrun3).
  { rewrite (ca_state _ _ _ _ _ _ _ _ Hc), Hstate. done. }
  { by rewrite (ca_scenario _ _ _ _ _ _ _ _ Hc). }
  rewrite Hrun3 in Hrun. eexists. split; [done|]. split; [done|]. split; [exact Hrun|].
  by eapply submit_run_kept.
Qed.

End Submit.

(** ** The invariant holds from boot on *)

Lemma newVirtualSMSC_safe cfg :
  scenario_ok (VS_Scenario cfg) -> scenario_typed (VS_Scenario cfg) -> smsc_safe (newVirtualSMSC cfg).1.
Proof.
  intros Ho Ht. split; simpl.
  - apply New_ring_ok.
  - by apply New_engine_safe.
  - intros p e. rewrite buildEngines_lookup. case_bool_decide; [|done]. intros [= <-].
    by apply target_engine_safe.
Qed.

Section SafePreserved.
Context {R : Type} `{RandSource R}.
Implicit Types (w : world R) (s : session R) (pdu : PDU).

Lemma newSession_safe v now : session_safe (newSession (R := R) v now).
Proof. by split. Qed.

(** A handler that leaves the SMSC and the session's bind alone keeps the invariant. *)
Lemma add_out_safe es w : world_safe w -> world_safe (add_out es w).
Proof. by intros []. Qed.

Lemma closed_safe reason err w : world_safe w -> world_safe (closed_world reason err w).
Proof. intros [Hv [Hb Hc Ho Hcl]]. split; [done|]. by split. Qed.

Lemma kept_smsc_safe w w' :
  kept w w' -> ring_ok (v_recorder (w_smsc w')) -> smsc_safe (w_smsc w) -> smsc_safe (w_smsc w').
Proof.
  intros Hk Hr [_ Hs He]. split; [done | by rewrite (k_scenario _ _ Hk) | by rewrite (k_engines _ _ Hk)].
Qed.

Lemma due_prefix_length {T} (tick : T -> Z) clock l : (length (due_prefix tick clock l) <= length l)%nat.
Proof. induction l as [|x l IH]; simpl; [done|]. destruct (_ <=? _); simpl; lia. Qed.

Lemma submit_run_safe pdu msg env w tick id d e st' w' :
  world_safe w -> engine_safe e -> submit_run pdu msg env w tick id d e st' w' -> world_safe w'.
Proof.
  intros [Hv [_ Hc _ _]] He Hr. split.
  - apply (kept_smsc_safe w); [by apply Hr| |done].
    destruct (Append_total (record_of tick id msg) _ (vs_ring _ Hv)) as (r & Ha & Hok & _).
    rewrite (sr_record _ _ _ _ _ _ _ _ _ _ Hr) in Ha. by simplify_eq.
  - split.
    + intros _. rewrite (sr_engine _ _ _ _ _ _ _ _ _ _ Hr), (sr_bindState _ _ _ _ _ _ _ _ _ _ Hr). eauto.
    + rewrite (sr_cursor _ _ _ _ _ _ _ _ _ _ Hr), (k_disconnects _ _ (sr_kept _ _ _ _ _ _ _ _ _ _ Hr)).
      pose proof (due_prefix_length SD_AtTick tick
        (drop (s_disconnectCursor (w_session w)) (s_disconnects (w_session w)))) as Hl.
      rewrite length_drop in Hl. unfold due_disconnects. destruct (_ || _); lia.
    + rewrite (sr_state _ _ _ _ _ _ _ _ _ _ Hr). by destruct (_ || _).
    + intros Hcl. rewrite (sr_reason _ _ _ _ _ _ _ _ _ _ Hr Hcl). by eexists.
Qed.

Lemma transitions_safe w w' : transitions_frame w w' -> world_safe w -> world_safe w'.
Proof.
  intros Hf [Hv [Hb Hc Ho Hcl]]. destruct (transitions_fields _ _ Hf) as (Hrec & _ & Hst & _ & _ & Hcur & Hsc).
  split.
  - apply (kept_smsc_safe w); [by apply transitions_frame_kept | rewrite Hrec; apply Hv | done].
  - split.
    + rewrite Hst, Hsc. intros Hbd. destruct (Hb Hbd) as [? (e & He & Hes)]. split; [done|].
      destruct (tf_engine _ _ Hf) as [->|(p & e' & Hp & ->)]; [by exists e|].
      exists e'. split; [done|]. by eapply (vs_engines _ Hv).
    + by rewrite Hcur, (k_disconnects _ _ (transitions_frame_kept _ _ Hf)).
    + by rewrite Hst, Hcur.
    + rewrite Hst. by rewrite (tf_session _ _ Hf).
Qed.

(** A submit_sm that is not evaluated gets one status. *)
Definition submit_refusal s pdu : option CommandStatus :=
  if negb (bool_decide (s_state s = stateBound)) || negb (s_canSubmit s) then Some StatusInvBndSts
  else match PDU_Body pdu with Some (BodyMessage _) => None | _ => Some StatusSysErr end.

Lemma submit_refusal_run pdu env w st :
  submit_refusal (w_session w) pdu = Some st ->
  handleSubmit pdu env w = Ok ((), add_out (send_out (reply pdu SubmitSMResp st None) kindResp) w).
Proof.
  unfold submit_refusal, handleSubmit. rewrite !gets_run.
  destruct (_ || _); [intros [= <-]; apply sendKind_run|].
  destruct (PDU_Body pdu) as [[b|b|msg|b]|]; first [discriminate | intros [= <-]; apply sendKind_run].
Qed.

Lemma submit_refusal_None s pdu :
  submit_refusal s pdu = None ->
  s_state s = stateBound /\ s_canSubmit s = true /\ exists msg, PDU_Body pdu = Some (BodyMessage msg).
Proof.
  unfold submit_refusal. destruct (bool_decide_reflect (s_state s = stateBound)), (s_canSubmit s); try done.
  simpl. destruct (PDU_Body pdu) as [[b|b|msg|b]|]; try done. eauto.
Qed.

Lemma handleSubmit_safe pdu env w :
  world_safe w -> exists w', handleSubmit pdu env w = Ok ((), w') /\ world_safe w'.
Proof.
  intros Hs. destruct (submit_refusal (w_session w) pdu) as [status|] eqn:Href.
  { eexists. split; [by apply submit_refusal_run|]. by apply add_out_safe. }
  apply submit_refusal_None in Href as (Hst & Hcan & msg & Hb).
  destruct (handleSubmit_step pdu msg env w Hs Hst Hcan Hb) as (d & e & st & st' & w' & _ & He & Hrun & Hr).
  exists w'. split; [done|]. destruct (abandoned env d); [|by eapply submit_run_safe].
  destruct Hr as (w1 & Hf & ->). apply closed_safe. destruct (transitions_safe _ _ Hf Hs) as [Hv [Hb' Hc Ho Hcl]].
  split; [done|]. split; [|done..]. intros Hbd. split; [by eexists|]. by apply Hb'.
Qed.

Lemma handleBind_safe pdu env w :
  world_safe w -> exists w', handleBind pdu env w = Ok ((), w') /\ world_safe w'.
Proof.
  intros Hs. pose proof (handleBind_run pdu env w) as Hrun.
  destruct (judge_bind w pdu) as [| | |b|b] eqn:Hj; try (destruct Hrun as (r & _ & Hrun));
    eexists; (split; [exact Hrun|]); destruct Hs as [Hv [Hb Hc Ho Hcl]].
  - by apply add_out_safe.
  - by apply add_out_safe.
  - apply closed_safe, add_out_safe. split; [done | by split].
  - apply closed_safe, add_out_safe. split; [done | by split].
  - assert (s_state (w_session w) = stateOpen) as Hopen by (apply (judge_bind_open w pdu); by rewrite Hj).
    specialize (Ho Hopen). apply add_out_safe. destruct Hv as [Hr Hsc He]. split; [by split|].
    split; [|simpl; rewrite Ho; lia|done..]. intros _. split; [by eexists|]. by eexists.
Qed.

Lemma handle_safe pdu env w :
  world_safe w -> exists w', handle pdu env w = Ok ((), w') /\ world_safe w'.
Proof.
  intros Hs. unfold handle. case_bool_decide; [by apply handleBind_safe|].
  destruct (_ =? SubmitSM); [by apply handleSubmit_safe|].
  destruct (_ =? EnquireLink); [eexists; split; [apply sendKind_run | by apply add_out_safe]|].
  destruct (_ =? Unbind).
  { eexists. split; [erewrite M_bind_run by apply sendKind_run; apply closeWith_run|].
    by apply closed_safe, add_out_safe. }
  destruct (_ =? DeliverSMResp); [by eexists|].
  eexists. split; [apply sendKind_run | by apply add_out_safe].
Qed.

Lemma flushSchedule_safe env w :
  world_safe w -> s_state (w_session w) <> stateClosed ->
  exists w', flushSchedule env w = Ok ((), w') /\ world_safe w'.
Proof.
  intros [Hv [Hb Hc Ho Hcl]] Hs. eexists. split; [by apply flushSchedule_run|].
  apply add_out_safe. split; [done|]. by split.
Qed.

End SafePreserved.

(** ** The claims *)

Section Claims.
Context {R : Type} `{RandSource R}.
Implicit Types (w : world R) (pdu : PDU) (d : Decision).

(** A submit_sm on a bound session that may submit. *)
Record submittable w pdu msg : Prop := {
  sb_safe : world_safe w;
  sb_state : s_state (w_session w) = stateBound;
  sb_can : s_canSubmit (w_session w) = true;
  sb_body : PDU_Body pdu = Some (BodyMessage msg)
}.

Definition is_count (m : metric) : bool :=
  match m with IncSubmit _ | IncOutcome _ _ => true | _ => false end.

Lemma counts_submit_run pdu msg env w tick id d e st' w' :
  submit_run pdu msg env w tick id d e st' w' ->
  base.filter (fun m => is_count m = true) (metrics_of (drop (length (w_out w)) (w_out w'))) =
  [IncSubmit (VS_Name (v_cfg (w_smsc w))); IncOutcome (VS_Name (v_cfg (w_smsc w))) (outcomeLabel (D_Outcome d))].
Proof.
  intros Hr. destruct (sr_effects _ _ _ _ _ _ _ _ _ _ Hr) as (ps & due & -> & _).
  rewrite drop_app_length. rewrite !metrics_of_app, !filter_app.
  unfold transition_out. rewrite metrics_of_Metrics.
  rewrite (filter_none _ (_ <$> ps)) by (apply Forall_fmap, Forall_true; by intros).
  rewrite filter_all by (by repeat constructor).
  destruct (cut_before w tick); [by rewrite app_nil_r|].
  rewrite metrics_of_app, dispatches_metrics, answer_out_metrics, app_nil_r.
  by destruct (answer_pdu pdu d id).
Qed.

(** The responses of a committed submit. *)
Lemma responses_submit_run pdu msg env w tick id d e st' w' :
  submit_run pdu msg env w tick id d e st' w' ->
  responses (drop (length (w_out w)) (w_out w')) =
  if cut_before w tick then [] else option_list (answer_frame pdu d id).
Proof.
  intros Hr. destruct (sr_effects _ _ _ _ _ _ _ _ _ _ Hr) as (ps & due & -> & _).
  rewrite drop_app_length, !responses_app. unfold transition_out. rewrite responses_Metrics. simpl.
  destruct (cut_before w tick); [done|].
  by rewrite responses_app, answer_out_responses, dispatches_responses, app_nil_r.
Qed.

End Claims.

(** C7: every submit is accounted for exactly once.  A submit_sm of a bound
    session never panics the handler.  Unless the engine shuts down while the
    latency of a disconnect is being served, in which case neither clock nor
    journal moves, nothing is sent and nothing is counted (the only metric calls are
    those of the transitions that were due), it advances the bind's clock and the
    SMSC's logical clock by one, appends exactly one record carrying its
    addresses, content, tick and message id, and counts one received submit and
    one outcome: whatever the outcome, timeouts and disconnects included. *)
Theorem handleSubmit_commits {R} `{RandSource R} pdu msg env (w : world R) :
  submittable w pdu msg ->
  let tick := s_perBindClock (w_session w) +64 1 in
  let id := Dlr.messageID (s_id (w_session w)) tick in
  exists d e st st' w', decided env w tick d e st st' /\ handleSubmit pdu env w = Ok ((), w') /\
    kept w w' /\
    if abandoned env d then
      s_perBindClock (w_session w') = s_perBindClock (w_session w) /\
      v_logicalClock (w_smsc w') = v_logicalClock (w_smsc w) /\
      v_recorder (w_smsc w') = v_recorder (w_smsc w) /\
      s_state (w_session w') = stateClosed /\ s_closeReason (w_session w') = Some reasonShutdown /\
      exists ps, w_out w' = w_out w ++ transition_out w ps
    else
      s_perBindClock (w_session w') = tick /\
      v_logicalClock (w_smsc w') = v_logicalClock (w_smsc w) +64 1 /\
      Append (record_of tick id msg) (v_recorder (w_smsc w)) = Ok (v_recorder (w_smsc w')) /\
      base.filter (fun m => is_count m = true) (metrics_of (drop (length (w_out w)) (w_out w'))) =
        [IncSubmit (VS_Name (v_cfg (w_smsc w)));
         IncOutcome (VS_Name (v_cfg (w_smsc w))) (outcomeLabel (D_Outcome d))].
Proof.
  intros [Hsafe Hst Hcan Hb] tick id.
  destruct (handleSubmit_step pdu msg env w Hsafe Hst Hcan Hb) as (d & e & st & st' & w' & Hdec & _ & Hrun & Hres).
  exists d, e, st, st', w'. split; [done|]. split; [done|].
  destruct (abandoned env d).
  - destruct Hres as (w1 & Hf & ->). pose proof (transitions_frame_kept _ _ Hf) as Hk.
    destruct (transitions_fields _ _ Hf) as (Hrec & Hlog & _ & Hcl & _).
    split; [eapply kept_trans; [exact Hk | by split]|]. repeat (split; [done|]).
    exact (tf_out _ _ Hf).
  - split; [by apply Hres|]. repeat (split; [by apply Hres|]). by eapply counts_submit_run.
Qed.

(** C6: the answer is the decided one.  When the submit is not abandoned, the
    responses it queues or holds back are exactly: none if a scheduled disconnect
    due at this tick withholds it, and otherwise the one frame the decision
    calls for, ESME_ROK with the message id for a success, the decided status
    without a body for an error, nothing for a timeout, and for a disconnect
    ESME_ROK exactly when it fires after the response.  The session ends exactly
    when the outcome is a disconnect or a due scheduled disconnect targets this
    bind, and the close reason tells which. *)
Theorem handleSubmit_answers {R} `{RandSource R} pdu msg env (w : world R) :
  submittable w pdu msg ->
  let tick := s_perBindClock (w_session w) +64 1 in
  let id := Dlr.messageID (s_id (w_session w)) tick in
  exists d e st st' w', decided env w tick d e st st' /\ handleSubmit pdu env w = Ok ((), w') /\
    (abandoned env d = false ->
     responses (drop (length (w_out w)) (w_out w')) =
       (if cut_before w tick then [] else option_list (answer_frame pdu d id)) /\
     s_state (w_session w') = (if is_disconnect d || cut_due w tick then stateClosed else stateBound) /\
     (s_state (w_session w') = stateClosed ->
      s_closeReason (w_session w') =
      Some (if cut_before w tick || negb (is_disconnect d) then reasonScheduledDisconnect
            else reasonFaultInjection))).
Proof.
  intros [Hsafe Hst Hcan Hb] tick id.
  destruct (handleSubmit_step pdu msg env w Hsafe Hst Hcan Hb) as (d & e & st & st' & w' & Hdec & _ & Hrun & Hres).
  exists d, e, st, st', w'. split; [done|]. split; [done|]. intros Ha. rewrite Ha in Hres.
  split; [by eapply responses_submit_run|]. split; apply Hres.
Qed.

(** What a submit adds to the schedule: a receipt for a success with a plan, on
    a bind that can receive. *)
Definition new_receipt {R} (w : world R) (tick : Z) (id : string) (pdu : PDU) (msg : Message) (d : Decision)
  : list (Z * payload) :=
  match success_plan d with
  | Some plan =>
      if s_canReceive (w_session w) then
        [(tick +64 DP_DelayTicks plan,
          dlr_payload tick id msg plan (if answer_defers pdu d id then Some (w_nextChan w) else None))]
      else []
  | None => []
  end.

Lemma answer_defers_out {R} (w : world R) pdu d id e :
  answer_defers pdu d id = true ->
  exists b, SendWhen (ReadyAfter (latencyDuration (D_LatencyMS d))) b kindResp (Some (w_nextChan w)) ∈
    answer_out w pdu d id e.
Proof.
  unfold answer_defers, answer_out. destruct (answer_pdu pdu d id) as [p|]; [|done].
  destruct (bool_decide _); [done|]. cbn [negb andb]. unfold defers, respond_out.
  destruct (encoded p (D_EdgeCase d)) as [b|]; [|done].
  destruct (D_LatencyMS d =? 0); [done|]. intros _. exists b. set_solver.
Qed.

Lemma forget_pending_app {P} (l1 l2 : list (Event P)) :
  forget <$> (l1 ++ l2) = (forget <$> l1) ++ (forget <$> l2).
Proof. apply fmap_app. Qed.

Lemma Schedule_pending {P} t (x : P) r r' :
  runner_wf r -> 0 <= seq r < 2 ^ 64 - 1 -> Schedule t x r = Ok r' ->
  runner_wf r' /\ forget <$> pending r' ≡ₚ (forget <$> pending r) ++ [(t, x)].
Proof.
  intros Hwf Hseq Hr. split; [by eapply Schedule_wf|].
  destruct (Schedule_spec t x r Hwf Hseq) as (l1 & l2 & Hp & _ & _ & HS).
  rewrite HS in Hr. simplify_eq. simpl. rewrite Hp, !forget_pending_app. csimpl.
  rewrite <- app_assoc, (Permutation_app_comm (forget <$> l2)). done.
Qed.

Lemma dlr_scheduled_pending {R} (w : world R) tick id pdu msg d r :
  runner_wf (s_sched (w_session w)) -> 0 <= seq (s_sched (w_session w)) < 2 ^ 64 - 1 ->
  dlr_scheduled (set_s_perBindClock tick (w_session w)) id msg (success_plan d)
    (if answer_defers pdu d id then Some (w_nextChan w) else None) r ->
  runner_wf r /\
  forget <$> pending r ≡ₚ (forget <$> pending (s_sched (w_session w))) ++ new_receipt w tick id pdu msg d.
Proof.
  intros Hwf Hseq. unfold dlr_scheduled, new_receipt.
  destruct (success_plan d) as [plan|]; [|intros ->; by rewrite app_nil_r].
  simpl. destruct (s_canReceive (w_session w)); [|intros ->; by rewrite app_nil_r].
  by apply Schedule_pending.
Qed.

(** C10: nothing scheduled is lost, early or out of order.  When a submit leaves
    the session open, the events it drains and the events left pending are
    together the events pending before plus, for a success with a receipt plan on
    a bind that can receive, that one receipt, due the configured number of ticks
    later; every drained event is due and every pending one is not; and the
    deliveries sent are the drained events' PDUs in (tick, insertion) order.  A
    receipt whose response is held back waits on that very response's channel. *)
Theorem handleSubmit_schedules {R} `{RandSource R} pdu msg env (w : world R) :
  submittable w pdu msg ->
  runner_wf (s_sched (w_session w)) -> 0 <= seq (s_sched (w_session w)) < 2 ^ 64 - 1 ->
  let tick := s_perBindClock (w_session w) +64 1 in
  let id := Dlr.messageID (s_id (w_session w)) tick in
  exists d e st st' w', decided env w tick d e st st' /\ handleSubmit pdu env w = Ok ((), w') /\
    (abandoned env d = false -> cut_before w tick = false -> is_disconnect d = false ->
     exists due,
       (forget <$> due) ++ (forget <$> pending (s_sched (w_session w'))) ≡ₚ
         (forget <$> pending (s_sched (w_session w))) ++ new_receipt w tick id pdu msg d /\
       Forall (fun ev => DueTick ev <= tick) due /\
       Forall (fun ev => tick < DueTick ev) (pending (s_sched (w_session w'))) /\
       StronglySorted event_lt due /\
       deliveries (drop (length (w_out w)) (w_out w')) = due ≫= event_frame (s_canReceive (w_session w)) /\
       (answer_defers pdu d id = true ->
        exists frame, SendWhen (ReadyAfter (latencyDuration (D_LatencyMS d))) frame kindResp
          (Some (w_nextChan w)) ∈ w_out w')).
Proof.
  intros [Hsafe Hst Hcan Hb] Hwf Hseq tick id.
  destruct (handleSubmit_step pdu msg env w Hsafe Hst Hcan Hb) as (d & e & st & st' & w' & Hdec & _ & Hrun & Hres).
  exists d, e, st, st', w'. split; [done|]. split; [done|]. intros Ha Hcut Hdis. rewrite Ha in Hres.
  destruct (sr_effects _ _ _ _ _ _ _ _ _ _ Hres) as (ps & due & Ho & Hsch). fold tick in Ho, Hsch. fold id in Ho, Hsch.
  rewrite Hcut, Hdis in Hsch. cbn [orb] in Hsch. rewrite Hcut in Ho. destruct Hsch as (r & Hr & Hdr).
  destruct (dlr_scheduled_pending w tick id pdu msg d r Hwf Hseq Hr) as [Hwfr Hperm].
  destruct (DrainDue_spec tick r Hwfr) as (l1 & l2 & Hp & H1 & H2 & HD). rewrite HD in Hdr.
  injection Hdr as -> Hrest. exists due. rewrite <- Hrest, <- Hperm, Hp, forget_pending_app. simpl. split; [done|]. split; [done|]. split; [done|].
  split. { destruct Hwfr as [Hs _]. rewrite Hp in Hs. by apply StronglySorted_app in Hs as (_ & ? & _). }
  split.
  - rewrite Ho, drop_app_length, !deliveries_app. unfold transition_out. rewrite deliveries_Metrics. simpl.
    by rewrite answer_out_deliveries, dispatches_deliveries.
  - intros (b & Hin)%(answer_defers_out w _ _ _ e). exists b. rewrite Ho. set_solver.
Qed.

(** ** Witnesses *)

Definition sample_bound : world PCG :=
  match handleBind sample_bind_pdu sample_env sample_world with Ok (_, w) => w | _ => sample_world end.

Lemma sample_vs_ok : scenario_ok (VS_Scenario sample_vs) /\ scenario_typed (VS_Scenario sample_vs).
Proof.
  assert (scenario_typed (VS_Scenario sample_vs)) as Ht.
  { split; [done|]. intros dlr [= <-]. by_decide. }
  split; [|done]. apply (validateScenario_nil _ Ht). vm_compute. reflexivity.
Qed.

Lemma sample_bound_safe : world_safe sample_bound.
Proof.
  destruct (handleBind_safe sample_bind_pdu sample_env sample_world) as (w' & Hrun & Hs).
  - split; [apply newVirtualSMSC_safe; apply sample_vs_ok | apply newSession_safe].
  - unfold sample_bound. by rewrite Hrun.
Qed.

Definition sample_msg : Message :=
  {| ServiceType := ""; SourceAddrTON := NUL; SourceAddrNPI := NUL; SourceAddr := "alice";
     DestAddrTON := NUL; DestAddrNPI := NUL; DestAddr := "22507"; ESMClass := NUL; ProtocolID := NUL;
     PriorityFlag := NUL; ScheduleDeliveryTime := ""; ValidityPeriod := ""; RegisteredDelivery := NUL;
     ReplaceIfPresent := NUL; DataCoding := NUL; SMDefaultMsgID := NUL;
     ShortMessage := bytes_of_string "hello"; Message_TLVs := [] |}.

Definition sample_submit : PDU := mkPDU SubmitSM 0 7 (Some (BodyMessage sample_msg)).

Lemma sample_submittable : submittable sample_bound sample_submit sample_msg.
Proof. split; [apply sample_bound_safe | vm_compute; reflexivity..]. Qed.

Definition submitted : may_panic (() * world PCG) := handleSubmit sample_submit sample_env sample_bound.

Lemma handleSubmit_commits_witness :
  exists w', submitted = Ok ((), w') /\ s_perBindClock (w_session w') = 1 /\
    v_logicalClock (w_smsc w') = 1.
Proof.
  destruct (handleSubmit_commits sample_submit sample_msg sample_env sample_bound sample_submittable)
    as (d & e & st & st' & w' & _ & Hrun & _ & Hres).
  exists w'. split; [exact Hrun|]. unfold abandoned in Hres. rewrite andb_false_r in Hres.
  destruct Hres as (Hc & Hl & _). rewrite Hc, Hl. split; vm_compute; reflexivity.
Defined.

Lemma handleSubmit_answers_witness :
  exists d w', submitted = Ok ((), w') /\
    responses (drop (length (w_out sample_bound)) (w_out w')) =
      option_list (answer_frame sample_submit d "1-0001").
Proof.
  destruct (handleSubmit_answers sample_submit sample_msg sample_env sample_bound sample_submittable)
    as (d & e & st & st' & w' & _ & Hrun & Hres).
  exists d, w'. split; [exact Hrun|]. destruct Hres as (Hr & _); [unfold abandoned; apply andb_false_r|].
  exact Hr.
Defined.

Lemma handleSubmit_schedules_witness :
  exists w', submitted = Ok ((), w') /\
    (DueTick <$> pending (s_sched (w_session w')) = [3] /\
     exists due, Forall (fun ev => DueTick ev <= 1) due /\
       (forget <$> due) ++ (forget <$> pending (s_sched (w_session w'))) ≡ₚ
       new_receipt sample_bound 1 "1-0001" sample_submit sample_msg
         (mkDecision OutcomeSuccess 0 20 "" (Some (mkDLRPlan DLRDelivered 2)) None)).
Proof.
  destruct (handleSubmit_schedules sample_submit sample_msg sample_env sample_bound sample_submittable)
    as (d & e & st & st' & w' & (He & Hst & Hev) & Hrun & Hres).
  { split; constructor. } { vm_compute. split; congruence. }
  exists w'. split; [exact Hrun|].
  assert (d = mkDecision OutcomeSuccess 0 20 "" (Some (mkDLRPlan DLRDelivered 2)) None) as ->.
  { vm_compute in He, Hst. injection He as <-. injection Hst as <-. vm_compute in Hev. congruence. }
  destruct Hres as (due & Hperm & Hd & _ & _ & _ & _); [reflexivity..|].
  split.
  - unfold submitted in Hrun. vm_compute in Hrun. injection Hrun as <-. reflexivity.
  - exists due. split; [exact Hd|]. rewrite Hperm. reflexivity.
Defined.
