(* ===== verification/ReadLoop.v ===== *)
(** * The read loop ([readLoop], [armReadDeadline], [frameReader], [readFailure] of [session.go])

    One iteration arms the read deadline, reads a frame, and handles it or the
    failure; the loop runs until a handler or a failure closes the session.  The
    connection is the event list of the codec's framing; the readings of the wall
    clock and the two checks of the quit channel are inputs of each iteration. *)

From S2P Require Import Prelude.
From S2P Require Import SmppPdu.
From S2P Require Import SmppCodec.
From S2P Require Import SmppCodecThms.
From S2P Require Import SmppFraming.
From S2P Require Import SmppEdge.
From S2P Require Import SmppReceipt.
From S2P Require Import Rng.
From S2P Require Import Schedule.
From S2P Require Import Recorder.
From S2P Require Import Config.
From S2P Require Import Fault.
From S2P Require Import Scenario.
From S2P Require Import Dlr.
From S2P Require Import Close.
From S2P Require Import Binds.
From S2P Require Import VirtualSMSC.
From S2P Require Import EngineSafety.
From S2P Require Import SessionState.
From S2P Require Import Session.
From S2P Require Import SessionRuns.
From S2P Require Import SessionBind.
From S2P Require Import SessionThms.

(** ** One iteration *)

Record ReadEnv := mkReadEnv {
  re_env : Env;
  re_armNow : Z;        (* when the deadline is armed *)
  re_quitBefore : bool; (* quit is closed before the read *)
  re_frameNow : Z;      (* when the first byte of a frame arrives *)
  re_quitAfter : bool;  (* quit is closed when the read fails *)
  re_failNow : Z        (* when the read fails *)
}.

Section Loop.
Context {R : Type} `{RandSource R}.
Implicit Types (w : world R).

Definition armReadDeadline (now : Z) : M R () :=
  idle ← gets_v v_idleTimeout;
  sched ← gets s_sched;
  last ← gets s_lastSubmit;
  quiescence ← gets s_quiescence;
  let deadline := now + idle in
  let q := last + quiescence in
  modify (set_s_readDeadline (if (0 <? Schedule.Len sched)%nat && (q <? deadline) then q else deadline)).

(** [net.Error.Timeout]; [ErrPartialFrame] hides its cause. *)
Definition isTimeout (err : CodecError) : bool :=
  match err with ErrIO Timeout => true | _ => false end.

Definition readFailure (quit : bool) (err : CodecError) (now : Z) : M R closeReason :=
  if quit then mret reasonShutdown
  else
    deadline ← gets s_readDeadline;
    mret (match err with
          | ErrIO EOF => reasonClientEOF
          | ErrBadCommandLength _ => reasonProtocolError
          | ErrPartialFrame => if negb (now <? deadline) then reasonPartialFrameTimeout else reasonReadError
          | _ => reasonReadError
          end).

(** Whether the next read delivers a byte of a frame. *)
Fixpoint starts (c : conn) : bool :=
  match c with
  | Recv [] :: c => starts c
  | Recv (_ :: _) :: _ => true
  | _ => false
  end.

(** The first byte of a frame gives the rest of it the idle window. *)
Definition extendDeadline (now : Z) : M R () :=
  idle ← gets_v v_idleTimeout;
  modify (set_s_readDeadline (now + idle)).

(** The outcome of a read that failed; [true] means the loop goes on. *)
Definition handleReadError (re : ReadEnv) (err : CodecError) : M R bool :=
  if isTimeout err then
    if re_quitAfter re then closeWith reasonShutdown None;; mret false
    else
      sched ← gets s_sched;
      if (0 <? Schedule.Len sched)%nat then
        last ← gets s_lastSubmit;
        quiescence ← gets s_quiescence;
        if time_Sub (re_failNow re) last >=? quiescence then
          flushSchedule;;
          state ← gets s_state;
          mret (negb (bool_decide (state = stateClosed)))
        else mret true
      else closeWith reasonIdleTimeout (Some err);; mret false
  else
    reason ← readFailure (re_quitAfter re) err (re_failNow re);
    closeWith reason (Some err);;
    reason ← gets s_closeReason;
    when (bool_decide (reason = Some reasonProtocolError))
      (send (mkPDU GenericNack StatusInvCmdLen 0 None));;
    mret false.

Definition handleFrame (frame : bytes) : M R bool :=
  modify (fun s => set_s_pdusRead (s_pdusRead s +64 1) s);;
  match Decode frame with
  | Panic => lift Panic
  | Err err => rejectMalformed frame err;; mret true
  | Ok pdu =>
      handle pdu;;
      state ← gets s_state;
      mret (negb (bool_decide (state = stateClosed)))
  end.

(** [Some c] is the connection the loop goes on with, [None] its return. *)
Definition readLoop_iter (re : ReadEnv) (c : conn) : M R (option conn) :=
  armReadDeadline (re_armNow re);;
  if re_quitBefore re then closeWith reasonShutdown None;; mret None
  else
    let '(res, c') := ReadPDU c in
    when (starts c) (extendDeadline (re_frameNow re));;
    goon ← match res with
           | Panic => lift Panic
           | Err err => handleReadError re err
           | Ok frame => handleFrame frame
           end;
    mret (if goon : bool then Some c' else None).

(** [None] when the fuel runs out, which [readLoop_ends] excludes. *)
Fixpoint readLoop (fuel : nat) (envs : nat -> ReadEnv) (c : conn) w : may_panic (option (world R)) :=
  match fuel with
  | O => Ok None
  | S fuel =>
      let* r := readLoop_iter (envs O) c (re_env (envs O)) w in
      match r.1 with
      | None => Ok (Some r.2)
      | Some c => readLoop fuel (fun n => envs (S n)) c r.2
      end
  end.

End Loop.

(** ** Reading makes progress *)

Lemma flat_read_progress need got l g o l' :
  flat_read need got l = (g, o, l') ->
  (length l' <= length l)%nat /\
  match o with
  | None => (length l' + length g = length l + length got)%nat
  | Some e => (length l' < length l)%nat \/ e = EOF \/ e = UnexpectedEOF
  end.
Proof.
  revert got. induction l as [|[b|e] l IH]; intros got; cbn [flat_read];
    destruct (need <=? length got)%nat; try (intros [= <- <- <-]; simpl; lia).
  - intros [= <- Ho <-]. split; [done|]. subst o. unfold short_read. case_bool_decide; auto.
  - intros Hr%IH. rewrite length_app in Hr. destruct Hr as [Hle Hm]. simpl in *. split; [lia|].
    destruct o; [|lia]. destruct Hm; [left; lia | by right].
Qed.

Definition pending_input (c : conn) : nat := length (flatten c).

Lemma ReadPDU_progress c res c' :
  ReadPDU c = (res, c') ->
  match res with
  | Ok _ => (pending_input c' < pending_input c)%nat
  | Err err => isTimeout err = true -> (pending_input c' < pending_input c)%nat
  | Panic => False
  end.
Proof.
  intros Hr. pose proof (ReadPDU_flat c) as Hf. rewrite Hr in Hf. cbn [fst snd] in Hf.
  unfold flat_ReadPDU in Hf. unfold pending_input.
  destruct (flat_read 4 [] (flatten c)) as [[g [e|]] l] eqn:H4.
  - pose proof (flat_read_progress _ _ _ _ _ _ H4) as [_ Hp].
    destruct (0 <? len g); injection Hf as <- <-.
    + unfold partial. case_bool_decide; [subst|]; done.
    + simpl. destruct e; try done. intros _. destruct Hp as [?|[|]]; done.
  - assert (length g = 4%nat) as Hg by (eapply flat_read_length; [|exact H4]; simpl; lia).
    pose proof (flat_read_progress _ _ _ _ _ _ H4) as [_ Hp]. simpl in Hp.
    destruct (_ || _); [by injection Hf as <- <-|].
    destruct (flat_read _ [] l) as [[g1 [e1|]] l1] eqn:H5; injection Hf as <- <-.
    + unfold partial. by case_bool_decide; [subst|].
    + pose proof (flat_read_progress _ _ _ _ _ _ H5) as [? _]. lia.
Qed.

(** ** The loop never panics and always ends *)

Section LoopThms.
Context {R : Type} `{RandSource R}.
Implicit Types (w : world R).

(** The invariant of the loop: safe and still open. *)
Definition looping w : Prop := world_safe w /\ s_state (w_session w) <> stateClosed.

Lemma upd_deadline_safe x w : world_safe w -> world_safe (upd (set_s_readDeadline x) w).
Proof. intros [Hv []]. split; [done|]. by split. Qed.

Lemma upd_pdusRead_safe x w : world_safe w -> world_safe (upd (set_s_pdusRead x) w).
Proof. intros [Hv []]. split; [done|]. by split. Qed.

(** A handler's verdict: go on while the session is not closed. *)
Definition goes_on (goon : bool) w : Prop :=
  world_safe w /\
  if goon then s_state (w_session w) <> stateClosed
  else s_state (w_session w) = stateClosed /\ is_Some (s_closeReason (w_session w)).

Lemma goes_on_state w :
  world_safe w -> goes_on (negb (bool_decide (s_state (w_session w) = stateClosed))) w.
Proof.
  intros Hs. split; [done|]. case_bool_decide as Hc; simpl; [|done]. split; [done|]. by apply Hs.
Qed.

Lemma goes_on_closed reason err w : world_safe w -> goes_on false (closed_world reason err w).
Proof. intros Hs. split; [by apply closed_safe|]. split; [done|]. by eexists. Qed.

Lemma handleReadError_ok re err w :
  looping w -> exists goon w', handleReadError re err (re_env re) w = Ok (goon, w') /\ goes_on goon w' /\
    (goon = true -> isTimeout err = true).
Proof.
  intros [Hs Hst]. unfold handleReadError. destruct (isTimeout err).
  - destruct (re_quitAfter re).
    { eexists _, _. split; [by erewrite M_bind_run by apply closeWith_run|]. split; [by apply goes_on_closed|done]. }
    rewrite gets_run. destruct (0 <? _)%nat.
    + rewrite !gets_run. destruct (_ >=? _); [|by eexists true, w].
      destruct (flushSchedule_safe (re_env re) w Hs Hst) as (w' & Hrun & Hs').
      erewrite M_bind_run by exact Hrun. rewrite gets_run. eexists _, w'. split; [done|].
      split; [by apply goes_on_state|done].
    + eexists _, _. split; [by erewrite M_bind_run by apply closeWith_run|]. split; [by apply goes_on_closed|done].
  - unfold readFailure.
    assert (exists reason, forall k : closeReason -> M R bool,
      ((if re_quitAfter re then mret reasonShutdown
        else deadline ← gets s_readDeadline;
          mret (match err with
            | ErrIO EOF => reasonClientEOF
            | ErrBadCommandLength _ => reasonProtocolError
            | ErrPartialFrame => if negb (re_failNow re <? deadline) then reasonPartialFrameTimeout else reasonReadError
            | _ => reasonReadError
            end)) ≫= k) (re_env re) w = k reason (re_env re) w) as [reason Hk].
    { destruct (re_quitAfter re); by eexists. }
    rewrite Hk. erewrite M_bind_run by apply closeWith_run. rewrite gets_run. unfold when.
    case_bool_decide.
    + erewrite M_bind_run by apply sendKind_run. eexists false, _. split; [done|]. split; [|done].
      destruct (goes_on_closed reason (Some err) w Hs) as [Hs' Hc]. split; [by apply add_out_safe | exact Hc].
    + erewrite M_bind_run by reflexivity. eexists false, _. split; [done|]. split; [by apply goes_on_closed|done].
Qed.

Definition reject_out (p : option PDU) : list effect :=
  match p with Some p => send_out p kindResp | None => [] end.

(** The answer to a malformed frame depends on the frame alone. *)
Lemma rejectMalformed_run frame err :
  HeaderLen <= len frame ->
  exists p, forall env w, rejectMalformed frame err env w = Ok ((), add_out (reject_out p) w).
Proof.
  intros Hl. unfold HeaderLen in Hl.
  destruct (word_of_slice (E := Empty_set) frame 4) as (a & Ha & Hau); [lia..|].
  destruct (word_of_slice (E := Empty_set) frame 12) as (b & Hb & Hbu); [lia..|].
  change (4 + 4) with 8 in Ha. change (12 + 4) with 16 in Hb.
  assert (forall env w (k : Z -> Z -> M R ()), (a ← lift (go_slice frame 4 8); id ← lift (be_uint 4 a);
    b ← lift (go_slice frame 12 16); seq ← lift (be_uint 4 b); k id seq) env w =
    k (header_word frame (Z.to_nat 4)) (header_word frame (Z.to_nat 12)) env w) as Hk.
  { intros env w k. erewrite M_bind_run by (unfold lift; by rewrite Ha).
    erewrite M_bind_run by (unfold lift; by rewrite Hau).
    erewrite M_bind_run by (unfold lift; by rewrite Hb).
    by erewrite M_bind_run by (unfold lift; by rewrite Hbu). }
  unfold rejectMalformed. generalize dependent (header_word frame (Z.to_nat 4)). intros id _ Hk.
  assert (forall st, exists p, forall env w, (if IsResponse id then mret ()
     else send (mkPDU (Response id) st (header_word frame (Z.to_nat 12)) None)) env w =
     Ok ((), add_out (reject_out p) w)) as Hrest.
  { intros st. destruct (IsResponse _); [exists None; intros env w; by rewrite add_out_nil |].
    eexists (Some _). intros env w. apply sendKind_run. }
  destruct err; setoid_rewrite Hk; first [apply Hrest | eexists (Some _); intros env w; apply sendKind_run].
Qed.

Lemma handleFrame_ok frame env w :
  looping w -> HeaderLen <= len frame ->
  exists goon w', handleFrame frame env w = Ok (goon, w') /\ goes_on goon w'.
Proof.
  intros [Hs Hst] Hl. unfold handleFrame. rewrite modify_run.
  pose proof (upd_pdusRead_safe (s_pdusRead (w_session w) +64 1) w Hs) as Hs1.
  pose proof (Decode_total frame) as Hnp. destruct (Decode frame) as [pdu|err|]; [| |done].
  - destruct (handle_safe pdu env _ Hs1) as (w' & Hrun & Hs').
    erewrite M_bind_run by exact Hrun. rewrite gets_run. eexists _, w'. split; [done|]. by apply goes_on_state.
  - destruct (rejectMalformed_run frame err Hl) as [p Hrun].
    erewrite M_bind_run by apply Hrun. eexists true, _. split; [done|]. split; [by apply add_out_safe|done].
Qed.

Definition armed (now : Z) w : Z :=
  let deadline := now + v_idleTimeout (w_smsc w) in
  let q := s_lastSubmit (w_session w) + s_quiescence (w_session w) in
  if (0 <? Schedule.Len (s_sched (w_session w)))%nat && (q <? deadline) then q else deadline.

Lemma armReadDeadline_run now env w :
  armReadDeadline now env w = Ok ((), upd (set_s_readDeadline (armed now w)) w).
Proof. reflexivity. Qed.

Lemma readLoop_iter_ok re c w :
  looping w ->
  exists r w', readLoop_iter re c (re_env re) w = Ok (r, w') /\
    match r with
    | Some c' => looping w' /\ (pending_input c' < pending_input c)%nat
    | None => goes_on false w'
    end.
Proof.
  intros [Hs Hst]. unfold readLoop_iter. erewrite M_bind_run by apply armReadDeadline_run.
  set (w1 := upd (set_s_readDeadline (armed (re_armNow re) w)) w).
  assert (looping w1) as Hl1 by (split; [by apply upd_deadline_safe | done]).
  destruct (re_quitBefore re).
  { eexists None, _. split; [by erewrite M_bind_run by apply closeWith_run|]. apply goes_on_closed, Hl1. }
  destruct (ReadPDU c) as [res c'] eqn:Hr. pose proof (ReadPDU_progress c res c' Hr) as Hp.
  assert (exists w2, when (starts c) (extendDeadline (re_frameNow re)) (re_env re) w1 = Ok ((), w2) /\
    looping w2) as (w2 & Hw2 & Hl2).
  { unfold when. destruct (starts c); [|by exists w1].
    eexists. split; [reflexivity|]. split; [by apply upd_deadline_safe, Hl1 | done]. }
  erewrite M_bind_run by exact Hw2.
  destruct res as [frame|err|]; [| |done].
  - destruct (ReadPDU_Ok_length c frame c' Hr) as [[Hlen _] _].
    destruct (handleFrame_ok frame (re_env re) w2 Hl2 Hlen) as (goon & w' & Hrun & Hg).
    erewrite M_bind_run by exact Hrun. exists (if goon then Some c' else None), w'. split; [done|].
    destruct goon; [|done]. destruct Hg as [? ?]. done.
  - destruct (handleReadError_ok re err w2 Hl2) as (goon & w' & Hrun & Hg & Ht).
    erewrite M_bind_run by exact Hrun. exists (if goon then Some c' else None), w'. split; [done|].
    destruct goon; [|done]. destruct Hg as [? ?]. split; [done|]. by apply Hp, Ht.
Qed.

End LoopThms.

(** Enough fuel for the input ends the loop. *)
Lemma readLoop_total {R} `{RandSource R} n (envs : nat -> ReadEnv) c (w : world R) :
  looping w -> (pending_input c < n)%nat ->
  exists w', readLoop n envs c w = Ok (Some w') /\ goes_on false w'.
Proof.
  revert envs c w. induction n as [|n IH]; intros envs c w Hl Hc; [lia|].
  cbn [readLoop]. destruct (readLoop_iter_ok (envs 0%nat) c w Hl) as (r & w' & -> & Hr).
  rewrite obind_Ok. cbn [fst snd]. destruct r as [c'|]; [|by exists w'].
  destruct Hr as [Hl' Hlt]. apply IH; [done|lia].
Qed.

(** C9: a session always ends, and always for a reason.  Whatever bytes the peer
    sends, well formed or not, whatever timeouts and errors the transport
    reports, whenever the engine shuts down, and whatever the clocks read: the
    loop over a connection with [n] pending bytes and errors performs at most
    [n + 1] iterations, never panics, and leaves the session closed with a close
    reason set, so that a missing reason really means a panic. *)
Theorem readLoop_ends {R} `{RandSource R} (envs : nat -> ReadEnv) c (w : world R) :
  looping w ->
  exists w', readLoop (S (pending_input c)) envs c w = Ok (Some w') /\
    s_state (w_session w') = stateClosed /\ is_Some (s_closeReason (w_session w')) /\ world_safe w'.
Proof.
  intros Hl. destruct (readLoop_total (S (pending_input c)) envs c w Hl ltac:(lia)) as (w' & Hrun & Hs & Hc & Hre).
  by exists w'.
Qed.

Definition sample_env_at (now : Z) : ReadEnv := mkReadEnv sample_env now false now false now.

Definition bind_frame : bytes := match Encode sample_bind_pdu with Ok f => f | _ => [] end.

Lemma sample_world_looping : looping sample_world.
Proof.
  split; [|done]. split; [apply newVirtualSMSC_safe; apply sample_vs_ok | apply newSession_safe].
Qed.

(** A client that binds, sends garbage and hangs up. *)
Lemma readLoop_ends_witness :
  exists w', readLoop 100 (fun n => sample_env_at (Z.of_nat n)) [Recv bind_frame; Recv [NUL; NUL]] sample_world =
    Ok (Some w') /\ s_closeReason (w_session w') = Some reasonReadError.
Proof.
  destruct (readLoop_ends (fun n => sample_env_at (Z.of_nat n)) [Recv bind_frame; Recv [NUL; NUL]] sample_world
    sample_world_looping) as (w' & Hrun & _).
  exists w'. vm_compute in Hrun. injection Hrun as <-. split; vm_compute; reflexivity.
Defined.


(** The sample bind after its submit, silent for the default quarter of a second. *)
Definition sample_silent : world PCG :=
  match submitted with Ok (_, w) => w | _ => sample_world end.

Lemma sample_silent_looping : looping sample_silent.
Proof.
  destruct (handleSubmit_safe sample_submit sample_env sample_bound sample_bound_safe) as (w' & Hrun & Hs).
  unfold sample_silent, submitted. split; [by rewrite Hrun | vm_compute; discriminate].
Qed.

Definition silent_env : ReadEnv := mkReadEnv sample_env 0 false 0 false (300 * Millisecond).

