(* ===== verification/SessionFrame.v ===== *)
(** * What every handler leaves alone

    A relation between the worlds before and after a computation, closed under
    the few ways the handlers touch the world, holds of every handler but the two
    that bind and commit: the class [FrameRel] states what a client of the handlers
    has to provide, and the lemmas below carry it through the whole of
    [session.go], [dlr.go] and [schedule_events.go]. *)

From S2P Require Import Prelude.
From S2P Require Import SmppPdu.
From S2P Require Import SmppCodec.
From S2P Require Import SmppFraming.
From S2P Require Import SmppReceipt.
From S2P Require Import Rng.
From S2P Require Import Schedule.
From S2P Require Import Config.
From S2P Require Import Scenario.
From S2P Require Import Dlr.
From S2P Require Import Close.
From S2P Require Import Binds.
From S2P Require Import VirtualSMSC.
From S2P Require Import SessionState.
From S2P Require Import Session.
From S2P Require Import SessionRuns.
From S2P Require Import ReadLoop.

(** ** The interface *)

(** Updates of the session other than those of a bind and of a commit: they may
    close the session, and never open or bind it. *)
Record benign {R} (f : session R -> session R) : Prop := {
  bg_id : forall s, s_id (f s) = s_id s;
  bg_bound : forall s, s_bound (f s) = s_bound s;
  bg_clock : forall s, s_perBindClock (f s) = s_perBindClock s;
  bg_state : forall s, s_state (f s) = s_state s \/ s_state (f s) = stateClosed
}.

Definition counts_bind (m : metric) : bool := match m with IncBind _ _ => true | _ => false end.

Class FrameRel {R} (Rel : Env -> world R -> world R -> Prop) : Prop := {
  frame_refl : forall env w, Rel env w w;
  frame_trans : forall env w1 w2 w3, Rel env w1 w2 -> Rel env w2 w3 -> Rel env w1 w3;
  frame_modify : forall env f w, benign f -> Rel env w (upd f w);
  frame_profile : forall env p w, Rel env w (upd_v (set_v_activeProfile p) w);
  frame_metric : forall env m w, counts_bind m = false -> Rel env w (add_out [Metric m] w);
  frame_send : forall env b k w, Rel env w (add_out [SendBytes b k] w);
  frame_receipt : forall env d w, Rel env w (add_out (dlr_out env d) w);
  frame_defer : forall env b d w,
    Rel env w (add_out [SendWhen (ReadyAfter d) b kindResp (Some (w_nextChan w))]
                 (set_w_nextChan (w_nextChan w + 1) w))
}.

(** A computation all of whose runs respect the relation. *)
Definition respects {R A} (Rel : Env -> world R -> world R -> Prop) (m : M R A) : Prop :=
  forall env w a w', m env w = Ok (a, w') -> Rel env w w'.

Create HintDb frame.
#[export] Hint Extern 0 (FrameRel _) => typeclasses eauto : frame.

(** ** The monad *)

Section Monad.
Context {R : Type} (Rel : Env -> world R -> world R -> Prop) `{HF : !FrameRel Rel}.

Lemma respects_bind {A B} (m : M R A) (f : A -> M R B) :
  respects Rel m -> (forall a, respects Rel (f a)) -> respects Rel (m ≫= f).
Proof.
  intros Hm Hf env w b w' Hrun. unfold mbind, M_bind in Hrun.
  destruct (m env w) as [[a w1]| |] eqn:Hmr; [|done..].
  eapply frame_trans; [by eapply Hm|by eapply Hf].
Qed.

(** Computations that only read. *)
Definition reads {A} (m : M R A) : Prop := forall env w a w', m env w = Ok (a, w') -> w' = w.

Lemma respects_reads {A} (m : M R A) : reads m -> respects Rel m.
Proof. intros Hm env w a w' Hrun. rewrite (Hm _ _ _ _ Hrun). apply frame_refl. Qed.

Lemma respects_ret {A} (a : A) : respects Rel (mret a).
Proof. apply respects_reads. by intros env w a' w' [= _ <-]. Qed.

Lemma respects_gets {A} (f : session R -> A) : respects Rel (gets f).
Proof. apply respects_reads. by intros env w a w' [= _ <-]. Qed.

Lemma respects_gets_v {A} (f : virtualSMSC -> A) : respects Rel (gets_v f).
Proof. apply respects_reads. by intros env w a w' [= _ <-]. Qed.

Lemma respects_ask {A} (f : Env -> A) : respects Rel (ask f).
Proof. apply respects_reads. by intros env w a w' [= _ <-]. Qed.

Lemma respects_lift {A} (m : may_panic A) : respects Rel (lift m).
Proof. apply respects_reads. intros env w a w'. unfold lift. by destruct m; [intros [= _ <-]|..]. Qed.

Lemma respects_nonnil {A} (p : option A) : respects Rel (nonnil p).
Proof. apply respects_reads. intros env w a w'. unfold nonnil. by destruct p; [intros [= _ <-]|]. Qed.

Lemma respects_encode pdu edge : respects Rel (encode pdu edge).
Proof. apply respects_reads. intros env w a w'. rewrite encode_run. by intros [= _ <-]. Qed.

Lemma respects_modify f : benign f -> respects Rel (modify f).
Proof. intros Hf env w a w' [= _ <-]. by apply frame_modify. Qed.

Lemma respects_metric m : counts_bind m = false -> respects Rel (emit (Metric m)).
Proof. intros Hm env w a w' [= _ <-]. by apply (frame_metric env m). Qed.

Lemma respects_sendBytes b k : respects Rel (sendBytes b k).
Proof. intros env w a w' [= _ <-]. apply frame_send. Qed.

Lemma respects_emitDLR d : respects Rel (emitDLR d).
Proof. intros env w a w'. rewrite emitDLR_run. intros [= _ <-]. apply frame_receipt. Qed.

Lemma respects_respond b latencyMS : respects Rel (respond b latencyMS).
Proof.
  intros env w a w'. rewrite respond_run. cbn zeta. unfold defers, respond_out.
  destruct b as [b|]; [|intros [= _ <-]; rewrite add_out_nil; apply frame_refl].
  destruct (latencyMS =? 0); cbn [negb]; intros [= _ <-]; [apply frame_send|apply frame_defer].
Qed.

Lemma respects_applyTransition to : respects Rel (applyTransition to).
Proof.
  intros env w a w'. rewrite applyTransition_run. intros [= _ <-]. unfold transition_world.
  destruct (v_engines (w_smsc w) !! to) as [e|]; [|apply frame_refl].
  eapply frame_trans; [|by apply frame_metric]. eapply frame_trans; [|apply frame_profile].
  apply frame_modify. split; auto.
Qed.

End Monad.

#[export] Hint Resolve respects_ret respects_gets respects_gets_v respects_ask respects_lift respects_nonnil
  respects_encode respects_sendBytes respects_emitDLR respects_respond respects_applyTransition : frame.

(** ** The handlers *)

Ltac prove_benign := split; intros; first [reflexivity | left; reflexivity | right; reflexivity].

(** Every shape of computation the handlers are built from. *)
Ltac respect :=
  repeat first
    [ solve [eauto with frame]
    | apply respects_bind; [typeclasses eauto|..|intros ?]
    | apply respects_metric; [typeclasses eauto|reflexivity]
    | apply respects_modify; [typeclasses eauto|prove_benign]
    | match goal with
      | |- respects _ (match ?b with _ => _ end) => destruct b
      | |- respects _ (when ?b _) => unfold when
      end ].

Section Handlers.
Context {R : Type} `{RandSource R} (Rel : Env -> world R -> world R -> Prop) `{HF : !FrameRel Rel}.
Implicit Types (pdu : PDU).

Lemma respects_sendKind pdu k : respects Rel (sendKind pdu k).
Proof. unfold sendKind. respect. Qed.
Hint Resolve respects_sendKind : frame.

Lemma respects_send pdu : respects Rel (send pdu).
Proof. apply respects_sendKind. Qed.
Hint Resolve respects_send : frame.

Lemma respects_closeWith reason err : respects Rel (closeWith reason err).
Proof. unfold closeWith. respect. Qed.
Hint Resolve respects_closeWith : frame.

Lemma respects_schedule t p : respects Rel (schedule t p).
Proof. unfold schedule. respect. Qed.
Hint Resolve respects_schedule : frame.

Lemma respects_dispatch_all evs : respects Rel (dispatch_all evs).
Proof. induction evs as [|ev evs IH]; simpl; [respect|]. unfold dispatch, emitMO. respect. Qed.
Hint Resolve respects_dispatch_all : frame.

Lemma respects_flushSchedule : respects Rel flushSchedule.
Proof. unfold flushSchedule. respect. Qed.
Hint Resolve respects_flushSchedule : frame.

Lemma respects_isDisconnectTarget scope t : respects Rel (isDisconnectTarget scope t).
Proof. unfold isDisconnectTarget. respect. Qed.
Hint Resolve respects_isDisconnectTarget : frame.

Lemma respects_dueDisconnects ds clock : respects Rel (dueDisconnect_loop ds clock).
Proof. induction ds as [|d ds IH]; simpl; respect. Qed.
Hint Resolve respects_dueDisconnects : frame.

Lemma respects_applyDueDisconnects ds clock : respects Rel (applyDueDisconnects_loop ds clock).
Proof. induction ds as [|d ds IH]; simpl; respect. Qed.
Hint Resolve respects_applyDueDisconnects : frame.

Lemma respects_applyDueTransitions ts clock : respects Rel (applyDueTransitions_loop ts clock).
Proof. induction ts as [|t ts IH]; simpl; respect. Qed.
Hint Resolve respects_applyDueTransitions : frame.

Lemma respects_drainSubmit : respects Rel drainSubmit.
Proof. unfold drainSubmit, drainDue, applyDueDisconnects. respect. Qed.
Hint Resolve respects_drainSubmit : frame.

Lemma respects_submitResp pdu d status body : respects Rel (submitResp pdu d status body).
Proof. unfold submitResp, observeServed. respect. Qed.
Hint Resolve respects_submitResp : frame.

Lemma respects_answerSubmit pdu d msg id : respects Rel (answerSubmit pdu d msg id).
Proof. unfold answerSubmit, observeServed, scheduleDLR. respect. Qed.
Hint Resolve respects_answerSubmit : frame.

(** A submit is a commit in a frame. *)
Lemma respects_handleSubmit pdu :
  (forall tick d msg, respects Rel (commitSubmit tick d msg)) -> respects Rel (handleSubmit pdu).
Proof.
  intros Hc. unfold handleSubmit, applyDueTransitions, evaluateSubmit, serveLatency, dueDisconnectBeforeResponse.
  respect.
Qed.

Lemma respects_handle pdu :
  respects Rel (handleBind pdu) -> (forall tick d msg, respects Rel (commitSubmit tick d msg)) ->
  respects Rel (handle pdu).
Proof. intros Hb Hc. pose proof (respects_handleSubmit pdu Hc). unfold handle. respect. Qed.

Lemma respects_rejectMalformed frame err : respects Rel (rejectMalformed frame err).
Proof. unfold rejectMalformed. respect. Qed.
Hint Resolve respects_rejectMalformed : frame.

Lemma respects_handleReadError re err : respects Rel (handleReadError re err).
Proof. unfold handleReadError, readFailure. respect. Qed.
Hint Resolve respects_handleReadError : frame.

Lemma respects_readLoop_iter re c :
  (forall frame, respects Rel (handleFrame frame)) -> respects Rel (readLoop_iter re c).
Proof. intros Hf. unfold readLoop_iter, armReadDeadline, extendDeadline. respect. Qed.

Lemma respects_handleFrame frame :
  (forall pdu, respects Rel (handle pdu)) -> respects Rel (handleFrame frame).
Proof. intros Hh. unfold handleFrame. respect. Qed.

End Handlers.

#[export] Hint Resolve respects_sendKind respects_send respects_closeWith respects_rejectMalformed
  respects_handleReadError : frame.
