(* ===== verification/Replay.v ===== *)
(** * Replaying a bind ([internal/smsc], the whole of a session's behaviour)

    The simulator promises that a seeded bind replays: what it answers, records
    and delivers is a function of the PDUs it is sent, not of the wall clock, of
    the other binds of the SMSC or of the moment a held-back response leaves.
    Two runs of a session are compared here up to what may legitimately differ. *)

From S2P Require Import Prelude.
From S2P Require Import SmppPdu.
From S2P Require Import SmppCodec.
From S2P Require Import SmppCodecThms.
From S2P Require Import SmppEdge.
From S2P Require Import SmppReceipt.
From S2P Require Import Rng.
From S2P Require Import Schedule.
From S2P Require Import Recorder.
From S2P Require Import Config.
From S2P Require Import Fault.
From S2P Require Import Validate.
From S2P Require Import ValidateThms.
From S2P Require Import Scenario.
From S2P Require Import ScenarioThms.
From S2P Require Import Dlr.
From S2P Require Import Close.
From S2P Require Import Binds.
From S2P Require Import VirtualSMSC.
From S2P Require Import EngineSafety.
From S2P Require Import SessionState.
From S2P Require Import Session.
From S2P Require Import SessionRuns.
From S2P Require Import SessionBind.
From S2P Require Import SessionThms.
From S2P Require Import ReadLoop.

(** ** What a peer sees of the effects *)

(** An effect without its timing: a PDU sent now or held back is the same PDU. *)
Inductive content := CPDU (b : bytes) (k : Kind) | CMetric (m : metric).

Definition content_of (e : effect) : content :=
  match e with
  | SendBytes b k | SendWhen _ b k _ => CPDU b k
  | Metric m => CMetric m
  end.

Definition is_delivery (c : content) : bool :=
  match c with CPDU _ k => negb (bool_decide (k = kindResp)) | CMetric _ => false end.

Definition frame_content (p : bytes * Kind) : content := CPDU p.1 p.2.

(** The deliveries of a list of events. *)
Definition events_content (canReceive : bool) (evs : list (Event payload)) : list content :=
  frame_content <$> (evs ≫= event_frame canReceive).

Lemma dispatch_out_content env canReceive ev :
  content_of <$> dispatch_out env canReceive ev = events_content canReceive [ev].
Proof.
  unfold events_content. change ([ev] ≫= event_frame canReceive) with (event_frame canReceive ev ++ []).
  rewrite app_nil_r.
  unfold dispatch_out, event_frame, dlr_out, mo_out, send_out.
  destruct (Payload ev) as [d|m|]; [| |done].
  - generalize (encoded (receipt_pdu d) None). intros [b|]; destruct (d_respSent d) as [c|]; try done;
      by destruct (env_closed env c).
  - destruct canReceive; [|done]. generalize (encoded (NewMobileOriginated (m_sourceAddr m)
      (m_destAddr m) (m_content m)) None). by intros [].
Qed.

Lemma events_content_app canReceive l1 l2 :
  events_content canReceive (l1 ++ l2) = events_content canReceive l1 ++ events_content canReceive l2.
Proof. unfold events_content. by rewrite bind_app, fmap_app. Qed.

Lemma dispatches_content env canReceive evs :
  content_of <$> concat (dispatch_out env canReceive <$> evs) = events_content canReceive evs.
Proof.
  induction evs as [|ev evs IH]; [done|]. csimpl.
  rewrite fmap_app, IH, dispatch_out_content. by rewrite <- events_content_app.
Qed.

(** ** The part of a world that replays *)

Section Settled.
Context {R : Type}.
Implicit Types (s : session R).

(** The session with its wall-clock readings and its runner replaced. *)
Definition reclock (sched : Runner payload) (lastSubmit openedAt readDeadline : Z) s : session R :=
  mkSession (s_id s) (s_state s) (s_bindType s) (s_canSubmit s) (s_canReceive s) (s_systemID s)
    (s_perBindClock s) (s_scenarioState s) (s_currentEngine s) (s_transitions s)
    (s_transitionCursor s) (s_disconnects s) (s_disconnectCursor s) sched (s_quiescence s)
    lastSubmit (s_bound s) openedAt (s_closeReason s) (s_closeErr s) readDeadline (s_pdusRead s).

(** Two sessions that agree on everything but the clock readings and the runner. *)
Definition same_session s1 s2 : Prop :=
  s1 = reclock (s_sched s1) (s_lastSubmit s1) (s_openedAt s1) (s_readDeadline s1) s2.

#[export] Instance same_session_equivalence : Equivalence same_session.
Proof.
  unfold same_session, reclock. split.
  - intros s. by destruct s.
  - intros s1 s2 Hs. destruct s1, s2; simpl in *. injection Hs; intros; subst; reflexivity.
  - intros s1 s2 s3 H12 H23. destruct s1, s2, s3; simpl in *.
    injection H12; injection H23; intros; subst; reflexivity.
Qed.

End Settled.

(** What every handler of a SMSC's sessions leaves alone. *)
Definition fixed (v : virtualSMSC) : VirtualSMSCConfig * Engine * gmap Profile Engine :=
  (v_cfg v, v_scenario v, v_engines v).

(** ** Relating two runs

    [Rel] relates the runners and what was sent: exactly, or up to the moment
    the deliveries leave. *)

Record replay_relation (Rel : bool -> Runner payload -> list content -> Runner payload -> list content -> Prop)
    : Prop := {
  rr_send : forall cr r1 o1 r2 o2 x, Rel cr r1 o1 r2 o2 -> Forall (fun c => is_delivery c = false) x ->
    Rel cr r1 (o1 ++ x) r2 (o2 ++ x);
  rr_schedule : forall cr t p r1 o1 r2 o2 r1' r2', Rel cr r1 o1 r2 o2 ->
    Schedule t p r1 = Ok r1' -> Schedule t p r2 = Ok r2' -> Rel cr r1' o1 r2' o2;
  rr_drain : forall cr clock r1 o1 r2 o2 due1 rest1 due2 rest2, Rel cr r1 o1 r2 o2 ->
    DrainDue clock r1 = Ok (due1, rest1) -> DrainDue clock r2 = Ok (due2, rest2) ->
    Rel cr rest1 (o1 ++ events_content cr due1) rest2 (o2 ++ events_content cr due2);
  rr_flush : forall cr r1 o1 r2 o2, Rel cr r1 o1 r2 o2 ->
    Rel cr (DrainAll r1).2 (o1 ++ events_content cr (pending r1))
      (DrainAll r2).2 (o2 ++ events_content cr (pending r2));
  rr_bind : forall cr cr' o1 o2, Rel cr new_Runner o1 new_Runner o2 -> Rel cr' new_Runner o1 new_Runner o2
}.

(** The same runner and the same PDUs and metric calls, in the same order. *)
Definition exactly (_ : bool) (r1 : Runner payload) (o1 : list content) (r2 : Runner payload) (o2 : list content)
  : Prop := r1 = r2 /\ o1 = o2.

Lemma exactly_replay : replay_relation exactly.
Proof.
  split; unfold exactly; intros; destruct_and!; subst;
    repeat match goal with H1 : ?m = Ok _, H2 : ?m = Ok _ |- _ => rewrite H1 in H2; injection H2 as ? end;
    subst; auto.
Qed.

(** The same responses and metric calls in order, and the same deliveries, sent
    or still pending, in some order. *)
Definition up_to_flush (cr : bool) (r1 : Runner payload) (o1 : list content) (r2 : Runner payload)
    (o2 : list content) : Prop :=
  base.filter (fun c => is_delivery c = false) o1 = base.filter (fun c => is_delivery c = false) o2 /\
  base.filter (fun c => is_delivery c = true) o1 ++ events_content cr (pending r1) ≡ₚ
  base.filter (fun c => is_delivery c = true) o2 ++ events_content cr (pending r2).

Lemma events_content_deliveries cr evs : Forall (fun c => is_delivery c = true) (events_content cr evs).
Proof.
  unfold events_content. apply Forall_fmap. eapply Forall_impl; [apply event_frames_kind|].
  intros [b k] Hk. simpl in *. by rewrite bool_decide_false.
Qed.

Lemma events_content_filter cr evs :
  base.filter (fun c => is_delivery c = false) (events_content cr evs) = [] /\
  base.filter (fun c => is_delivery c = true) (events_content cr evs) = events_content cr evs.
Proof.
  pose proof (events_content_deliveries cr evs) as Hd. split; [|by apply filter_all].
  apply filter_none. eapply Forall_impl; [exact Hd|]. intros c Hc. simpl. by rewrite Hc.
Qed.

Lemma events_content_perm cr l1 l2 :
  forget <$> l1 ≡ₚ forget <$> l2 -> events_content cr l1 ≡ₚ events_content cr l2.
Proof.
  assert (forall l, events_content cr l =
    (forget <$> l) ≫= fun tp => frame_content <$> event_frame cr (mkEvent 0 0 tp.2)) as Hf.
  { intros l. induction l as [|ev l IH]; [done|]. change (ev :: l) with ([ev] ++ l).
    rewrite events_content_app, IH. csimpl. f_equal. unfold events_content. csimpl. by rewrite app_nil_r. }
  intros Hp. rewrite !Hf. by rewrite Hp.
Qed.

Lemma Schedule_forget {P} t (p : P) r r' :
  Schedule t p r = Ok r' -> forget <$> pending r' ≡ₚ (forget <$> pending r) ++ [(t, p)].
Proof.
  unfold Schedule. intros (n & _ & Hr)%obind_Ok_inv. injection Hr as <-. simpl.
  rewrite fmap_app, fmap_cons. simpl. rewrite <- Permutation_middle, <- fmap_app, take_drop.
  by rewrite Permutation_cons_append.
Qed.

Lemma DrainDue_split {P} clock (r : Runner P) due rest :
  DrainDue clock r = Ok (due, rest) -> pending r = due ++ pending rest.
Proof.
  unfold DrainDue. intros (n & _ & Hr)%obind_Ok_inv. injection Hr as <- <-. simpl. by rewrite take_drop.
Qed.

Lemma up_to_flush_send cr r1 o1 r2 o2 x1 x2 r1' r2' d1 d2 :
  up_to_flush cr r1 o1 r2 o2 ->
  base.filter (fun c => is_delivery c = false) x1 = base.filter (fun c => is_delivery c = false) x2 ->
  base.filter (fun c => is_delivery c = true) x1 ++ events_content cr (pending r1') ≡ₚ
    events_content cr (pending r1) ++ d1 ->
  base.filter (fun c => is_delivery c = true) x2 ++ events_content cr (pending r2') ≡ₚ
    events_content cr (pending r2) ++ d2 ->
  d1 ≡ₚ d2 -> up_to_flush cr r1' (o1 ++ x1) r2' (o2 ++ x2).
Proof.
  intros [Hn Hd] Hx H1 H2 Hdd. split; rewrite !filter_app; [by rewrite Hn, Hx|].
  rewrite <- !app_assoc, H1, H2, !app_assoc. by rewrite Hd, Hdd.
Qed.

Lemma up_to_flush_replay : replay_relation up_to_flush.
Proof.
  split.
  - intros cr r1 o1 r2 o2 x Hr Hx. eapply up_to_flush_send with (d1 := []) (d2 := []); [exact Hr|done|..|done].
    all: rewrite app_nil_r, (filter_none (fun c => is_delivery c = true)); [done|].
    all: eapply Forall_impl; [exact Hx|]; intros c Hc; simpl; by rewrite Hc.
  - intros cr t p r1 o1 r2 o2 r1' r2' Hr H1 H2. rewrite <- (app_nil_r o1), <- (app_nil_r o2).
    eapply up_to_flush_send with (d1 := events_content cr [mkEvent t 0 p])
      (d2 := events_content cr [mkEvent t 0 p]); [exact Hr|done|..|done].
    all: rewrite <- events_content_app; apply events_content_perm; rewrite fmap_app; by apply Schedule_forget.
  - intros cr clock r1 o1 r2 o2 due1 rest1 due2 rest2 Hr H1%DrainDue_split H2%DrainDue_split.
    eapply up_to_flush_send with (d1 := []) (d2 := []); [exact Hr|..|done].
    + by rewrite !(proj1 (events_content_filter _ _)).
    + by rewrite (proj2 (events_content_filter _ _)), app_nil_r, H1, events_content_app.
    + by rewrite (proj2 (events_content_filter _ _)), app_nil_r, H2, events_content_app.
  - intros cr r1 o1 r2 o2 Hr.
    eapply up_to_flush_send with (d1 := []) (d2 := []); [exact Hr|..|done].
    + by rewrite !(proj1 (events_content_filter _ _)).
    + by rewrite (proj2 (events_content_filter _ _)), !app_nil_r.
    + by rewrite (proj2 (events_content_filter _ _)), !app_nil_r.
  - done.
Qed.

Section Similar.
Context {R : Type} `{RandSource R}.
Context (Rel : bool -> Runner payload -> list content -> Runner payload -> list content -> Prop).
Context (HRel : replay_relation Rel).
Implicit Types (w : world R) (s : session R) (pdu : PDU) (d : Decision).

Record similar w1 w2 : Prop := {
  sm_session : same_session (w_session w1) (w_session w2);
  sm_fixed : fixed (w_smsc w1) = fixed (w_smsc w2);
  sm_chan : w_nextChan w1 = w_nextChan w2;
  sm_rel : Rel (s_canReceive (w_session w2)) (s_sched (w_session w1)) (content_of <$> w_out w1)
             (s_sched (w_session w2)) (content_of <$> w_out w2);
  sm_ordinal : s_state (w_session w2) = stateOpen -> v_bindSeq (w_smsc w1) = v_bindSeq (w_smsc w2)
}.

Lemma same_session_inv s1 s2 :
  same_session s1 s2 -> exists r l o rd, s1 = reclock r l o rd s2.
Proof. intros ->. eauto. Qed.

(** Every field a handler reads agrees. *)
Lemma similar_fields w1 w2 :
  similar w1 w2 -> exists r l o rd, w_session w1 = reclock r l o rd (w_session w2) /\
    v_cfg (w_smsc w1) = v_cfg (w_smsc w2) /\ v_scenario (w_smsc w1) = v_scenario (w_smsc w2) /\
    v_engines (w_smsc w1) = v_engines (w_smsc w2).
Proof.
  intros [Hs Hf _ _ _]. apply same_session_inv in Hs as (r & l & o & rd & Hs).
  unfold fixed in Hf. exists r, l, o, rd. by simplify_eq.
Qed.

Lemma similar_add_out x1 x2 w1 w2 :
  similar w1 w2 -> content_of <$> x1 = content_of <$> x2 ->
  Forall (fun c => is_delivery c = false) (content_of <$> x1) ->
  similar (add_out x1 w1) (add_out x2 w2).
Proof.
  intros [Hs Hf Hc Hr Hq] Hx Hd. split; try done. simpl. rewrite !fmap_app, <- Hx.
  by apply (rr_send _ HRel).
Qed.

Lemma similar_upd f1 f2 w1 w2 :
  similar w1 w2 ->
  (forall r l o rd s, same_session (f1 (reclock r l o rd s)) (f2 s)) ->
  (forall s, s_sched (f1 s) = s_sched s) -> (forall s, s_sched (f2 s) = s_sched s) ->
  (forall s, s_canReceive (f2 s) = s_canReceive s) ->
  (forall s, s_state (f2 s) = stateOpen -> s_state s = stateOpen) ->
  similar (upd f1 w1) (upd f2 w2).
Proof.
  intros [Hs Hf Hc Hr Hq] Hsame H1 H2 Hcr Ho. split; simpl; try done.
  - apply same_session_inv in Hs as (r & l & o & rd & ->). apply Hsame.
  - by rewrite H1, H2, Hcr.
  - auto.
Qed.

Lemma similar_upd_v f1 f2 w1 w2 :
  similar w1 w2 -> (forall v, fixed (f1 v) = fixed v) -> (forall v, fixed (f2 v) = fixed v) ->
  (forall v, v_bindSeq (f1 v) = v_bindSeq v) -> (forall v, v_bindSeq (f2 v) = v_bindSeq v) ->
  similar (upd_v f1 w1) (upd_v f2 w2).
Proof. intros [Hs Hf Hc Hr Hq] H1 H2 B1 B2. split; simpl; try done; [by rewrite H1, H2 | by rewrite B1, B2]. Qed.

Lemma similar_sched r1 r2 w1 w2 :
  similar w1 w2 ->
  Rel (s_canReceive (w_session w2)) r1 (content_of <$> w_out w1) r2 (content_of <$> w_out w2) ->
  similar (upd (set_s_sched r1) w1) (upd (set_s_sched r2) w2).
Proof.
  intros [Hs Hf Hc _ Hq] Hr. split; simpl; try done.
  apply same_session_inv in Hs as (r & l & o & rd & ->). reflexivity.
Qed.

Lemma similar_nextChan w1 w2 :
  similar w1 w2 ->
  similar (set_w_nextChan (w_nextChan w1 + 1) w1) (set_w_nextChan (w_nextChan w2 + 1) w2).
Proof. intros [Hs Hf Hc Hr Hq]. split; simpl; try done. by rewrite Hc. Qed.

Lemma similar_closed reason err w1 w2 :
  similar w1 w2 -> similar (closed_world reason err w1) (closed_world reason err w2).
Proof. intros Hs. by apply similar_upd. Qed.

Lemma similar_transitions ts w1 w2 :
  similar w1 w2 -> similar (foldl transition_step w1 ts) (foldl transition_step w2 ts).
Proof.
  revert w1 w2. induction ts as [|t ts IH]; intros w1 w2 Hs; simpl; [done|]. apply IH.
  unfold transition_step. apply similar_upd; try done.
  destruct (similar_fields _ _ Hs) as (r & l & o & rd & _ & Hc & _ & He).
  unfold transition_world. rewrite He, Hc. destruct (v_engines (w_smsc w2) !! ST_ToProfile t); [|done].
  apply similar_add_out; [|done|by repeat constructor]. apply similar_upd_v; [|done..].
  by apply similar_upd.
Qed.

Lemma similar_commit env1 env2 tick d rec1 rec2 w1 w2 :
  similar w1 w2 -> similar (commit_world env1 tick d rec1 w1) (commit_world env2 tick d rec2 w2).
Proof.
  intros Hs. destruct (similar_fields _ _ Hs) as (_ & _ & _ & _ & _ & Hc & _).
  unfold commit_world. rewrite Hc. apply similar_add_out; [|done|by repeat constructor].
  apply similar_upd; try done. by apply similar_upd_v.
Qed.

Lemma respond_out_content b latencyMS c1 c2 :
  content_of <$> respond_out b latencyMS c1 = content_of <$> respond_out b latencyMS c2 /\
  Forall (fun c => is_delivery c = false) (content_of <$> respond_out b latencyMS c1).
Proof. unfold respond_out. destruct b; [|done]. destruct (_ =? 0); split; by repeat constructor. Qed.

Lemma similar_answered pdu d id e w1 w2 :
  similar w1 w2 -> similar (answered_world pdu d id e w1) (answered_world pdu d id e w2).
Proof.
  intros Hs. destruct (similar_fields _ _ Hs) as (_ & _ & _ & _ & _ & Hc & _).
  unfold answered_world. apply similar_add_out.
  - destruct (answer_defers pdu d id); [by apply similar_nextChan | done].
  - unfold answer_out, latency_metric. rewrite Hc. destruct (answer_pdu pdu d id); [|done].
    destruct (bool_decide _); [done|]. csimpl. f_equal. apply respond_out_content.
  - unfold answer_out. destruct (answer_pdu pdu d id) as [p|]; [|constructor].
    destruct (bool_decide _).
    + rewrite fmap_app. apply Forall_app. split; [|by repeat constructor].
      unfold send_out. generalize (encoded p None). intros []; by repeat constructor.
    + constructor; [done|]. apply (respond_out_content _ _ _ 0).
Qed.

(** Scheduled disconnects that do not look at the other binds. *)
Definition not_oldest (sd : ScheduledDisconnect) : Prop := SD_Scope sd <> DisconnectScopeOldest.

Lemma similar_targeted w1 w2 sd :
  similar w1 w2 -> not_oldest sd -> targeted w1 sd = targeted w2 sd.
Proof.
  intros Hs Ho. destruct (similar_fields _ _ Hs) as (r & l & o & rd & Hw & _).
  unfold targeted, is_target. rewrite Hw. simpl.
  destruct (String.eqb_spec (SD_Scope sd) DisconnectScopeOldest) as [He|]; [by destruct (Ho He) | done].
Qed.

Lemma existsb_ext_in {A} (f g : A -> bool) l :
  Forall (fun x => f x = g x) l -> existsb f l = existsb g l.
Proof. induction 1 as [|x l Hx _ IH]; [done|]. simpl. by rewrite Hx, IH. Qed.

Lemma due_prefix_Forall {T} (P : T -> Prop) tick clock (l : list T) :
  Forall P l -> Forall P (due_prefix tick clock l).
Proof. induction 1; simpl; [constructor|]. destruct (_ <=? _); by constructor. Qed.

Lemma due_disconnects_Forall (P : ScheduledDisconnect -> Prop) clock s :
  Forall P (s_disconnects s) -> Forall P (due_disconnects clock s).
Proof. intros Hf. by apply due_prefix_Forall, Forall_drop. Qed.

Lemma similar_cut w1 w2 clock :
  similar w1 w2 -> Forall not_oldest (s_disconnects (w_session w2)) ->
  due_disconnects clock (w_session w1) = due_disconnects clock (w_session w2) /\
  existsb (targeted w1) (due_disconnects clock (w_session w2)) =
    existsb (targeted w2) (due_disconnects clock (w_session w2)) /\
  existsb (fires_before w1) (due_disconnects clock (w_session w2)) =
    existsb (fires_before w2) (due_disconnects clock (w_session w2)).
Proof.
  intros Hs Hf. destruct (similar_fields _ _ Hs) as (r & l & o & rd & Hw & _).
  split; [by rewrite Hw|].
  pose proof (due_disconnects_Forall _ clock _ Hf) as Hd.
  split; apply existsb_ext_in; (eapply Forall_impl; [exact Hd|]); intros sd Hsd;
    [|unfold fires_before]; by rewrite (similar_targeted _ _ _ Hs Hsd).
Qed.

Lemma similar_drained env1 env2 clock due1 rest1 due2 rest2 w1 w2 :
  similar w1 w2 -> Forall not_oldest (s_disconnects (w_session w2)) ->
  DrainDue clock (s_sched (w_session w1)) = Ok (due1, rest1) ->
  DrainDue clock (s_sched (w_session w2)) = Ok (due2, rest2) ->
  similar (drained_world env1 due1 rest1 w1) (drained_world env2 due2 rest2 w2).
Proof.
  intros Hs Hf H1 H2. destruct (similar_fields _ _ Hs) as (r & l & o & rd & Hw & _).
  unfold drained_world. cbn zeta.
  replace (s_perBindClock (w_session w1)) with (s_perBindClock (w_session w2)) by (by rewrite Hw).
  replace (s_canReceive (w_session w1)) with (s_canReceive (w_session w2)) by (by rewrite Hw).
  destruct (similar_cut w1 w2 (s_perBindClock (w_session w2)) Hs Hf) as (-> & -> & _).
  assert (forall n, similar (consume n (add_out (concat (dispatch_out env1 (s_canReceive (w_session w2)) <$> due1))
      (upd (set_s_sched rest1) w1))) (consume n (add_out (concat (dispatch_out env2 (s_canReceive (w_session w2))
      <$> due2)) (upd (set_s_sched rest2) w2)))) as Hc.
  { intros n. unfold consume. apply similar_upd; try done.
    destruct Hs as [Hs Hfx Hch Hr Hq]. split; simpl; try done.
    - rewrite Hw. reflexivity.
    - rewrite !fmap_app, !dispatches_content. by eapply (rr_drain _ HRel). }
  unfold cut_world. destruct (existsb _ _); [by apply similar_closed | done].
Qed.

Lemma similar_dlr_scheduled id msg plan sent r1 r2 w1 w2 :
  similar w1 w2 -> dlr_scheduled (w_session w1) id msg plan sent r1 ->
  dlr_scheduled (w_session w2) id msg plan sent r2 ->
  Rel (s_canReceive (w_session w2)) r1 (content_of <$> w_out w1) r2 (content_of <$> w_out w2).
Proof.
  intros Hs. destruct (similar_fields _ _ Hs) as (r & l & o & rd & Hw & _).
  unfold dlr_scheduled. destruct plan as [plan|]; [|intros -> ->; apply Hs].
  replace (s_canReceive (w_session w1)) with (s_canReceive (w_session w2)) by (by rewrite Hw).
  replace (s_perBindClock (w_session w1)) with (s_perBindClock (w_session w2)) by (by rewrite Hw).
  destruct (s_canReceive (w_session w2)) eqn:Hcr; [|intros -> ->; rewrite <- Hcr; apply Hs].
  intros H1 H2. eapply (rr_schedule _ HRel); [|exact H1|exact H2]. rewrite <- Hcr. apply Hs.
Qed.

(** ** What makes a bind replayable *)

(** The state a bind starts from does not depend on the process: the SMSC is
    seeded and its profile sets no wall-clock gate. *)
Definition replayable (v : virtualSMSC) : Prop :=
  Forall not_oldest (VS_ScheduledDisconnects (v_cfg v)) /\
  forall id entropy base entropy' base',
    NewBindState (R := R) (v_scenario v) (VS_Seed (v_cfg v)) (VS_Name (v_cfg v)) id entropy base =
    NewBindState (v_scenario v) (VS_Seed (v_cfg v)) (VS_Name (v_cfg v)) id entropy' base' /\
    gate (NewBindState (R := R) (v_scenario v) (VS_Seed (v_cfg v)) (VS_Name (v_cfg v)) id entropy base) = None.

Record steady w : Prop := {
  st_safe : world_safe w;
  st_smsc : replayable (w_smsc w);
  st_gate : forall st, s_scenarioState (w_session w) = Some st -> gate st = None;
  st_disconnects : Forall not_oldest (s_disconnects (w_session w));
  st_open : s_state (w_session w) = stateOpen -> s_sched (w_session w) = new_Runner
}.

Definition journaled (log : option RecordedPDU) (r r' : Recorder) : Prop :=
  match log with Some rec => Append rec r = Ok r' | None => r' = r end.

(** The same computation in two worlds leaves them similar, with the same record. *)
Definition replays (m : M R ()) env1 env2 w1 w2 : Prop :=
  exists w1' w2' log, m env1 w1 = Ok ((), w1') /\ m env2 w2 = Ok ((), w2') /\
    similar w1' w2' /\ steady w1' /\ steady w2' /\
    journaled log (v_recorder (w_smsc w1)) (v_recorder (w_smsc w1')) /\
    journaled log (v_recorder (w_smsc w2)) (v_recorder (w_smsc w2')).

Lemma replayable_fixed v v' : fixed v' = fixed v -> replayable v -> replayable v'.
Proof. unfold fixed, replayable. intros Hf. injection Hf as -> -> _. done. Qed.

Lemma steady_kept w w' :
  steady w -> world_safe w' -> kept w w' -> s_state (w_session w') <> stateOpen ->
  (forall st, s_scenarioState (w_session w') = Some st -> gate st = None) -> steady w'.
Proof.
  intros [Hs Hv Hg Hd Ho] Hs' Hk Hst Hg'. split; try done.
  - eapply replayable_fixed; [|exact Hv]. unfold fixed.
    by rewrite (k_cfg _ _ Hk), (k_scenario _ _ Hk), (k_engines _ _ Hk).
  - by rewrite (k_disconnects _ _ Hk).
Qed.

Lemma steady_submitted pdu msg env w w' :
  steady w -> s_state (w_session w) = stateBound -> s_canSubmit (w_session w) = true ->
  PDU_Body pdu = Some (BodyMessage msg) -> env_quit env = false ->
  handleSubmit pdu env w = Ok ((), w') ->
  let tick := s_perBindClock (w_session w) +64 1 in
  steady w' /\ Append (record_of tick (Dlr.messageID (s_id (w_session w)) tick) msg) (v_recorder (w_smsc w)) =
                Ok (v_recorder (w_smsc w')).
Proof.
  intros Hs Hst Hcan Hb Hq Hrun tick. pose proof (st_safe _ Hs) as Hsafe.
  destruct (handleSubmit_step pdu msg env w Hsafe Hst Hcan Hb)
    as (d & e & st & st' & w0 & (_ & Hst0 & Hev) & _ & Hrun0 & Hres).
  rewrite Hrun in Hrun0. injection Hrun0 as <-.
  replace (abandoned env d) with false in Hres by (unfold abandoned; by rewrite Hq, andb_false_r).
  split; [|by apply (sr_record _ _ _ _ _ _ _ _ _ _ Hres)].
  destruct (handleSubmit_safe pdu env w Hsafe) as (w1 & Hrun1 & Hsafe').
  rewrite Hrun in Hrun1. injection Hrun1 as <-.
  eapply steady_kept; [exact Hs|exact Hsafe'|apply Hres|..].
  - rewrite (sr_state _ _ _ _ _ _ _ _ _ _ Hres). by destruct (_ || _).
  - intros st1. rewrite (sr_bindState _ _ _ _ _ _ _ _ _ _ Hres). intros [= <-].
    eapply Evaluate_gate_none; [|exact Hev]. by apply (st_gate _ Hs).
Qed.

(** The answer to the same decision in similar worlds. *)
Lemma answerSubmit_similar pdu d msg id e env1 env2 c1 c2 w1' w2' :
  similar c1 c2 -> Forall not_oldest (s_disconnects (w_session c2)) ->
  s_currentEngine (w_session c2) = Some e -> s_state (w_session c2) <> stateClosed ->
  is_Some (s_scenarioState (w_session c2)) ->
  answerSubmit pdu d msg id env1 c1 = Ok ((), w1') -> answerSubmit pdu d msg id env2 c2 = Ok ((), w2') ->
  similar w1' w2'.
Proof.
  intros Hsc Hno He2 Hopen2 Hsome Hr1 Hr2.
  destruct (similar_fields _ _ Hsc) as (r & l & o & rd & Hc & _).
  assert (s_currentEngine (w_session c1) = Some e) as He1 by (by rewrite Hc).
  destruct (decide (D_Outcome d = OutcomeDisconnect)) as [Hd|Hd].
  { rewrite (answerSubmit_disconnect _ _ _ _ _ _ _ He1 Hd) in Hr1.
    rewrite (answerSubmit_disconnect _ _ _ _ _ _ _ He2 Hd) in Hr2.
    injection Hr1 as <-. injection Hr2 as <-. by apply similar_closed, similar_answered. }
  destruct (answerSubmit_kept pdu d msg id e env1 c1 He1 Hd) as (q1 & due1 & rest1 & Hq1 & Hdr1 & Hk1);
    [by rewrite Hc | by rewrite Hc |].
  destruct (answerSubmit_kept pdu d msg id e env2 c2 He2 Hd) as (q2 & due2 & rest2 & Hq2 & Hdr2 & Hk2);
    [done..|].
  rewrite Hk1 in Hr1. rewrite Hk2 in Hr2. injection Hr1 as <-. injection Hr2 as <-.
  rewrite (sm_chan _ _ Hsc) in Hq1.
  replace (s_perBindClock (w_session c1)) with (s_perBindClock (w_session c2)) in Hdr1 by (by rewrite Hc).
  destruct (answered_world_same pdu d id e c2) as (_ & Hses2 & _).
  destruct (answered_world_same pdu d id e c1) as (_ & Hses1 & _).
  eapply similar_drained; [| |exact Hdr1|exact Hdr2].
  2: { change (Forall not_oldest (s_disconnects (w_session (answered_world pdu d id e c2)))). by rewrite Hses2. }
  apply similar_sched; [by apply similar_answered|]. rewrite <- Hses1 in Hq1. rewrite <- Hses2 in Hq2.
  eapply similar_dlr_scheduled; [by apply similar_answered | exact Hq1 | exact Hq2].
Qed.

Lemma handleSubmit_similar pdu msg env1 env2 w1 w2 w1' w2' :
  similar w1 w2 -> steady w1 -> steady w2 ->
  s_state (w_session w2) = stateBound -> s_canSubmit (w_session w2) = true ->
  PDU_Body pdu = Some (BodyMessage msg) -> env_quit env1 = false -> env_quit env2 = false ->
  handleSubmit pdu env1 w1 = Ok ((), w1') -> handleSubmit pdu env2 w2 = Ok ((), w2') -> similar w1' w2'.
Proof.
  intros Hs Hs1 Hs2 Hst Hcan Hb Hq1 Hq2 Hr1 Hr2.
  destruct (similar_fields _ _ Hs) as (r & l & o & rd & Hw & _ & _ & Hengs).
  destruct (handleSubmit_run pdu msg env1 w1 (st_safe _ Hs1)) as (e1 & st1 & d1 & st1' & He1 & _ & Hst1 & Hev1 & Hrun1);
    [by rewrite Hw | by rewrite Hw | done |].
  destruct (handleSubmit_run pdu msg env2 w2 (st_safe _ Hs2)) as (e2 & st2 & d2 & st2' & He2 & _ & Hst2 & Hev2 & Hrun2);
    [done..|].
  replace (abandoned env1 d1) with false in Hrun1 by (unfold abandoned; by rewrite Hq1, andb_false_r).
  replace (abandoned env2 d2) with false in Hrun2 by (unfold abandoned; by rewrite Hq2, andb_false_r).
  cbv zeta in Hrun1, Hrun2.
  assert (s_perBindClock (w_session w1) = s_perBindClock (w_session w2)) as Hck by (by rewrite Hw).
  assert (s_id (w_session w1) = s_id (w_session w2)) as Hid by (by rewrite Hw).
  rewrite Hck in He1, Hev1, Hrun1. rewrite Hid in Hrun1.
  set (tick := s_perBindClock (w_session w2) +64 1) in *.
  set (id := Dlr.messageID (s_id (w_session w2)) tick) in *.
  replace (due_transitions tick (w_session w1)) with (due_transitions tick (w_session w2))
    in He1, Hrun1 by (by rewrite Hw).
  pose proof (similar_transitions (due_transitions tick (w_session w2)) _ _ Hs) as Ht.
  pose proof (transitions_frame_kept _ _ (transitions_frame_all (due_transitions tick (w_session w2)) w2)) as Hk2.
  pose proof (transitions_fields _ _ (transitions_frame_all (due_transitions tick (w_session w2)) w2)) as Hf2.
  set (u1 := foldl transition_step w1 _) in *. set (u2 := foldl transition_step w2 _) in *.
  destruct (similar_fields _ _ Ht) as (r' & l' & o' & rd' & Hu & _).
  assert (e1 = e2) as -> by (rewrite Hu in He1; simpl in He1; congruence).
  assert (st1 = st2) as -> by (rewrite Hw in Hst1; simpl in Hst1; congruence).
  rewrite (Evaluate_no_gate _ _ (env_gateNow env2)) in Hev1 by (by apply (st_gate _ Hs2)).
  rewrite Hev1 in Hev2. injection Hev2 as <- <-.
  destruct Hrun1 as (rec1 & _ & Hrun1). destruct Hrun2 as (rec2 & _ & Hrun2).
  assert (similar (upd (set_s_scenarioState (Some st1')) u1) (upd (set_s_scenarioState (Some st1')) u2)) as Hsc
    by (by apply similar_upd).
  apply (similar_commit env1 env2 tick d1 rec1 rec2) in Hsc.
  set (c1 := commit_world env1 tick d1 rec1 _) in *. set (c2 := commit_world env2 tick d1 rec2 _) in *.
  assert (s_disconnects (w_session c2) = s_disconnects (w_session w2)) as Hdis by apply (k_disconnects _ _ Hk2).
  assert (Forall not_oldest (s_disconnects (w_session c2))) as Hno by (rewrite Hdis; by apply (st_disconnects _ Hs2)).
  destruct (similar_cut c1 c2 tick Hsc Hno) as (Hdd & _ & Hfb). rewrite Hdd, Hfb in Hrun1.
  rewrite Hr1 in Hrun1. rewrite Hr2 in Hrun2.
  destruct (existsb (fires_before c2) (due_disconnects tick (w_session c2))).
  { injection Hrun1 as ->. injection Hrun2 as ->. by apply similar_closed. }
  assert (s_state (w_session c2) = s_state (w_session w2)) as Hst2' by apply Hf2.
  eapply (answerSubmit_similar pdu d1 msg id e2 env1 env2 c1 c2); [exact Hsc|exact Hno|exact He2| | |done|done];
    [by rewrite Hst2', Hst | by eexists].
Qed.

(** ** The other PDUs *)

Lemma insert_by_tick_Forall {T} (P : T -> Prop) tick x l :
  P x -> Forall P l -> Forall P (insert_by_tick tick x l).
Proof.
  intros Hx. induction 1 as [|y l Hy Hl IH]; simpl; [by repeat constructor|].
  destruct (_ <=? _); by repeat constructor.
Qed.

Lemma sortedByTick_Forall {T} (P : T -> Prop) tick l : Forall P l -> Forall P (sortedByTick l tick).
Proof. induction 1; simpl; [constructor|]. by apply insert_by_tick_Forall. Qed.

Lemma similar_schedule_all evs cr r1 o1 r2 o2 r1' r2' :
  Rel cr r1 o1 r2 o2 -> schedule_all evs r1 = Ok r1' -> schedule_all evs r2 = Ok r2' -> Rel cr r1' o1 r2' o2.
Proof.
  revert r1 r2. induction evs as [|[t p] evs IH]; intros r1 r2 Hr; simpl; [by intros [= <-] [= <-]|].
  intros (q1 & Hq1 & H1)%obind_Ok_inv (q2 & Hq2 & H2)%obind_Ok_inv.
  eapply IH; [|exact H1|exact H2]. by eapply (rr_schedule _ HRel).
Qed.

Lemma send_out_nondelivery pdu : Forall (fun c => is_delivery c = false) (content_of <$> send_out pdu kindResp).
Proof. unfold send_out. generalize (encoded pdu None). intros []; by repeat constructor. Qed.

Lemma similar_send pdu w1 w2 :
  similar w1 w2 -> similar (add_out (send_out pdu kindResp) w1) (add_out (send_out pdu kindResp) w2).
Proof. intros Hs. apply similar_add_out; [done|done|apply send_out_nondelivery]. Qed.

Lemma similar_scheduled r1 r2 w1 w2 :
  similar w1 w2 ->
  Rel (s_canReceive (w_session w2)) r1 (content_of <$> w_out w1) r2 (content_of <$> w_out w2) ->
  similar (scheduled_world r1 w1) (scheduled_world r2 w2).
Proof.
  intros Hs Hr. destruct (similar_fields _ _ Hs) as (r & l & o & rd & Hw & Hc & _).
  destruct Hs as [Hs Hf Hch _ Hq]. unfold scheduled_world. rewrite Hc. split; simpl; try done.
  rewrite Hw. reflexivity.
Qed.

Lemma similar_bound_session env1 env2 w1 w2 pdu b id :
  similar w1 w2 -> replayable (w_smsc w2) ->
  same_session (bound_session env1 w1 pdu b id) (bound_session env2 w2 pdu b id).
Proof.
  intros Hs [_ Hv]. destruct (similar_fields _ _ Hs) as (r & l & o & rd & Hw & Hc & Hsc & _).
  unfold bound_session. rewrite Hw, Hc, Hsc.
  rewrite (proj1 (Hv id (env_entropy env1) (env_chaosBase env1) (env_entropy env2) (env_chaosBase env2))).
  reflexivity.
Qed.

Lemma similar_accepted env1 env2 pdu b r1 r2 w1 w2 :
  similar w1 w2 -> replayable (w_smsc w2) -> s_state (w_session w2) = stateOpen ->
  s_sched (w_session w1) = new_Runner -> s_sched (w_session w2) = new_Runner ->
  schedule_all (mo_schedule (v_cfg (w_smsc w1))) (s_sched (w_session w1)) = Ok r1 ->
  schedule_all (mo_schedule (v_cfg (w_smsc w2))) (s_sched (w_session w2)) = Ok r2 ->
  similar (accepted_world env1 pdu b r1 w1) (accepted_world env2 pdu b r2 w2).
Proof.
  intros Hs Hv Hopen Hn1 Hn2 H1 H2. pose proof (sm_ordinal _ _ Hs Hopen) as Hseq.
  destruct (similar_fields _ _ Hs) as (r & l & o & rd & _ & Hc & _).
  unfold accepted_world, bind_reply. rewrite Hc, Hseq. rewrite Hc in H1. apply similar_send.
  set (a1 := set_w_session _ (set_w_smsc _ w1)). set (a2 := set_w_session _ (set_w_smsc _ w2)).
  assert (similar a1 a2) as Ha.
  { split; [by apply similar_bound_session | by apply Hs | by apply Hs | | done].
    pose proof (sm_rel _ _ Hs) as Hr. rewrite Hn1, Hn2 in Hr.
    subst a1 a2. simpl. rewrite Hn1, Hn2. by eapply (rr_bind _ HRel). }
  apply (similar_add_out [Metric (IncBind (VS_Name (v_cfg (w_smsc w2))) (bindKind (PDU_CommandID pdu)).1)]
    [Metric (IncBind (VS_Name (v_cfg (w_smsc w2))) (bindKind (PDU_CommandID pdu)).1)]) in Ha; [|done|by repeat constructor].
  apply similar_scheduled; [done|].
  eapply similar_schedule_all; [apply Ha | exact H1 | exact H2].
Qed.

Lemma similar_judge_bind w1 w2 pdu : similar w1 w2 -> judge_bind w1 pdu = judge_bind w2 pdu.
Proof.
  intros Hs. destruct (similar_fields _ _ Hs) as (r & l & o & rd & Hw & Hc & Hsc & _).
  unfold judge_bind. by rewrite Hw, Hc, Hsc.
Qed.

(** Steadiness of the worlds a handler leaves without a submit. *)
Lemma steady_add_out es w : steady w -> steady (add_out es w).
Proof. intros [Hs Hv Hg Hd Ho]. split; done. Qed.

Lemma steady_closed reason err w : steady w -> steady (closed_world reason err w).
Proof. intros [Hs Hv Hg Hd Ho]. split; try done. by apply closed_safe. Qed.

Lemma steady_label f w :
  (forall s, s_state (f s) = s_state s /\ s_scenarioState (f s) = s_scenarioState s /\
     s_currentEngine (f s) = s_currentEngine s /\ s_disconnects (f s) = s_disconnects s /\
     s_disconnectCursor (f s) = s_disconnectCursor s /\ s_sched (f s) = s_sched s /\
     s_closeReason (f s) = s_closeReason s) ->
  steady w -> steady (upd f w).
Proof.
  intros Hf [[Hv [Hb Hc Hop Hcl]] Hr Hg Hd Ho].
  destruct (Hf (w_session w)) as (H1 & H2 & H3 & H4 & H5 & H6 & H7).
  split; simpl; rewrite ?H1, ?H2, ?H4, ?H6; try done.
  split; [done|]. split; simpl; rewrite ?H1, ?H2, ?H3, ?H4, ?H5, ?H7; done.
Qed.

Lemma steady_accepted env pdu b w w' r :
  steady w -> judge_bind w pdu = BindAccepted b -> handleBind pdu env w = Ok ((), w') ->
  w' = accepted_world env pdu b r w -> steady w'.
Proof.
  intros [Hs [Hno Hv] Hg Hd Ho] Hj Hrun ->.
  destruct (handleBind_safe pdu env w Hs) as (w1 & Hrun1 & Hs1). rewrite Hrun in Hrun1.
  injection Hrun1 as <-. split; [done|by split|..].
  - intros st. unfold accepted_world, scheduled_world. simpl. intros [= <-]. by apply (Hv _ _ _ (0, 0) 0).
  - simpl. by apply sortedByTick_Forall.
  - done.
Qed.

Lemma handleBind_replays pdu env1 env2 w1 w2 :
  similar w1 w2 -> steady w1 -> steady w2 ->
  replays (handleBind pdu) env1 env2 w1 w2.
Proof.
  intros Hs H1 H2. pose proof (handleBind_run pdu env1 w1) as Hr1.
  pose proof (handleBind_run pdu env2 w2) as Hr2. rewrite (similar_judge_bind _ _ _ Hs) in Hr1.
  destruct (similar_fields _ _ Hs) as (r & l & o & rd & Hw & Hc & _).
  destruct (judge_bind w2 pdu) as [| | |b|b] eqn:Hj.
  1-4: eexists _, _, None; split; [exact Hr1|]; split; [exact Hr2|].
  1-2: split; [by apply similar_send|]; repeat (split; [by apply steady_add_out|]); done.
  1-2: split; [by apply similar_closed, similar_send, similar_upd|];
    repeat (split; [by apply steady_closed, steady_add_out, steady_label|]); done.
  destruct Hr1 as (q1 & Hq1 & Hr1). destruct Hr2 as (q2 & Hq2 & Hr2).
  assert (s_state (w_session w2) = stateOpen) as Hopen by (apply (judge_bind_open w2 pdu); by rewrite Hj).
  assert (s_state (w_session w1) = stateOpen) as Hopen1 by (by rewrite Hw).
  eexists _, _, None. split; [exact Hr1|]. split; [exact Hr2|]. split.
  { apply similar_accepted; try done; [apply H2 | by apply (st_open _ H1) | by apply (st_open _ H2)]. }
  split; [by eapply (steady_accepted env1 pdu b w1); [done | rewrite (similar_judge_bind _ _ _ Hs) | exact Hr1 | done]|].
  split; [by eapply (steady_accepted env2 pdu b w2)|]. done.
Qed.

(** Computations that only answer replay. *)
Lemma replays_send (m : M R ()) pdu env1 env2 w1 w2 :
  (forall env w, m env w = Ok ((), add_out (send_out pdu kindResp) w)) ->
  similar w1 w2 -> steady w1 -> steady w2 -> replays m env1 env2 w1 w2.
Proof.
  intros Hm Hs H1 H2. eexists _, _, None. split; [apply Hm|]. split; [apply Hm|].
  split; [by apply similar_send|]. repeat (split; [by apply steady_add_out|]). done.
Qed.

Lemma handleSubmit_replays pdu env1 env2 w1 w2 :
  similar w1 w2 -> steady w1 -> steady w2 -> env_quit env1 = false -> env_quit env2 = false ->
  replays (handleSubmit pdu) env1 env2 w1 w2.
Proof.
  intros Hs H1 H2 Hq1 Hq2. destruct (similar_fields _ _ Hs) as (r & l & o & rd & Hw & _).
  assert (submit_refusal (w_session w1) pdu = submit_refusal (w_session w2) pdu) as Hr by (by rewrite Hw).
  destruct (submit_refusal (w_session w2) pdu) as [st|] eqn:Href.
  { eexists _, _, None. split; [by apply submit_refusal_run|]. split; [by apply submit_refusal_run|].
    split; [by apply similar_send|]. repeat (split; [by apply steady_add_out|]). done. }
  apply submit_refusal_None in Href as (Hst & Hcan & msg & Hb).
  apply submit_refusal_None in Hr as (Hst1 & Hcan1 & _).
  destruct (handleSubmit_safe pdu env1 w1 (st_safe _ H1)) as (w1' & Hr1 & _).
  destruct (handleSubmit_safe pdu env2 w2 (st_safe _ H2)) as (w2' & Hr2 & _).
  destruct (steady_submitted pdu msg env1 w1 w1' H1 Hst1 Hcan1 Hb Hq1 Hr1) as [Hs1' Ha1].
  destruct (steady_submitted pdu msg env2 w2 w2' H2 Hst Hcan Hb Hq2 Hr2) as [Hs2' Ha2].
  exists w1', w2'.
  exists (Some (record_of (s_perBindClock (w_session w2) +64 1)
    (Dlr.messageID (s_id (w_session w2)) (s_perBindClock (w_session w2) +64 1)) msg)).
  split; [done|]. split; [done|].
  split; [exact (handleSubmit_similar pdu msg env1 env2 w1 w2 w1' w2' Hs H1 H2 Hst Hcan Hb Hq1 Hq2 Hr1 Hr2)|].
  split; [done|]. split; [done|]. split; [|exact Ha2]. rewrite Hw in Ha1. exact Ha1.
Qed.

Lemma handle_replays pdu env1 env2 w1 w2 :
  similar w1 w2 -> steady w1 -> steady w2 -> env_quit env1 = false -> env_quit env2 = false ->
  replays (handle pdu) env1 env2 w1 w2.
Proof.
  intros Hs H1 H2 Hq1 Hq2. unfold handle.
  case_bool_decide; [by apply handleBind_replays|].
  destruct (_ =? SubmitSM); [by apply handleSubmit_replays|].
  destruct (_ =? EnquireLink).
  { eapply replays_send; try done. intros env w. apply sendKind_run. }
  destruct (_ =? Unbind).
  { set (out := send_out (reply pdu UnbindResp StatusROK None) kindResp).
    exists (closed_world reasonClientUnbind None (add_out out w1)),
      (closed_world reasonClientUnbind None (add_out out w2)), None.
    split; [by erewrite M_bind_run by apply sendKind_run|].
    split; [by erewrite M_bind_run by apply sendKind_run|].
    split; [by apply similar_closed, similar_send|].
    repeat (split; [by apply steady_closed, steady_add_out|]). done. }
  destruct (_ =? DeliverSMResp); [by exists w1, w2, None|].
  eapply replays_send; try done. intros env w. apply sendKind_run.
Qed.

(** ** What the read loop is fed *)

(** A frame, or a quiescence window that expires. *)
Inductive input := Frame (f : bytes) | Quiescence.

Definition serve (i : input) : M R () :=
  match i with
  | Frame f => _ ← handleFrame f; mret ()
  | Quiescence => flushSchedule
  end.

Definition framed (i : input) : Prop := match i with Frame f => HeaderLen <= len f | Quiescence => True end.

Lemma handleFrame_run frame env w w' (p : PDU) :
  Decode frame = Ok p -> handle p env (upd (fun s => set_s_pdusRead (s_pdusRead s +64 1) s) w) = Ok ((), w') ->
  serve (Frame frame) env w = Ok ((), w').
Proof.
  intros Hd Hh. unfold serve, handleFrame. rewrite Hd. unfold mbind, M_bind, modify, gets. simpl.
  unfold upd in Hh. by rewrite Hh.
Qed.

Lemma handleFrame_reject_run frame env w w' err :
  Decode frame = Err err ->
  rejectMalformed frame err env (upd (fun s => set_s_pdusRead (s_pdusRead s +64 1) s) w) = Ok ((), w') ->
  serve (Frame frame) env w = Ok ((), w').
Proof.
  intros Hd Hh. unfold serve, handleFrame. rewrite Hd. unfold mbind, M_bind, modify, gets. simpl.
  unfold upd in Hh. by rewrite Hh.
Qed.

Definition flushed_world env w : world R :=
  add_out (concat (dispatch_out env (s_canReceive (w_session w)) <$> pending (s_sched (w_session w))))
    (upd (set_s_sched (DrainAll (s_sched (w_session w))).2) w).

Lemma steady_flushed env w : steady w -> steady (flushed_world env w).
Proof.
  intros [[Hv [Hb Hc Hop Hcl]] Hr Hg Hd Ho]. split; try done.
  intros Hst. simpl in *. by rewrite (Ho Hst).
Qed.

Lemma serve_replays i env1 env2 w1 w2 :
  similar w1 w2 -> steady w1 -> steady w2 -> env_quit env1 = false -> env_quit env2 = false ->
  s_state (w_session w2) <> stateClosed -> framed i ->
  replays (serve i) env1 env2 w1 w2.
Proof.
  intros Hs H1 H2 Hq1 Hq2 Hst Hf. destruct (similar_fields _ _ Hs) as (r & l & o & rd & Hw & _).
  destruct i as [frame|].
  - set (count := fun s : session R => set_s_pdusRead (s_pdusRead s +64 1) s).
    assert (similar (upd count w1) (upd count w2)) as Hs' by (by apply similar_upd).
    assert (steady (upd count w1)) as H1' by (by apply steady_label).
    assert (steady (upd count w2)) as H2' by (by apply steady_label).
    pose proof (Decode_total frame) as Htot. destruct (Decode frame) as [p|err|] eqn:Hd; [| |done].
    + destruct (handle_replays p env1 env2 _ _ Hs' H1' H2' Hq1 Hq2)
        as (w1' & w2' & log & Hr1 & Hr2 & Hrest).
      exists w1', w2', log. split; [by eapply handleFrame_run|]. split; [by eapply handleFrame_run|]. exact Hrest.
    + destruct (rejectMalformed_run (R := R) frame err Hf) as [p Hrej].
      eexists _, _, None. split; [by eapply handleFrame_reject_run|]. split; [by eapply handleFrame_reject_run|].
      split; [|split; [by apply steady_add_out|]; by split; [apply steady_add_out|]].
      destruct p; [by apply similar_send | unfold reject_out; by rewrite !add_out_nil].
  - exists (flushed_world env1 w1), (flushed_world env2 w2), None.
    split; [apply flushSchedule_run; by rewrite Hw|]. split; [by apply flushSchedule_run|].
    split; [|split; [by apply steady_flushed|]; by split; [apply steady_flushed|]].
    unfold flushed_world. replace (s_canReceive (w_session w1)) with (s_canReceive (w_session w2)) by (by rewrite Hw).
    destruct Hs as [Hses Hfx Hch Hr Hq]. split; simpl; try done; [by rewrite Hw|].
    rewrite !fmap_app, !dispatches_content. by apply (rr_flush _ HRel).
Qed.

End Similar.

(** ** Runs *)

(** One input, the environment it is served in, and what the other binds of the
    SMSC do before it. *)
Record turn := mkTurn {
  t_input : input;
  t_env : Env;
  t_others : virtualSMSC -> virtualSMSC
}.

(** The record a step added to the journal. *)
Definition newRecord (r r' : Recorder) : option RecordedPDU :=
  if total r' =? total r then None else set_Index 0 <$> ring r' !! Z.to_nat (total r mod capN r).

Section Run.
Context {R : Type} `{RandSource R}.
Implicit Types (w : world R).

(** The other binds act at will once this one is bound; until then its ordinal
    is not taken, and they are held still. *)
Definition interfered (f : virtualSMSC -> virtualSMSC) w : world R :=
  if bool_decide (s_state (w_session w) = stateOpen) then w else upd_v f w.

(** Serves the inputs until the session closes; the journal entries come with it. *)
Fixpoint serve_all (turns : list turn) w : may_panic (list RecordedPDU * world R) :=
  match turns with
  | [] => Ok ([], w)
  | t :: turns =>
      if bool_decide (s_state (w_session w) = stateClosed) then Ok ([], w)
      else
        let w := interfered (t_others t) w in
        let* r := serve (t_input t) (t_env t) w in
        let* rest := serve_all turns r.2 in
        Ok (option_list (newRecord (v_recorder (w_smsc w)) (v_recorder (w_smsc r.2))) ++ rest.1, rest.2)
  end.

Definition start (v : virtualSMSC) (now : Z) : world R := mkWorld (newSession v now) v [] 0.

End Run.

(** What the other binds may do: whatever leaves the configuration and the
    engines alone and the journal well formed. *)
Definition honest (f : virtualSMSC -> virtualSMSC) : Prop :=
  forall v, fixed (f v) = fixed v /\ (ring_ok (v_recorder v) -> ring_ok (v_recorder (f v))).

Record calm (t : turn) : Prop := {
  cm_quit : env_quit (t_env t) = false;
  cm_frame : framed (t_input t);
  cm_others : honest (t_others t)
}.

Lemma word_succ_neq a : a +64 1 <> a.
Proof. unfold u64. rewrite Z.mod_eq by lia. change (2 ^ 64) with 18446744073709551616. lia. Qed.

Lemma newRecord_journaled log r r' :
  ring_ok r -> journaled log r r' -> newRecord r r' = set_Index 0 <$> log.
Proof.
  intros [Hc Hl]. unfold journaled, newRecord. destruct log as [rec|].
  2: { intros ->. by rewrite Z.eqb_refl. }
  unfold Append, go_mod, slice_set. pose proof (Z.mod_pos_bound (total r) (capN r) Hc) as Hm.
  replace (capN r =? 0) with false by (symmetry; bool_lia). rewrite obind_Ok.
  replace ((0 <=? total r mod capN r) && (total r mod capN r <? len (ring r))) with true
    by (symmetry; apply andb_true_iff; split; bool_lia).
  rewrite obind_Ok. intros [= <-]. simpl.
  replace (total r +64 1 =? total r) with false by (symmetry; apply Z.eqb_neq, word_succ_neq).
  rewrite list_lookup_insert_eq by lia. done.
Qed.

Section Runs.
Context {R : Type} `{RandSource R}.
Implicit Types (w : world R).

Lemma interfered_session f w : w_session (interfered f w) = w_session w.
Proof. unfold interfered. by case_bool_decide. Qed.

Lemma interfered_steady f w : honest f -> steady w -> steady (interfered f w).
Proof.
  intros Hf Hst. unfold interfered. case_bool_decide; [done|].
  destruct Hst as [[[Hr Hsc He] Hses] Hv Hg Hd Ho].
  destruct (Hf (w_smsc w)) as [Hfx Hring]. pose proof Hfx as Hfx'.
  unfold fixed in Hfx'. injection Hfx' as Hc Hs Hen.
  split; simpl; try done.
  - split; [|done]. split; [by apply Hring | by simpl; rewrite Hs | intros p e; simpl; rewrite Hen; apply He].
  - by eapply replayable_fixed.
Qed.

Lemma interfered_similar Rel f1 f2 w1 w2 :
  honest f1 -> honest f2 -> similar Rel w1 w2 -> similar Rel (interfered f1 w1) (interfered f2 w2).
Proof.
  intros H1 H2 Hs. destruct (similar_fields _ _ _ Hs) as (r & l & o & rd & Hw & _).
  unfold interfered. replace (s_state (w_session w1)) with (s_state (w_session w2)) by (by rewrite Hw).
  case_bool_decide as Ho; [done|]. destruct Hs as [Hs Hf Hc Hr Hq].
  split; simpl; try done. by rewrite (proj1 (H1 _)), (proj1 (H2 _)).
Qed.

Lemma serve_all_closed turns w :
  s_state (w_session w) = stateClosed -> serve_all turns w = Ok ([], w).
Proof. intros Hc. destruct turns; [done|]. simpl. by rewrite bool_decide_true. Qed.

Lemma serve_all_step t turns w w' l rest :
  s_state (w_session w) <> stateClosed ->
  serve (t_input t) (t_env t) (interfered (t_others t) w) = Ok ((), w') ->
  newRecord (v_recorder (w_smsc (interfered (t_others t) w))) (v_recorder (w_smsc w')) = l ->
  serve_all turns w' = Ok rest ->
  serve_all (t :: turns) w = Ok (option_list l ++ rest.1, rest.2).
Proof.
  intros Ho Hs Hl Hr. simpl. rewrite bool_decide_false by done. rewrite Hs. simpl.
  by rewrite Hr, Hl.
Qed.

(** Both runs, from similar worlds, over the same inputs or over the frames alone. *)
Definition replayed Rel (turns1 turns2 : list turn) w1 w2 : Prop :=
  exists log w1' w2', serve_all turns1 w1 = Ok (log, w1') /\ serve_all turns2 w2 = Ok (log, w2') /\
    similar Rel w1' w2'.

Lemma replayed_closed Rel turns1 turns2 w1 w2 :
  similar Rel w1 w2 -> s_state (w_session w2) = stateClosed -> replayed Rel turns1 turns2 w1 w2.
Proof.
  intros Hs Hc. destruct (similar_fields _ _ _ Hs) as (r & l & o & rd & Hw & _).
  exists [], w1, w2. split; [apply serve_all_closed; by rewrite Hw|].
  split; [by apply serve_all_closed | done].
Qed.

Lemma replayed_step Rel t1 t2 turns1 turns2 w1 w2 :
  replay_relation Rel -> similar Rel w1 w2 -> steady w1 -> steady w2 ->
  s_state (w_session w2) <> stateClosed -> calm t1 -> calm t2 -> t_input t1 = t_input t2 ->
  (forall w1' w2', similar Rel w1' w2' -> steady w1' -> steady w2' -> replayed Rel turns1 turns2 w1' w2') ->
  replayed Rel (t1 :: turns1) (t2 :: turns2) w1 w2.
Proof.
  intros HRel Hs H1 H2 Ho [Hq1 Hf1 Ho1] [Hq2 Hf2 Ho2] Hin IH.
  destruct (similar_fields _ _ _ Hs) as (r & l & o & rd & Hw & _).
  pose proof (interfered_steady _ _ Ho1 H1) as H1'. pose proof (interfered_steady _ _ Ho2 H2) as H2'.
  destruct (serve_replays Rel HRel (t_input t1) (t_env t1) (t_env t2) _ _
    (interfered_similar _ _ _ _ _ Ho1 Ho2 Hs) H1' H2' Hq1 Hq2) as (w1' & w2' & log & Hr1 & Hr2 & Hs' & Hst1 & Hst2 & Hj1 & Hj2);
    [by rewrite interfered_session | done|].
  destruct (IH w1' w2' Hs' Hst1 Hst2) as (l' & w1'' & w2'' & Ha1 & Ha2 & Hs'').
  apply newRecord_journaled in Hj1; [|by apply H1']. apply newRecord_journaled in Hj2; [|by apply H2'].
  rewrite Hin in Hr2.
  exists (option_list (set_Index 0 <$> log) ++ l'), w1'', w2''.
  split; [|split; [|done]].
  - eapply (serve_all_step t1 _ _ _ _ (l', w1'')); [by rewrite Hw | exact Hr1 | exact Hj1 | exact Ha1].
  - eapply (serve_all_step t2 _ _ _ _ (l', w2'')); [done | exact Hr2 | exact Hj2 | exact Ha2].
Qed.

Lemma lockstep Rel turns1 turns2 w1 w2 :
  replay_relation Rel -> similar Rel w1 w2 -> steady w1 -> steady w2 ->
  Forall calm turns1 -> Forall calm turns2 -> t_input <$> turns1 = t_input <$> turns2 ->
  replayed Rel turns1 turns2 w1 w2.
Proof.
  intros HRel. revert turns2 w1 w2.
  induction turns1 as [|t1 turns1 IH]; intros [|t2 turns2] w1 w2 Hs H1 H2 Hc1 Hc2 Hin; simplify_eq/=.
  { exists [], w1, w2. done. }
  destruct (decide (s_state (w_session w2) = stateClosed)) as [Hc|Hc]; [by apply replayed_closed|].
  apply Forall_cons in Hc1 as [Hc1 Hcs1]. apply Forall_cons in Hc2 as [Hc2 Hcs2].
  apply replayed_step; try done. intros w1' w2' Hs' H1' H2'. by apply IH.
Qed.

(** Dropping the quiescence windows of one run. *)
Definition frames (turns : list turn) : list bytes :=
  turns ≫= fun t => match t_input t with Frame f => [f] | Quiescence => [] end.

Definition is_frame (t : turn) : bool := match t_input t with Frame _ => true | Quiescence => false end.

Lemma similar_flushed env w1 w2 :
  similar up_to_flush w1 w2 -> similar up_to_flush (flushed_world env w1) w2.
Proof.
  intros Hs. destruct (similar_fields _ _ _ Hs) as (r & l & o & rd & Hw & _).
  destruct Hs as [Hs Hf Hc Hr Hq]. split; simpl; try done; [by rewrite Hw|].
  rewrite fmap_app, dispatches_content, Hw. simpl.
  rewrite <- (app_nil_r (content_of <$> w_out w2)).
  eapply up_to_flush_send with (d1 := []) (d2 := []); [rewrite Hw in Hr; exact Hr|..|done].
  - simpl. apply (proj1 (events_content_filter _ _)).
  - simpl. by rewrite (proj2 (events_content_filter _ _)).
  - simpl. by rewrite app_nil_r.
Qed.

Lemma newRecord_same r : newRecord r r = None.
Proof. unfold newRecord. by rewrite Z.eqb_refl. Qed.

Lemma without_flushes turns1 turns2 w1 w2 :
  similar up_to_flush w1 w2 -> steady w1 -> steady w2 ->
  Forall calm turns1 -> Forall calm turns2 -> Forall (fun t => is_frame t = true) turns2 ->
  frames turns1 = frames turns2 -> replayed up_to_flush turns1 turns2 w1 w2.
Proof.
  revert turns2 w1 w2.
  induction turns1 as [|t1 turns1 IH]; intros turns2 w1 w2 Hs H1 H2 Hc1 Hc2 Hfr Hin.
  { destruct turns2 as [|t2 turns2]; [by exists [], w1, w2|]. apply Forall_cons in Hfr as [Hfr _].
    unfold frames in Hin. csimpl in Hin. unfold is_frame in Hfr. by destruct (t_input t2). }
  destruct (decide (s_state (w_session w2) = stateClosed)) as [Hc|Hc]; [by apply replayed_closed|].
  apply Forall_cons in Hc1 as [Hc1 Hcs1].
  destruct (t_input t1) as [f|] eqn:Hi.
  - destruct turns2 as [|t2 turns2]; [unfold frames in Hin; csimpl in Hin; by rewrite Hi in Hin|].
    apply Forall_cons in Hc2 as [Hc2 Hcs2]. apply Forall_cons in Hfr as [Hfr Hfrs].
    unfold frames in Hin. csimpl in Hin. rewrite Hi in Hin. unfold is_frame in Hfr.
    destruct (t_input t2) as [f2|] eqn:Hi2; [|done]. injection Hin as -> Hin.
    apply replayed_step; try done; [apply up_to_flush_replay | by rewrite Hi, Hi2 |].
    intros w1' w2' Hs' H1' H2'. by apply IH.
  - destruct (similar_fields _ _ _ Hs) as (r & l & o & rd & Hw & _).
    pose proof (interfered_steady _ _ (cm_others _ Hc1) H1) as H1'.
    destruct (IH turns2 (flushed_world (t_env t1) (interfered (t_others t1) w1)) w2) as (log & w1' & w2' & Hr1 & Hr2 & Hs');
      try done.
    + apply similar_flushed. destruct Hs as [Hses Hf Hch Hr Hq]. unfold interfered. case_bool_decide as Ho; [by split|].
      split; simpl; try done; [by rewrite (proj1 (cm_others _ Hc1 _))|].
      intros Ho2. exfalso. apply Ho. by rewrite Hw.
    + by apply steady_flushed.
    + unfold frames in *. csimpl in Hin. by rewrite Hi in Hin.
    + exists log, w1', w2'. split; [|done].
      eapply (serve_all_step t1 _ _ (flushed_world (t_env t1) (interfered (t_others t1) w1)) None (log, w1'));
        [by rewrite Hw | | apply newRecord_same | exact Hr1].
      rewrite Hi. apply flushSchedule_run. rewrite interfered_session, Hw. done.
Qed.

End Runs.

(** The frames of a run, as a run of their own. *)
Lemma plain_turns turns :
  Forall calm turns ->
  exists plain, Forall (fun t => is_frame t = true) plain /\ Forall calm plain /\ frames plain = frames turns.
Proof.
  induction 1 as [|t turns Hc _ (plain & Hp & Hcp & Hf)]; [by exists []|].
  destruct (t_input t) as [f|] eqn:Hi.
  - exists (t :: plain). unfold frames in *. csimpl. rewrite Hi, Hf.
    repeat split; [constructor; [by unfold is_frame; rewrite Hi|done] | by constructor].
  - exists plain. unfold frames in *. csimpl. by rewrite Hi.
Qed.

(** ** The claims *)

(** A validated, seeded virtual SMSC without wall-clock throttling, none of whose
    scheduled disconnects looks at the other binds. *)
Record deterministic (regexp_compiles file_readable : string -> bool) (cfg : VirtualSMSCConfig) : Prop := {
  dt_ok : vs_ok regexp_compiles file_readable cfg;
  dt_typed : scenario_typed (VS_Scenario cfg);
  dt_seed : is_Some (VS_Seed cfg);
  dt_profile : throughputExempt (SC_Profile (VS_Scenario cfg)) = false;
  dt_disconnects : Forall not_oldest (VS_ScheduledDisconnects cfg)
}.

(** A SMSC booted from [cfg], at any point of its life. *)
Definition serves (cfg : VirtualSMSCConfig) (v : virtualSMSC) : Prop :=
  fixed v = fixed (newVirtualSMSC cfg).1 /\ ring_ok (v_recorder v).

Section Start.
Context {R : Type} `{RandSource R}.

Lemma deterministic_replayable regexp files cfg v :
  deterministic regexp files cfg -> serves cfg v -> replayable (R := R) v.
Proof.
  intros [Hok _ [seed Hs] Hp Hd] [Hf _]. unfold fixed in Hf. injection Hf as Hc Hsc _.
  unfold replayable. rewrite Hc, Hsc. split; [done|].
  intros id entropy base entropy' base'. simpl.
  rewrite !(seeded_no_gate cfg seed id _ _ regexp files Hok Hs Hp). done.
Qed.

Lemma start_steady regexp files cfg v now :
  deterministic regexp files cfg -> serves cfg v -> steady (start (R := R) v now).
Proof.
  intros Hd Hv. pose proof (deterministic_replayable _ _ _ _ Hd Hv) as Hr.
  destruct Hv as [Hf Hring]. unfold fixed in Hf. injection Hf as Hc Hs He.
  destruct (newVirtualSMSC_safe cfg) as [_ Hsc Hen]; [apply Hd | apply Hd |].
  split; try done. split; [|apply newSession_safe]. simpl.
  split; [done | by rewrite Hs | intros p e; rewrite He; apply Hen].
Qed.

Lemma start_similar Rel cfg v1 v2 now1 now2 :
  Rel true new_Runner [] new_Runner [] -> replay_relation Rel ->
  serves cfg v1 -> serves cfg v2 -> v_bindSeq v1 = v_bindSeq v2 ->
  similar Rel (start (R := R) v1 now1) (start v2 now2).
Proof.
  intros Hr HRel [H1 _] [H2 _] Hq. split; simpl; try done.
  - unfold fixed in *. injection H1 as Hc1 _ _. injection H2 as Hc2 _ _.
    unfold newSession. rewrite Hc1, Hc2. reflexivity.
  - by rewrite H1, H2.
  - by eapply (rr_bind _ HRel).
Qed.

Lemma similar_up_to_flush_join (w1 w2 w : world R) :
  similar up_to_flush w1 w -> similar up_to_flush w2 w ->
  same_session (w_session w1) (w_session w2) /\
  up_to_flush (s_canReceive (w_session w1)) (s_sched (w_session w1)) (content_of <$> w_out w1)
    (s_sched (w_session w2)) (content_of <$> w_out w2).
Proof.
  intros [Hs1 _ _ [Hn1 Hd1] _] [Hs2 _ _ [Hn2 Hd2] _]. split; [by rewrite Hs1, Hs2|].
  apply same_session_inv in Hs1 as (r & l & o & rd & Hw).
  replace (s_canReceive (w_session w1)) with (s_canReceive (w_session w)) by (by rewrite Hw).
  split; [by rewrite Hn1, Hn2 | by rewrite Hd1, Hd2].
Qed.

End Start.

(** C8: a seeded bind replays.  Two sessions of a deterministic virtual SMSC that
    take the same bind ordinal and are fed the same frames and quiescence
    windows behave alike, whatever the wall clock reads in either run, whatever
    the other binds do meanwhile, whatever state they left the SMSC in, and
    whichever held-back responses have already left: neither run panics; both
    append the same records to the journal, send the same PDUs and make the same
    metric calls in the same order; and they end in the same state, pending
    events included, up to clock readings. *)
Theorem session_replay {R} `{RandSource R} regexp files cfg v1 v2 now1 now2 turns1 turns2 :
  deterministic regexp files cfg -> serves cfg v1 -> serves cfg v2 -> v_bindSeq v1 = v_bindSeq v2 ->
  Forall calm turns1 -> Forall calm turns2 -> t_input <$> turns1 = t_input <$> turns2 ->
  exists log w1 w2,
    serve_all turns1 (start (R := R) v1 now1) = Ok (log, w1) /\
    serve_all turns2 (start (R := R) v2 now2) = Ok (log, w2) /\
    same_session (w_session w1) (w_session w2) /\
    s_sched (w_session w1) = s_sched (w_session w2) /\
    content_of <$> w_out w1 = content_of <$> w_out w2.
Proof.
  intros Hd H1 H2 Hq Hc1 Hc2 Hin.
  destruct (lockstep exactly turns1 turns2 (start v1 now1) (start v2 now2)) as (log & w1 & w2 & Hr1 & Hr2 & Hs);
    [apply exactly_replay | by apply (start_similar _ cfg); [|apply exactly_replay|..]
    | by eapply start_steady | by eapply start_steady | done..|].
  exists log, w1, w2. split; [done|]. split; [done|]. destruct Hs as [Hs _ _ [Hr Ho] _]. done.
Qed.

(** Quiescence windows decide only when a delivery leaves.  If two such runs
    differ also in where quiescence windows expire between the frames, they
    still append the same records, queue the same responses and metric calls in
    the same order and end in the same state but for the runner; and the
    deliveries sent and still pending are together the same.  (The order of the
    deliveries themselves may differ: a flushed event does not wait for an event
    scheduled later with an earlier tick.) *)
Theorem flush_neutral {R} `{RandSource R} regexp files cfg v1 v2 now1 now2 turns1 turns2 :
  deterministic regexp files cfg -> serves cfg v1 -> serves cfg v2 -> v_bindSeq v1 = v_bindSeq v2 ->
  Forall calm turns1 -> Forall calm turns2 -> frames turns1 = frames turns2 ->
  exists log w1 w2,
    serve_all turns1 (start (R := R) v1 now1) = Ok (log, w1) /\
    serve_all turns2 (start (R := R) v2 now2) = Ok (log, w2) /\
    same_session (w_session w1) (w_session w2) /\
    let sent w := content_of <$> w_out w in
    base.filter (fun c => is_delivery c = false) (sent w1) = base.filter (fun c => is_delivery c = false) (sent w2) /\
    base.filter (fun c => is_delivery c = true) (sent w1) ++
      events_content (s_canReceive (w_session w1)) (pending (s_sched (w_session w1))) ≡ₚ
    base.filter (fun c => is_delivery c = true) (sent w2) ++
      events_content (s_canReceive (w_session w1)) (pending (s_sched (w_session w2))).
Proof.
  intros Hd H1 H2 Hq Hc1 Hc2 Hin.
  destruct (plain_turns turns1 Hc1) as (plain & Hpl & Hcp & Hfp).
  assert (forall turns v now, serves cfg v -> v_bindSeq v = v_bindSeq v1 -> Forall calm turns ->
    frames turns = frames plain ->
    replayed up_to_flush turns plain (start (R := R) v now) (start v1 now1)) as Hrun.
  { intros turns v now Hv Hvq Hc Hfr. apply without_flushes; try done.
    - by apply (start_similar _ cfg); [|apply up_to_flush_replay|..].
    - by eapply start_steady.
    - by eapply start_steady. }
  destruct (Hrun turns1 v1 now1) as (log & w1 & w & Hr1 & Hr & Hs1); try done.
  destruct (Hrun turns2 v2 now2) as (log' & w2 & w' & Hr2 & Hr' & Hs2); [done..|by rewrite Hfp|].
  rewrite Hr in Hr'. injection Hr' as <- <-. exists log, w1, w2.
  split; [done|]. split; [done|]. by apply (similar_up_to_flush_join w1 w2 w).
Qed.

(** ** Witnesses *)

Definition frame_of (p : PDU) : bytes := match Encode p with Ok b => b | _ => [] end.

Definition sample_inputs : list input :=
  [Frame (frame_of sample_bind_pdu); Frame (frame_of sample_submit); Frame (frame_of sample_submit);
   Frame (frame_of (mkPDU EnquireLink 0 9 None)); Frame (frame_of sample_submit)].

(** The clock reads something else, the held-back responses have all left, and
    another bind keeps submitting. *)
Definition noisy_env : Env := mkEnv 777 888 false (fun _ => true) (5, 6) 7.

Definition noisy_others (v : virtualSMSC) : virtualSMSC :=
  set_v_bindSeq 9 (set_v_logicalClock (v_logicalClock v +64 40)
    (match Append zero_RecordedPDU (v_recorder v) with Ok r => set_v_recorder r v | _ => v end)).

Lemma noisy_others_honest : honest noisy_others.
Proof.
  intros v. unfold noisy_others. destruct (Append zero_RecordedPDU (v_recorder v)) as [r| |] eqn:Ha; try done.
  split; [done|]. intros Hr. destruct (Append_total zero_RecordedPDU _ Hr) as (r' & Ha' & Hr' & _).
  rewrite Ha in Ha'. injection Ha' as ->. exact Hr'.
Qed.

Definition quiet_turns : list turn := (fun i => mkTurn i sample_env id) <$> sample_inputs.
Definition noisy_turns : list turn := (fun i => mkTurn i noisy_env noisy_others) <$> sample_inputs.

(** The same with a quiescence window before the last submit. *)
Definition flushed_turns : list turn :=
  take 3 noisy_turns ++ [mkTurn Quiescence noisy_env noisy_others] ++ drop 3 noisy_turns.

Lemma sample_framed : Forall framed sample_inputs.
Proof. repeat (constructor; [vm_compute; discriminate|]). constructor. Qed.

Lemma turns_calm env f l :
  env_quit env = false -> honest f -> Forall framed l -> Forall calm ((fun i => mkTurn i env f) <$> l).
Proof. intros Hq Hf Hl. apply Forall_fmap. eapply Forall_impl; [exact Hl|]. intros i Hi. by split. Qed.

Lemma quiet_calm : Forall calm quiet_turns.
Proof. apply turns_calm; [done | by split | apply sample_framed]. Qed.

Lemma noisy_calm : Forall calm noisy_turns.
Proof. apply turns_calm; [done | apply noisy_others_honest | apply sample_framed]. Qed.

Lemma flushed_calm : Forall calm flushed_turns.
Proof.
  apply Forall_app. split; [apply Forall_take, noisy_calm|]. apply Forall_app. split.
  - constructor; [|constructor]. split; [done|done|apply noisy_others_honest].
  - apply Forall_drop, noisy_calm.
Qed.

Lemma sample_deterministic : deterministic (fun _ => true) (fun _ => true) sample_vs.
Proof.
  split; [|apply sample_vs_ok|by eexists|done|repeat constructor; discriminate].
  apply (validateVirtualSMSC_nil _ _ sample_vs (proj2 sample_vs_ok)). vm_compute. reflexivity.
Qed.

Definition quiet_smsc : virtualSMSC := (newVirtualSMSC sample_vs).1.

(** A SMSC that has already seen other binds' traffic, none of which took an ordinal since. *)
Definition noisy_smsc : virtualSMSC := set_v_bindSeq 0 (noisy_others (noisy_others quiet_smsc)).

Lemma quiet_serves : serves sample_vs quiet_smsc.
Proof. split; [done | apply New_ring_ok]. Qed.

Lemma noisy_serves : serves sample_vs noisy_smsc.
Proof.
  unfold noisy_smsc. destruct (noisy_others_honest quiet_smsc) as [H1 H2].
  destruct (noisy_others_honest (noisy_others quiet_smsc)) as [H3 H4].
  split.
  - change (fixed (noisy_others (noisy_others quiet_smsc)) = fixed quiet_smsc). by rewrite H3, H1.
  - change (ring_ok (v_recorder (noisy_others (noisy_others quiet_smsc)))).
    by apply H4, H2, New_ring_ok.
Qed.

Lemma session_replay_witness :
  exists log w1 w2,
    serve_all quiet_turns (start (R := PCG) quiet_smsc 0) = Ok (log, w1) /\
    serve_all noisy_turns (start (R := PCG) noisy_smsc 55) = Ok (log, w2) /\
    Rec_MessageID <$> log = ["1-0001"; "1-0002"; "1-0003"]%string /\
    content_of <$> w_out w1 = content_of <$> w_out w2 /\ w_out w1 <> w_out w2.
Proof.
  destruct (session_replay (R := PCG) _ _ sample_vs quiet_smsc noisy_smsc 0 55 quiet_turns noisy_turns
    sample_deterministic quiet_serves noisy_serves eq_refl quiet_calm noisy_calm eq_refl)
    as (log & w1 & w2 & H1 & H2 & _ & _ & Ho).
  exists log, w1, w2. split; [exact H1|]. split; [exact H2|].
  assert (log = match serve_all quiet_turns (start (R := PCG) quiet_smsc 0) with Ok (l, _) => l | _ => [] end) as ->
    by (rewrite H1; reflexivity).
  split; [vm_compute; reflexivity|]. split; [exact Ho|].
  assert (w_out w1 = match serve_all quiet_turns (start (R := PCG) quiet_smsc 0) with Ok (_, w) => w_out w | _ => [] end) as ->
    by (rewrite H1; reflexivity).
  assert (w_out w2 = match serve_all noisy_turns (start (R := PCG) noisy_smsc 55) with Ok (_, w) => w_out w | _ => [] end) as ->
    by (rewrite H2; reflexivity).
  vm_compute. discriminate.
Defined.

Lemma flush_neutral_witness :
  exists log w1 w2,
    serve_all quiet_turns (start (R := PCG) quiet_smsc 0) = Ok (log, w1) /\
    serve_all flushed_turns (start (R := PCG) noisy_smsc 55) = Ok (log, w2) /\
    length (pending (s_sched (w_session w1))) = 2%nat /\ length (pending (s_sched (w_session w2))) = 1%nat.
Proof.
  destruct (flush_neutral (R := PCG) _ _ sample_vs quiet_smsc noisy_smsc 0 55 quiet_turns flushed_turns
    sample_deterministic quiet_serves noisy_serves eq_refl quiet_calm flushed_calm eq_refl)
    as (log & w1 & w2 & H1 & H2 & _).
  exists log, w1, w2. split; [exact H1|]. split; [exact H2|].
  assert (w_session w1 = match serve_all quiet_turns (start (R := PCG) quiet_smsc 0) with
    Ok (_, w) => w_session w | _ => newSession quiet_smsc 0 end) as -> by (rewrite H1; reflexivity).
  assert (w_session w2 = match serve_all flushed_turns (start (R := PCG) noisy_smsc 55) with
    Ok (_, w) => w_session w | _ => newSession quiet_smsc 0 end) as -> by (rewrite H2; reflexivity).
  split; vm_compute; reflexivity.
Defined.
