(* ===== verification/Pipeline.v ===== *)
(** * The outbound pipeline and teardown of a session
      ([run], [writeLoop], [sendBytes], [sendWhen], [recordClose] of [internal/smsc/session.go])

    The goroutines of one session as program counters over shared channels: the
    read goroutine, which queues PDUs and then tears the session down; the
    writer; the closer, which reacts to the engine's shutdown; and one goroutine
    per response held back.  A scheduler picks which one moves and what it
    chooses; every interleaving is a run. *)

From S2P Require Import Prelude.
From S2P Require Import SmppPdu.
From S2P Require Import SmppCodec.
From S2P Require Import Scenario.
From S2P Require Import Close.
From S2P Require Import VirtualSMSC.
From S2P Require Import SessionState.
From S2P Require Import SessionRuns.

(** ** Data *)

(** Where an item was queued from: the model's own label, not in the code. *)
Inductive origin := FromReader | FromResponse (c : chan) | FromReceipt (c : chan) | FromCloser.

#[export] Instance origin_eq_dec : EqDecision origin.
Proof. solve_decision. Defined.

Record outboundPDU := mkOutboundPDU { ob_b : bytes; ob_kind : Kind; ob_origin : origin }.

(** [make(chan outboundPDU, 8)]. *)
Definition outboundCap : nat := 8.

(** What the read goroutine does for the pipeline, one item after another. *)
Inductive action :=
| ASend (b : bytes) (k : Kind)                 (* sendBytes *)
| ARespond (d : Z) (b : bytes) (c : chan)      (* sendWhen after a latency, closing [c] *)
| AReceipt (b : bytes) (c : chan)              (* a receipt whose response closes [c] *)
| AMetric (m : metric).

(** The effects of an action, given which channels are closed. *)
Definition effects_of (closed : chan -> bool) (a : action) : list effect :=
  match a with
  | ASend b k => [SendBytes b k]
  | ARespond d b c => [SendWhen (ReadyAfter d) b kindResp (Some c)]
  | AReceipt b c => if closed c then [SendBytes b kindDLR] else [SendWhen (ReadySent c) b kindDLR None]
  | AMetric m => [Metric m]
  end.

(** The record [recordClose] leaves: the metric labels and the counters. *)
Record closing := mkClosing {
  cl_bindType : string;
  cl_reason : closeReason;
  cl_initiator : string;
  cl_pdusWritten : Z;
  cl_pdusDropped : Z;
  cl_queueDepth : Z
}.

(** ** Shared state

    The last five fields record the history of the queue: every PDU handed to
    [sendBytes], those queued and those refused, the queued ones that are lost,
    and those written. *)

Record shared := mkShared {
  x_outbound : list outboundPDU;
  x_outboundClosed : bool;
  x_writerClosed : bool;
  x_closerDone : bool;
  x_done : bool;
  x_stopDeferred : bool;
  x_quit : bool;
  x_sent : list chan;
  x_deferred : Z;
  x_bound : bool;
  x_writeErr : option io_error;
  x_pdusWritten : Z;
  x_pdusDropped : Z;
  x_writerFailedFirst : bool;
  x_queueDepth : Z;
  x_connClosed : bool;
  x_depth : Z;
  x_bindGauge : Z;
  x_registered : bool;
  x_closeRecord : option closing;
  x_panicked : bool;
  x_offered : list outboundPDU;
  x_queued : list outboundPDU;
  x_refused : list outboundPDU;
  x_lost : list outboundPDU;
  x_wire : list outboundPDU
}.

Definition set_x_outbound (x : list outboundPDU) (sh : shared) : shared :=
  mkShared x (x_outboundClosed sh) (x_writerClosed sh) (x_closerDone sh) (x_done sh)
    (x_stopDeferred sh) (x_quit sh) (x_sent sh) (x_deferred sh) (x_bound sh) (x_writeErr sh)
    (x_pdusWritten sh) (x_pdusDropped sh) (x_writerFailedFirst sh) (x_queueDepth sh)
    (x_connClosed sh) (x_depth sh) (x_bindGauge sh) (x_registered sh) (x_closeRecord sh)
    (x_panicked sh) (x_offered sh) (x_queued sh) (x_refused sh) (x_lost sh) (x_wire sh).
Definition set_x_outboundClosed (x : bool) (sh : shared) : shared :=
  mkShared (x_outbound sh) x (x_writerClosed sh) (x_closerDone sh) (x_done sh) (x_stopDeferred
    sh) (x_quit sh) (x_sent sh) (x_deferred sh) (x_bound sh) (x_writeErr sh) (x_pdusWritten sh)
    (x_pdusDropped sh) (x_writerFailedFirst sh) (x_queueDepth sh) (x_connClosed sh) (x_depth sh)
    (x_bindGauge sh) (x_registered sh) (x_closeRecord sh) (x_panicked sh) (x_offered sh)
    (x_queued sh) (x_refused sh) (x_lost sh) (x_wire sh).
Definition set_x_writerClosed (x : bool) (sh : shared) : shared :=
  mkShared (x_outbound sh) (x_outboundClosed sh) x (x_closerDone sh) (x_done sh) (x_stopDeferred
    sh) (x_quit sh) (x_sent sh) (x_deferred sh) (x_bound sh) (x_writeErr sh) (x_pdusWritten sh)
    (x_pdusDropped sh) (x_writerFailedFirst sh) (x_queueDepth sh) (x_connClosed sh) (x_depth sh)
    (x_bindGauge sh) (x_registered sh) (x_closeRecord sh) (x_panicked sh) (x_offered sh)
    (x_queued sh) (x_refused sh) (x_lost sh) (x_wire sh).
Definition set_x_closerDone (x : bool) (sh : shared) : shared :=
  mkShared (x_outbound sh) (x_outboundClosed sh) (x_writerClosed sh) x (x_done sh)
    (x_stopDeferred sh) (x_quit sh) (x_sent sh) (x_deferred sh) (x_bound sh) (x_writeErr sh)
    (x_pdusWritten sh) (x_pdusDropped sh) (x_writerFailedFirst sh) (x_queueDepth sh)
    (x_connClosed sh) (x_depth sh) (x_bindGauge sh) (x_registered sh) (x_closeRecord sh)
    (x_panicked sh) (x_offered sh) (x_queued sh) (x_refused sh) (x_lost sh) (x_wire sh).
Definition set_x_done (x : bool) (sh : shared) : shared :=
  mkShared (x_outbound sh) (x_outboundClosed sh) (x_writerClosed sh) (x_closerDone sh) x
    (x_stopDeferred sh) (x_quit sh) (x_sent sh) (x_deferred sh) (x_bound sh) (x_writeErr sh)
    (x_pdusWritten sh) (x_pdusDropped sh) (x_writerFailedFirst sh) (x_queueDepth sh)
    (x_connClosed sh) (x_depth sh) (x_bindGauge sh) (x_registered sh) (x_closeRecord sh)
    (x_panicked sh) (x_offered sh) (x_queued sh) (x_refused sh) (x_lost sh) (x_wire sh).
Definition set_x_stopDeferred (x : bool) (sh : shared) : shared :=
  mkShared (x_outbound sh) (x_outboundClosed sh) (x_writerClosed sh) (x_closerDone sh) (x_done
    sh) x (x_quit sh) (x_sent sh) (x_deferred sh) (x_bound sh) (x_writeErr sh) (x_pdusWritten
    sh) (x_pdusDropped sh) (x_writerFailedFirst sh) (x_queueDepth sh) (x_connClosed sh) (x_depth
    sh) (x_bindGauge sh) (x_registered sh) (x_closeRecord sh) (x_panicked sh) (x_offered sh)
    (x_queued sh) (x_refused sh) (x_lost sh) (x_wire sh).
Definition set_x_quit (x : bool) (sh : shared) : shared :=
  mkShared (x_outbound sh) (x_outboundClosed sh) (x_writerClosed sh) (x_closerDone sh) (x_done
    sh) (x_stopDeferred sh) x (x_sent sh) (x_deferred sh) (x_bound sh) (x_writeErr sh)
    (x_pdusWritten sh) (x_pdusDropped sh) (x_writerFailedFirst sh) (x_queueDepth sh)
    (x_connClosed sh) (x_depth sh) (x_bindGauge sh) (x_registered sh) (x_closeRecord sh)
    (x_panicked sh) (x_offered sh) (x_queued sh) (x_refused sh) (x_lost sh) (x_wire sh).
Definition set_x_sent (x : list chan) (sh : shared) : shared :=
  mkShared (x_outbound sh) (x_outboundClosed sh) (x_writerClosed sh) (x_closerDone sh) (x_done
    sh) (x_stopDeferred sh) (x_quit sh) x (x_deferred sh) (x_bound sh) (x_writeErr sh)
    (x_pdusWritten sh) (x_pdusDropped sh) (x_writerFailedFirst sh) (x_queueDepth sh)
    (x_connClosed sh) (x_depth sh) (x_bindGauge sh) (x_registered sh) (x_closeRecord sh)
    (x_panicked sh) (x_offered sh) (x_queued sh) (x_refused sh) (x_lost sh) (x_wire sh).
Definition set_x_deferred (x : Z) (sh : shared) : shared :=
  mkShared (x_outbound sh) (x_outboundClosed sh) (x_writerClosed sh) (x_closerDone sh) (x_done
    sh) (x_stopDeferred sh) (x_quit sh) (x_sent sh) x (x_bound sh) (x_writeErr sh)
    (x_pdusWritten sh) (x_pdusDropped sh) (x_writerFailedFirst sh) (x_queueDepth sh)
    (x_connClosed sh) (x_depth sh) (x_bindGauge sh) (x_registered sh) (x_closeRecord sh)
    (x_panicked sh) (x_offered sh) (x_queued sh) (x_refused sh) (x_lost sh) (x_wire sh).
Definition set_x_bound (x : bool) (sh : shared) : shared :=
  mkShared (x_outbound sh) (x_outboundClosed sh) (x_writerClosed sh) (x_closerDone sh) (x_done
    sh) (x_stopDeferred sh) (x_quit sh) (x_sent sh) (x_deferred sh) x (x_writeErr sh)
    (x_pdusWritten sh) (x_pdusDropped sh) (x_writerFailedFirst sh) (x_queueDepth sh)
    (x_connClosed sh) (x_depth sh) (x_bindGauge sh) (x_registered sh) (x_closeRecord sh)
    (x_panicked sh) (x_offered sh) (x_queued sh) (x_refused sh) (x_lost sh) (x_wire sh).
Definition set_x_writeErr (x : option io_error) (sh : shared) : shared :=
  mkShared (x_outbound sh) (x_outboundClosed sh) (x_writerClosed sh) (x_closerDone sh) (x_done
    sh) (x_stopDeferred sh) (x_quit sh) (x_sent sh) (x_deferred sh) (x_bound sh) x
    (x_pdusWritten sh) (x_pdusDropped sh) (x_writerFailedFirst sh) (x_queueDepth sh)
    (x_connClosed sh) (x_depth sh) (x_bindGauge sh) (x_registered sh) (x_closeRecord sh)
    (x_panicked sh) (x_offered sh) (x_queued sh) (x_refused sh) (x_lost sh) (x_wire sh).
Definition set_x_pdusWritten (x : Z) (sh : shared) : shared :=
  mkShared (x_outbound sh) (x_outboundClosed sh) (x_writerClosed sh) (x_closerDone sh) (x_done
    sh) (x_stopDeferred sh) (x_quit sh) (x_sent sh) (x_deferred sh) (x_bound sh) (x_writeErr sh)
    x (x_pdusDropped sh) (x_writerFailedFirst sh) (x_queueDepth sh) (x_connClosed sh) (x_depth
    sh) (x_bindGauge sh) (x_registered sh) (x_closeRecord sh) (x_panicked sh) (x_offered sh)
    (x_queued sh) (x_refused sh) (x_lost sh) (x_wire sh).
Definition set_x_pdusDropped (x : Z) (sh : shared) : shared :=
  mkShared (x_outbound sh) (x_outboundClosed sh) (x_writerClosed sh) (x_closerDone sh) (x_done
    sh) (x_stopDeferred sh) (x_quit sh) (x_sent sh) (x_deferred sh) (x_bound sh) (x_writeErr sh)
    (x_pdusWritten sh) x (x_writerFailedFirst sh) (x_queueDepth sh) (x_connClosed sh) (x_depth
    sh) (x_bindGauge sh) (x_registered sh) (x_closeRecord sh) (x_panicked sh) (x_offered sh)
    (x_queued sh) (x_refused sh) (x_lost sh) (x_wire sh).
Definition set_x_writerFailedFirst (x : bool) (sh : shared) : shared :=
  mkShared (x_outbound sh) (x_outboundClosed sh) (x_writerClosed sh) (x_closerDone sh) (x_done
    sh) (x_stopDeferred sh) (x_quit sh) (x_sent sh) (x_deferred sh) (x_bound sh) (x_writeErr sh)
    (x_pdusWritten sh) (x_pdusDropped sh) x (x_queueDepth sh) (x_connClosed sh) (x_depth sh)
    (x_bindGauge sh) (x_registered sh) (x_closeRecord sh) (x_panicked sh) (x_offered sh)
    (x_queued sh) (x_refused sh) (x_lost sh) (x_wire sh).
Definition set_x_queueDepth (x : Z) (sh : shared) : shared :=
  mkShared (x_outbound sh) (x_outboundClosed sh) (x_writerClosed sh) (x_closerDone sh) (x_done
    sh) (x_stopDeferred sh) (x_quit sh) (x_sent sh) (x_deferred sh) (x_bound sh) (x_writeErr sh)
    (x_pdusWritten sh) (x_pdusDropped sh) (x_writerFailedFirst sh) x (x_connClosed sh) (x_depth
    sh) (x_bindGauge sh) (x_registered sh) (x_closeRecord sh) (x_panicked sh) (x_offered sh)
    (x_queued sh) (x_refused sh) (x_lost sh) (x_wire sh).
Definition set_x_connClosed (x : bool) (sh : shared) : shared :=
  mkShared (x_outbound sh) (x_outboundClosed sh) (x_writerClosed sh) (x_closerDone sh) (x_done
    sh) (x_stopDeferred sh) (x_quit sh) (x_sent sh) (x_deferred sh) (x_bound sh) (x_writeErr sh)
    (x_pdusWritten sh) (x_pdusDropped sh) (x_writerFailedFirst sh) (x_queueDepth sh) x (x_depth
    sh) (x_bindGauge sh) (x_registered sh) (x_closeRecord sh) (x_panicked sh) (x_offered sh)
    (x_queued sh) (x_refused sh) (x_lost sh) (x_wire sh).
Definition set_x_depth (x : Z) (sh : shared) : shared :=
  mkShared (x_outbound sh) (x_outboundClosed sh) (x_writerClosed sh) (x_closerDone sh) (x_done
    sh) (x_stopDeferred sh) (x_quit sh) (x_sent sh) (x_deferred sh) (x_bound sh) (x_writeErr sh)
    (x_pdusWritten sh) (x_pdusDropped sh) (x_writerFailedFirst sh) (x_queueDepth sh)
    (x_connClosed sh) x (x_bindGauge sh) (x_registered sh) (x_closeRecord sh) (x_panicked sh)
    (x_offered sh) (x_queued sh) (x_refused sh) (x_lost sh) (x_wire sh).
Definition set_x_bindGauge (x : Z) (sh : shared) : shared :=
  mkShared (x_outbound sh) (x_outboundClosed sh) (x_writerClosed sh) (x_closerDone sh) (x_done
    sh) (x_stopDeferred sh) (x_quit sh) (x_sent sh) (x_deferred sh) (x_bound sh) (x_writeErr sh)
    (x_pdusWritten sh) (x_pdusDropped sh) (x_writerFailedFirst sh) (x_queueDepth sh)
    (x_connClosed sh) (x_depth sh) x (x_registered sh) (x_closeRecord sh) (x_panicked sh)
    (x_offered sh) (x_queued sh) (x_refused sh) (x_lost sh) (x_wire sh).
Definition set_x_registered (x : bool) (sh : shared) : shared :=
  mkShared (x_outbound sh) (x_outboundClosed sh) (x_writerClosed sh) (x_closerDone sh) (x_done
    sh) (x_stopDeferred sh) (x_quit sh) (x_sent sh) (x_deferred sh) (x_bound sh) (x_writeErr sh)
    (x_pdusWritten sh) (x_pdusDropped sh) (x_writerFailedFirst sh) (x_queueDepth sh)
    (x_connClosed sh) (x_depth sh) (x_bindGauge sh) x (x_closeRecord sh) (x_panicked sh)
    (x_offered sh) (x_queued sh) (x_refused sh) (x_lost sh) (x_wire sh).
Definition set_x_closeRecord (x : option closing) (sh : shared) : shared :=
  mkShared (x_outbound sh) (x_outboundClosed sh) (x_writerClosed sh) (x_closerDone sh) (x_done
    sh) (x_stopDeferred sh) (x_quit sh) (x_sent sh) (x_deferred sh) (x_bound sh) (x_writeErr sh)
    (x_pdusWritten sh) (x_pdusDropped sh) (x_writerFailedFirst sh) (x_queueDepth sh)
    (x_connClosed sh) (x_depth sh) (x_bindGauge sh) (x_registered sh) x (x_panicked sh)
    (x_offered sh) (x_queued sh) (x_refused sh) (x_lost sh) (x_wire sh).
Definition set_x_panicked (x : bool) (sh : shared) : shared :=
  mkShared (x_outbound sh) (x_outboundClosed sh) (x_writerClosed sh) (x_closerDone sh) (x_done
    sh) (x_stopDeferred sh) (x_quit sh) (x_sent sh) (x_deferred sh) (x_bound sh) (x_writeErr sh)
    (x_pdusWritten sh) (x_pdusDropped sh) (x_writerFailedFirst sh) (x_queueDepth sh)
    (x_connClosed sh) (x_depth sh) (x_bindGauge sh) (x_registered sh) (x_closeRecord sh) x
    (x_offered sh) (x_queued sh) (x_refused sh) (x_lost sh) (x_wire sh).
Definition set_x_offered (x : list outboundPDU) (sh : shared) : shared :=
  mkShared (x_outbound sh) (x_outboundClosed sh) (x_writerClosed sh) (x_closerDone sh) (x_done
    sh) (x_stopDeferred sh) (x_quit sh) (x_sent sh) (x_deferred sh) (x_bound sh) (x_writeErr sh)
    (x_pdusWritten sh) (x_pdusDropped sh) (x_writerFailedFirst sh) (x_queueDepth sh)
    (x_connClosed sh) (x_depth sh) (x_bindGauge sh) (x_registered sh) (x_closeRecord sh)
    (x_panicked sh) x (x_queued sh) (x_refused sh) (x_lost sh) (x_wire sh).
Definition set_x_queued (x : list outboundPDU) (sh : shared) : shared :=
  mkShared (x_outbound sh) (x_outboundClosed sh) (x_writerClosed sh) (x_closerDone sh) (x_done
    sh) (x_stopDeferred sh) (x_quit sh) (x_sent sh) (x_deferred sh) (x_bound sh) (x_writeErr sh)
    (x_pdusWritten sh) (x_pdusDropped sh) (x_writerFailedFirst sh) (x_queueDepth sh)
    (x_connClosed sh) (x_depth sh) (x_bindGauge sh) (x_registered sh) (x_closeRecord sh)
    (x_panicked sh) (x_offered sh) x (x_refused sh) (x_lost sh) (x_wire sh).
Definition set_x_refused (x : list outboundPDU) (sh : shared) : shared :=
  mkShared (x_outbound sh) (x_outboundClosed sh) (x_writerClosed sh) (x_closerDone sh) (x_done
    sh) (x_stopDeferred sh) (x_quit sh) (x_sent sh) (x_deferred sh) (x_bound sh) (x_writeErr sh)
    (x_pdusWritten sh) (x_pdusDropped sh) (x_writerFailedFirst sh) (x_queueDepth sh)
    (x_connClosed sh) (x_depth sh) (x_bindGauge sh) (x_registered sh) (x_closeRecord sh)
    (x_panicked sh) (x_offered sh) (x_queued sh) x (x_lost sh) (x_wire sh).
Definition set_x_lost (x : list outboundPDU) (sh : shared) : shared :=
  mkShared (x_outbound sh) (x_outboundClosed sh) (x_writerClosed sh) (x_closerDone sh) (x_done
    sh) (x_stopDeferred sh) (x_quit sh) (x_sent sh) (x_deferred sh) (x_bound sh) (x_writeErr sh)
    (x_pdusWritten sh) (x_pdusDropped sh) (x_writerFailedFirst sh) (x_queueDepth sh)
    (x_connClosed sh) (x_depth sh) (x_bindGauge sh) (x_registered sh) (x_closeRecord sh)
    (x_panicked sh) (x_offered sh) (x_queued sh) (x_refused sh) x (x_wire sh).
Definition set_x_wire (x : list outboundPDU) (sh : shared) : shared :=
  mkShared (x_outbound sh) (x_outboundClosed sh) (x_writerClosed sh) (x_closerDone sh) (x_done
    sh) (x_stopDeferred sh) (x_quit sh) (x_sent sh) (x_deferred sh) (x_bound sh) (x_writeErr sh)
    (x_pdusWritten sh) (x_pdusDropped sh) (x_writerFailedFirst sh) (x_queueDepth sh)
    (x_connClosed sh) (x_depth sh) (x_bindGauge sh) (x_registered sh) (x_closeRecord sh)
    (x_panicked sh) (x_offered sh) (x_queued sh) (x_refused sh) (x_lost sh) x.
(** ** Program counters *)

(** [sendBytes], between its four steps. *)
Inductive sending := Offer (p : outboundPDU) | Select (p : outboundPDU) | Refused (p : outboundPDU)
| Dropping (p : outboundPDU).

Inductive writer_pc := WRecv | WDepth (p : outboundPDU) | WWrite (p : outboundPDU)
| WFailed (p : outboundPDU) | WExit | WDone.

Inductive closer_pc := CSelect | CLoad | CSending (s : sending) | CExit | CDone.

Inductive deferred_pc :=
| DSelect (r : ready) (p : outboundPDU) (sent : option chan)
| DSending (s : sending) (sent : option chan)
| DClose (c : chan)
| DExit | DDone.

(** The loop, then the steps of the deferred teardown. *)
Inductive reader_pc :=
| RLoop (acts : list action)
| RSending (s : sending) (acts : list action)
| RStoreBound (acts : list action)
| RIsClosed | RLen | RCloseDone | RWaitCloser | RCloseStop | RWaitDeferred | RCloseOutbound
| RWaitWriter | RDrain | RDrainDepth (p : outboundPDU) | RDrainDrop (p : outboundPDU)
| RConnClose | RRecordClose | RRemove | RDecBind | RDone.

Record pipe := mkPipe {
  p_reader : reader_pc;
  p_writer : writer_pc;
  p_closer : closer_pc;
  p_deferred : list deferred_pc;
  p_shared : shared
}.

(** What the scheduler picks at a branching point. *)
Inductive choice := Take | Other | Fails (e : io_error).

Inductive event := EvQuit | EvReader (c : choice) | EvWriter (c : choice) | EvCloser (c : choice)
| EvDeferred (i : nat) (c : choice).

(** ** Steps

    [None]: the goroutine is blocked (or has returned).  Closing a closed
    channel, sending on one and a negative wait group panic. *)

Definition go_panic (sh : shared) : shared := set_x_panicked true sh.

Definition add_depth (n : Z) (sh : shared) : shared := set_x_depth (x_depth sh + n) sh.

Definition drop_item (sh : shared) : shared := set_x_pdusDropped (x_pdusDropped sh +64 1) sh.

(** The queue takes [p]. *)
Definition enqueue (p : outboundPDU) (sh : shared) : shared :=
  set_x_outbound (x_outbound sh ++ [p])
    (set_x_queued (x_queued sh ++ [p]) (set_x_offered (x_offered sh ++ [p]) sh)).

Definition refuse (p : outboundPDU) (sh : shared) : shared :=
  set_x_refused (x_refused sh ++ [p]) (set_x_offered (x_offered sh ++ [p]) sh).

Definition send_exec (c : choice) (s : sending) (sh : shared) : option (option sending * shared) :=
  match s with
  | Offer p => Some (Some (Select p), add_depth 1 sh)
  | Select p =>
      match c with
      | Take =>
          if x_outboundClosed sh then Some (None, go_panic sh)
          else if (length (x_outbound sh) <? outboundCap)%nat then Some (None, enqueue p sh) else None
      | Other => if x_writerClosed sh then Some (Some (Refused p), refuse p sh) else None
      | Fails _ => None
      end
  | Refused p => Some (Some (Dropping p), add_depth (-1) sh)
  | Dropping p => Some (None, drop_item sh)
  end.

(** [writeLoop]: the write deadline makes every write return. *)
Definition writer_exec (c : choice) (pc : writer_pc) (sh : shared) : option (writer_pc * shared) :=
  match pc with
  | WRecv =>
      match x_outbound sh with
      | p :: l => Some (WDepth p, set_x_outbound l sh)
      | [] => if x_outboundClosed sh then Some (WExit, sh) else None
      end
  | WDepth p => Some (WWrite p, add_depth (-1) sh)
  | WWrite p =>
      match c with
      | Fails e => Some (WFailed p, set_x_writeErr (Some e) (set_x_lost (x_lost sh ++ [p]) sh))
      | _ => Some (WRecv, set_x_pdusWritten (x_pdusWritten sh +64 1) (set_x_wire (x_wire sh ++ [p]) sh))
      end
  | WFailed p => Some (WExit, drop_item sh)
  | WExit => Some (WDone, if x_writerClosed sh then go_panic sh else set_x_writerClosed true sh)
  | WDone => None
  end.

Definition serverInitiatedSeq : Z := 2147483647.

Definition unbind_item : option outboundPDU :=
  (fun b => mkOutboundPDU b kindResp FromCloser) <$> encoded (mkPDU Unbind 0 serverInitiatedSeq None) None.

Definition closer_exec (c : choice) (pc : closer_pc) (sh : shared) : option (closer_pc * shared) :=
  match pc with
  | CSelect =>
      match c with
      | Take => if x_quit sh then Some (CLoad, sh) else None
      | Other => if x_done sh then Some (CExit, sh) else None
      | Fails _ => None
      end
  | CLoad =>
      Some (match x_bound sh, unbind_item with true, Some p => CSending (Offer p) | _, _ => CExit end, sh)
  | CSending s =>
      match send_exec c s sh with
      | Some (Some s, sh) => Some (CSending s, sh)
      | Some (None, sh) => Some (CExit, sh)
      | None => None
      end
  | CExit => Some (CDone, if x_closerDone sh then go_panic sh else set_x_closerDone true sh)
  | CDone => None
  end.

(** The goroutine of [sendWhen]: a timer fires when the scheduler says so. *)
Definition is_ready (r : ready) (sh : shared) : bool :=
  match r with ReadyAfter _ => true | ReadySent c => bool_decide (c ∈ x_sent sh) end.

Definition deferred_exec (c : choice) (pc : deferred_pc) (sh : shared) : option (deferred_pc * shared) :=
  match pc with
  | DSelect r p sent =>
      match c with
      | Take => if is_ready r sh then Some (DSending (Offer p) sent, sh) else None
      | Other => if x_stopDeferred sh then Some (DExit, sh) else None
      | Fails _ => None
      end
  | DSending s sent =>
      match send_exec c s sh with
      | Some (Some s, sh) => Some (DSending s sent, sh)
      | Some (None, sh) => Some (match sent with Some c => DClose c | None => DExit end, sh)
      | None => None
      end
  | DClose c =>
      Some (DExit, if bool_decide (c ∈ x_sent sh) then go_panic sh else set_x_sent (c :: x_sent sh) sh)
  | DExit =>
      Some (DDone, if x_deferred sh <=? 0 then go_panic sh else set_x_deferred (x_deferred sh - 1) sh)
  | DDone => None
  end.

(** ** The read goroutine *)

Section Reader.

(** What [closeWith] and the bind left in the session. *)
Context (reason : option closeReason) (bindType : string).

(** [recordClose]. *)
Definition recordClose (sh : shared) : closing :=
  let reason := match reason with Some r => r | None => reasonPanic end in
  let reason :=
    match x_writerFailedFirst sh, x_writeErr sh with
    | true, Some err => writeFailure err
    | _, _ => reason
    end in
  let bindType := if String.eqb bindType "" then "none"%string else bindType in
  mkClosing bindType reason (initiator reason) (x_pdusWritten sh) (x_pdusDropped sh) (x_queueDepth sh).

Definition close_chan (get : shared -> bool) (set : bool -> shared -> shared) (sh : shared) : shared :=
  if get sh then go_panic sh else set true sh.

(** One action: its next program counter, and the goroutine it starts. *)
Definition action_exec (a : action) (acts : list action) (sh : shared)
  : reader_pc * list deferred_pc * shared :=
  let started := set_x_deferred (x_deferred sh + 1) sh in
  match a with
  | ASend b k => (RSending (Offer (mkOutboundPDU b k FromReader)) acts, [], sh)
  | ARespond d b c =>
      (RLoop acts, [DSelect (ReadyAfter d) (mkOutboundPDU b kindResp (FromResponse c)) (Some c)], started)
  | AReceipt b c =>
      let p := mkOutboundPDU b kindDLR (FromReceipt c) in
      if bool_decide (c ∈ x_sent sh) then (RSending (Offer p) acts, [], sh)
      else (RLoop acts, [DSelect (ReadySent c) p None], started)
  | AMetric (IncBind _ _) =>
      (RStoreBound acts, [], set_x_bindGauge (x_bindGauge sh + 1) (set_x_registered true sh))
  | AMetric _ => (RLoop acts, [], sh)
  end.

(** The deferred teardown of [run]. *)
Definition teardown_exec (pc : reader_pc) (sh : shared) : option (reader_pc * shared) :=
  match pc with
  | RIsClosed => Some (RLen, set_x_writerFailedFirst (x_writerClosed sh) sh)
  | RLen => Some (RCloseDone, set_x_queueDepth (len (x_outbound sh)) sh)
  | RCloseDone => Some (RWaitCloser, close_chan x_done set_x_done sh)
  | RWaitCloser => if x_closerDone sh then Some (RCloseStop, sh) else None
  | RCloseStop => Some (RWaitDeferred, close_chan x_stopDeferred set_x_stopDeferred sh)
  | RWaitDeferred => if x_deferred sh =? 0 then Some (RCloseOutbound, sh) else None
  | RCloseOutbound => Some (RWaitWriter, close_chan x_outboundClosed set_x_outboundClosed sh)
  | RWaitWriter => if x_writerClosed sh then Some (RDrain, sh) else None
  | RDrain =>
      match x_outbound sh with
      | p :: l => Some (RDrainDepth p, set_x_outbound l (set_x_lost (x_lost sh ++ [p]) sh))
      | [] => if x_outboundClosed sh then Some (RConnClose, sh) else None
      end
  | RDrainDepth p => Some (RDrainDrop p, add_depth (-1) sh)
  | RDrainDrop p => Some (RDrain, drop_item sh)
  | RConnClose => Some (RRecordClose, set_x_connClosed true sh)
  | RRecordClose => Some (RRemove, set_x_closeRecord (Some (recordClose sh)) sh)
  | RRemove => Some (RDecBind, set_x_registered false sh)
  | RDecBind => Some (RDone, if x_bound sh then set_x_bindGauge (x_bindGauge sh - 1) sh else sh)
  | _ => None
  end.

Definition reader_exec (c : choice) (pc : reader_pc) (sh : shared)
  : option (reader_pc * list deferred_pc * shared) :=
  match pc with
  | RLoop [] => Some (RIsClosed, [], sh)
  | RLoop (a :: acts) => Some (action_exec a acts sh)
  | RSending s acts =>
      match send_exec c s sh with
      | Some (Some s, sh) => Some (RSending s acts, [], sh)
      | Some (None, sh) => Some (RLoop acts, [], sh)
      | None => None
      end
  | RStoreBound acts => Some (RLoop acts, [], set_x_bound true sh)
  | _ => match teardown_exec pc sh with Some (pc, sh) => Some (pc, [], sh) | None => None end
  end.

Definition exec (ev : event) (st : pipe) : option pipe :=
  let '(mkPipe r w c ds sh) := st in
  match ev with
  | EvQuit => if x_quit sh then None else Some (mkPipe r w c ds (set_x_quit true sh))
  | EvReader ch =>
      match reader_exec ch r sh with
      | Some (r, ds', sh) => Some (mkPipe r w c (ds ++ ds') sh)
      | None => None
      end
  | EvWriter ch =>
      match writer_exec ch w sh with Some (w, sh) => Some (mkPipe r w c ds sh) | None => None end
  | EvCloser ch =>
      match closer_exec ch c sh with Some (c, sh) => Some (mkPipe r w c ds sh) | None => None end
  | EvDeferred i ch =>
      match ds !! i with
      | Some d =>
          match deferred_exec ch d sh with
          | Some (d, sh) => Some (mkPipe r w c (<[i := d]> ds) sh)
          | None => None
          end
      | None => None
      end
  end.

Definition step (st st' : pipe) : Prop := exists ev, exec ev st = Some st'.

(** A run under a given scheduler. *)
Fixpoint run_schedule (evs : list event) (st : pipe) : option pipe :=
  match evs with
  | [] => Some st
  | ev :: evs => match exec ev st with Some st => run_schedule evs st | None => None end
  end.

End Reader.

Definition fresh_shared : shared :=
  mkShared [] false false false false false false [] 0 false None 0 0 false 0 false 0 0 false None false
    [] [] [] [] [].

(** [run]: the goroutines of a session whose read goroutine will do [acts]. *)
Definition boot (acts : list action) : pipe := mkPipe (RLoop acts) WRecv CSelect [] fresh_shared.
