(* ===== verification/PipelineThms.v ===== *)
(** * What the outbound pipeline guarantees

    Over every interleaving of a session's goroutines: no panic on a closed
    channel, exact accounting of every PDU queued, receipts behind the responses
    they wait for, and a teardown that always completes. *)

From S2P Require Import Prelude.
From S2P Require Import SmppCodec.
From S2P Require Import Close.
From S2P Require Import VirtualSMSC.
From S2P Require Import SessionState.
From S2P Require Import Pipeline.

(** ** Control: which goroutine has got where *)

Definition respond_chans (acts : list action) : list chan :=
  acts ≫= fun a => match a with ARespond _ _ c => [c] | _ => [] end.

Definition is_bind (a : action) : bool := match a with AMetric (IncBind _ _) => true | _ => false end.

Definition binds_in (acts : list action) : nat := length (base.filter (fun a => is_bind a = true) acts).

(** Each response closes a channel of its own, and a session binds at most once. *)
Record acts_ok (acts : list action) : Prop := {
  ao_chans : NoDup (respond_chans acts);
  ao_binds : (binds_in acts <= 1)%nat
}.

Definition reader_acts (r : reader_pc) : list action :=
  match r with RLoop acts | RSending _ acts | RStoreBound acts => acts | _ => [] end.

Definition deferred_chan (d : deferred_pc) : list chan :=
  match d with
  | DSelect _ _ sent | DSending _ sent => option_list sent
  | DClose c => [c]
  | DExit | DDone => []
  end.

(** How far the teardown is. *)
Definition phase (r : reader_pc) : nat :=
  match r with
  | RLoop _ | RSending _ _ | RStoreBound _ | RIsClosed | RLen | RCloseDone => 0
  | RWaitCloser => 1 | RCloseStop => 2 | RWaitDeferred => 3 | RCloseOutbound => 4 | RWaitWriter => 5
  | RDrain | RDrainDepth _ | RDrainDrop _ => 6
  | RConnClose => 7 | RRecordClose => 8 | RRemove => 9 | RDecBind => 10 | RDone => 11
  end.

Definition live (d : deferred_pc) : nat := match d with DDone => 0 | _ => 1 end.

Record controlled (st : pipe) : Prop := {
  ct_done : x_done (p_shared st) = (1 <=? phase (p_reader st))%nat;
  ct_stop : x_stopDeferred (p_shared st) = (3 <=? phase (p_reader st))%nat;
  ct_outbound : x_outboundClosed (p_shared st) = (5 <=? phase (p_reader st))%nat;
  ct_closer : x_closerDone (p_shared st) = match p_closer st with CDone => true | _ => false end;
  ct_closer_joined : (2 <= phase (p_reader st))%nat -> p_closer st = CDone;
  ct_writer : x_writerClosed (p_shared st) = match p_writer st with WDone => true | _ => false end;
  ct_writer_joined : (6 <= phase (p_reader st))%nat -> p_writer st = WDone;
  ct_deferred : x_deferred (p_shared st) = Z.of_nat (sum_list_with live (p_deferred st));
  ct_deferred_joined : (4 <= phase (p_reader st))%nat -> sum_list_with live (p_deferred st) = 0%nat;
  ct_drained : (7 <= phase (p_reader st))%nat -> x_outbound (p_shared st) = [];
  ct_chans : NoDup (respond_chans (reader_acts (p_reader st)) ++ (p_deferred st ≫= deferred_chan) ++
                    x_sent (p_shared st));
  ct_panic : x_panicked (p_shared st) = false
}.

(** What a send leaves alone. *)
Definition control (sh : shared) :=
  (x_outboundClosed sh, x_writerClosed sh, x_closerDone sh, x_done sh, x_stopDeferred sh, x_sent sh,
   x_deferred sh, x_bound sh, x_bindGauge sh, x_panicked sh).

Lemma send_exec_control c s sh o sh' :
  x_outboundClosed sh = false -> send_exec c s sh = Some (o, sh') -> control sh' = control sh.
Proof.
  intros Ho. unfold send_exec. destruct s; [..|].
  - by intros [= <- <-].
  - rewrite Ho. destruct c; [|destruct (x_writerClosed sh)|]; try done; [|by intros [= <- <-]].
    destruct (_ <? _)%nat; [|done]. by intros [= <- <-].
  - by intros [= <- <-].
  - by intros [= <- <-].
Qed.

(** The channels a deferred goroutine and the closed list hold, when one moves. *)
Lemma chans_insert ds i d d' (l1 l2 l2' x : list chan) :
  ds !! i = Some d -> deferred_chan d ++ l2 ≡ₚ (deferred_chan d' ++ l2') ++ x ->
  NoDup (l1 ++ (ds ≫= deferred_chan) ++ l2) ->
  NoDup (l1 ++ (<[i := d']> ds ≫= deferred_chan) ++ l2').
Proof.
  intros (rest & Hp & Hins)%insert_Permutation Hc Hn. rewrite Hp in Hn. rewrite (Hins d').
  revert Hn. csimpl. rewrite (Permutation_app_comm (deferred_chan d)), (Permutation_app_comm (deferred_chan d')).
  rewrite <- !app_assoc, Hc, !app_assoc. by intros (? & _)%NoDup_app.
Qed.

Lemma control_inv sh' sh :
  control sh' = control sh ->
  x_outboundClosed sh' = x_outboundClosed sh /\ x_writerClosed sh' = x_writerClosed sh /\
  x_closerDone sh' = x_closerDone sh /\ x_done sh' = x_done sh /\ x_stopDeferred sh' = x_stopDeferred sh /\
  x_sent sh' = x_sent sh /\ x_deferred sh' = x_deferred sh /\ x_bound sh' = x_bound sh /\
  x_bindGauge sh' = x_bindGauge sh /\ x_panicked sh' = x_panicked sh.
Proof. unfold control. intros. by simplify_eq. Qed.

Ltac proj_pipe := cbn [p_reader p_writer p_closer p_deferred p_shared] in *.

Section Control.
Context (reason : option closeReason) (bindType : string).
Implicit Types (st : pipe).

(** The writer is running, so the teardown has not joined it yet. *)
Ltac not_joined :=
  match goal with
  | Hj : (?n <= phase ?r)%nat -> ?a = ?b, H : (_ <= phase ?r)%nat |- _ =>
      solve [exfalso; discriminate (Hj ltac:(lia))]
  end.

(** A writer step. *)
Lemma writer_controlled c st st' :
  controlled st -> exec reason bindType (EvWriter c) st = Some st' -> controlled st'.
Proof.
  destruct st as [r w cl ds sh]. intros [Hd Hs Ho Hc Hcj Hw Hwj Hdf Hdfj Hdr Hch Hp]. proj_pipe.
  unfold exec. destruct (writer_exec c w sh) as [[w' sh']|] eqn:Hx; [|done]. intros [= <-].
  unfold writer_exec in Hx. destruct w; [| | | | |done].
  - destruct (x_outbound sh) eqn:Hob.
    + destruct (x_outboundClosed sh) eqn:Hoc; [|done]. injection Hx as <- <-.
      split; proj_pipe; try (done || congruence); intros; not_joined.
    + injection Hx as <- <-. split; proj_pipe; try (done || congruence); intros; not_joined.
  - injection Hx as <- <-. split; proj_pipe; try (done || congruence); intros; not_joined.
  - destruct c; injection Hx as <- <-; split; proj_pipe; try (done || congruence); intros; not_joined.
  - injection Hx as <- <-. split; proj_pipe; try (done || congruence); intros; not_joined.
  - rewrite Hw in Hx. injection Hx as <- <-. by split.
Qed.

Lemma send_controlled_closed r w cl ds sh :
  controlled (mkPipe r w cl ds sh) -> (phase r < 5)%nat -> x_outboundClosed sh = false.
Proof. intros [_ _ Ho _ _ _ _ _ _ _ _ _] Hr. proj_pipe. rewrite Ho. apply Nat.leb_gt. lia. Qed.

(** A closer step. *)
Lemma closer_controlled c st st' :
  controlled st -> exec reason bindType (EvCloser c) st = Some st' -> controlled st'.
Proof.
  destruct st as [r w cl ds sh]. intros Hct. pose proof (send_controlled_closed _ _ _ _ _ Hct) as Hsc.
  destruct Hct as [Hd Hs Ho Hc Hcj Hw Hwj Hdf Hdfj Hdr Hch Hp]. proj_pipe.
  unfold exec. destruct (closer_exec c cl sh) as [[cl' sh']|] eqn:Hx; [|done]. intros [= <-].
  unfold closer_exec in Hx. destruct cl; [..|done].
  - destruct c; [destruct (x_quit sh)|destruct (x_done sh) eqn:Hdn|]; try done; injection Hx as <- <-;
      split; proj_pipe; try (done || congruence); intros; not_joined.
  - injection Hx as <- <-. destruct (x_bound sh), unbind_item;
      split; proj_pipe; try (done || congruence); intros; not_joined.
  - assert (phase r < 2)%nat as Hr by (destruct (decide (2 <= phase r)%nat); [not_joined | lia]).
    destruct (send_exec c s sh) as [[o sh1]|] eqn:Hse; [|done].
    pose proof (control_inv _ _ (send_exec_control _ _ _ _ _ (Hsc ltac:(lia)) Hse))
      as (E1 & E2 & E3 & E4 & E5 & E6 & E7 & E8 & E9 & E10).
    destruct o; injection Hx as <- <-; split; proj_pipe; rewrite ?E1, ?E2, ?E3, ?E4, ?E5, ?E6, ?E7, ?E10;
      try done; lia.
  - rewrite Hc in Hx. injection Hx as <- <-. by split.
Qed.

(** A deferred goroutine's step. *)
Lemma deferred_controlled i c st st' :
  controlled st -> exec reason bindType (EvDeferred i c) st = Some st' -> controlled st'.
Proof.
  destruct st as [r w cl ds sh]. intros Hct. pose proof (send_controlled_closed _ _ _ _ _ Hct) as Hsc.
  destruct Hct as [Hd Hs Ho Hc Hcj Hw Hwj Hdf Hdfj Hdr Hch Hp]. proj_pipe.
  unfold exec. destruct (ds !! i) as [d|] eqn:Hi; [|done].
  destruct (deferred_exec c d sh) as [[d' sh']|] eqn:Hx; [|done]. intros [= <-].
  assert (live d = 1%nat) as Hl by (destruct d; done).
  assert (1 <= sum_list_with live ds)%nat as Hpos.
  { rewrite <- Hl. apply sum_list_with_in. by eapply list_elem_of_lookup_2. }
  assert (phase r < 4)%nat as Hr by (destruct (decide (4 <= phase r)%nat) as [H4|]; [specialize (Hdfj H4); lia | lia]).
  pose proof (sum_insert live ds i d d' Hi) as Hsum.
  assert (forall sh', control sh' = control sh -> live d' = 1%nat ->
    (exists x, deferred_chan d = deferred_chan d' ++ x) ->
    controlled (mkPipe r w cl (<[i := d']> ds) sh')) as Hplain.
  { intros sh1 (E1 & E2 & E3 & E4 & E5 & E6 & E7 & E8 & E9 & E10)%control_inv Hl' [x Hdc].
    split; proj_pipe; rewrite ?E1, ?E2, ?E3, ?E4, ?E5, ?E6, ?E7, ?E10; try done; try lia.
    eapply chans_insert with (x := x); [exact Hi| |exact Hch].
    rewrite Hdc, <- !app_assoc. by rewrite (Permutation_app_comm x). }
  destruct d as [rdy p snt|s snt|c0| |]; simpl in Hx; [| | | |done].
  - destruct c; [destruct (is_ready rdy sh)|destruct (x_stopDeferred sh) eqn:Hst|]; try done; injection Hx as <- <-;
      (apply Hplain; [done|done|]); [by exists []; rewrite app_nil_r | by eexists].
  - destruct (send_exec c s sh) as [[o sh1]|] eqn:Hse; [|done].
    pose proof (send_exec_control _ _ _ _ _ (Hsc ltac:(lia)) Hse) as Hctl.
    destruct o; injection Hx as <- <-; apply Hplain; try done; [by exists []; rewrite app_nil_r|by destruct snt|].
    destruct snt; [by exists []; rewrite app_nil_r | by exists []].
  - assert (c0 ∉ x_sent sh) as Hfresh.
    { apply NoDup_app in Hch as (_ & _ & Hch). apply NoDup_app in Hch as (_ & Hch & _). apply Hch.
      apply list_elem_of_bind. exists (DClose c0). split; [by left|]. by eapply list_elem_of_lookup_2. }
    rewrite bool_decide_false in Hx by done. injection Hx as <- <-.
    cbn [live] in Hsum. split; proj_pipe; try done; try (cbn [x_deferred set_x_sent set_x_deferred]; lia).
    eapply chans_insert with (x := []); [exact Hi| |exact Hch]. by rewrite app_nil_r.
  - replace (x_deferred sh <=? 0) with false in Hx by (symmetry; apply Z.leb_gt; lia).
    injection Hx as <- <-. cbn [live] in Hsum. split; proj_pipe; try done; try (cbn [x_deferred set_x_sent set_x_deferred]; lia).
    eapply chans_insert with (x := []); [exact Hi| |exact Hch]. by rewrite app_nil_r.
Qed.

(** The loop of the read goroutine. *)
Lemma action_controlled a acts w cl ds sh :
  controlled (mkPipe (RLoop (a :: acts)) w cl ds sh) ->
  let '(r, ds', sh') := action_exec a acts sh in controlled (mkPipe r w cl (ds ++ ds') sh').
Proof.
  intros [Hd Hs Ho Hc Hcj Hw Hwj Hdf Hdfj Hdr Hch Hp]. proj_pipe.
  assert (forall rdy p snt, (respond_chans [a] = option_list snt) ->
    controlled (mkPipe (RLoop acts) w cl (ds ++ [DSelect rdy p snt]) (set_x_deferred (x_deferred sh + 1) sh))) as Hgo.
  { intros rdy p snt Hsnt. split; proj_pipe; try done; cbn [phase]; try lia.
    - cbn [x_deferred set_x_deferred]. rewrite sum_list_with_app. simpl. lia.
    - cbn [reader_acts] in *. change (a :: acts) with ([a] ++ acts) in Hch. unfold respond_chans in *.
      rewrite bind_app, Hsnt in Hch. rewrite bind_app. csimpl. rewrite app_nil_r.
      eapply NoDup_Permutation_proper; [|exact Hch].
      rewrite <- !app_assoc. rewrite (Permutation_app_swap_app (option_list snt)).
      by rewrite (Permutation_app_swap_app (option_list snt)). }
  assert (forall r', reader_acts r' = acts -> phase r' = 0%nat -> respond_chans [a] = [] ->
    forall sh', control sh' = control sh -> controlled (mkPipe r' w cl (ds ++ []) sh')) as Hplain.
  { intros r' Hr' Hph Ha sh' (E1 & E2 & E3 & E4 & E5 & E6 & E7 & E8 & E9 & E10)%control_inv.
    rewrite app_nil_r. split; proj_pipe; rewrite ?E1, ?E2, ?E3, ?E4, ?E5, ?E6, ?E7, ?E10, ?Hph; try done; try lia.
    rewrite Hr'. cbn [reader_acts] in Hch. change (a :: acts) with ([a] ++ acts) in Hch. unfold respond_chans in *.
    rewrite bind_app, Ha in Hch. exact Hch. }
  destruct a as [b k|d b c|b c|m]; cbn [action_exec].
  - by apply Hplain.
  - by apply Hgo.
  - case_bool_decide; [by apply Hplain | by apply Hgo].
  - destruct m; try by apply Hplain. split; proj_pipe; cbn [phase] in *; rewrite ?app_nil_r; try done; lia.
Qed.

(** The teardown. *)
Lemma teardown_controlled r r' w cl ds sh sh' :
  controlled (mkPipe r w cl ds sh) -> teardown_exec reason bindType r sh = Some (r', sh') ->
  controlled (mkPipe r' w cl ds sh').
Proof.
  intros [Hd Hs Ho Hc Hcj Hw Hwj Hdf Hdfj Hdr Hch Hp] Hx. proj_pipe.
  assert (respond_chans (reader_acts r) = [] -> respond_chans (reader_acts r') = [] -> x_sent sh' = x_sent sh ->
    NoDup (respond_chans (reader_acts r') ++ (ds ≫= deferred_chan) ++ x_sent sh')) as Hchans
    by (intros E1 E2 E3; rewrite E1 in Hch; by rewrite E2, E3).
  destruct r; try discriminate Hx; cbn [teardown_exec] in Hx; unfold close_chan in Hx; cbn [phase Nat.leb] in *;
    try rewrite Hd in Hx; try rewrite Hs in Hx; try rewrite Ho in Hx;
    repeat match type of Hx with
    | match ?b with true => _ | false => _ end = Some _ => destruct b eqn:?; [|discriminate Hx]
    | match ?b with [] => _ | _ :: _ => _ end = Some _ => destruct b eqn:?
    end;
    injection Hx as <- <-; (split; proj_pipe; cbn [phase Nat.leb]; try (by apply Hchans); try assumption;
      try reflexivity; try (intros; lia); try (intros _; lia)).
  all: try (destruct (x_bound sh); assumption).
  all: try congruence.
  all: intros _; first [apply Hcj; lia | apply Hwj; lia | apply Hdr; lia | assumption
    | destruct cl; congruence | destruct w; congruence | destruct (x_bound sh); apply Hdr; lia].
Qed.

Lemma reader_controlled c st st' :
  controlled st -> exec reason bindType (EvReader c) st = Some st' -> controlled st'.
Proof.
  destruct st as [r w cl ds sh]. intros Hct.
  unfold exec. destruct (reader_exec reason bindType c r sh) as [[[r' ds'] sh']|] eqn:Hx; [|done]. intros [= <-].
  assert (teardown_exec reason bindType r sh = Some (r', sh') -> controlled (mkPipe r' w cl (ds ++ []) sh')) as Htd.
  { intros Ht. rewrite app_nil_r. by eapply teardown_controlled. }
  unfold reader_exec in Hx. destruct r as [[|a acts]|s acts|acts| | | | | | | | | |p|p| | | | |].
  5-20: destruct (teardown_exec _ _ _ sh) as [[r1 sh1]|]; [|done]; injection Hx as <- <- <-; by apply Htd.
  - injection Hx as <- <- <-. rewrite app_nil_r.
    destruct Hct as [Hd Hs Ho Hc Hcj Hw Hwj Hdf Hdfj Hdr Hch Hp]. by split.
  - pose proof (action_controlled a acts w cl ds sh Hct) as Ha. injection Hx as Hx. by rewrite Hx in Ha.
  - destruct (send_exec c s sh) as [[o sh1]|] eqn:Hse; [|done].
    pose proof (send_controlled_closed _ _ _ _ _ Hct ltac:(simpl; lia)) as Hoc.
    pose proof (control_inv _ _ (send_exec_control _ _ _ _ _ Hoc Hse))
      as (E1 & E2 & E3 & E4 & E5 & E6 & E7 & E8 & E9 & E10).
    destruct Hct as [Hd Hs Ho Hc Hcj Hw Hwj Hdf Hdfj Hdr Hch Hp]. proj_pipe. cbn [phase] in *.
    destruct o; injection Hx as <- <- <-; rewrite app_nil_r;
      split; proj_pipe; rewrite ?E1, ?E2, ?E3, ?E4, ?E5, ?E6, ?E7, ?E10; cbn [phase]; try done; lia.
  - injection Hx as <- <- <-. rewrite app_nil_r.
    destruct Hct as [Hd Hs Ho Hc Hcj Hw Hwj Hdf Hdfj Hdr Hch Hp]. by split.
Qed.

Lemma step_controlled st st' : controlled st -> step reason bindType st st' -> controlled st'.
Proof.
  intros Hc [[|c|c|c|i c] Hx].
  - destruct st as [r w cl ds sh]. unfold exec in Hx. destruct (x_quit sh); [done|]. injection Hx as <-.
    destruct Hc. by split.
  - by eapply reader_controlled.
  - by eapply writer_controlled.
  - by eapply closer_controlled.
  - by eapply deferred_controlled.
Qed.

End Control.

Lemma boot_controlled acts : acts_ok acts -> controlled (boot acts).
Proof. intros [Hn _]. split; simpl; try done; [lia..|]. by rewrite app_nil_r. Qed.

(** ** Accounting: where every PDU handed to [sendBytes] is *)

(** Steps of a send whose [+1] on the depth gauge is not matched by the queue. *)
Definition send_depth (s : sending) : Z := match s with Select _ | Refused _ => 1 | _ => 0 end.

(** Refused items not counted as dropped yet. *)
Definition send_pend (s : sending) : Z := match s with Refused _ | Dropping _ => 1 | _ => 0 end.

Definition opt {A} (f : A -> Z) (o : option A) : Z := match o with Some a => f a | None => 0 end.

Definition reader_send (r : reader_pc) : option sending := match r with RSending s _ => Some s | _ => None end.
Definition closer_send (c : closer_pc) : option sending := match c with CSending s => Some s | _ => None end.
Definition deferred_send (d : deferred_pc) : option sending := match d with DSending s _ => Some s | _ => None end.

Definition sum_Z {A} (f : A -> Z) (l : list A) : Z := foldr (fun a n => f a + n) 0 l.

Definition total_of (f : sending -> Z) (st : pipe) : Z :=
  opt f (reader_send (p_reader st)) + opt f (closer_send (p_closer st)) +
  sum_Z (fun d => opt f (deferred_send d)) (p_deferred st).

Definition depth_total (st : pipe) : Z :=
  total_of send_depth st + match p_writer st with WDepth _ => 1 | _ => 0 end +
  match p_reader st with RDrainDepth _ => 1 | _ => 0 end.

Definition pend_total (st : pipe) : Z :=
  total_of send_pend st + match p_writer st with WFailed _ => 1 | _ => 0 end +
  match p_reader st with RDrainDepth _ | RDrainDrop _ => 1 | _ => 0 end.

(** The item the writer holds. *)
Definition inflight (w : writer_pc) : list outboundPDU :=
  match w with WDepth p | WWrite p => [p] | _ => [] end.

Definition writing (w : writer_pc) : bool :=
  match w with WRecv | WDepth _ | WWrite _ => true | _ => false end.

(** [D] sends are between their two updates of the depth gauge, [P] drops are
    not counted yet, and the writer holds [infl]. *)
Record account (D P : Z) (infl : list outboundPDU) (sh : shared) : Prop := {
  ac_depth : x_depth sh = len (x_outbound sh) + D;
  ac_queue : x_queued sh = x_wire sh ++ infl ++ x_lost sh ++ x_outbound sh;
  ac_offered : x_offered sh ≡ₚ x_queued sh ++ x_refused sh;
  ac_written : x_pdusWritten sh = u64 (len (x_wire sh));
  ac_dropped : x_pdusDropped sh = u64 (len (x_lost sh) + len (x_refused sh) - P)
}.

Definition accounted (st : pipe) : Prop :=
  account (depth_total st) (pend_total st) (inflight (p_writer st)) (p_shared st) /\
  (writing (p_writer st) = true -> x_lost (p_shared st) = []).

Lemma u64_succ a : u64 a +64 1 = u64 (a + 1).
Proof. unfold u64. by rewrite Zplus_mod_idemp_l. Qed.

Lemma sum_Z_insert {A} (f : A -> Z) l i x y :
  l !! i = Some x -> sum_Z f (<[i := y]> l) = sum_Z f l - f x + f y.
Proof.
  revert i. induction l as [|z l IH]; intros [|i] Hi; simplify_eq/=; [lia|]. rewrite (IH _ Hi). lia.
Qed.

Lemma sum_Z_app {A} (f : A -> Z) l1 l2 : sum_Z f (l1 ++ l2) = sum_Z f l1 + sum_Z f l2.
Proof. induction l1 as [|x l1 IH]; simpl; [done|]. rewrite IH. lia. Qed.

Lemma send_account D P infl c s sh o sh' :
  account D P infl sh -> x_outboundClosed sh = false -> send_exec c s sh = Some (o, sh') ->
  account (D - send_depth s + opt send_depth o) (P - send_pend s + opt send_pend o) infl sh' /\
  x_lost sh' = x_lost sh.
Proof.
  intros [Hd Hq Hof Hw Hdr] Hoc. unfold send_exec. destruct s as [p|p|p|p].
  - intros [= <- <-]. split; [|done]. split; simpl; try done; [lia | rewrite Hdr; f_equal; lia].
  - rewrite Hoc. destruct c; [|destruct (x_writerClosed sh)|]; try done.
    + destruct (_ <? _)%nat; [|done]. intros [= <- <-]. split; [|done]. split; simpl; try done.
      * rewrite length_app. simpl. lia.
      * by rewrite Hq, <- !app_assoc.
      * rewrite Hof, <- !app_assoc. by rewrite (Permutation_app_comm (x_refused sh)).
      * rewrite Hdr. f_equal. lia.
    + intros [= <- <-]. split; [|done]. split; simpl; try done; [lia| |].
      * by rewrite Hof, <- !app_assoc.
      * rewrite Hdr, length_app. simpl. f_equal. lia.
  - intros [= <- <-]. split; [|done]. split; simpl; try done; [lia | rewrite Hdr; f_equal; lia].
  - intros [= <- <-]. split; [|done]. split; simpl; try done; [lia|]. rewrite Hdr, u64_succ. f_equal. lia.
Qed.

Lemma account_eq D P D' P' infl sh : account D P infl sh -> D = D' -> P = P' -> account D' P' infl sh.
Proof. by intros ? <- <-. Qed.

(** Steps that touch none of the counters. *)
Definition ledger (sh : shared) :=
  (x_depth sh, x_outbound sh, x_queued sh, x_wire sh, x_lost sh, x_offered sh, x_refused sh,
   x_pdusWritten sh, x_pdusDropped sh).

Lemma account_ledger D P infl sh sh' : ledger sh' = ledger sh -> account D P infl sh -> account D P infl sh'.
Proof.
  unfold ledger. intros E. injection E as E1 E2 E3 E4 E5 E6 E7 E8 E9. intros [H1 H2 H3 H4 H5].
  split; by rewrite ?E1, ?E2, ?E3, ?E4, ?E5, ?E6, ?E7, ?E8, ?E9.
Qed.

Ltac totals := unfold depth_total, pend_total, total_of in *; proj_pipe;
  cbn [reader_send closer_send deferred_send opt send_depth send_pend inflight writing] in *.

(** Closes the clauses of [account] that are linear arithmetic or rewriting. *)
Ltac settle Hq Hdr := simpl in *;
  first [ done | lia
        | rewrite Hq; repeat match goal with H : x_lost _ = [] |- _ => rewrite !H end;
          rewrite <- ?app_assoc; done
        | rewrite Hdr, ?u64_succ, ?length_app; simpl; f_equal; lia ].

Section Accounting.
Context (reason : option closeReason) (bindType : string).
Implicit Types (st : pipe).

Lemma writer_accounted c st st' :
  controlled st -> accounted st -> exec reason bindType (EvWriter c) st = Some st' -> accounted st'.
Proof.
  destruct st as [r w cl ds sh]. intros Hct [Ha Hl]. unfold exec.
  destruct (writer_exec c w sh) as [[w' sh']|] eqn:Hx; [|done]. intros [= <-].
  unfold accounted in *. totals. destruct Ha as [Hd Hq Hof Hw Hdr].
  unfold writer_exec in Hx. destruct w as [|p|p|p| |]; [| | | | |done].
  - specialize (Hl eq_refl). destruct (x_outbound sh) as [|p l] eqn:Hob.
    + destruct (x_outboundClosed sh); [|done]. injection Hx as <- <-. split; [|done]. by split; rewrite ?Hob.
    + injection Hx as <- <-. split; [|done]. split; settle Hq Hdr.
  - injection Hx as <- <-. split; [|done]. split; settle Hq Hdr.
  - specialize (Hl eq_refl).
    assert (account (depth_total (mkPipe r WRecv cl ds sh)) (pend_total (mkPipe r WRecv cl ds sh)) []
      (set_x_pdusWritten (x_pdusWritten sh +64 1) (set_x_wire (x_wire sh ++ [p]) sh))) as Hok.
    { totals. split; [..|settle Hq Hw|]; settle Hq Hdr. }
    destruct c as [| |e]; injection Hx as <- <-; [by split..|]. split; [|done].
    split; settle Hq Hdr.
  - injection Hx as <- <-. split; [|done]. split; settle Hq Hdr.
  - destruct (x_writerClosed sh); injection Hx as <- <-; (split; [|done]); by split.
Qed.

Lemma closer_accounted c st st' :
  controlled st -> accounted st -> exec reason bindType (EvCloser c) st = Some st' -> accounted st'.
Proof.
  destruct st as [r w cl ds sh]. intros Hct [Ha Hl]. pose proof (send_controlled_closed _ _ _ _ _ Hct) as Hsc.
  unfold exec. destruct (closer_exec c cl sh) as [[cl' sh']|] eqn:Hx; [|done]. intros [= <-].
  unfold accounted in *. totals. unfold closer_exec in Hx. destruct cl as [| |s| |]; [..|done].
  - destruct c; [destruct (x_quit sh)|destruct (x_done sh)|]; try done; injection Hx as <- <-; done.
  - injection Hx as <- <-. by destruct (x_bound sh), unbind_item.
  - assert (phase r < 5)%nat as Hr.
    { destruct (decide (2 <= phase r)%nat) as [H2|]; [|lia]. destruct Hct as [_ _ _ _ Hcj _ _ _ _ _ _ _].
      proj_pipe. by specialize (Hcj H2). }
    destruct (send_exec c s sh) as [[o sh1]|] eqn:Hse; [|done].
    destruct (send_account _ _ _ _ _ _ _ _ Ha (Hsc Hr) Hse) as [Ha' Hl'].
    destruct o as [s'|]; injection Hx as <- <-; cbn [closer_send opt] in *; rewrite Hl'; (split; [|done]);
      (eapply account_eq; [exact Ha'|lia|lia]).
  - destruct (x_closerDone sh); injection Hx as <- <-; (split; [|done]); (eapply account_ledger; [|exact Ha]; done).
Qed.

Lemma deferred_accounted i c st st' :
  controlled st -> accounted st -> exec reason bindType (EvDeferred i c) st = Some st' -> accounted st'.
Proof.
  destruct st as [r w cl ds sh]. intros Hct [Ha Hl]. pose proof (send_controlled_closed _ _ _ _ _ Hct) as Hsc.
  unfold exec. destruct (ds !! i) as [d|] eqn:Hi; [|done].
  destruct (deferred_exec c d sh) as [[d' sh']|] eqn:Hx; [|done]. intros [= <-].
  unfold accounted in *. totals.
  rewrite !(sum_Z_insert _ _ _ _ _ Hi).
  assert (d <> DDone -> phase r < 5)%nat as Hr.
  { intros Hdd. destruct (decide (4 <= phase r)%nat) as [H4|]; [|lia].
    destruct Hct as [_ _ _ _ _ _ _ _ Hdfj _ _ _]. proj_pipe. specialize (Hdfj H4).
    pose proof (sum_list_with_in d live ds ltac:(by eapply list_elem_of_lookup_2)). by destruct d; simpl in *; lia || done. }
  unfold deferred_exec in Hx. destruct d as [rdy p snt|s snt|c0| |]; [..|done].
  - destruct c; [destruct (is_ready rdy sh)|destruct (x_stopDeferred sh)|]; try done; injection Hx as <- <-;
      (split; [|done]); (eapply account_eq; [exact Ha|simpl; lia..]).
  - destruct (send_exec c s sh) as [[o sh1]|] eqn:Hse; [|done].
    destruct (send_account _ _ _ _ _ _ _ _ Ha (Hsc (Hr ltac:(done))) Hse) as [Ha' Hl'].
    destruct o as [s'|]; [|destruct snt]; injection Hx as <- <-; cbn [deferred_send opt] in *; rewrite Hl'; (split; [|done]);
      (eapply account_eq; [exact Ha'|lia|lia]).
  - destruct (bool_decide _); injection Hx as <- <-; (split; [|done]);
      (eapply account_eq; [eapply account_ledger; [|exact Ha]; done|simpl; lia|simpl; lia]).
  - destruct (_ <=? 0); injection Hx as <- <-; (split; [|done]);
      (eapply account_eq; [eapply account_ledger; [|exact Ha]; done|simpl; lia|simpl; lia]).
Qed.

Lemma teardown_accounted r r' w cl ds sh sh' :
  controlled (mkPipe r w cl ds sh) -> accounted (mkPipe r w cl ds sh) ->
  teardown_exec reason bindType r sh = Some (r', sh') -> accounted (mkPipe r' w cl ds sh').
Proof.
  intros Hct [Ha Hl] Hx. unfold accounted in *. totals.
  assert (ledger sh' = ledger sh -> reader_send r = None -> reader_send r' = None ->
    match r with RDrainDepth _ | RDrainDrop _ => False | _ => True end ->
    match r' with RDrainDepth _ | RDrainDrop _ => False | _ => True end ->
    account (opt send_depth (reader_send r') + opt send_depth (closer_send cl) +
        sum_Z (fun d => opt send_depth (deferred_send d)) ds + match w with WDepth _ => 1 | _ => 0 end +
        match r' with RDrainDepth _ => 1 | _ => 0 end)
      (opt send_pend (reader_send r') + opt send_pend (closer_send cl) +
        sum_Z (fun d => opt send_pend (deferred_send d)) ds + match w with WFailed _ => 1 | _ => 0 end +
        match r' with RDrainDepth _ | RDrainDrop _ => 1 | _ => 0 end) (inflight w) sh' /\
    (writing w = true -> x_lost sh' = [])) as Hplain.
  { intros E Hr Hr' Hm Hm'. rewrite Hr in Ha. rewrite Hr'. split.
    - eapply account_ledger; [exact E|]. eapply account_eq; [exact Ha|by destruct r, r'|by destruct r, r'].
    - unfold ledger in E. injection E as _ _ _ _ -> _ _ _ _. done. }
  destruct r as [acts|s acts|acts| | | | | | | | | |p|p| | | | |]; try discriminate Hx; cbn [teardown_exec] in Hx; unfold close_chan in Hx.
  9: { assert (w = WDone) as -> by (destruct Hct as [_ _ _ _ _ _ Hwj _ _ _ _ _]; apply Hwj; simpl; lia).
    destruct (x_outbound sh) as [|p l] eqn:Hob.
    - destruct (x_outboundClosed sh); [|done]. injection Hx as <- <-. by apply Hplain.
    - injection Hx as <- <-. split; [|done]. destruct Ha as [Hd Hq Hof Hw Hdr].
      rewrite Hob in *. split; settle Hq Hdr. }
  9: { injection Hx as <- <-. split; [|done]. destruct Ha as [Hd Hq Hof Hw Hdr].
    split; settle Hq Hdr. }
  9: { injection Hx as <- <-. split; [|done]. destruct Ha as [Hd Hq Hof Hw Hdr].
    split; settle Hq Hdr. }
  all: repeat match type of Hx with
    | match ?b with true => _ | false => _ end = Some _ => destruct b eqn:?; [|discriminate Hx]
    end; injection Hx as <- <-; try (by apply Hplain).
  all: apply Hplain; try done; repeat case_match; done.
Qed.

Lemma action_accounted a acts w cl ds sh :
  accounted (mkPipe (RLoop (a :: acts)) w cl ds sh) ->
  let '(r, ds', sh') := action_exec a acts sh in accounted (mkPipe r w cl (ds ++ ds') sh').
Proof.
  intros [Ha Hl]. totals.
  assert (forall r' ds' sh', ledger sh' = ledger sh ->
    opt send_depth (reader_send r') = 0 -> opt send_pend (reader_send r') = 0 ->
    match r' with RDrainDepth _ | RDrainDrop _ => False | _ => True end ->
    sum_Z (fun d => opt send_depth (deferred_send d)) ds' = 0 ->
    sum_Z (fun d => opt send_pend (deferred_send d)) ds' = 0 ->
    accounted (mkPipe r' w cl (ds ++ ds') sh')) as Hok.
  { intros r' ds' sh' E H1 H2 Hm H3 H4. unfold accounted. totals. rewrite !sum_Z_app, H1, H2, H3, H4. split.
    - eapply account_ledger; [exact E|].
      eapply account_eq; [exact Ha|destruct r'; simpl; done || lia|destruct r'; simpl; done || lia].
    - unfold ledger in E. injection E as _ _ _ _ -> _ _ _ _. done. }
  destruct a as [b k|d b c|b c|m]; cbn [action_exec]; [by apply Hok..| |].
  - case_bool_decide; by apply Hok.
  - destruct m; by apply Hok.
Qed.

Lemma reader_accounted c st st' :
  controlled st -> accounted st -> exec reason bindType (EvReader c) st = Some st' -> accounted st'.
Proof.
  destruct st as [r w cl ds sh]. intros Hct Hacc.
  unfold exec. destruct (reader_exec reason bindType c r sh) as [[[r' ds'] sh']|] eqn:Hx; [|done]. intros [= <-].
  assert (teardown_exec reason bindType r sh = Some (r', sh') -> accounted (mkPipe r' w cl (ds ++ []) sh')) as Htd.
  { intros Ht. rewrite app_nil_r. by eapply teardown_accounted. }
  unfold reader_exec in Hx. destruct r as [[|a acts]|s acts|acts| | | | | | | | | |p|p| | | | |].
  5-20: destruct (teardown_exec _ _ _ sh) as [[r1 sh1]|]; [|done]; injection Hx as <- <- <-; by apply Htd.
  - injection Hx as <- <- <-. rewrite app_nil_r. exact Hacc.
  - pose proof (action_accounted a acts w cl ds sh Hacc) as Ha. injection Hx as Hx. by rewrite Hx in Ha.
  - destruct (send_exec c s sh) as [[o sh1]|] eqn:Hse; [|done].
    pose proof (send_controlled_closed _ _ _ _ _ Hct ltac:(simpl; lia)) as Hoc.
    destruct Hacc as [Ha Hl]. unfold accounted in *. totals.
    destruct (send_account _ _ _ _ _ _ _ _ Ha Hoc Hse) as [Ha' Hl'].
    destruct o as [s'|]; injection Hx as <- <- <-; cbn [reader_send opt] in *; rewrite Hl', app_nil_r; (split; [|done]);
      (eapply account_eq; [exact Ha'|lia|lia]).
  - injection Hx as <- <- <-. rewrite app_nil_r. destruct Hacc as [Ha Hl]. split; [|exact Hl].
    eapply account_ledger; [|exact Ha]. done.
Qed.

Lemma step_accounted st st' :
  controlled st -> accounted st -> step reason bindType st st' -> accounted st'.
Proof.
  intros Hc Ha [[|c|c|c|i c] Hx].
  - destruct st as [r w cl ds sh]. unfold exec in Hx. destruct (x_quit sh); [done|]. injection Hx as <-.
    destruct Ha as [Ha Hl]. split; [|exact Hl]. eapply account_ledger; [|exact Ha]. done.
  - by eapply reader_accounted.
  - by eapply writer_accounted.
  - by eapply closer_accounted.
  - by eapply deferred_accounted.
Qed.

End Accounting.

Lemma boot_accounted acts : accounted (boot acts).
Proof. by repeat split. Qed.

(** ** Order: a receipt never overtakes its response *)

Definition item_of (s : sending) : outboundPDU :=
  match s with Offer p | Select p | Refused p | Dropping p => p end.

Definition refused_already (s : sending) : bool :=
  match s with Refused _ | Dropping _ => true | _ => false end.

Section Order.

(** The response of channel [c] is in the queue's history, or no item queued
    from now on will ever be written. *)
Definition answered (w : writer_pc) (sh : shared) (c : chan) : Prop :=
  (exists q, q ∈ x_queued sh /\ ob_origin q = FromResponse c) \/ w = WDone.

Definition deferred_wf (w : writer_pc) (sh : shared) (d : deferred_pc) : Prop :=
  match d with
  | DSelect (ReadyAfter _) p (Some c) => ob_origin p = FromResponse c
  | DSelect (ReadySent c) p None => ob_origin p = FromReceipt c
  | DSelect _ _ _ => False
  | DSending s (Some c) =>
      ob_origin (item_of s) = FromResponse c /\ (refused_already s = true -> answered w sh c)
  | DSending s None => exists c, ob_origin (item_of s) = FromReceipt c /\ answered w sh c
  | DClose c => answered w sh c
  | DExit | DDone => True
  end.

Definition sender_wf (w : writer_pc) (sh : shared) (s : sending) : Prop :=
  match ob_origin (item_of s) with
  | FromReader | FromCloser => True
  | FromReceipt c => answered w sh c
  | FromResponse _ => False
  end.

Record ordered (st : pipe) : Prop := {
  or_sent : forall c, c ∈ x_sent (p_shared st) -> answered (p_writer st) (p_shared st) c;
  or_reader : forall s acts, p_reader st = RSending s acts -> sender_wf (p_writer st) (p_shared st) s;
  or_closer : forall s, p_closer st = CSending s -> ob_origin (item_of s) = FromCloser;
  or_deferred : Forall (deferred_wf (p_writer st) (p_shared st)) (p_deferred st);
  or_queue : forall l1 p l2 c, x_queued (p_shared st) = l1 ++ p :: l2 -> ob_origin p = FromReceipt c ->
    (exists q, q ∈ l1 /\ ob_origin q = FromResponse c) \/
    (length (x_wire (p_shared st)) <= length l1)%nat /\ p_writer st = WDone
}.

(** The history only grows, and a writer that returned stays returned. *)
Definition extends (w w' : writer_pc) (sh sh' : shared) : Prop :=
  (exists l, x_queued sh' = x_queued sh ++ l) /\ (w = WDone -> w' = WDone).

Lemma extends_refl w sh sh' : x_queued sh' = x_queued sh -> extends w w sh sh'.
Proof. intros E. split; [|done]. exists []. by rewrite E, app_nil_r. Qed.

Lemma answered_mono w w' sh sh' c : extends w w' sh sh' -> answered w sh c -> answered w' sh' c.
Proof.
  intros [[l Hl] Hw] [(q & Hq & Ho)|Hd]; [|right; auto]. left. exists q. split; [|done]. rewrite Hl. set_solver.
Qed.

Lemma deferred_wf_mono w w' sh sh' d : extends w w' sh sh' -> deferred_wf w sh d -> deferred_wf w' sh' d.
Proof.
  intros He. pose proof (fun c => answered_mono _ _ _ _ c He) as Hm.
  destruct d as [[d|c] p [c'|]|s [c'|]|c| |]; simpl; try done; [naive_solver|naive_solver|apply Hm].
Qed.

Lemma sender_wf_mono w w' sh sh' s : extends w w' sh sh' -> sender_wf w sh s -> sender_wf w' sh' s.
Proof. intros He. unfold sender_wf. destruct (ob_origin _); try done. by apply answered_mono. Qed.

(** The end of the history. *)
Lemma snoc_split {A} (l l1 l2 : list A) x y :
  l ++ [x] = l1 ++ y :: l2 -> (l = l1 /\ x = y /\ l2 = []) \/ exists l2', l2 = l2' ++ [x] /\ l = l1 ++ y :: l2'.
Proof.
  destruct l2 as [|z l2 _] using rev_ind.
  - intros [-> ->]%app_inj_tail. by left.
  - rewrite app_comm_cons, app_assoc. intros [-> ->]%app_inj_tail. right. by exists l2.
Qed.

(** A step that neither queues nor writes. *)
Lemma ordered_same r r' w cl cl' ds ds' sh sh' :
  ordered (mkPipe r w cl ds sh) -> x_queued sh' = x_queued sh -> x_wire sh' = x_wire sh ->
  (forall c, c ∈ x_sent sh' -> c ∈ x_sent sh \/ answered w sh c) ->
  (forall s acts, r' = RSending s acts -> sender_wf w sh s) ->
  (forall s, cl' = CSending s -> ob_origin (item_of s) = FromCloser) ->
  Forall (deferred_wf w sh) ds' ->
  ordered (mkPipe r' w cl' ds' sh').
Proof.
  intros [Hs Hr Hc Hd Hq] Eq Ew Hs' Hr' Hc' Hd'. pose proof (extends_refl w sh sh' Eq) as He.
  split; proj_pipe.
  - intros c [Hin|Ha]%Hs'; (eapply answered_mono; [exact He|]); [by apply Hs | done].
  - intros s acts E. eapply sender_wf_mono; [exact He|]. by eapply Hr'.
  - done.
  - eapply Forall_impl; [exact Hd'|]. intros d. by apply deferred_wf_mono.
  - rewrite Eq, Ew. exact Hq.
Qed.

(** Queueing an item whose wait is over. *)
Lemma ordered_enqueue r r' w cl cl' ds ds' sh p :
  ordered (mkPipe r w cl ds sh) -> (length (x_wire sh) <= length (x_queued sh))%nat ->
  (forall c, ob_origin p = FromReceipt c -> answered w sh c) ->
  (forall s acts, r' = RSending s acts -> sender_wf w sh s) ->
  (forall s, cl' = CSending s -> ob_origin (item_of s) = FromCloser) ->
  Forall (deferred_wf w (enqueue p sh)) ds' ->
  ordered (mkPipe r' w cl' ds' (enqueue p sh)).
Proof.
  intros [Hs Hr Hc Hd Hq] Hlen Hp Hr' Hc' Hd'.
  assert (extends w w sh (enqueue p sh)) as He by (split; [by exists [p] | done]).
  split; proj_pipe; cbn [x_sent enqueue set_x_outbound set_x_queued set_x_offered] in *.
  - intros c Hin. eapply answered_mono; [exact He|]. by apply Hs.
  - intros s acts E. eapply sender_wf_mono; [exact He|]. by eapply Hr'.
  - done.
  - done.
  - intros l1 q l2 c Hq1 Ho. simpl in Hq1. apply snoc_split in Hq1 as [(<- & <- & ->)|(l2' & -> & Hq1)].
    + destruct (Hp c Ho) as [?|?]; [by left | by right].
    + by eapply Hq.
Qed.

(** The writer moves. *)
Lemma ordered_writer r w w' cl ds sh sh' :
  ordered (mkPipe r w cl ds sh) -> w <> WDone -> x_queued sh' = x_queued sh -> x_sent sh' = x_sent sh ->
  ordered (mkPipe r w' cl ds sh').
Proof.
  intros [Hs Hr Hc Hd Hq] Hw Eq Es.
  assert (extends w w' sh sh') as He by (split; [exists []; by rewrite Eq, app_nil_r | done]).
  split; proj_pipe.
  - intros c Hin. eapply answered_mono; [exact He|]. apply Hs. by rewrite <- Es.
  - intros s acts E. eapply sender_wf_mono; [exact He|]. by eapply Hr.
  - done.
  - eapply Forall_impl; [exact Hd|]. intros d. by apply deferred_wf_mono.
  - rewrite Eq. intros l1 p l2 c E Ho. left. by destruct (Hq l1 p l2 c E Ho) as [?|[_ ?]].
Qed.

Section Steps.
Context (reason : option closeReason) (bindType : string).
Implicit Types (st : pipe).

Lemma writer_ordered c st st' :
  ordered st -> exec reason bindType (EvWriter c) st = Some st' -> ordered st'.
Proof.
  destruct st as [r w cl ds sh]. intros Ho. unfold exec.
  destruct (writer_exec c w sh) as [[w' sh']|] eqn:Hx; [|done]. intros [= <-].
  assert (w <> WDone) as Hw by (by intros ->).
  assert (x_queued sh' = x_queued sh /\ x_sent sh' = x_sent sh) as [Eq Es].
  { unfold writer_exec in Hx. repeat case_match; simplify_eq; done. }
  by eapply ordered_writer.
Qed.

(** The invariants the order rests on. *)
Lemma wire_in_queue st : accounted st -> (length (x_wire (p_shared st)) <= length (x_queued (p_shared st)))%nat.
Proof. intros [Ha _]. rewrite (ac_queue _ _ _ _ Ha), length_app. lia. Qed.

Lemma refused_answered r w cl ds sh c :
  controlled (mkPipe r w cl ds sh) -> x_writerClosed sh = true -> answered w sh c.
Proof. intros Hct Hw. right. pose proof (ct_writer _ Hct) as H. proj_pipe. destruct w; congruence. Qed.

Lemma unbind_item_origin p : unbind_item = Some p -> ob_origin p = FromCloser.
Proof. unfold unbind_item. by intros (b & _ & ->)%fmap_Some. Qed.

Lemma closer_ordered c st st' :
  controlled st -> accounted st -> ordered st -> exec reason bindType (EvCloser c) st = Some st' -> ordered st'.
Proof.
  intros Hct Ha Ho. pose proof (wire_in_queue st Ha) as Hlen. destruct st as [r w cl ds sh]. proj_pipe.
  unfold exec. destruct (closer_exec c cl sh) as [[cl' sh']|] eqn:Hx; [|done]. intros [= <-].
  pose proof (or_reader _ Ho) as Hr. pose proof (or_closer _ Ho) as Hc. pose proof (or_deferred _ Ho) as Hd. proj_pipe.
  assert (x_queued sh' = x_queued sh -> x_wire sh' = x_wire sh -> x_sent sh' = x_sent sh ->
    (forall s, cl' = CSending s -> ob_origin (item_of s) = FromCloser) -> ordered (mkPipe r w cl' ds sh')) as Hsame.
  { intros Eq Ew Es Hc'. eapply ordered_same; [exact Ho|done|done| |done|done|done]. rewrite Es. auto. }
  unfold closer_exec in Hx. destruct cl as [| |s| |]; [..|done].
  - destruct c; [destruct (x_quit sh)|destruct (x_done sh)|]; try done; injection Hx as <- <-; by apply Hsame.
  - injection Hx as <- <-. apply Hsame; try done. intros s. destruct (x_bound sh); [|done].
    destruct unbind_item as [p|] eqn:Hu; [|done]. intros [= <-]. by apply unbind_item_origin.
  - specialize (Hc s eq_refl).
    destruct (send_exec c s sh) as [[o sh1]|] eqn:Hse; [|done].
    unfold send_exec in Hse. destruct s as [p|p|p|p]; simpl in Hc.
    + simplify_eq. apply Hsame; try done. by intros s [= <-].
    + destruct c; [destruct (x_outboundClosed sh)|destruct (x_writerClosed sh)|]; try done.
      * simplify_eq. by apply Hsame.
      * destruct (_ <? _)%nat; [|done]. simplify_eq.
        eapply ordered_enqueue; try done; [by intros c0; rewrite Hc|].
        eapply Forall_impl; [exact Hd|]. intros d. apply deferred_wf_mono. split; [by exists [p]|done].
      * simplify_eq. apply Hsame; try done. by intros s [= <-].
    + simplify_eq. apply Hsame; try done. by intros s [= <-].
    + simplify_eq. by apply Hsame.
  - destruct (x_closerDone sh); injection Hx as <- <-; by apply Hsame.
Qed.

(** A deferred goroutine moves on without queueing. *)
Lemma deferred_ordered_same r w cl ds sh sh' i d' :
  ordered (mkPipe r w cl ds sh) -> x_queued sh' = x_queued sh -> x_wire sh' = x_wire sh ->
  (forall c, c ∈ x_sent sh' -> c ∈ x_sent sh \/ answered w sh c) -> deferred_wf w sh d' ->
  ordered (mkPipe r w cl (<[i := d']> ds) sh').
Proof.
  intros Ho Eq Ew Es Hd'. pose proof (or_deferred _ Ho) as Hd.
  eapply ordered_same; [exact Ho|done|done|done|by apply (or_reader _ Ho)|by apply (or_closer _ Ho)|].
  proj_pipe. by apply Forall_insert.
Qed.

Lemma deferred_ordered_keep r w cl ds sh sh' i d' :
  ordered (mkPipe r w cl ds sh) -> x_queued sh' = x_queued sh -> x_wire sh' = x_wire sh ->
  x_sent sh' = x_sent sh -> deferred_wf w sh d' -> ordered (mkPipe r w cl (<[i := d']> ds) sh').
Proof. intros Ho Eq Ew Es. apply deferred_ordered_same; try done. rewrite Es. auto. Qed.

Lemma deferred_send_ordered r w cl ds sh i snt c s o sh' :
  controlled (mkPipe r w cl ds sh) -> accounted (mkPipe r w cl ds sh) -> ordered (mkPipe r w cl ds sh) ->
  deferred_wf w sh (DSending s snt) -> x_outboundClosed sh = false -> send_exec c s sh = Some (o, sh') ->
  ordered (mkPipe r w cl (<[i := match o with Some s => DSending s snt
                            | None => match snt with Some c => DClose c | None => DExit end end]> ds) sh').
Proof.
  intros Hct Ha Ho Hwf Hoc Hse. pose proof (wire_in_queue _ Ha) as Hlen. proj_pipe.
  unfold send_exec in Hse. destruct s as [p|p|p|p]; simpl in Hwf.
  - simplify_eq. apply deferred_ordered_keep with (sh := sh); [done..|]. by destruct snt.
  - rewrite Hoc in Hse. destruct c; [|destruct (x_writerClosed sh) eqn:Hw|]; try done.
    + destruct (_ <? _)%nat; [|done]. simplify_eq.
      eapply ordered_enqueue; [exact Ho|done| |by apply (or_reader _ Ho)|by apply (or_closer _ Ho)|].
      * intros c Hp. destruct snt; [by destruct Hwf as [Hp' _]; rewrite Hp in Hp'|].
        destruct Hwf as (c' & Hp' & Hans). rewrite Hp in Hp'. by injection Hp' as ->.
      * apply Forall_insert.
        -- eapply Forall_impl; [exact (or_deferred _ Ho)|]. intros d. apply deferred_wf_mono. split; [by exists [p]|done].
        -- destruct snt as [c|]; [|done]. left. exists p. split; [simpl; set_solver | by apply Hwf].
    + simplify_eq. apply deferred_ordered_keep with (sh := sh); [done..|].
      destruct snt as [c|]; simpl; [|done]. split; [apply Hwf|]. intros _. by eapply refused_answered.
  - simplify_eq. apply deferred_ordered_keep with (sh := sh); [done..|]. by destruct snt.
  - simplify_eq. apply deferred_ordered_keep with (sh := sh); [done..|].
    destruct snt as [c1|]; simpl; [|done]. by apply Hwf.
Qed.

Lemma deferred_ordered i c st st' :
  controlled st -> accounted st -> ordered st -> exec reason bindType (EvDeferred i c) st = Some st' -> ordered st'.
Proof.
  destruct st as [r w cl ds sh]. intros Hct Ha Ho.
  unfold exec. destruct (ds !! i) as [d|] eqn:Hi; [|done].
  destruct (deferred_exec c d sh) as [[d' sh']|] eqn:Hx; [|done]. intros [= <-].
  assert (deferred_wf w sh d) as Hwf by (by eapply Forall_lookup_1; [apply (or_deferred _ Ho)|exact Hi]).
  assert (d <> DDone -> x_outboundClosed sh = false) as Hoc.
  { intros Hdd. eapply send_controlled_closed; [exact Hct|].
    destruct (decide (4 <= phase r)%nat) as [H4|]; [|lia].
    pose proof (ct_deferred_joined _ Hct H4) as Hj. proj_pipe.
    pose proof (sum_list_with_in d live ds ltac:(by eapply list_elem_of_lookup_2)). by destruct d; simpl in *; lia || done. }
  unfold deferred_exec in Hx. destruct d as [rdy p snt|s snt|c0| |]; [..|done].
  - destruct c; [destruct (is_ready rdy sh) eqn:Hrdy|destruct (x_stopDeferred sh)|]; try done; injection Hx as <- <-;
      (apply deferred_ordered_keep with (sh := sh); [done..|]); [|done].
    destruct rdy as [dl|c0], snt as [c1|]; simpl in Hwf |- *; try done.
    exists c0. split; [done|]. apply (or_sent _ Ho). simpl in Hrdy. by apply bool_decide_eq_true in Hrdy.
  - destruct (send_exec c s sh) as [[o sh1]|] eqn:Hse; [|done].
    pose proof (deferred_send_ordered r w cl ds sh i snt c s o sh1 Hct Ha Ho Hwf (Hoc ltac:(done)) Hse) as Hd.
    destruct o; injection Hx as <- <-; exact Hd.
  - assert (forall c, c ∈ c0 :: x_sent sh -> c ∈ x_sent sh \/ answered w sh c) as Hs.
    { intros c1 [->|?]%elem_of_cons; [by right|by left]. }
    destruct (bool_decide _); injection Hx as <- <-; apply deferred_ordered_same with (sh := sh); try done; auto.
  - destruct (_ <=? 0); injection Hx as <- <-; apply deferred_ordered_same with (sh := sh); try done; auto.
Qed.

Lemma action_ordered a acts w cl ds sh :
  ordered (mkPipe (RLoop (a :: acts)) w cl ds sh) ->
  let '(r, ds', sh') := action_exec a acts sh in ordered (mkPipe r w cl (ds ++ ds') sh').
Proof.
  intros Ho. pose proof (or_deferred _ Ho) as Hd. proj_pipe.
  assert (forall r' ds' sh', x_queued sh' = x_queued sh -> x_wire sh' = x_wire sh -> x_sent sh' = x_sent sh ->
    (forall s acts, r' = RSending s acts -> sender_wf w sh s) -> Forall (deferred_wf w sh) ds' ->
    ordered (mkPipe r' w cl (ds ++ ds') sh')) as Hok.
  { intros r' ds' sh' Eq Ew Es Hr' Hd'. eapply ordered_same; [exact Ho|done|done| |done|by apply (or_closer _ Ho)|].
    - rewrite Es. auto.
    - by apply Forall_app. }
  destruct a as [b k|d b c|b c|m]; cbn [action_exec].
  - apply Hok; [done..| |constructor]. by intros s acts' [= <- <-].
  - apply Hok; [done..|by repeat constructor].
  - case_bool_decide as Hin.
    + apply Hok; [done..| |constructor]. intros s acts' [= <- <-]. unfold sender_wf. simpl. by apply (or_sent _ Ho).
    + apply Hok; [done..|by repeat constructor].
  - destruct m; (apply Hok; [done..|constructor]).
Qed.

Lemma reader_ordered c st st' :
  controlled st -> accounted st -> ordered st -> exec reason bindType (EvReader c) st = Some st' -> ordered st'.
Proof.
  intros Hct Ha Ho. pose proof (wire_in_queue st Ha) as Hlen. destruct st as [r w cl ds sh]. proj_pipe.
  unfold exec. destruct (reader_exec reason bindType c r sh) as [[[r' ds'] sh']|] eqn:Hx; [|done]. intros [= <-].
  assert (forall r' sh', x_queued sh' = x_queued sh -> x_wire sh' = x_wire sh -> x_sent sh' = x_sent sh ->
    (forall s acts, r' = RSending s acts -> sender_wf w sh s) -> ordered (mkPipe r' w cl (ds ++ []) sh')) as Hok.
  { intros r1 sh1 Eq Ew Es Hr1. rewrite app_nil_r.
    eapply ordered_same; [exact Ho|done|done| |done|by apply (or_closer _ Ho)|by apply (or_deferred _ Ho)]. rewrite Es. auto. }
  unfold reader_exec in Hx. destruct r as [[|a acts]|s acts|acts| | | | | | | | | |p|p| | | | |].
  5-20: destruct (teardown_exec _ _ _ sh) as [[r1 sh1]|] eqn:Ht; [|done]; injection Hx as <- <- <-;
    cbn [teardown_exec] in Ht; unfold close_chan in Ht; repeat case_match; simplify_eq; by apply Hok.
  - injection Hx as <- <- <-. by apply Hok.
  - pose proof (action_ordered a acts w cl ds sh Ho) as Hact. injection Hx as Hx. by rewrite Hx in Hact.
  - pose proof (or_reader _ Ho s acts eq_refl) as Hwf. proj_pipe.
    destruct (send_exec c s sh) as [[o sh1]|] eqn:Hse; [|done].
    unfold send_exec in Hse. destruct s as [p|p|p|p].
    + simplify_eq. apply Hok; try done. by intros s acts' [= <- <-].
    + destruct c; [destruct (x_outboundClosed sh)|destruct (x_writerClosed sh)|]; try done.
      * simplify_eq. by apply Hok.
      * destruct (_ <? _)%nat; [|done]. simplify_eq. rewrite app_nil_r.
        eapply ordered_enqueue; [exact Ho|done| |done|by apply (or_closer _ Ho)|].
        -- intros c Hp. unfold sender_wf in Hwf. simpl in Hwf. by rewrite Hp in Hwf.
        -- eapply Forall_impl; [exact (or_deferred _ Ho)|]. intros d. apply deferred_wf_mono. split; [by exists [p]|done].
      * simplify_eq. apply Hok; try done. by intros s acts' [= <- <-].
    + simplify_eq. apply Hok; try done. by intros s acts' [= <- <-].
    + simplify_eq. by apply Hok.
  - injection Hx as <- <- <-. by apply Hok.
Qed.

Lemma step_ordered st st' :
  controlled st -> accounted st -> ordered st -> step reason bindType st st' -> ordered st'.
Proof.
  intros Hc Ha Ho [[|c|c|c|i c] Hx].
  - destruct st as [r w cl ds sh]. unfold exec in Hx. destruct (x_quit sh); [done|]. injection Hx as <-.
    eapply ordered_same; [exact Ho|done|done| |by apply (or_reader _ Ho)|by apply (or_closer _ Ho)|by apply (or_deferred _ Ho)].
    auto.
  - by eapply reader_ordered.
  - by eapply writer_ordered.
  - by eapply closer_ordered.
  - by eapply deferred_ordered.
Qed.

End Steps.

End Order.

Lemma boot_ordered acts : ordered (boot acts).
Proof. split; simpl; try done; [set_solver|]. intros [|? ?] p l2 c; discriminate. Qed.
