(* ===== verification/Teardown.v ===== *)
(** * The teardown of a session always completes

    A measure every step of every goroutine decreases, the absence of deadlocks,
    and the invariants on the end of a session. *)

From S2P Require Import Prelude.
From S2P Require Import SmppCodec.
From S2P Require Import Close.
From S2P Require Import VirtualSMSC.
From S2P Require Import SessionState.
From S2P Require Import Pipeline.
From S2P Require Import PipelineThms.

(** ** Every step makes progress *)

Definition send_cost (s : sending) : nat :=
  match s with Offer _ => 5 | Select _ => 4 | Refused _ => 2 | Dropping _ => 1 end.

Definition writer_cost (w : writer_pc) : nat :=
  match w with WRecv => 2 | WDepth _ => 4 | WWrite _ => 3 | WFailed _ => 2 | WExit => 1 | WDone => 0 end.

Definition closer_cost (c : closer_pc) : nat :=
  match c with CSelect => 8 | CLoad => 7 | CSending s => 1 + send_cost s | CExit => 1 | CDone => 0 end.

Definition deferred_cost (d : deferred_pc) : nat :=
  match d with DSelect _ _ _ => 8 | DSending s _ => 2 + send_cost s | DClose _ => 2 | DExit => 1 | DDone => 0 end.

Definition loop_cost (acts : list action) : nat := 9 * length acts + 16.

Definition reader_cost (r : reader_pc) : nat :=
  match r with
  | RLoop acts => loop_cost acts
  | RSending s acts => send_cost s + loop_cost acts
  | RStoreBound acts => 1 + loop_cost acts
  | RIsClosed => 15 | RLen => 14 | RCloseDone => 13 | RWaitCloser => 12 | RCloseStop => 11
  | RWaitDeferred => 10 | RCloseOutbound => 9 | RWaitWriter => 8 | RDrain => 5 | RDrainDepth _ => 7
  | RDrainDrop _ => 6 | RConnClose => 4 | RRecordClose => 3 | RRemove => 2 | RDecBind => 1 | RDone => 0
  end.

(** Three steps are owed to every item in the queue. *)
Definition shared_cost (sh : shared) : nat :=
  3 * length (x_outbound sh) + if x_quit sh then 0 else 1.

Definition cost (st : pipe) : nat :=
  reader_cost (p_reader st) + writer_cost (p_writer st) + closer_cost (p_closer st) +
  sum_list_with deferred_cost (p_deferred st) + shared_cost (p_shared st).

Lemma send_cost_step c s sh o sh' :
  send_exec c s sh = Some (o, sh') ->
  (match o with Some s => send_cost s | None => 0 end + shared_cost sh' < send_cost s + shared_cost sh)%nat.
Proof.
  unfold send_exec, shared_cost. destruct s.
  - intros [= <- <-]. simpl. lia.
  - destruct c; [destruct (x_outboundClosed sh); [|destruct (_ <? _)%nat]|destruct (x_writerClosed sh)|]; try done;
      intros [= <- <-]; simpl; rewrite ?length_app; simpl; lia.
  - intros [= <- <-]. simpl. lia.
  - intros [= <- <-]. simpl. lia.
Qed.

Section Progress.
Context (reason : option closeReason) (bindType : string).
Implicit Types (st : pipe).

Lemma writer_cost_step c w sh w' sh' :
  writer_exec c w sh = Some (w', sh') ->
  (writer_cost w' + shared_cost sh' < writer_cost w + shared_cost sh)%nat.
Proof.
  unfold writer_exec, shared_cost. destruct w; [..|done].
  - destruct (x_outbound sh) eqn:Ho; [destruct (x_outboundClosed sh); [|done]|]; intros [= <- <-];
      cbn [x_outbound x_quit set_x_outbound]; rewrite ?Ho; simpl; lia.
  - intros [= <- <-]. simpl. lia.
  - destruct c; intros [= <- <-]; simpl; lia.
  - intros [= <- <-]. simpl. lia.
  - destruct (x_writerClosed sh); intros [= <- <-]; simpl; lia.
Qed.

Lemma closer_cost_step c cl sh cl' sh' :
  closer_exec c cl sh = Some (cl', sh') ->
  (closer_cost cl' + shared_cost sh' < closer_cost cl + shared_cost sh)%nat.
Proof.
  unfold closer_exec. destruct cl; [..|done].
  - destruct c; [destruct (x_quit sh)|destruct (x_done sh)|]; try done; intros [= <- <-]; simpl; lia.
  - intros [= <- <-]. destruct (x_bound sh), unbind_item; simpl; lia.
  - destruct (send_exec c s sh) as [[o sh1]|] eqn:Hs; [|done]. apply send_cost_step in Hs.
    destruct o; intros [= <- <-]; simpl; lia.
  - destruct (x_closerDone sh); intros [= <- <-]; unfold shared_cost; simpl; lia.
Qed.

Lemma deferred_cost_step c d sh d' sh' :
  deferred_exec c d sh = Some (d', sh') ->
  (deferred_cost d' + shared_cost sh' < deferred_cost d + shared_cost sh)%nat.
Proof.
  unfold deferred_exec. destruct d as [r p snt|s snt|c0| |]; [..|done].
  - destruct c; [destruct (is_ready r sh)|destruct (x_stopDeferred sh)|]; try done; intros [= <- <-]; simpl; lia.
  - destruct (send_exec c s sh) as [[o sh1]|] eqn:Hs; [|done]. apply send_cost_step in Hs.
    destruct o; [|destruct snt]; intros [= <- <-]; simpl; lia.
  - destruct (bool_decide _); intros [= <- <-]; unfold shared_cost; simpl; lia.
  - destruct (_ <=? 0); intros [= <- <-]; unfold shared_cost; simpl; lia.
Qed.

Lemma teardown_cost_step r sh r' sh' :
  teardown_exec reason bindType r sh = Some (r', sh') ->
  (reader_cost r' + shared_cost sh' < reader_cost r + shared_cost sh)%nat.
Proof.
  intros Ht. destruct r; try discriminate Ht; cbn [teardown_exec] in Ht; unfold close_chan in Ht; unfold shared_cost.
  9: destruct (x_outbound sh) as [|p l] eqn:Ho; [destruct (x_outboundClosed sh); [|done]|]; simplify_eq;
    cbn [x_outbound x_quit set_x_outbound set_x_lost reader_cost]; rewrite ?Ho; simpl; lia.
  all: repeat match type of Ht with context [if ?b then _ else _] => destruct b end; simplify_eq; simpl; lia.
Qed.

Lemma reader_cost_step c r sh r' ds' sh' :
  reader_exec reason bindType c r sh = Some (r', ds', sh') ->
  (reader_cost r' + sum_list_with deferred_cost ds' + shared_cost sh' < reader_cost r + shared_cost sh)%nat.
Proof.
  intros Hx. unfold reader_exec in Hx. destruct r as [[|a acts]|s acts|acts| | | | | | | | | |p|p| | | | |].
  5-20: destruct (teardown_exec _ _ _ sh) as [[r1 sh1]|] eqn:Ht; [|done]; injection Hx as <- <- <-;
    apply teardown_cost_step in Ht; cbn [sum_list_with]; lia.
  - injection Hx as <- <- <-. simpl; unfold loop_cost; simpl; lia.
  - destruct a as [b k|d b c'|b c'|m]; cbn [action_exec] in Hx.
    + injection Hx as <- <- <-. simpl; unfold loop_cost; simpl; lia.
    + injection Hx as <- <- <-. unfold shared_cost; simpl; unfold loop_cost; simpl; lia.
    + case_bool_decide; injection Hx as <- <- <-; unfold shared_cost; simpl; unfold loop_cost; simpl; lia.
    + destruct m; injection Hx as <- <- <-; unfold shared_cost; simpl; unfold loop_cost; simpl; lia.
  - destruct (send_exec c s sh) as [[o sh1]|] eqn:Hs; [|done]. apply send_cost_step in Hs.
    destruct o; injection Hx as <- <- <-; simpl; lia.
  - injection Hx as <- <- <-. unfold shared_cost; simpl; unfold loop_cost; simpl; lia.
Qed.

Lemma step_cost st st' : step reason bindType st st' -> (cost st' < cost st)%nat.
Proof.
  intros [ev Hx]. destruct st as [r w cl ds sh]. unfold exec in Hx. unfold cost. destruct ev as [|c|c|c|i c].
  - destruct (x_quit sh) eqn:Hq; [done|]. injection Hx as <-. unfold shared_cost. simpl. rewrite Hq. lia.
  - destruct (reader_exec _ _ c r sh) as [[[r' ds'] sh']|] eqn:He; [|done]. injection Hx as <-.
    apply reader_cost_step in He. proj_pipe. rewrite sum_list_with_app. lia.
  - destruct (writer_exec c w sh) as [[w' sh']|] eqn:He; [|done]. injection Hx as <-.
    apply writer_cost_step in He. proj_pipe. lia.
  - destruct (closer_exec c cl sh) as [[cl' sh']|] eqn:He; [|done]. injection Hx as <-.
    apply closer_cost_step in He. proj_pipe. lia.
  - destruct (ds !! i) as [d|] eqn:Hi; [|done].
    destruct (deferred_exec c d sh) as [[d' sh']|] eqn:He; [|done]. injection Hx as <-.
    apply deferred_cost_step in He. pose proof (sum_insert deferred_cost ds i d d' Hi). proj_pipe. lia.
Qed.

Lemma nsteps_cost n st st' : nsteps (step reason bindType) n st st' -> (n + cost st' <= cost st)%nat.
Proof. induction 1 as [|n st1 st2 st3 Hs _ IH]; [lia|]. apply step_cost in Hs. lia. Qed.

(** ** No deadlock *)

(** No goroutine can move. *)
Definition idle st : Prop := forall ev, ev <> EvQuit -> exec reason bindType ev st = None.

Lemma idle_writer r w cl ds sh :
  idle (mkPipe r w cl ds sh) ->
  w = WDone \/ w = WRecv /\ x_outbound sh = [] /\ x_outboundClosed sh = false.
Proof.
  intros Hi. specialize (Hi (EvWriter Take) ltac:(done)). unfold exec, writer_exec in Hi.
  destruct w; try done; [|by left].
  destruct (x_outbound sh); [|done]. destruct (x_outboundClosed sh); [done|]. by right.
Qed.

(** A send in progress can always move, or its writer can. *)
Lemma idle_send r w cl ds sh s :
  controlled (mkPipe r w cl ds sh) -> idle (mkPipe r w cl ds sh) -> x_outboundClosed sh = false ->
  exists c, is_Some (send_exec c s sh).
Proof.
  intros Hct Hi Ho. destruct s as [p|p|p|p]; [by exists Take| |by exists Take..].
  destruct (idle_writer _ _ _ _ _ Hi) as [->|(_ & He & _)].
  - exists Other. pose proof (ct_writer _ Hct) as Hw. proj_pipe. simpl. rewrite Hw. by eexists.
  - exists Take. simpl. rewrite Ho, He. by eexists.
Qed.

Lemma idle_deferred r w cl ds sh :
  controlled (mkPipe r w cl ds sh) -> idle (mkPipe r w cl ds sh) -> x_outboundClosed sh = false ->
  x_stopDeferred sh = true -> sum_list_with live ds = 0%nat.
Proof.
  intros Hct Hi Ho Hst. assert (Forall (fun d => live d = 0%nat) ds) as Hall.
  { apply Forall_lookup. intros i d Hd. assert (forall c, deferred_exec c d sh = None) as Hn.
    { intros c. specialize (Hi (EvDeferred i c) ltac:(done)). unfold exec in Hi. rewrite Hd in Hi.
      by destruct (deferred_exec c d sh) as [[]|]. }
    destruct d as [rdy p snt|s snt|c0| |]; [| | | |done].
    - specialize (Hn Other). simpl in Hn. by rewrite Hst in Hn.
    - destruct (idle_send _ _ _ _ _ s Hct Hi Ho) as [c [[o sh'] Hs]]. specialize (Hn c). simpl in Hn.
      rewrite Hs in Hn. by destruct o.
    - specialize (Hn Take). done.
    - specialize (Hn Take). done. }
  clear -Hall. induction Hall as [|d ds Hd _ IH]; [done|]. simpl. lia.
Qed.

Lemma idle_closer r w cl ds sh :
  controlled (mkPipe r w cl ds sh) -> idle (mkPipe r w cl ds sh) -> x_outboundClosed sh = false ->
  x_done sh = true -> cl = CDone.
Proof.
  intros Hct Hi Ho Hd. assert (forall c, closer_exec c cl sh = None) as Hn.
  { intros c. specialize (Hi (EvCloser c) ltac:(done)). unfold exec in Hi.
    by destruct (closer_exec c cl sh) as [[]|]. }
  destruct cl as [| |s| |]; [| | | |done].
  - specialize (Hn Other). simpl in Hn. by rewrite Hd in Hn.
  - by specialize (Hn Take).
  - destruct (idle_send _ _ _ _ _ s Hct Hi Ho) as [c [[o sh'] Hs]]. specialize (Hn c). simpl in Hn.
    rewrite Hs in Hn. by destruct o.
  - by specialize (Hn Take).
Qed.

(** The only idle states are those the teardown has finished. *)
Lemma idle_finished r w cl ds sh :
  controlled (mkPipe r w cl ds sh) -> idle (mkPipe r w cl ds sh) -> r = RDone.
Proof.
  intros Hct Hi. assert (forall c, reader_exec reason bindType c r sh = None) as Hn.
  { intros c. specialize (Hi (EvReader c) ltac:(done)). unfold exec in Hi.
    by destruct (reader_exec reason bindType c r sh) as [[[]]|]. }
  pose proof (send_controlled_closed _ _ _ _ _ Hct) as Hoc.
  pose proof (ct_done _ Hct) as Hd. pose proof (ct_stop _ Hct) as Hs. pose proof (ct_closer _ Hct) as Hc.
  pose proof (ct_writer _ Hct) as Hw. pose proof (ct_deferred _ Hct) as Hdf. pose proof (ct_outbound _ Hct) as Hob.
  proj_pipe.
  destruct r as [[|a acts]|s acts|acts| | | | | | | | | |p|p| | | | |]; try (by specialize (Hn Take)).
  - destruct (idle_send _ _ _ _ _ s Hct Hi (Hoc ltac:(simpl; lia))) as [c [[o sh'] Hse]]. specialize (Hn c).
    simpl in Hn. rewrite Hse in Hn. by destruct o.
  - rewrite (idle_closer _ _ _ _ _ Hct Hi (Hoc ltac:(simpl; lia)) Hd) in Hc. specialize (Hn Take). simpl in Hn.
    by rewrite Hc in Hn.
  - rewrite (idle_deferred _ _ _ _ _ Hct Hi (Hoc ltac:(simpl; lia)) Hs) in Hdf. specialize (Hn Take). simpl in Hn.
    by rewrite Hdf in Hn.
  - destruct (idle_writer _ _ _ _ _ Hi) as [->|(_ & _ & Ho)]; [|by rewrite Hob in Ho].
    specialize (Hn Take). simpl in Hn. by rewrite Hw in Hn.
  - specialize (Hn Take). simpl in Hn. destruct (x_outbound sh); [|done]. by rewrite Hob in Hn.
Qed.

End Progress.

(** ** What the teardown leaves: gauges, registry, close record *)

Definition exiting (w : writer_pc) : bool :=
  match w with WFailed _ | WExit | WDone => true | _ => false end.

Definition storing (r : reader_pc) : nat := match r with RStoreBound _ => 1 | _ => 0 end.

(** Why the writer returns: a write failed, or the closed queue is empty. *)
Definition exhausted (sh : shared) : Prop :=
  is_Some (x_writeErr sh) \/ x_outboundClosed sh = true /\ x_outbound sh = [].

(** No PDU is lost unless a write failed. *)
Definition lossless (sh : shared) : Prop :=
  is_Some (x_writeErr sh) \/ x_lost sh = [] /\ x_refused sh = [] /\ x_offered sh = x_queued sh.

(** The active-binds gauge counts the session from its bind to its teardown; the
    writer exits early only on a write error. *)
Record settled (reason : option closeReason) (bindType : string) (st : pipe) : Prop := {
  se_gauge : x_bindGauge (p_shared st) =
    match p_reader st with RDone => 0 | r => Z.b2z (x_bound (p_shared st)) + Z.of_nat (storing r) end;
  se_binds : (binds_in (reader_acts (p_reader st)) + storing (p_reader st) + Nat.b2n (x_bound (p_shared st)) <= 1)%nat;
  se_registered : (10 <= phase (p_reader st))%nat -> x_registered (p_shared st) = false;
  se_conn : (8 <= phase (p_reader st))%nat -> x_connClosed (p_shared st) = true;
  se_record : (9 <= phase (p_reader st))%nat ->
    x_closeRecord (p_shared st) = Some (recordClose reason bindType (p_shared st));
  se_exit : exiting (p_writer st) = true -> exhausted (p_shared st);
  se_first : x_writerFailedFirst (p_shared st) = true -> is_Some (x_writeErr (p_shared st));
  se_lossless : lossless (p_shared st)
}.

Section Settled.
Context (reason : option closeReason) (bindType : string).
Implicit Types (st : pipe).

(** A goroutine that is still running leaves the reader's part alone. *)
Lemma settled_frame r w w' cl cl' ds ds' sh sh' :
  settled reason bindType (mkPipe r w cl ds sh) -> (phase r < 8)%nat ->
  x_bound sh' = x_bound sh -> x_bindGauge sh' = x_bindGauge sh ->
  x_writerFailedFirst sh' = x_writerFailedFirst sh ->
  (is_Some (x_writeErr sh) -> is_Some (x_writeErr sh')) ->
  (exiting w' = true -> exhausted sh') -> lossless sh' ->
  settled reason bindType (mkPipe r w' cl' ds' sh').
Proof.
  intros [Hg Hb _ _ _ _ Hf _] Hr E1 E2 E3 He Hx Hl. proj_pipe.
  split; proj_pipe; rewrite ?E1, ?E2, ?E3; try done; try lia. intros H. apply He. by apply Hf.
Qed.

(** What a send does besides [control]. *)
Lemma send_exec_errors c s sh o sh' :
  x_outboundClosed sh = false -> (x_writerClosed sh = true -> is_Some (x_writeErr sh)) ->
  send_exec c s sh = Some (o, sh') ->
  x_writeErr sh' = x_writeErr sh /\ x_writerFailedFirst sh' = x_writerFailedFirst sh /\
  (lossless sh -> lossless sh').
Proof.
  intros Ho Hw. unfold send_exec, lossless. rewrite Ho. destruct s; [by intros [= <- <-]| |by intros [= <- <-]..].
  destruct c; [destruct (_ <? _)%nat|destruct (x_writerClosed sh)|]; try done; intros [= <- <-]; (split_and!; [done..|]).
  - intros [?|(? & ? & E)]; [by left|right]. split_and!; [done..|]. cbn. by rewrite E.
  - intros _. left. by apply Hw.
Qed.

Lemma writer_closed_error r w cl ds sh :
  controlled (mkPipe r w cl ds sh) -> settled reason bindType (mkPipe r w cl ds sh) ->
  x_outboundClosed sh = false -> exiting w = true -> is_Some (x_writeErr sh).
Proof.
  intros Hct Hs Ho Hw. destruct (se_exit _ _ _ Hs Hw) as [?|[Hoc _]]; [done|]. proj_pipe. congruence.
Qed.

Lemma send_settled r w cl cl' ds ds' c s sh o sh' :
  controlled (mkPipe r w cl ds sh) -> settled reason bindType (mkPipe r w cl ds sh) -> (phase r < 5)%nat ->
  send_exec c s sh = Some (o, sh') -> settled reason bindType (mkPipe r w cl' ds' sh').
Proof.
  intros Hct Hs Hr Hx. pose proof (send_controlled_closed _ _ _ _ _ Hct Hr) as Ho.
  pose proof (writer_closed_error _ _ _ _ _ Hct Hs Ho) as Hwe. pose proof (ct_writer _ Hct) as Hw. proj_pipe.
  assert (x_writerClosed sh = true -> is_Some (x_writeErr sh)) as Hwe'
    by (rewrite Hw; intros; apply Hwe; by destruct w).
  destruct (send_exec_errors _ _ _ _ _ Ho Hwe' Hx) as (F1 & F2 & F3).
  pose proof (control_inv _ _ (send_exec_control _ _ _ _ _ Ho Hx)) as (E1 & _ & _ & _ & _ & _ & _ & E8 & E9 & _).
  eapply settled_frame; [exact Hs|lia|done..|by rewrite F1| |by apply F3, (se_lossless _ _ _ Hs)].
  intros Hex. left. rewrite F1. by apply Hwe.
Qed.

Lemma writer_settled c st st' :
  controlled st -> settled reason bindType st -> exec reason bindType (EvWriter c) st = Some st' ->
  settled reason bindType st'.
Proof.
  destruct st as [r w cl ds sh]. intros Hct Hs. unfold exec.
  destruct (writer_exec c w sh) as [[w' sh']|] eqn:Hx; [|done]. intros [= <-].
  assert (phase r < 6)%nat as Hr.
  { destruct (decide (6 <= phase r)%nat) as [H6|]; [|lia]. pose proof (ct_writer_joined _ Hct H6) as Hw.
    proj_pipe. by rewrite Hw in Hx. }
  pose proof (se_exit _ _ _ Hs) as Hex. pose proof (se_lossless _ _ _ Hs) as Hlo. proj_pipe.
  unfold writer_exec in Hx. destruct w as [|p|p|p| |]; [| | | | |done].
  - destruct (x_outbound sh) eqn:Hob; [destruct (x_outboundClosed sh) eqn:Ho; [|done]|]; simplify_eq;
      (eapply settled_frame; [exact Hs|lia|done..| |]); try done; by right.
  - simplify_eq. eapply settled_frame; [exact Hs|lia|done..].
  - destruct c; simplify_eq; (eapply settled_frame; [exact Hs|lia|done..| | |]); try done;
      (intros; first [by eexists | left; by eexists]).
  - simplify_eq. eapply settled_frame; [exact Hs|lia|done..].
  - destruct (x_writerClosed sh); simplify_eq; (eapply settled_frame; [exact Hs|lia|done..]).
Qed.

Lemma closer_settled c st st' :
  controlled st -> settled reason bindType st -> exec reason bindType (EvCloser c) st = Some st' ->
  settled reason bindType st'.
Proof.
  destruct st as [r w cl ds sh]. intros Hct Hs. unfold exec.
  destruct (closer_exec c cl sh) as [[cl' sh']|] eqn:Hx; [|done]. intros [= <-].
  assert (phase r < 2)%nat as Hr.
  { destruct (decide (2 <= phase r)%nat) as [H2|]; [|lia]. pose proof (ct_closer_joined _ Hct H2) as Hw.
    proj_pipe. by rewrite Hw in Hx. }
  pose proof (send_controlled_closed _ _ _ _ _ Hct ltac:(lia)) as Ho.
  pose proof (se_exit _ _ _ Hs) as Hex. pose proof (se_lossless _ _ _ Hs) as Hlo. proj_pipe.
  unfold closer_exec in Hx. destruct cl as [| |s| |]; [| | | |done].
  - destruct c; [destruct (x_quit sh)|destruct (x_done sh)|]; try done; simplify_eq;
      (eapply settled_frame; [exact Hs|lia|done..]).
  - simplify_eq. eapply settled_frame; [exact Hs|lia|done..].
  - destruct (send_exec c s sh) as [[o sh1]|] eqn:Hse; [|done].
    destruct o; simplify_eq; (eapply send_settled; [exact Hct|exact Hs|lia|exact Hse]).
  - destruct (x_closerDone sh); simplify_eq; (eapply settled_frame; [exact Hs|lia|done..]).
Qed.

Lemma deferred_settled i c st st' :
  controlled st -> settled reason bindType st -> exec reason bindType (EvDeferred i c) st = Some st' ->
  settled reason bindType st'.
Proof.
  destruct st as [r w cl ds sh]. intros Hct Hs. unfold exec.
  destruct (ds !! i) as [d|] eqn:Hi; [|done].
  destruct (deferred_exec c d sh) as [[d' sh']|] eqn:Hx; [|done]. intros [= <-].
  assert (phase r < 4)%nat as Hr.
  { destruct (decide (4 <= phase r)%nat) as [H4|]; [|lia]. pose proof (ct_deferred_joined _ Hct H4) as Hw. proj_pipe.
    pose proof (sum_list_with_in d live ds ltac:(by eapply list_elem_of_lookup_2)). by destruct d; simpl in *; lia || done. }
  pose proof (send_controlled_closed _ _ _ _ _ Hct ltac:(lia)) as Ho.
  pose proof (se_exit _ _ _ Hs) as Hex. pose proof (se_lossless _ _ _ Hs) as Hlo. proj_pipe.
  unfold deferred_exec in Hx. destruct d as [rdy p snt|s snt|c0| |]; [| | | |done].
  - destruct c; [destruct (is_ready rdy sh)|destruct (x_stopDeferred sh)|]; try done; simplify_eq;
      (eapply settled_frame; [exact Hs|lia|done..]).
  - destruct (send_exec c s sh) as [[o sh1]|] eqn:Hse; [|done].
    destruct o; simplify_eq; (eapply send_settled; [exact Hct|exact Hs|lia|exact Hse]).
  - destruct (bool_decide _); simplify_eq; (eapply settled_frame; [exact Hs|lia|done..]).
  - destruct (_ <=? 0); simplify_eq; (eapply settled_frame; [exact Hs|lia|done..]).
Qed.

Lemma binds_in_cons a acts : binds_in (a :: acts) = (Nat.b2n (is_bind a) + binds_in acts)%nat.
Proof. unfold binds_in. rewrite filter_cons. by destruct (is_bind a); case_decide. Qed.

Lemma action_settled a acts w cl ds sh :
  settled reason bindType (mkPipe (RLoop (a :: acts)) w cl ds sh) ->
  let '(r, ds', sh') := action_exec a acts sh in settled reason bindType (mkPipe r w cl (ds ++ ds') sh').
Proof.
  intros [Hg Hb _ _ _ He Hf Hl]. proj_pipe. cbn [reader_acts storing] in *. rewrite binds_in_cons in Hb.
  assert (forall r' ds' sh', reader_acts r' = acts -> storing r' = 0%nat -> phase r' = 0%nat ->
    match r' with RDone => False | _ => True end ->
    (sh' = sh \/ sh' = set_x_deferred (x_deferred sh + 1) sh) ->
    settled reason bindType (mkPipe r' w cl ds' sh')) as Hok.
  { intros r' ds' sh' H1 H2 H3 H4 Hsh. split; proj_pipe; rewrite ?H1, ?H2, ?H3; try lia;
      destruct Hsh as [-> | ->]; try done; [by destruct r'| by destruct r'|lia|].
    cbn [x_bound set_x_deferred]. lia. }
  destruct a as [b k|d b c|b c|m]; cbn [action_exec].
  - apply Hok; auto.
  - apply Hok; auto.
  - case_bool_decide; apply Hok; auto.
  - destruct m; try (apply Hok; auto; fail). cbn [is_bind] in Hb.
    destruct (x_bound sh) eqn:Hbd; cbn [Nat.b2n Z.b2z] in *; [lia|].
    split; proj_pipe; cbn [phase reader_acts storing x_bindGauge x_bound set_x_bindGauge set_x_registered]; try lia;
      rewrite ?Hbd; try done; cbn [Nat.b2n Z.b2z]; lia.
Qed.

Lemma teardown_settled r r' w cl ds sh sh' :
  controlled (mkPipe r w cl ds sh) -> settled reason bindType (mkPipe r w cl ds sh) ->
  teardown_exec reason bindType r sh = Some (r', sh') -> settled reason bindType (mkPipe r' w cl ds sh').
Proof.
  intros Hct [Hg Hb Hrg Hcn Hrc He Hf Hl] Ht.
  pose proof (ct_writer _ Hct) as Hw. pose proof (ct_outbound _ Hct) as Ho. proj_pipe.
  destruct r; try discriminate Ht; cbn [teardown_exec] in Ht; unfold close_chan in Ht;
    cbn [phase storing reader_acts Nat.leb] in *;
    repeat match type of Ht with
    | match ?b with true => _ | false => _ end = Some _ => destruct b eqn:?; [|discriminate Ht]
    | match ?b with [] => _ | _ :: _ => _ end = Some _ => destruct b eqn:?
    | context [if ?b then _ else _] => destruct b eqn:?
    end; simplify_eq;
    (split; proj_pipe; cbn [phase storing reader_acts Nat.leb]; first [done | (intros; lia) | auto | idtac]).
  - cbn [x_writerFailedFirst set_x_writerFailedFirst x_writeErr]. rewrite Hw. destruct w; try done.
    intros _. destruct (He eq_refl) as [?|[? _]]; [done|congruence].
  - intros Hex. left. destruct (He Hex) as [?|[? _]]; [done|congruence].
  - intros Hex. left. destruct (He Hex) as [?|[_ ?]]; [done|congruence].
  - left. pose proof (ct_writer_joined _ Hct ltac:(simpl; lia)) as Hj. proj_pipe. subst w.
    destruct (He eq_refl) as [?|[_ ?]]; [done|congruence].
  - cbn [x_bindGauge set_x_bindGauge]. rewrite Hg. by destruct (x_bound sh).
  - cbn [x_bound set_x_bindGauge]. destruct (x_bound sh); cbn; lia.
  - destruct (x_bound sh'); cbn; lia.
Qed.

Lemma reader_settled c st st' :
  controlled st -> settled reason bindType st -> exec reason bindType (EvReader c) st = Some st' ->
  settled reason bindType st'.
Proof.
  destruct st as [r w cl ds sh]. intros Hct Hs.
  unfold exec. destruct (reader_exec reason bindType c r sh) as [[[r' ds'] sh']|] eqn:Hx; [|done]. intros [= <-].
  unfold reader_exec in Hx. destruct r as [[|a acts]|s acts|acts| | | | | | | | | |p|p| | | | |].
  5-20: destruct (teardown_exec _ _ _ sh) as [[r1 sh1]|] eqn:Ht; [|done]; injection Hx as <- <- <-;
    rewrite app_nil_r; by eapply teardown_settled.
  - injection Hx as <- <- <-. rewrite app_nil_r. by destruct Hs.
  - pose proof (action_settled a acts w cl ds sh Hs) as Hact. injection Hx as Hx. by rewrite Hx in Hact.
  - destruct (send_exec c s sh) as [[o sh1]|] eqn:Hse; [|done].
    pose proof (send_settled _ _ _ cl _ ds _ _ _ _ _ Hct Hs ltac:(simpl; lia) Hse) as Hs'.
    destruct o; simplify_eq; rewrite app_nil_r; by destruct Hs'.
  - injection Hx as <- <- <-. rewrite app_nil_r. destruct Hs as [Hg Hb _ _ _ He Hf Hl]. proj_pipe.
    cbn [reader_acts storing] in *. destruct (x_bound sh) eqn:Hbd; cbn [Nat.b2n Z.b2z] in *; [lia|].
    split; proj_pipe; cbn [reader_acts storing phase x_bindGauge x_bound set_x_bound Nat.b2n Z.b2z]; done || lia.
Qed.

Lemma step_settled st st' :
  controlled st -> settled reason bindType st -> step reason bindType st st' -> settled reason bindType st'.
Proof.
  intros Hc Hs [[|c|c|c|i c] Hx].
  - destruct st as [r w cl ds sh]. unfold exec in Hx. destruct (x_quit sh); [done|]. injection Hx as <-.
    by destruct Hs.
  - by eapply reader_settled.
  - by eapply writer_settled.
  - by eapply closer_settled.
  - by eapply deferred_settled.
Qed.

Lemma boot_settled acts : acts_ok acts -> settled reason bindType (boot acts).
Proof. intros [_ Hb]. split; simpl; try done. all: [> lia .. |by right]. Qed.

End Settled.

(** ** What the read goroutine queues itself *)

Definition from_reader (p : outboundPDU) : bool := bool_decide (ob_origin p = FromReader).

(** The PDUs the loop hands to [sendBytes] itself, in order. *)
Definition inline_sends (acts : list action) : list outboundPDU :=
  acts ≫= fun a => match a with ASend b k => [mkOutboundPDU b k FromReader] | _ => [] end.

(** Those among a list. *)
Definition inlined (l : list outboundPDU) : list outboundPDU := base.filter (fun p => from_reader p = true) l.

(** A send that is neither queued nor refused yet. *)
Definition pending (s : sending) : list outboundPDU := match s with Offer p | Select p => [p] | _ => [] end.

Definition reader_pending (r : reader_pc) : list outboundPDU :=
  match r with RSending s _ => inlined (pending s) | _ => [] end.

Definition inline (acts : list action) (st : pipe) : Prop :=
  inlined (x_offered (p_shared st)) ++ reader_pending (p_reader st) ++ inline_sends (reader_acts (p_reader st))
  = inline_sends acts.

Lemma inlined_app l1 l2 : inlined (l1 ++ l2) = inlined l1 ++ inlined l2.
Proof. apply filter_app. Qed.

Lemma inlined_other p : ob_origin p <> FromReader -> inlined [p] = [].
Proof. intros Hp. unfold inlined, from_reader. rewrite filter_cons, bool_decide_false by done. by case_decide. Qed.

(** A send moves its item to the history. *)
Lemma send_offered c s sh o sh' :
  x_outboundClosed sh = false -> send_exec c s sh = Some (o, sh') ->
  x_offered sh' ++ match o with Some s => pending s | None => [] end = x_offered sh ++ pending s.
Proof.
  intros Ho. unfold send_exec. rewrite Ho. destruct s; [by intros [= <- <-]| |by intros [= <- <-]..].
  destruct c; [destruct (_ <? _)%nat|destruct (x_writerClosed sh)|]; try done; intros [= <- <-]; cbn;
    by rewrite ?app_nil_r.
Qed.

(** The sends of the other goroutines are none of the loop's. *)
Lemma send_inlined c s sh o sh' :
  x_outboundClosed sh = false -> ob_origin (item_of s) <> FromReader -> send_exec c s sh = Some (o, sh') ->
  inlined (x_offered sh') = inlined (x_offered sh).
Proof.
  intros Ho Hs Hx. unfold send_exec in Hx. rewrite Ho in Hx. destruct s as [p|p|p|p]; simplify_eq/=; try done.
  destruct c; [destruct (_ <? _)%nat|destruct (x_writerClosed sh)|]; try done; simplify_eq/=;
    by rewrite inlined_app, (inlined_other p Hs), app_nil_r.
Qed.

Section Inline.
Context (reason : option closeReason) (bindType : string) (acts0 : list action).
Implicit Types (st : pipe).

Lemma inline_frame r w w' cl cl' ds ds' sh sh' :
  inlined (x_offered sh') = inlined (x_offered sh) ->
  inline acts0 (mkPipe r w cl ds sh) -> inline acts0 (mkPipe r w' cl' ds' sh').
Proof. unfold inline. proj_pipe. by intros ->. Qed.

Lemma writer_inline c st st' :
  inline acts0 st -> exec reason bindType (EvWriter c) st = Some st' -> inline acts0 st'.
Proof.
  destruct st as [r w cl ds sh]. intros Hi. unfold exec.
  destruct (writer_exec c w sh) as [[w' sh']|] eqn:Hx; [|done]. intros [= <-]. revert Hi. apply inline_frame.
  unfold writer_exec in Hx. destruct w; try (simplify_eq; done).
  - destruct (x_outbound sh); [destruct (x_outboundClosed sh)|]; by simplify_eq.
  - destruct c; by simplify_eq.
  - destruct (x_writerClosed sh); by simplify_eq.
Qed.

Lemma closer_inline c st st' :
  controlled st -> ordered st -> inline acts0 st -> exec reason bindType (EvCloser c) st = Some st' ->
  inline acts0 st'.
Proof.
  destruct st as [r w cl ds sh]. intros Hct Hod Hi. unfold exec.
  destruct (closer_exec c cl sh) as [[cl' sh']|] eqn:Hx; [|done]. intros [= <-]. revert Hi. apply inline_frame.
  unfold closer_exec in Hx. destruct cl as [| |s| |]; [..|done].
  - destruct c; [destruct (x_quit sh)|destruct (x_done sh)|]; by simplify_eq.
  - by simplify_eq.
  - assert (phase r < 2)%nat as Hr.
    { destruct (decide (2 <= phase r)%nat) as [H2|]; [by pose proof (ct_closer_joined _ Hct H2)|lia]. }
    pose proof (send_controlled_closed _ _ _ _ _ Hct ltac:(lia)) as Ho.
    destruct (send_exec c s sh) as [[o sh1]|] eqn:Hse; [|done].
    apply send_inlined in Hse; [|done|by rewrite (or_closer _ Hod s eq_refl)]. destruct o; by simplify_eq.
  - destruct (x_closerDone sh); by simplify_eq.
Qed.

Lemma deferred_send_other r w cl ds sh i s snt :
  ordered (mkPipe r w cl ds sh) -> ds !! i = Some (DSending s snt) -> ob_origin (item_of s) <> FromReader.
Proof.
  intros Hod Hi. pose proof (Forall_lookup_1 _ _ _ _ (or_deferred _ Hod) Hi) as Hd. simpl in Hd.
  destruct snt as [c|]; [destruct Hd as [-> _]; done|by destruct Hd as (? & -> & _)].
Qed.

Lemma deferred_inline i c st st' :
  controlled st -> ordered st -> inline acts0 st -> exec reason bindType (EvDeferred i c) st = Some st' ->
  inline acts0 st'.
Proof.
  destruct st as [r w cl ds sh]. intros Hct Hod Hi. unfold exec.
  destruct (ds !! i) as [d|] eqn:Hd; [|done].
  destruct (deferred_exec c d sh) as [[d' sh']|] eqn:Hx; [|done]. intros [= <-]. revert Hi. apply inline_frame.
  unfold deferred_exec in Hx. destruct d as [rdy p snt|s snt|c0| |]; [..|done].
  - destruct c; [destruct (is_ready rdy sh)|destruct (x_stopDeferred sh)|]; by simplify_eq.
  - assert (phase r < 4)%nat as Hr.
    { destruct (decide (4 <= phase r)%nat) as [H4|]; [|lia]. pose proof (ct_deferred_joined _ Hct H4) as Hw. proj_pipe.
      pose proof (sum_list_with_in _ live ds ltac:(by eapply list_elem_of_lookup_2)). simpl in *. lia. }
    pose proof (send_controlled_closed _ _ _ _ _ Hct ltac:(lia)) as Ho.
    destruct (send_exec c s sh) as [[o sh1]|] eqn:Hse; [|done].
    apply send_inlined in Hse; [|done|by eapply deferred_send_other]. destruct o; by simplify_eq.
  - destruct (bool_decide _); by simplify_eq.
  - destruct (_ <=? 0); by simplify_eq.
Qed.

Lemma reader_inline c st st' :
  controlled st -> inline acts0 st -> exec reason bindType (EvReader c) st = Some st' -> inline acts0 st'.
Proof.
  destruct st as [r w cl ds sh]. intros Hct Hi. unfold exec.
  destruct (reader_exec reason bindType c r sh) as [[[r' ds'] sh']|] eqn:Hx; [|done]. intros [= <-].
  unfold inline in *. proj_pipe. unfold reader_exec in Hx.
  destruct r as [[|a acts]|s acts|acts| | | | | | | | | |p|p| | | | |].
  5-20: destruct (teardown_exec _ _ _ sh) as [[r1 sh1]|] eqn:Ht; [|done]; injection Hx as <- <- <-;
    cbn [teardown_exec] in Ht; unfold close_chan in Ht;
    repeat match type of Ht with
    | match ?b with [] => _ | _ :: _ => _ end = Some _ => destruct b
    | context [if ?b then _ else _] => destruct b
    end; by simplify_eq.
  - by injection Hx as <- <- <-.
  - destruct a as [b k|d b c'|b c'|m]; cbn [action_exec] in Hx.
    + by injection Hx as <- <- <-.
    + by injection Hx as <- <- <-.
    + case_bool_decide; by injection Hx as <- <- <-.
    + destruct m; by injection Hx as <- <- <-.
  - pose proof (send_controlled_closed _ _ _ _ _ Hct ltac:(simpl; lia)) as Ho.
    destruct (send_exec c s sh) as [[o sh1]|] eqn:Hse; [|done]. apply send_offered in Hse; [|done].
    rewrite <- Hi. cbn [reader_pending]. rewrite (app_assoc _ (inlined (pending s))), <- inlined_app, <- Hse, inlined_app.
    destruct o; simplify_eq; cbn [reader_pending reader_acts]; by rewrite <- app_assoc.
  - by injection Hx as <- <- <-.
Qed.

Lemma step_inline st st' :
  controlled st -> ordered st -> inline acts0 st -> step reason bindType st st' -> inline acts0 st'.
Proof.
  intros Hc Ho Hi [[|c|c|c|i c] Hx].
  - destruct st as [r w cl ds sh]. unfold exec in Hx. destruct (x_quit sh); [done|]. by injection Hx as <-.
  - by eapply reader_inline.
  - by eapply writer_inline.
  - by eapply closer_inline.
  - by eapply deferred_inline.
Qed.

End Inline.
