(* ===== verification/PipelineRuns.v ===== *)
(** * Every run of a session's goroutines

    The claims on the outbound pipeline, over every interleaving of the read
    goroutine, the writer, the closer and the held-back sends. *)

From S2P Require Import Prelude.
From S2P Require Import SmppCodec.
From S2P Require Import Close.
From S2P Require Import VirtualSMSC.
From S2P Require Import SessionState.
From S2P Require Import Pipeline.
From S2P Require Import PipelineThms.
From S2P Require Import Teardown.

(** ** All of it, over every run *)

Section Runs.
Context (reason : option closeReason) (bindType : string).
Implicit Types (st : pipe).

Lemma reachable acts st :
  acts_ok acts -> rtc (step reason bindType) (boot acts) st ->
  controlled st /\ accounted st /\ ordered st /\ settled reason bindType st /\ inline acts st.
Proof.
  intros Hok Hr.
  assert (controlled (boot acts) /\ accounted (boot acts) /\ ordered (boot acts) /\
    settled reason bindType (boot acts) /\ inline acts (boot acts)) as H0.
  { split_and!; [by apply boot_controlled|apply boot_accounted|apply boot_ordered|by apply boot_settled|done]. }
  revert Hr H0. generalize (boot acts). intros st0 Hr. induction Hr as [|st1 st2 st3 Hs _ IH]; [done|].
  intros (H1 & H2 & H3 & H4 & H5). apply IH. split_and!;
    [by eapply step_controlled|by eapply step_accounted|by eapply step_ordered|by eapply step_settled|by eapply step_inline].
Qed.

(** The channel never holds more than its capacity. *)
Definition capped st : Prop := (length (x_outbound (p_shared st)) <= outboundCap)%nat.

Lemma send_capped c s sh o sh' :
  (length (x_outbound sh) <= outboundCap)%nat -> send_exec c s sh = Some (o, sh') ->
  (length (x_outbound sh') <= outboundCap)%nat.
Proof.
  intros Hl. unfold send_exec. destruct s; [by intros [= <- <-]| |by intros [= <- <-]..].
  destruct c; [destruct (x_outboundClosed sh); [|destruct (Nat.ltb_spec (length (x_outbound sh)) outboundCap)]
              |destruct (x_writerClosed sh)|]; try done; intros [= <- <-]; try done.
  cbn [x_outbound enqueue set_x_outbound]. rewrite length_app. simpl. lia.
Qed.

Lemma teardown_capped r sh r' sh' :
  (length (x_outbound sh) <= outboundCap)%nat -> teardown_exec reason bindType r sh = Some (r', sh') ->
  (length (x_outbound sh') <= outboundCap)%nat.
Proof.
  intros Hl Ht. destruct r; try discriminate Ht; cbn [teardown_exec] in Ht; unfold close_chan in Ht.
  9: destruct (x_outbound sh) as [|p l] eqn:Ho; [destruct (x_outboundClosed sh); [|done]|]; simplify_eq;
    cbn [x_outbound set_x_outbound]; [by rewrite Ho|cbn [length] in Hl; lia].
  all: repeat match type of Ht with context [if ?b then _ else _] => destruct b end; by simplify_eq.
Qed.

Lemma reader_capped c r sh r' ds' sh' :
  (length (x_outbound sh) <= outboundCap)%nat -> reader_exec reason bindType c r sh = Some (r', ds', sh') ->
  (length (x_outbound sh') <= outboundCap)%nat.
Proof.
  intros Hl Hx. unfold reader_exec in Hx. destruct r as [[|a acts]|s acts|acts| | | | | | | | | |p|p| | | | |].
  5-20: destruct (teardown_exec _ _ _ sh) as [[r1 sh1]|] eqn:Ht; [|done]; injection Hx as <- <- <-;
    eapply teardown_capped; [exact Hl|exact Ht].
  - by injection Hx as <- <- <-.
  - destruct a as [b k|d b c'|b c'|m]; cbn [action_exec] in Hx; try (by injection Hx as <- <- <-).
    + case_bool_decide; by injection Hx as <- <- <-.
    + destruct m; by injection Hx as <- <- <-.
  - destruct (send_exec c s sh) as [[o sh1]|] eqn:Hs; [|done]. apply send_capped in Hs; [|done].
    destruct o; by injection Hx as <- <- <-.
  - by injection Hx as <- <- <-.
Qed.

Lemma step_capped st st' : capped st -> step reason bindType st st' -> capped st'.
Proof.
  unfold capped. destruct st as [r w cl ds sh]. proj_pipe. intros Hl [[|c|c|c|i c] Hx]; unfold exec in Hx.
  - destruct (x_quit sh); by simplify_eq.
  - destruct (reader_exec _ _ c r sh) as [[[r' ds'] sh']|] eqn:He; [|done]. injection Hx as <-.
    by eapply reader_capped.
  - destruct (writer_exec c w sh) as [[w' sh']|] eqn:He; [|done]. injection Hx as <-. unfold writer_exec in He.
    destruct w as [|p|p|p| |]; try (by simplify_eq).
    + destruct (x_outbound sh) eqn:Ho; [destruct (x_outboundClosed sh)|]; simplify_eq; proj_pipe;
        cbn [x_outbound set_x_outbound]; [by rewrite Ho|simpl in Hl; lia].
    + destruct c; by simplify_eq.
    + destruct (x_writerClosed sh); by simplify_eq.
  - destruct (closer_exec c cl sh) as [[cl' sh']|] eqn:He; [|done]. injection Hx as <-. unfold closer_exec in He.
    destruct cl as [| |s| |]; try (by simplify_eq).
    + destruct c; [destruct (x_quit sh)|destruct (x_done sh)|]; by simplify_eq.
    + destruct (send_exec c s sh) as [[o sh1]|] eqn:Hs; [|done]. apply send_capped in Hs; [|done].
      destruct o; by simplify_eq.
    + destruct (x_closerDone sh); by simplify_eq.
  - destruct (ds !! i) as [d|]; [|done]. destruct (deferred_exec c d sh) as [[d' sh']|] eqn:He; [|done].
    injection Hx as <-. unfold deferred_exec in He. destruct d as [rdy p snt|s snt|c0| |]; try (by simplify_eq).
    + destruct c; [destruct (is_ready rdy sh)|destruct (x_stopDeferred sh)|]; by simplify_eq.
    + destruct (send_exec c s sh) as [[o sh1]|] eqn:Hs; [|done]. apply send_capped in Hs; [|done].
      destruct o; by simplify_eq.
    + destruct (bool_decide _); by simplify_eq.
    + destruct (_ <=? 0); by simplify_eq.
Qed.

Lemma reachable_capped acts st : rtc (step reason bindType) (boot acts) st -> capped st.
Proof.
  intros Hr. assert (capped (boot acts)) as H0 by (unfold capped; simpl; lia).
  revert H0. induction Hr as [|st1 st2 st3 Hs _ IH]; [done|]. intros Hc. apply IH. by eapply step_capped.
Qed.

(** ** The wire is the beginning of what was offered *)

(** What every goroutine but the writer leaves of the history. *)
Definition extends (sh sh' : shared) : Prop :=
  x_wire sh' = x_wire sh /\ x_writeErr sh' = x_writeErr sh /\ x_offered sh `prefix_of` x_offered sh'.

Lemma extends_same sh sh' :
  x_wire sh' = x_wire sh -> x_writeErr sh' = x_writeErr sh -> x_offered sh' = x_offered sh -> extends sh sh'.
Proof. intros H1 H2 H3. split_and!; [done..|]. by rewrite H3. Qed.

Lemma send_extends c s sh o sh' : send_exec c s sh = Some (o, sh') -> extends sh sh'.
Proof.
  unfold send_exec. destruct s; [by intros [= <- <-]; apply extends_same| |by intros [= <- <-]; apply extends_same..].
  destruct c; [destruct (x_outboundClosed sh); [|destruct (_ <? _)%nat]|destruct (x_writerClosed sh)|]; try done;
    intros [= <- <-]; split_and!; try done; by eexists.
Qed.

Lemma teardown_extends r sh r' sh' : teardown_exec reason bindType r sh = Some (r', sh') -> extends sh sh'.
Proof.
  intros Ht. destruct r; try discriminate Ht; cbn [teardown_exec] in Ht; unfold close_chan in Ht;
    repeat match type of Ht with
    | match ?b with [] => _ | _ :: _ => _ end = Some _ => destruct b
    | context [if ?b then _ else _] => destruct b
    end; simplify_eq; by apply extends_same.
Qed.

Lemma reader_extends c r sh r' ds' sh' : reader_exec reason bindType c r sh = Some (r', ds', sh') -> extends sh sh'.
Proof.
  intros Hx. unfold reader_exec in Hx. destruct r as [[|a acts]|s acts|acts| | | | | | | | | |p|p| | | | |].
  5-20: destruct (teardown_exec _ _ _ sh) as [[r1 sh1]|] eqn:Ht; [|done]; injection Hx as <- <- <-;
    by eapply teardown_extends.
  - injection Hx as <- <- <-. by apply extends_same.
  - destruct a as [b k|d b c'|b c'|m]; cbn [action_exec] in Hx; [| |case_bool_decide|destruct m];
      injection Hx as <- <- <-; by apply extends_same.
  - destruct (send_exec c s sh) as [[o sh1]|] eqn:Hs; [|done]. apply send_extends in Hs.
    destruct o; by injection Hx as <- <- <-.
  - injection Hx as <- <- <-. by apply extends_same.
Qed.

Lemma closer_extends c cl sh cl' sh' : closer_exec c cl sh = Some (cl', sh') -> extends sh sh'.
Proof.
  intros Hx. unfold closer_exec in Hx. destruct cl as [| |s| |]; [| | | |done].
  - destruct c; [destruct (x_quit sh)|destruct (x_done sh)|]; simplify_eq; by apply extends_same.
  - simplify_eq; by apply extends_same.
  - destruct (send_exec c s sh) as [[o sh1]|] eqn:Hs; [|done]. apply send_extends in Hs. destruct o; by simplify_eq.
  - destruct (x_closerDone sh); simplify_eq; by apply extends_same.
Qed.

Lemma deferred_extends c d sh d' sh' : deferred_exec c d sh = Some (d', sh') -> extends sh sh'.
Proof.
  intros Hx. unfold deferred_exec in Hx. destruct d as [rdy p snt|s snt|c0| |]; [| | | |done].
  - destruct c; [destruct (is_ready rdy sh)|destruct (x_stopDeferred sh)|]; simplify_eq; by apply extends_same.
  - destruct (send_exec c s sh) as [[o sh1]|] eqn:Hs; [|done]. apply send_extends in Hs. destruct o; by simplify_eq.
  - destruct (bool_decide _); simplify_eq; by apply extends_same.
  - destruct (_ <=? 0); simplify_eq; by apply extends_same.
Qed.

(** A writer at work has seen no error. *)
Record inorder st : Prop := {
  io_wire : x_wire (p_shared st) `prefix_of` x_offered (p_shared st);
  io_writing : writing (p_writer st) = true -> x_writeErr (p_shared st) = None
}.

Lemma extends_inorder r w cl ds sh r' cl' ds' sh' :
  extends sh sh' -> inorder (mkPipe r w cl ds sh) -> inorder (mkPipe r' w cl' ds' sh').
Proof.
  intros (E1 & E2 & E3) [H1 H2]. split; proj_pipe; rewrite ?E1, ?E2; [by etrans|done].
Qed.

Lemma writer_inorder c r w cl ds sh w' sh' :
  accounted (mkPipe r w cl ds sh) -> settled reason bindType (mkPipe r w cl ds sh) ->
  inorder (mkPipe r w cl ds sh) -> writer_exec c w sh = Some (w', sh') -> inorder (mkPipe r w' cl ds sh').
Proof.
  intros [Ha _] Hs [H1 H2] Hx. pose proof (se_lossless _ _ _ Hs) as Hl. pose proof (ac_queue _ _ _ _ Ha) as Hq.
  unfold writer_exec in Hx. destruct w as [|p|p|p| |]; proj_pipe; simpl in *; [| | | | |done].
  - destruct (x_outbound sh); [destruct (x_outboundClosed sh)|]; simplify_eq; by split.
  - simplify_eq. by split.
  - assert (x_wire sh ++ [p] `prefix_of` x_offered sh) as Hp.
    { destruct Hl as [[e E]|(_ & _ & ->)]; [by rewrite H2 in E|]. rewrite Hq. eexists. by rewrite <- app_assoc. }
    specialize (H2 eq_refl). destruct c; simplify_eq; by split.
  - simplify_eq. by split.
  - destruct (x_writerClosed sh); simplify_eq; by split.
Qed.

Lemma step_inorder st st' :
  accounted st -> settled reason bindType st -> inorder st -> step reason bindType st st' -> inorder st'.
Proof.
  destruct st as [r w cl ds sh]. intros Ha Hs Hi [[|c|c|c|i c] Hx]; unfold exec in Hx.
  - destruct (x_quit sh); simplify_eq. revert Hi. apply extends_inorder. by apply extends_same.
  - destruct (reader_exec _ _ c r sh) as [[[r' ds'] sh']|] eqn:He; [|done]. injection Hx as <-.
    revert Hi. apply extends_inorder. by eapply reader_extends.
  - destruct (writer_exec c w sh) as [[w' sh']|] eqn:He; [|done]. injection Hx as <-. by eapply writer_inorder.
  - destruct (closer_exec c cl sh) as [[cl' sh']|] eqn:He; [|done]. injection Hx as <-.
    revert Hi. apply extends_inorder. by eapply closer_extends.
  - destruct (ds !! i) as [d|]; [|done]. destruct (deferred_exec c d sh) as [[d' sh']|] eqn:He; [|done].
    injection Hx as <-. revert Hi. apply extends_inorder. by eapply deferred_extends.
Qed.

Lemma reachable_inorder acts st :
  acts_ok acts -> rtc (step reason bindType) (boot acts) st -> inorder st.
Proof.
  intros Hok. enough (forall st0, rtc (step reason bindType) st0 st -> rtc (step reason bindType) (boot acts) st0 ->
    inorder st0 -> inorder st) as Hall by (intros Hr; by apply (Hall (boot acts))).
  intros st0 Hr. induction Hr as [|st1 st2 st3 Hs _ IH]; [done|]. intros Hb Hi.
  destruct (reachable acts st1 Hok Hb) as (_ & Ha & _ & Hst & _).
  apply IH; [by eapply rtc_r|by eapply step_inorder].
Qed.

Lemma run_schedule_rtc evs st st' :
  run_schedule reason bindType evs st = Some st' -> rtc (step reason bindType) st st'.
Proof.
  revert st. induction evs as [|ev evs IH]; intros st; simpl; [by intros [= <-]|].
  destruct (exec reason bindType ev st) as [st1|] eqn:Hx; [|done]. intros Hr.
  eapply rtc_l; [by exists ev|by apply IH].
Qed.

End Runs.

Lemma sum_Z_nonneg {A} (f : A -> Z) l : (forall a, 0 <= f a) -> 0 <= sum_Z f l.
Proof. intros Hf. induction l as [|a l IH]; simpl; [lia|]. specialize (Hf a). lia. Qed.

Lemma opt_nonneg {A} (f : A -> Z) o : (forall a, 0 <= f a) -> 0 <= opt f o.
Proof. destruct o; simpl; [auto|lia]. Qed.

Lemma depth_total_nonneg st : 0 <= depth_total st.
Proof.
  assert (forall s, 0 <= send_depth s) as Hs by (by intros []).
  unfold depth_total, total_of.
  pose proof (opt_nonneg send_depth (reader_send (p_reader st)) Hs).
  pose proof (opt_nonneg send_depth (closer_send (p_closer st)) Hs).
  pose proof (sum_Z_nonneg (fun d => opt send_depth (deferred_send d)) (p_deferred st)
    (fun d => opt_nonneg _ _ Hs)).
  destruct (p_writer st), (p_reader st); lia.
Qed.

(** Every goroutine owes at most one drop. *)
Lemma sum_Z_le {A} (f : A -> Z) l : (forall a, f a <= 1) -> sum_Z f l <= len l.
Proof. intros Hf. induction l as [|a l IH]; simpl; [lia|]. specialize (Hf a). lia. Qed.

Lemma pend_bounds st : 0 <= pend_total st <= 3 + len (p_deferred st).
Proof.
  assert (forall s, 0 <= send_pend s <= 1) as Hs by (by intros []).
  assert (forall o, 0 <= opt send_pend o <= 1) as Ho by (intros [s|]; simpl; [apply Hs|lia]).
  unfold pend_total, total_of.
  pose proof (sum_Z_nonneg (fun d => opt send_pend (deferred_send d)) (p_deferred st) (fun d => proj1 (Ho _))).
  pose proof (sum_Z_le (fun d => opt send_pend (deferred_send d)) (p_deferred st) (fun d => proj2 (Ho _))).
  pose proof (Ho (reader_send (p_reader st))) as Hr. pose proof (Ho (closer_send (p_closer st))).
  destruct (p_writer st), (p_reader st); cbn [reader_send opt] in *; lia.
Qed.

(** A pipeline at rest owes no update of a gauge or counter. *)
Lemma rest_totals ds sh :
  sum_list_with live ds = 0%nat ->
  depth_total (mkPipe RDone WDone CDone ds sh) = 0 /\ pend_total (mkPipe RDone WDone CDone ds sh) = 0.
Proof.
  intros Hl. assert (forall f : sending -> Z, sum_Z (fun d => opt f (deferred_send d)) ds = 0) as Hz.
  { intros f. revert Hl. induction ds as [|d ds IH]; [done|]. simpl. intros Hl. rewrite IH by lia.
    by destruct d. }
  unfold depth_total, pend_total, total_of. simpl. by rewrite !Hz.
Qed.

Lemma done_pend st : controlled st -> p_reader st = RDone -> pend_total st = 0.
Proof.
  intros Hct Hr. destruct st as [r w cl ds sh]. proj_pipe. subst r.
  pose proof (ct_writer_joined _ Hct ltac:(simpl; lia)) as Hw. pose proof (ct_closer_joined _ Hct ltac:(simpl; lia)) as Hc.
  pose proof (ct_deferred_joined _ Hct ltac:(simpl; lia)) as Hd. proj_pipe. subst w cl. by apply rest_totals.
Qed.

(** What a session leaves behind. *)
Record finished (reason : option closeReason) (bindType : string) (st : pipe) : Prop := {
  fi_reader : p_reader st = RDone;
  fi_writer : p_writer st = WDone;
  fi_closer : p_closer st = CDone;
  fi_deferred : Forall (fun d => d = DDone) (p_deferred st);
  fi_outbound : x_outbound (p_shared st) = [];
  fi_depth : x_depth (p_shared st) = 0;
  fi_bindGauge : x_bindGauge (p_shared st) = 0;
  fi_registered : x_registered (p_shared st) = false;
  fi_conn : x_connClosed (p_shared st) = true;
  fi_offered : x_offered (p_shared st) ≡ₚ x_wire (p_shared st) ++ x_lost (p_shared st) ++ x_refused (p_shared st);
  fi_record : exists cl, x_closeRecord (p_shared st) = Some cl /\
    cl_pdusWritten cl = u64 (len (x_wire (p_shared st))) /\
    cl_pdusDropped cl = u64 (len (x_lost (p_shared st)) + len (x_refused (p_shared st))) /\
    cl_bindType cl = (if String.eqb bindType "" then "none"%string else bindType) /\
    cl_initiator cl = initiator (cl_reason cl) /\
    if x_writerFailedFirst (p_shared st)
    then exists err, x_writeErr (p_shared st) = Some err /\ cl_reason cl = writeFailure err
    else cl_reason cl = default reasonPanic reason
}.

Lemma idle_is_finished reason bindType acts st :
  acts_ok acts -> rtc (step reason bindType) (boot acts) st -> idle reason bindType st ->
  finished reason bindType st.
Proof.
  intros Hok Hr Hi. destruct (reachable _ _ _ _ Hok Hr) as (Hct & [Ha _] & _ & Hs & _).
  destruct st as [r w cl ds sh]. assert (r = RDone) as -> by (by eapply idle_finished).
  pose proof (ct_writer_joined _ Hct ltac:(simpl; lia)) as Hw.
  pose proof (ct_closer_joined _ Hct ltac:(simpl; lia)) as Hc.
  pose proof (ct_deferred_joined _ Hct ltac:(simpl; lia)) as Hd.
  pose proof (ct_drained _ Hct ltac:(simpl; lia)) as Ho. proj_pipe. subst w cl.
  destruct (rest_totals ds sh Hd) as [Hdt Hpt]. rewrite Hdt, Hpt in Ha. destruct Ha as [A1 A2 A3 A4 A5].
  rewrite Ho in A1, A2. cbn [inflight app] in A2. rewrite app_nil_r in A2. rewrite A2, <- app_assoc in A3.
  rewrite Z.sub_0_r in A5.
  split; proj_pipe; try done; try apply Hs; simpl; try lia.
  - clear -Hd. induction ds as [|d ds IH]; simpl in *; [done|]. destruct d; simpl in *; try lia. by constructor; auto.
  - eexists. split; [apply Hs; simpl; lia|]. unfold recordClose. cbn [cl_pdusWritten cl_pdusDropped cl_bindType
      cl_initiator cl_reason]. split_and!; try done. pose proof (se_first _ _ _ Hs) as Hf. proj_pipe.
    destruct (x_writerFailedFirst sh); [|by destruct reason].
    destruct (Hf eq_refl) as [err ->]. by exists err.
Qed.

Lemma boot_nsteps reason bindType acts n st :
  nsteps (step reason bindType) n (boot acts) st -> (n <= 9 * length acts + 27)%nat.
Proof.
  intros Hn%nsteps_cost. unfold cost, boot in Hn. proj_pipe.
  cbn [reader_cost writer_cost closer_cost sum_list_with shared_cost] in Hn.
  unfold loop_cost, shared_cost in Hn. simpl in Hn. lia.
Qed.

(** When no write fails, everything offered is written. *)
Record delivered (acts : list action) (st : pipe) : Prop := {
  de_lost : x_lost (p_shared st) = [];
  de_refused : x_refused (p_shared st) = [];
  de_wire : x_wire (p_shared st) = x_offered (p_shared st);
  de_inline : inlined (x_wire (p_shared st)) = inline_sends acts
}.

Lemma idle_delivered reason bindType acts st :
  acts_ok acts -> rtc (step reason bindType) (boot acts) st -> idle reason bindType st ->
  x_writeErr (p_shared st) = None -> delivered acts st.
Proof.
  intros Hok Hr Hi He. pose proof (idle_is_finished _ _ _ _ Hok Hr Hi) as Hf.
  destruct (reachable _ _ _ _ Hok Hr) as (_ & [Ha _] & _ & Hs & Hin).
  destruct (se_lossless _ _ _ Hs) as [[e E]|(Hl & Hre & Hof)]; [congruence|].
  assert (x_wire (p_shared st) = x_offered (p_shared st)) as Hw.
  { rewrite Hof, (ac_queue _ _ _ _ Ha), Hl, (fi_outbound _ _ _ Hf), (fi_writer _ _ _ Hf). simpl. by rewrite app_nil_r. }
  split; [done..|]. rewrite Hw. unfold inline in Hin. rewrite (fi_reader _ _ _ Hf) in Hin. simpl in Hin.
  by rewrite app_nil_r in Hin.
Qed.

(** C11: no interleaving panics or loses a PDU.  In every reachable state of a
    session's goroutines, whatever the scheduler, the failures of the writes and
    the moment of the engine's shutdown: no goroutine has closed a closed channel,
    sent on one, or driven the wait group negative; the depth gauge has never run
    negative and the queue never holds more than eight PDUs; every PDU handed to [sendBytes] was queued or refused, and every
    queued one is, in queue order, on the wire, in the writer's hands, lost to a
    write error, or still queued; the two counters of the session count what was
    written, and what was lost or refused but for the drops a goroutine has yet to
    count, which are none once all have returned. *)
Theorem pipeline_safe reason bindType acts st :
  acts_ok acts -> rtc (step reason bindType) (boot acts) st ->
  let sh := p_shared st in
  x_panicked sh = false /\ 0 <= x_depth sh /\ len (x_outbound sh) <= 8 /\
  x_queued sh = x_wire sh ++ inflight (p_writer st) ++ x_lost sh ++ x_outbound sh /\
  x_offered sh ≡ₚ x_queued sh ++ x_refused sh /\
  x_pdusWritten sh = u64 (len (x_wire sh)) /\
  x_pdusDropped sh = u64 (len (x_lost sh) + len (x_refused sh) - pend_total st) /\
  0 <= pend_total st <= 3 + len (p_deferred st) /\ (p_reader st = RDone -> pend_total st = 0) /\
  (x_writeErr sh = None -> x_lost sh = [] /\ x_refused sh = []).
Proof.
  intros Hok Hr sh. destruct (reachable _ _ _ _ Hok Hr) as (Hct & [Ha _] & _ & Hs & _).
  destruct Ha as [A1 A2 A3 A4 A5]. fold sh in A1, A2, A3, A4, A5.
  split_and!; try done; [apply Hct|pose proof (depth_total_nonneg st); lia| |apply pend_bounds|apply pend_bounds|by apply done_pend|].
  { pose proof (reachable_capped _ _ _ _ Hr) as Hc. unfold capped, outboundCap in Hc. fold sh in Hc. lia. }
  intros He. destruct (se_lossless _ _ _ Hs) as [[e E]|(? & ? & _)]; [|done]. fold sh in E. congruence.
Qed.

(** C12: the teardown always completes.  A session whose read goroutine performs
    [acts] takes at most [9 * length acts + 27] steps in any interleaving, and a
    state in which no goroutine can move is one in which all of them have
    returned: the queue is empty, both gauges are back to zero, the bind is out of
    the registry, the connection is closed, and one close record counts exactly
    the PDUs written and dropped and names the reason, a failed writer's first. *)
Theorem teardown_completes reason bindType acts :
  acts_ok acts ->
  (forall n st, nsteps (step reason bindType) n (boot acts) st -> (n <= 9 * length acts + 27)%nat) /\
  (forall st, rtc (step reason bindType) (boot acts) st -> idle reason bindType st ->
    finished reason bindType st).
Proof.
  intros Hok. split; [apply boot_nsteps | intros st; by apply idle_is_finished].
Qed.

(** C13: a delivery receipt never overtakes its submit_sm_resp.  On the wire, at any
    moment and whatever writes have failed, a receipt that waits for a held-back
    response comes after that response, in every interleaving of the deferred
    goroutines; and what the read goroutine sends itself goes out in the order of
    its handlers, without a gap: the wire is the beginning of all that was handed to
    [sendBytes], and the read goroutine's part of it the beginning of its sends. *)
Theorem receipt_after_response reason bindType acts st :
  acts_ok acts -> rtc (step reason bindType) (boot acts) st ->
  (forall l1 p l2 c, x_wire (p_shared st) = l1 ++ p :: l2 -> ob_origin p = FromReceipt c ->
     exists q, q ∈ l1 /\ ob_origin q = FromResponse c) /\
  x_wire (p_shared st) `prefix_of` x_offered (p_shared st) /\
  inlined (x_wire (p_shared st)) `prefix_of` inline_sends acts.
Proof.
  intros Hok Hr. pose proof (io_wire _ (reachable_inorder _ _ _ _ Hok Hr)) as Hpre. split_and!; [|done|].
  2: { destruct (reachable _ _ _ _ Hok Hr) as (_ & _ & _ & _ & <-). destruct Hpre as [l ->].
    rewrite inlined_app, <- app_assoc. by eexists. }
  intros l1 p l2 c Hw Hp. destruct (reachable _ _ _ _ Hok Hr) as (_ & [Ha _] & Ho & _ & _).
  pose proof (ac_queue _ _ _ _ Ha) as Hq. rewrite Hw, <- app_assoc in Hq. cbn [app] in Hq.
  destruct (or_queue _ Ho _ _ _ c Hq Hp) as [?|[Hl _]]; [done|]. rewrite Hw, length_app in Hl. simpl in Hl. lia.
Qed.


(** ** A session: bind, a held-back response with its receipt, unbind *)

Definition sample_acts : list action :=
  [AMetric (IncBind "smsc" "transceiver"); ASend (bytes_of_string "bind_resp") kindResp;
   ARespond 5 (bytes_of_string "resp") 0; AReceipt (bytes_of_string "dlr") 0;
   ASend (bytes_of_string "unbind_resp") kindResp].

(** The read goroutine runs to the end of its loop, helped by the two held-back
    sends; then the writer, the closer and the rest of the teardown. *)
Definition sample_schedule : list event :=
  replicate 6 (EvReader Take) ++ replicate 5 (EvDeferred 0 Take) ++ replicate 10 (EvReader Take) ++
  replicate 12 (EvWriter Take) ++ replicate 2 (EvCloser Other) ++ replicate 4 (EvReader Take) ++
  replicate 2 (EvWriter Take) ++ replicate 6 (EvReader Take).

Definition sample_end : pipe :=
  default (boot []) (run_schedule (Some reasonClientUnbind) "transceiver" sample_schedule (boot sample_acts)).

Lemma sample_acts_ok : acts_ok sample_acts.
Proof. split; [apply NoDup_singleton | vm_compute; lia]. Qed.

Lemma sample_end_reached : rtc (step (Some reasonClientUnbind) "transceiver") (boot sample_acts) sample_end.
Proof. apply (run_schedule_rtc _ _ sample_schedule). vm_compute. reflexivity. Qed.

Lemma sample_end_idle : idle (Some reasonClientUnbind) "transceiver" sample_end.
Proof. intros [|[]|[]|[]|[|i] []] Hq; first [by destruct Hq | vm_compute; reflexivity]. Qed.

(** The same session up to the first PDU written. *)
Definition sample_midway : pipe :=
  default (boot []) (run_schedule None "" (take 24 sample_schedule) (boot sample_acts)).

Lemma pipeline_safe_witness :
  x_panicked (p_shared sample_midway) = false /\ len (x_wire (p_shared sample_midway)) = 1 /\
  len (x_outbound (p_shared sample_midway)) = 3.
Proof.
  assert (rtc (step None "") (boot sample_acts) sample_midway) as Hr
    by (apply (run_schedule_rtc _ _ (take 24 sample_schedule)); vm_compute; reflexivity).
  split; [apply (pipeline_safe None "" sample_acts sample_midway sample_acts_ok Hr)|].
  split; vm_compute; reflexivity.
Defined.

Lemma teardown_completes_witness : finished (Some reasonClientUnbind) "transceiver" sample_end.
Proof.
  apply (teardown_completes (Some reasonClientUnbind) "transceiver" sample_acts sample_acts_ok);
    [apply sample_end_reached | apply sample_end_idle].
Defined.

Lemma receipt_after_response_witness :
  exists q, q ∈ take 2 (x_wire (p_shared sample_end)) /\ ob_origin q = FromResponse 0.
Proof.
  apply (proj1 (receipt_after_response (Some reasonClientUnbind) "transceiver" sample_acts sample_end
    sample_acts_ok sample_end_reached) (take 2 (x_wire (p_shared sample_end)))
    (mkOutboundPDU (bytes_of_string "dlr") kindDLR (FromReceipt 0)) (drop 3 (x_wire (p_shared sample_end))) 0);
    vm_compute; reflexivity.
Defined.

