(* ===== verification/PipelineLink.v ===== *)
(** * From the read loop to the pipeline

    What the handlers of a session emit is a list of pipeline actions: each
    held-back response closes a channel of its own, and a session binds at most
    once.  So the claims on the pipeline hold of every session the read loop can
    run, from its first byte to its close record. *)

From S2P Require Import Prelude.
From S2P Require Import SmppPdu.
From S2P Require Import SmppCodec.
From S2P Require Import SmppFraming.
From S2P Require Import SmppReceipt.
From S2P Require Import Rng.
From S2P Require Import Schedule.
From S2P Require Import Recorder.
From S2P Require Import Config.
From S2P Require Import Scenario.
From S2P Require Import Dlr.
From S2P Require Import Close.
From S2P Require Import Binds.
From S2P Require Import VirtualSMSC.
From S2P Require Import SessionState.
From S2P Require Import Session.
From S2P Require Import SessionRuns.
From S2P Require Import SessionBind.
From S2P Require Import ReadLoop.
From S2P Require Import SessionFrame.
From S2P Require Import Pipeline.
From S2P Require Import PipelineThms.
From S2P Require Import Teardown.
From S2P Require Import PipelineRuns.

(** ** The actions behind a list of effects *)

Section Trace.
Context {R : Type}.
Implicit Types (w : world R).

(** A session that may still bind. *)
Definition unbound w : nat := if bool_decide (s_state (w_session w) = stateOpen) then 1 else 0.

(** The actions that lead from [w] to [w'] close fresh channels, and spend the
    session's only bind when they bind. *)
Record fresh_acts w w' (acts : list action) : Prop := {
  fr_chans : NoDup (respond_chans acts);
  fr_range : Forall (fun c => w_nextChan w <= c < w_nextChan w') (respond_chans acts);
  fr_next : w_nextChan w <= w_nextChan w';
  fr_binds : (binds_in acts + unbound w' <= unbound w)%nat
}.

Lemma fresh_acts_app w1 w2 w3 acts acts' :
  fresh_acts w1 w2 acts -> fresh_acts w2 w3 acts' -> fresh_acts w1 w3 (acts ++ acts').
Proof.
  intros [Hc Hr Hn Hb] [Hc' Hr' Hn' Hb'].
  assert (respond_chans (acts ++ acts') = respond_chans acts ++ respond_chans acts') as Happ by apply bind_app.
  rewrite Forall_forall in Hr, Hr'. split; [|rewrite Happ, Forall_app, !Forall_forall; split| |].
  - rewrite Happ. apply NoDup_app. split_and!; [done| |done]. intros c Hi%Hr Hi'%Hr'. lia.
  - intros c Hi%Hr. lia.
  - intros c Hi%Hr'. lia.
  - lia.
  - unfold binds_in in *. rewrite filter_app, length_app. lia.
Qed.

Definition traced (env : Env) w w' : Prop :=
  exists acts, w_out w' = w_out w ++ (acts ≫= effects_of (env_closed env)) /\ fresh_acts w w' acts.

Lemma traced_trans env w1 w2 w3 : traced env w1 w2 -> traced env w2 w3 -> traced env w1 w3.
Proof.
  intros (acts & Ho & Hfr) (acts' & Ho' & Hfr'). exists (acts ++ acts').
  split; [|by eapply fresh_acts_app]. by rewrite Ho', Ho, bind_app, app_assoc.
Qed.

(** A step without effects, and with one. *)
Lemma traced_silent env w w' :
  w_out w' = w_out w -> w_nextChan w' = w_nextChan w -> (unbound w' <= unbound w)%nat -> traced env w w'.
Proof.
  intros Ho Hn Hu. exists []. split; [by rewrite Ho, app_nil_r|]. split; [apply NoDup_nil_2|done|lia|simpl; lia].
Qed.

Lemma traced_one env w w' a :
  w_out w' = w_out w ++ effects_of (env_closed env) a -> w_nextChan w' = w_nextChan w ->
  (unbound w' <= unbound w)%nat -> respond_chans [a] = [] -> is_bind a = false -> traced env w w'.
Proof.
  intros Ho Hn Hu Hc Hb. exists [a]. split; [csimpl; by rewrite app_nil_r|].
  split; rewrite ?Hc; [apply NoDup_nil_2|done|lia|]. rewrite binds_in_cons, Hb. simpl. lia.
Qed.

(** A held-back response closes the next channel. *)
Lemma traced_defer env b d w :
  traced env w (add_out [SendWhen (ReadyAfter d) b kindResp (Some (w_nextChan w))]
                  (set_w_nextChan (w_nextChan w + 1) w)).
Proof.
  exists [ARespond d b (w_nextChan w)].
  split; [done|]. split; cbn [w_nextChan add_out set_w_out set_w_nextChan]; [apply NoDup_singleton| |lia|by simpl].
  simpl. constructor; [lia|done].
Qed.

Lemma traced_receipt env d w : traced env w (add_out (dlr_out env d) w).
Proof.
  unfold dlr_out, send_out. destruct (encoded (receipt_pdu d) None) as [b|].
  - destruct (d_respSent d) as [c|]; [|by apply traced_one with (ASend b kindDLR)].
    apply traced_one with (AReceipt b c); [cbn [effects_of w_out add_out set_w_out]; by destruct (env_closed env c)|done..].
  - assert (traced env w (add_out [] w)) as Ht by (rewrite add_out_nil; by apply traced_silent).
    destruct (d_respSent d) as [c|]; [|exact Ht]. destruct (env_closed env c); exact Ht.
Qed.

#[export] Instance traced_frame : FrameRel traced.
Proof.
  split.
  - intros. by apply traced_silent.
  - apply traced_trans.
  - intros env f w Hf. apply traced_silent; [done..|]. unfold unbound. simpl.
    destruct (bg_state _ Hf (w_session w)) as [-> | ->]; [done|]. rewrite bool_decide_false by done. lia.
  - intros. by apply traced_silent.
  - intros env m w Hm. by apply traced_one with (AMetric m).
  - intros env b k w. by apply traced_one with (ASend b k).
  - apply traced_receipt.
  - apply traced_defer.
Qed.

End Trace.

(** ** The bind and the commit *)

Section Handlers.
Context {R : Type} `{RandSource R}.
Implicit Types (w : world R) (pdu : PDU).

Lemma traced_commitSubmit tick d msg : respects traced (commitSubmit (R := R) tick d msg).
Proof.
  assert (forall f, (forall s, s_state (f s) = s_state s) -> respects traced (modify (R := R) f)) as Hm.
  { intros f Hf env w a w' [= _ <-]. apply traced_silent; [done..|]. unfold unbound. simpl. by rewrite Hf. }
  assert (forall f, respects traced (modify_v (R := R) f)) as Hv.
  { intros f env w a w' [= _ <-]. by apply traced_silent. }
  unfold commitSubmit, recordSubmit, messageID.
  repeat first [apply Hv | apply Hm; reflexivity | apply respects_metric; [apply _|reflexivity]
    | progress respect].
Qed.

(** An accepted bind spends the session's only bind. *)
Lemma accepted_traced env pdu b r w :
  s_state (w_session w) = stateOpen -> traced env w (accepted_world env pdu b r w).
Proof.
  intros Ho. set (name := VS_Name (v_cfg (w_smsc w))). set (bt := (bindKind (PDU_CommandID pdu)).1).
  set (resp := bind_reply pdu StatusROK (Some (BodyBindResp (mkBindResp name [])))).
  assert (exists acts, resp = acts ≫= effects_of (env_closed env) /\ respond_chans acts = [] /\ binds_in acts = 0%nat)
    as (acts & Hr & Hc & Hb).
  { subst resp. unfold bind_reply, send_out. destruct (encoded _ None) as [f|]; [|by exists []].
    by exists [ASend f kindResp]. }
  exists (AMetric (IncBind name bt) :: acts).
  assert (respond_chans (AMetric (IncBind name bt) :: acts) = []) as Hc' by exact Hc.
  split; [|split; rewrite ?Hc'; [apply NoDup_nil_2|done|done|]].
  - unfold accepted_world. fold name bt resp. rewrite Hr. cbn [w_out add_out set_w_out scheduled_world upd set_w_session
      set_w_smsc]. by rewrite <- app_assoc.
  - rewrite binds_in_cons, Hb. unfold unbound. rewrite Ho.
    change (s_state (w_session (accepted_world env pdu b r w))) with stateBound. done.
Qed.

Lemma traced_handleBind pdu : respects traced (handleBind (R := R) pdu).
Proof.
  intros env w [] w' Hx. pose proof (handleBind_run pdu env w) as Hrun.
  assert (forall st body, traced env w (add_out (bind_reply pdu st body) w)) as Hr.
  { intros st body. apply (respects_sendKind traced (reply pdu (bindKind (PDU_CommandID pdu)).2 st body) kindResp env w ()).
    apply sendKind_run. }
  assert (forall reason f, respects traced
    (modify (R := R) f;; send (reply pdu (bindKind (PDU_CommandID pdu)).2 StatusBindFail None);; closeWith reason None) ->
    traced env w (closed_world reason None (add_out (bind_reply pdu StatusBindFail None) (upd f w)))) as Hclose.
  { intros reason f Hp. apply (Hp env w () _). rewrite modify_run.
    erewrite M_bind_run by apply sendKind_run. by rewrite closeWith_run. }
  destruct (judge_bind w pdu) eqn:Hj.
  - rewrite Hrun in Hx. injection Hx as <-. apply Hr.
  - rewrite Hrun in Hx. injection Hx as <-. apply Hr.
  - rewrite Hrun in Hx. injection Hx as <-. apply Hclose. respect.
  - rewrite Hrun in Hx. injection Hx as <-. apply Hclose. respect.
  - destruct Hrun as (r & _ & Hrun). rewrite Hrun in Hx. injection Hx as <-. apply accepted_traced.
    unfold judge_bind in Hj. by case_bool_decide.
Qed.

Lemma traced_readLoop_iter re c : respects traced (readLoop_iter (R := R) re c).
Proof.
  apply respects_readLoop_iter; [apply _|]. intros frame. apply respects_handleFrame; [apply _|]. intros pdu.
  apply respects_handle; [apply _|apply traced_handleBind|apply traced_commitSubmit].
Qed.

End Handlers.

(** ** The whole loop *)

(** The effects of a run whose iteration [i] performed the [i]th list of actions. *)
Definition emitted (envs : nat -> ReadEnv) (h : list (list action)) : list effect :=
  concat (imap (fun i acts => acts ≫= effects_of (env_closed (re_env (envs i)))) h).

Lemma readLoop_traced {R} `{RandSource R} n envs c (w w' : world R) :
  readLoop n envs c w = Ok (Some w') ->
  exists h, w_out w' = w_out w ++ emitted envs h /\ fresh_acts w w' (concat h).
Proof.
  revert envs c w. induction n as [|n IH]; intros envs c w; [done|]. cbn [readLoop].
  destruct (readLoop_iter (envs 0%nat) c (re_env (envs 0%nat)) w) as [[r w1]| |] eqn:Hi; [|done..].
  rewrite obind_Ok. cbn [fst snd]. destruct (traced_readLoop_iter _ _ _ _ _ _ Hi) as (acts & Ho & Hf).
  destruct r as [c'|].
  - intros (h & Hoh & Hfh)%IH. exists (acts :: h). split; [|by eapply fresh_acts_app].
    unfold emitted. rewrite imap_cons. simpl. rewrite Hoh, Ho, <- app_assoc. done.
  - intros [= <-]. exists [acts]. unfold emitted. simpl. by rewrite !app_nil_r.
Qed.

(** C1: a session ends cleanly, whatever the peer, the transport and the scheduler
    do.  The read loop of a fresh session terminates on every input with a close
    reason; all it emits is one list of pipeline actions; and the goroutines that
    carry these out never panic, stop after a bounded number of steps, and in
    every state where none can move have flushed the queue, closed the
    connection, deregistered the bind, balanced the gauges and recorded the close
    with the loop's reason, or with the write failure that came before it; and when
    no write failed, no PDU was lost or refused: the wire is everything that was
    handed to [sendBytes], in that order, and all that the read loop sends itself. *)
Theorem session_lifetime {R} `{RandSource R} (envs : nat -> ReadEnv) c (w : world R) :
  looping w -> w_out w = [] ->
  exists w' h reason, readLoop (S (pending_input c)) envs c w = Ok (Some w') /\
    w_out w' = emitted envs h /\ s_closeReason (w_session w') = Some reason /\
    let acts := concat h in
    let go := step (Some reason) (s_bindType (w_session w')) in
    (forall n st, nsteps go n (boot acts) st -> (n <= 9 * length acts + 27)%nat) /\
    forall st, rtc go (boot acts) st -> x_panicked (p_shared st) = false /\
      (idle (Some reason) (s_bindType (w_session w')) st ->
       finished (Some reason) (s_bindType (w_session w')) st /\
       (x_writeErr (p_shared st) = None -> delivered acts st)).
Proof.
  intros Hl Hw. destruct (readLoop_total (S (pending_input c)) envs c w Hl ltac:(lia)) as (w' & Hrun & _ & _ & [reason Hr]).
  destruct (readLoop_traced _ _ _ _ _ Hrun) as (h & Ho & [Hc _ _ Hb]). exists w', h, reason.
  assert (acts_ok (concat h)) as Hok.
  { split; [exact Hc|]. unfold unbound in Hb. repeat case_bool_decide; lia. }
  rewrite Hw in Ho. split; [exact Hrun|]. split; [exact Ho|]. split; [exact Hr|]. intros acts go. split.
  - intros n st. apply boot_nsteps.
  - intros st Hst. split; [|intros Hi; split; [by apply idle_is_finished with (concat h)|by eapply idle_delivered]].
    destruct (reachable _ _ _ _ Hok Hst) as (Hct & _). apply Hct.
Qed.

(** A client that binds, sends garbage and hangs up. *)
Definition sample_peer : conn := [Recv bind_frame; Recv [NUL; NUL]].
Definition sample_envs (n : nat) : ReadEnv := sample_env_at (Z.of_nat n).

Lemma session_lifetime_witness :
  exists w' h, readLoop (S (pending_input sample_peer)) sample_envs sample_peer sample_world = Ok (Some w') /\
    w_out w' = emitted sample_envs h /\ length (w_out w') = 2%nat /\
    forall st, rtc (step (Some reasonReadError) "transceiver") (boot (concat h)) st ->
      idle (Some reasonReadError) "transceiver" st -> x_bindGauge (p_shared st) = 0.
Proof.
  destruct (session_lifetime sample_envs sample_peer sample_world sample_world_looping eq_refl)
    as (w' & h & reason & Hrun & Ho & Hr & _ & Hst).
  exists w', h. split; [exact Hrun|]. split; [exact Ho|]. vm_compute in Hrun. injection Hrun as <-.
  injection Hr as <-. split; [vm_compute; reflexivity|]. intros st Hs Hi.
  exact (fi_bindGauge _ _ _ (proj1 (proj2 (Hst st Hs) Hi))).
Defined.
