(* ===== verification/PipelineCrash.v ===== *)
(** * Panics inside a session ([recoverGoroutine] of [internal/smsc/session.go],
      [recoverSession] of [internal/smsc/engine.go])

    The model of [Pipeline] has no panic of its own making ([pipeline_safe]); here a
    goroutine may panic anywhere in its body, as a bug in a codec or in a metrics
    sink would make it.  The panic is recovered at the boundary of the goroutine,
    whose deferred calls still run: the writer closes [writerClosed], the closer
    [closerDone], a held-back send releases the wait group, and the read goroutine
    goes through its teardown.  The counts of PDUs are not claimed after a panic. *)

From S2P Require Import Prelude.
From S2P Require Import SmppCodec.
From S2P Require Import Close.
From S2P Require Import VirtualSMSC.
From S2P Require Import SessionState.
From S2P Require Import Pipeline.
From S2P Require Import PipelineThms.
From S2P Require Import Teardown.
From S2P Require Import PipelineRuns.

(** ** Crashes *)

Inductive goroutine := GReader | GWriter | GCloser | GDeferred (i : nat).

(** [writeLoop]: its deferred calls are [recoverGoroutine] and the close that [WExit]
    makes. *)
Definition writer_crash (w : writer_pc) : option writer_pc :=
  match w with WExit | WDone => None | _ => Some WExit end.

Definition closer_crash (c : closer_pc) : option closer_pc :=
  match c with CExit | CDone => None | _ => Some CExit end.

(** The channel it was to close stays open. *)
Definition deferred_crash (d : deferred_pc) : option deferred_pc :=
  match d with DExit | DDone => None | _ => Some DExit end.

(** A panic of [readLoop] runs the deferred teardown.  The store of [bound] that ends
    a bind cannot panic. *)
Definition reader_crash (r : reader_pc) : option reader_pc :=
  match r with RLoop _ | RSending _ _ => Some RIsClosed | _ => None end.

Definition crash_exec (g : goroutine) (st : pipe) : option pipe :=
  let '(mkPipe r w c ds sh) := st in
  match g with
  | GReader => (fun r => mkPipe r w c ds sh) <$> reader_crash r
  | GWriter => (fun w => mkPipe r w c ds sh) <$> writer_crash w
  | GCloser => (fun c => mkPipe r w c ds sh) <$> closer_crash c
  | GDeferred i => d ← ds !! i; (fun d => mkPipe r w c (<[i := d]> ds) sh) <$> deferred_crash d
  end.

Section Crash.
Context (reason : option closeReason) (bindType : string).
Implicit Types (st : pipe).

(** A step of the session, or a panic of one of its goroutines. *)
Definition crash_step st st' : Prop := step reason bindType st st' \/ exists g, crash_exec g st = Some st'.

(** ** Control survives *)

Lemma respond_none : respond_chans (reader_acts RIsClosed) = [].
Proof. done. Qed.

Lemma reader_crash_phase r r' : reader_crash r = Some r' -> phase r = 0%nat /\ r' = RIsClosed.
Proof. destruct r; simpl; intros [= <-]; done. Qed.

Lemma crash_controlled g st st' : controlled st -> crash_exec g st = Some st' -> controlled st'.
Proof.
  destruct st as [r w cl ds sh]. intros [Hd Hs Ho Hc Hcj Hw Hwj Hdf Hdfj Hdr Hch Hp] Hx. proj_pipe.
  destruct g as [| | |i]; cbn [crash_exec] in Hx.
  - destruct (reader_crash r) as [r'|] eqn:Hr; [|done]. simpl in Hx. injection Hx as <-.
    apply reader_crash_phase in Hr as [Hr ->]. rewrite Hr in *. split; proj_pipe; try done.
    by apply NoDup_app in Hch as (_ & _ & ?).
  - destruct w; try done; simpl in Hx; injection Hx as <-; (split; proj_pipe; try done);
      intros H6; by specialize (Hwj H6).
  - destruct cl; try done; simpl in Hx; injection Hx as <-; (split; proj_pipe; try done);
      intros H2; by specialize (Hcj H2).
  - destruct (ds !! i) as [d|] eqn:Hi; [|done]. simpl in Hx.
    destruct (deferred_crash d) as [d'|] eqn:Hdc; [|done]. simpl in Hx. injection Hx as <-.
    assert (d' = DExit /\ live d = 1%nat) as [-> Hlive] by (by destruct d; simpl in Hdc; simplify_eq).
    pose proof (sum_insert live ds i d DExit Hi) as Hsum. rewrite Hlive in Hsum. simpl in Hsum.
    assert (sum_list_with live (<[i := DExit]> ds) = sum_list_with live ds) as Hsame by lia.
    split; proj_pipe; rewrite ?Hsame; try done.
    eapply (chans_insert ds i d DExit _ _ _ (deferred_chan d) Hi); [|exact Hch].
    simpl. apply Permutation_app_comm.
Qed.

Lemma crash_step_controlled st st' : controlled st -> crash_step st st' -> controlled st'.
Proof. intros Hc [Hs|[g Hg]]; [by eapply step_controlled|by eapply crash_controlled]. Qed.

(** ** Every step still makes progress *)

Lemma crash_cost g st st' : crash_exec g st = Some st' -> (cost st' < cost st)%nat.
Proof.
  destruct st as [r w cl ds sh]. unfold cost. intros Hx. destruct g as [| | |i]; cbn [crash_exec] in Hx.
  - destruct r as [acts|s acts| | | | | | | | | | | | | | | | |]; try done; simpl in Hx; injection Hx as <-; proj_pipe;
      cbn [reader_cost]; unfold loop_cost; [lia|destruct s; simpl; lia].
  - destruct w; try done; simpl in Hx; injection Hx as <-; proj_pipe; simpl; lia.
  - destruct cl as [| |s| |]; try done; simpl in Hx; injection Hx as <-; proj_pipe; simpl; try lia. destruct s; simpl; lia.
  - destruct (ds !! i) as [d|] eqn:Hi; [|done]. simpl in Hx.
    destruct (deferred_crash d) as [d'|] eqn:Hdc; [|done]. simpl in Hx. injection Hx as <-. proj_pipe.
    pose proof (sum_insert deferred_cost ds i d d' Hi) as Hsum.
    assert (deferred_cost d' < deferred_cost d)%nat by (destruct d; simpl in Hdc; simplify_eq; simpl; lia). lia.
Qed.

Lemma crash_step_cost st st' : crash_step st st' -> (cost st' < cost st)%nat.
Proof. intros [Hs|[g Hg]]; [by eapply step_cost|by eapply crash_cost]. Qed.

(** ** What the teardown releases *)

(** The registration, the gauge and the connection, without the counts. *)
Record released (st : pipe) : Prop := {
  re_gauge : x_bindGauge (p_shared st) =
    match p_reader st with RDone => 0 | r => Z.b2z (x_bound (p_shared st)) + Z.of_nat (storing r) end;
  re_binds : (binds_in (reader_acts (p_reader st)) + storing (p_reader st) + Nat.b2n (x_bound (p_shared st)) <= 1)%nat;
  re_conn : (8 <= phase (p_reader st))%nat -> x_connClosed (p_shared st) = true;
  re_record : (9 <= phase (p_reader st))%nat -> is_Some (x_closeRecord (p_shared st));
  re_registered : (10 <= phase (p_reader st))%nat -> x_registered (p_shared st) = false
}.

(** What only the read goroutine touches. *)
Definition held (sh : shared) := (x_bindGauge sh, x_bound sh, x_connClosed sh, x_closeRecord sh, x_registered sh).

Lemma send_held c s sh o sh' : send_exec c s sh = Some (o, sh') -> held sh' = held sh.
Proof.
  unfold send_exec. destruct s; [by intros [= <- <-]| |by intros [= <- <-]..].
  destruct c; [destruct (x_outboundClosed sh); [|destruct (_ <? _)%nat]|destruct (x_writerClosed sh)|]; try done;
    by intros [= <- <-].
Qed.

Lemma writer_held c w sh w' sh' : writer_exec c w sh = Some (w', sh') -> held sh' = held sh.
Proof.
  unfold writer_exec. destruct w; try (by intros [= <- <-]).
  - destruct (x_outbound sh); [destruct (x_outboundClosed sh)|]; by intros [= <- <-].
  - destruct c; by intros [= <- <-].
  - destruct (x_writerClosed sh); by intros [= <- <-].
Qed.

Lemma closer_held c cl sh cl' sh' : closer_exec c cl sh = Some (cl', sh') -> held sh' = held sh.
Proof.
  unfold closer_exec. destruct cl as [| |s| |]; [..|done].
  - destruct c; [destruct (x_quit sh)|destruct (x_done sh)|]; by intros [= <- <-].
  - by intros [= <- <-].
  - destruct (send_exec c s sh) as [[o sh1]|] eqn:Hs; [|done]. apply send_held in Hs. destruct o; by intros [= <- <-].
  - destruct (x_closerDone sh); by intros [= <- <-].
Qed.

Lemma deferred_held c d sh d' sh' : deferred_exec c d sh = Some (d', sh') -> held sh' = held sh.
Proof.
  unfold deferred_exec. destruct d as [rdy p snt|s snt|c0| |]; [..|done].
  - destruct c; [destruct (is_ready rdy sh)|destruct (x_stopDeferred sh)|]; by intros [= <- <-].
  - destruct (send_exec c s sh) as [[o sh1]|] eqn:Hs; [|done]. apply send_held in Hs. destruct o; by intros [= <- <-].
  - destruct (bool_decide _); by intros [= <- <-].
  - destruct (_ <=? 0); by intros [= <- <-].
Qed.

Lemma held_released r w w' cl cl' ds ds' sh sh' :
  held sh' = held sh -> released (mkPipe r w cl ds sh) -> released (mkPipe r w' cl' ds' sh').
Proof.
  unfold held. intros [= E1 E2 E3 E4 E5] [R1 R2 R3 R4 R5]. proj_pipe.
  split; proj_pipe; rewrite ?E1, ?E2, ?E3, ?E4, ?E5; done.
Qed.

Lemma teardown_released r r' w cl ds sh sh' :
  teardown_exec reason bindType r sh = Some (r', sh') ->
  released (mkPipe r w cl ds sh) -> released (mkPipe r' w cl ds sh').
Proof.
  intros Hx [R1 R2 R3 R4 R5]. proj_pipe.
  destruct r; try discriminate Hx; cbn [teardown_exec] in Hx; unfold close_chan in Hx; cbn [phase reader_acts storing] in *;
    repeat match type of Hx with
    | match ?b with true => _ | false => _ end = Some _ => destruct b eqn:?; [|discriminate Hx]
    | match ?b with [] => _ | _ :: _ => _ end = Some _ => destruct b eqn:?
    | context [if ?b then _ else _] => destruct b eqn:?
    end;
    injection Hx as <- <-;
    (split; proj_pipe; cbn [phase reader_acts storing];
      try (intros; lia); try done; try (intros _; apply R3; lia); try (intros _; apply R4; lia);
      try (intros _; apply R5; lia)).
  all: try (by eexists). all: simpl in *; try lia. all: by destruct (x_bound sh); simpl in *; lia.
Qed.

Lemma action_released a acts r' ds' w cl ds sh sh' :
  action_exec a acts sh = (r', ds', sh') ->
  released (mkPipe (RLoop (a :: acts)) w cl ds sh) -> released (mkPipe r' w cl (ds ++ ds') sh').
Proof.
  intros Hx [R1 R2 R3 R4 R5]. proj_pipe. cbn [reader_acts storing phase] in *. rewrite binds_in_cons in R2.
  destruct a as [b k|d b c'|b c'|m]; cbn [action_exec is_bind] in *.
  - injection Hx as <- <- <-. by split.
  - injection Hx as <- <- <-. by split.
  - case_bool_decide; injection Hx as <- <- <-; by split.
  - destruct m; cbn [is_bind] in *; injection Hx as <- <- <-; split; proj_pipe; cbn [reader_acts storing phase] in *;
      try done; try (intros; lia); simpl in *; destruct (x_bound sh); simpl in *; lia.
Qed.

Lemma reader_released c st st' :
  released st -> exec reason bindType (EvReader c) st = Some st' -> released st'.
Proof.
  destruct st as [r w cl ds sh]. intros Hre. unfold exec.
  destruct (reader_exec reason bindType c r sh) as [[[r' ds'] sh']|] eqn:Hx; [|done]. intros [= <-].
  assert (teardown_exec reason bindType r sh = Some (r', sh') -> released (mkPipe r' w cl (ds ++ []) sh')) as Htd.
  { intros Ht. rewrite app_nil_r. by eapply teardown_released. }
  unfold reader_exec in Hx. destruct r as [[|a acts]|s acts|acts| | | | | | | | | |p|p| | | | |].
  5-20: destruct (teardown_exec _ _ _ sh) as [[r1 sh1]|]; [|done]; injection Hx as <- <- <-; by apply Htd.
  - injection Hx as <- <- <-. destruct Hre as [R1 R2 R3 R4 R5]. by split.
  - injection Hx as Hx. by eapply action_released.
  - destruct (send_exec c s sh) as [[o sh1]|] eqn:Hse; [|done].
    assert (held sh' = held sh /\ ds' = [] /\ reader_acts r' = acts /\ phase r' = 0%nat /\ storing r' = 0%nat /\ r' <> RDone)
      as (Hh & -> & Ha & Hp & Hst & Hnd) by (apply send_held in Hse; destruct o; injection Hx as <- <- <-; by rewrite Hse).
    unfold held in Hh. injection Hh as E1 E2 E3 E4 E5. destruct Hre as [R1 R2 R3 R4 R5]. proj_pipe.
    split; proj_pipe; rewrite ?Ha, ?Hp, ?Hst, ?E1, ?E2, ?E3, ?E4, ?E5; try done; try (intros; lia).
    rewrite R1. cbn [storing]. by destruct r'.
  - injection Hx as <- <- <-. destruct Hre as [R1 R2 R3 R4 R5]. proj_pipe. cbn [reader_acts storing phase] in *.
    split; proj_pipe; cbn [reader_acts storing phase]; try done; try (intros; lia);
      cbn [x_bindGauge x_bound set_x_bound]; destruct (x_bound sh); simpl in *; lia.
Qed.

Lemma crash_released g st st' : released st -> crash_exec g st = Some st' -> released st'.
Proof.
  destruct st as [r w cl ds sh]. intros Hre Hx. destruct g as [| | |i]; cbn [crash_exec] in Hx.
  - destruct (reader_crash r) as [r'|] eqn:Hr; [|done]. simpl in Hx. injection Hx as <-.
    destruct Hre as [R1 R2 R3 R4 R5]. proj_pipe.
    assert (storing r = 0%nat /\ r <> RDone) as [Hst Hnd] by (by destruct r; simpl in Hr).
    apply reader_crash_phase in Hr as [Hr ->]. rewrite Hst in *.
    split; proj_pipe; cbn [phase]; try (intros; lia); [by destruct r|simpl; lia].
  - destruct (writer_crash w); [|done]. simpl in Hx. injection Hx as <-. by eapply held_released.
  - destruct (closer_crash cl); [|done]. simpl in Hx. injection Hx as <-. by eapply held_released.
  - destruct (ds !! i) as [d|]; [|done]. simpl in Hx. destruct (deferred_crash d); [|done]. simpl in Hx. injection Hx as <-.
    by eapply held_released.
Qed.

Lemma crash_step_released st st' : released st -> crash_step st st' -> released st'.
Proof.
  intros Hre [[ev Hx]|[g Hg]]; [|by eapply crash_released].
  destruct ev as [|c|c|c|i c]; [|by eapply reader_released|..]; destruct st as [r w cl ds sh]; unfold exec in Hx.
  - destruct (x_quit sh); [done|]. injection Hx as <-. by apply (held_released r w w cl cl ds ds sh).
  - destruct (writer_exec c w sh) as [[w' sh']|] eqn:He; [|done]. injection Hx as <-.
    eapply held_released; [by eapply writer_held|exact Hre].
  - destruct (closer_exec c cl sh) as [[cl' sh']|] eqn:He; [|done]. injection Hx as <-.
    eapply held_released; [by eapply closer_held|exact Hre].
  - destruct (ds !! i) as [d|]; [|done]. destruct (deferred_exec c d sh) as [[d' sh']|] eqn:He; [|done].
    injection Hx as <-. eapply held_released; [by eapply deferred_held|exact Hre].
Qed.

Lemma boot_released acts : acts_ok acts -> released (boot acts).
Proof. intros [_ Hb]. split; simpl; try done; lia. Qed.

Lemma crash_reachable acts st :
  acts_ok acts -> rtc crash_step (boot acts) st -> controlled st /\ released st.
Proof.
  intros Hok Hr. assert (controlled (boot acts) /\ released (boot acts)) as H
    by (split; [by apply boot_controlled|by apply boot_released]).
  induction Hr as [|st1 st2 st3 Hs _ IH]; [done|]. apply IH. destruct H.
  split; [by eapply crash_step_controlled|by eapply crash_step_released].
Qed.

Lemma crash_nsteps acts n st : nsteps crash_step n (boot acts) st -> (n <= 9 * length acts + 27)%nat.
Proof.
  intros Hn. assert (n + cost st <= cost (boot acts))%nat as Hc.
  { induction Hn as [|n st1 st2 st3 Hs _ IH]; [lia|]. apply crash_step_cost in Hs. lia. }
  unfold cost, boot in Hc. proj_pipe. cbn [reader_cost writer_cost closer_cost sum_list_with] in Hc.
  unfold loop_cost, shared_cost in Hc. simpl in Hc. lia.
Qed.

(** What a session leaves behind, whoever panicked. *)
Record dismantled (st : pipe) : Prop := {
  di_reader : p_reader st = RDone;
  di_writer : p_writer st = WDone;
  di_closer : p_closer st = CDone;
  di_deferred : Forall (fun d => d = DDone) (p_deferred st);
  di_outbound : x_outbound (p_shared st) = [];
  di_bindGauge : x_bindGauge (p_shared st) = 0;
  di_registered : x_registered (p_shared st) = false;
  di_conn : x_connClosed (p_shared st) = true;
  di_record : is_Some (x_closeRecord (p_shared st))
}.

Lemma live_none ds : sum_list_with live ds = 0%nat -> Forall (fun d => d = DDone) ds.
Proof. induction ds as [|d ds IH]; simpl; intros Hd; constructor; [by destruct d|apply IH; lia]. Qed.

Lemma idle_dismantled acts st :
  acts_ok acts -> rtc crash_step (boot acts) st -> idle reason bindType st -> dismantled st.
Proof.
  intros Hok Hr Hi. destruct (crash_reachable acts st Hok Hr) as [Hct [R1 R2 R3 R4 R5]].
  destruct st as [r w cl ds sh]. assert (r = RDone) as -> by (by eapply idle_finished).
  split; proj_pipe; try done.
  - apply (ct_writer_joined _ Hct). simpl. lia.
  - apply (ct_closer_joined _ Hct). simpl. lia.
  - apply live_none, (ct_deferred_joined _ Hct). simpl. lia.
  - apply (ct_drained _ Hct). simpl. lia.
  - apply R5. simpl. lia.
  - apply R3. simpl. lia.
  - apply R4. simpl. lia.
Qed.

End Crash.

(** C25: a panic stays inside its session.  Whichever goroutines of a session panic,
    wherever in their bodies and however often, under any schedule: the panic
    provokes no second one (no channel is closed twice or sent on once closed, the
    wait group never goes negative); the session still ends within the bound of a
    sound one, since a state in which no goroutine can move is reached; and there
    every goroutine has returned, the queue is drained, the connection closed, the
    bind out of the registry and of the gauge, and the close recorded. *)
Theorem crash_isolated reason bindType acts :
  acts_ok acts ->
  (forall n st, nsteps (crash_step reason bindType) n (boot acts) st -> (n <= 9 * length acts + 27)%nat) /\
  (forall st, rtc (crash_step reason bindType) (boot acts) st ->
    x_panicked (p_shared st) = false /\ (idle reason bindType st -> dismantled st)).
Proof.
  intros Hok. split; [apply crash_nsteps|]. intros st Hr. split; [by apply (crash_reachable reason bindType acts st)|].
  by apply (idle_dismantled reason bindType acts).
Qed.

(** ** A session whose writer, then whose read goroutine, panics *)

Fixpoint run_crashes (reason : option closeReason) (bindType : string) (evs : list (event + goroutine)) (st : pipe)
  : option pipe :=
  match evs with
  | [] => Some st
  | inl ev :: evs => st ← exec reason bindType ev st; run_crashes reason bindType evs st
  | inr g :: evs => st ← crash_exec g st; run_crashes reason bindType evs st
  end.

Lemma run_crashes_rtc reason bindType evs st st' :
  run_crashes reason bindType evs st = Some st' -> rtc (crash_step reason bindType) st st'.
Proof.
  revert st. induction evs as [|[ev|g] evs IH]; intros st Hr; simpl in Hr; [by injection Hr as <-|..].
  - destruct (exec reason bindType ev st) as [st1|] eqn:Hx; [|done]. eapply rtc_l; [left; by exists ev|by apply IH].
  - destruct (crash_exec g st) as [st1|] eqn:Hx; [|done]. eapply rtc_l; [right; by exists g|by apply IH].
Qed.

(** The writer panics in its first write, a held-back send and the read goroutine
    after it. *)
Definition crashing : list (event + goroutine) :=
  (inl <$> replicate 6 (EvReader Take)) ++ (inl <$> [EvWriter Take; EvWriter Take]) ++ [inr GWriter; inl (EvWriter Take)] ++
  [inr (GDeferred 0); inl (EvDeferred 0 Take); inr GReader] ++ (inl <$> replicate 3 (EvReader Take)) ++
  (inl <$> [EvCloser Other; EvCloser Other]) ++ (inl <$> replicate 10 (EvReader Take)).

Definition crashed_end : pipe :=
  default (boot []) (run_crashes None "transceiver" crashing (boot sample_acts)).

Lemma crash_isolated_witness :
  cl_reason <$> x_closeRecord (p_shared crashed_end) = Some reasonPanic /\ dismantled crashed_end.
Proof.
  split; [vm_compute; reflexivity|].
  apply (crash_isolated None "transceiver" sample_acts sample_acts_ok).
  - apply (run_crashes_rtc _ _ crashing). vm_compute. reflexivity.
  - intros [|[]|[]|[]|[|i] []] Hq; first [by destruct Hq | vm_compute; reflexivity].
Defined.
