(* ===== verification/Wakeup.v ===== *)
(** * Waking the read goroutine on shutdown
      ([run], [readLoop], [frameReader.Read] of [internal/smsc/session.go])

    The closer unblocks a pending read by setting a past read deadline, while
    [readLoop] and [frameReader] keep arming the same deadline for their own
    purposes.  The two goroutines are interleaved here at the granularity of
    their accesses to the connection's deadline and to the quit channel. *)

From S2P Require Import Prelude.
From S2P Require Import SmppCodec.

(** ** The two goroutines *)

Inductive deadline := Armed | Past.

(** The read goroutine, [got] bytes into a frame. *)
Inductive loop_pc :=
| LArm | LCheck
| LRead (got : nat)
| LExtend (got : nat) | LRecheck (got : nat) | LPast (got : nat) | LNext (got : nat)
| LTimeout (got : nat)
| LHandle | LReturn.

Inductive waker_pc := KWait | KSet | KDone.

Record wakeup := mkWakeup {
  wk_loop : loop_pc;
  wk_waker : waker_pc;
  wk_deadline : deadline;
  wk_quit : bool
}.

(** What the peer, the clock and the handlers decide; [Nothing] is their silence. *)
Inductive outside := Nothing | Data (k : nat) | Expires | Broken | FrameEnds | Closes.

Inductive wake_event := WQuit | WLoop (o : outside) | WWaker.

Definition maxFrame : nat := Z.to_nat MaxPDULen.

(** A read with a past deadline fails at once, whatever has arrived. *)
Definition loop_exec (o : outside) (l : loop_pc) (d : deadline) (quit : bool) : option (loop_pc * deadline) :=
  match l with
  | LArm => Some (LCheck, Armed)
  | LCheck => Some (if quit then LReturn else LRead 0, d)
  | LRead got =>
      match d, o with
      | Past, _ => Some (LTimeout got, d)
      | Armed, Data k =>
          if ((0 <? k) && (got + k <=? maxFrame))%nat then
            Some (if (got =? 0)%nat then LExtend k else LNext (got + k), d)
          else None
      | Armed, Expires => Some (LTimeout got, d)
      | Armed, Broken => Some (LReturn, d)
      | Armed, _ => None
      end
  | LExtend got => Some (LRecheck got, Armed)
  | LRecheck got => Some (if quit then LPast got else LNext got, d)
  | LPast got => Some (LNext got, Past)
  | LNext got => Some (match o with FrameEnds => LHandle | _ => LRead got end, d)
  | LTimeout got =>
      Some (if (0 <? got)%nat || quit then LReturn
            else match o with Closes => LReturn | _ => LArm end, d)
  | LHandle => Some (match o with Closes => LReturn | _ => LArm end, d)
  | LReturn => None
  end.

Definition waker_exec (k : waker_pc) (d : deadline) (quit : bool) : option (waker_pc * deadline) :=
  match k with
  | KWait => if quit then Some (KSet, d) else None
  | KSet => Some (KDone, Past)
  | KDone => None
  end.

Definition wake_exec (ev : wake_event) (st : wakeup) : option wakeup :=
  let '(mkWakeup l k d quit) := st in
  match ev with
  | WQuit => if quit then None else Some (mkWakeup l k d true)
  | WLoop o => '(l, d) ← loop_exec o l d quit; Some (mkWakeup l k d quit)
  | WWaker => '(k, d) ← waker_exec k d quit; Some (mkWakeup l k d quit)
  end.

Definition wake_step (st st' : wakeup) : Prop := exists ev, wake_exec ev st = Some st'.

(** The session as [run] starts it. *)
Definition asleep : wakeup := mkWakeup LArm KWait Armed false.

(** ** A past deadline is never overwritten unnoticed *)

Definition blocked (l : loop_pc) : bool := match l with LRead _ | LNext _ => true | _ => false end.

Record noticed (st : wakeup) : Prop := {
  no_quit : wk_waker st <> KWait -> wk_quit st = true;
  no_past : wk_waker st = KDone -> blocked (wk_loop st) = true -> wk_deadline st = Past
}.

Lemma step_noticed st st' : noticed st -> wake_step st st' -> noticed st'.
Proof.
  intros [Hq Hp] [ev Hx]. destruct st as [l k d quit]. cbn [wk_loop wk_waker wk_deadline wk_quit] in *.
  destruct ev as [|o|]; unfold wake_exec in Hx.
  - destruct quit; [done|]. injection Hx as <-. by split.
  - destruct (loop_exec o l d quit) as [[l' d']|] eqn:Hl; [|done]. injection Hx as <-.
    split; cbn [wk_loop wk_waker wk_deadline wk_quit]; [done|]. intros Hk Hb.
    assert (quit = true) as -> by (apply Hq; by rewrite Hk). specialize (Hp Hk).
    destruct l; simpl in *; simplify_eq; try done; try (by apply Hp).
    + rewrite (Hp eq_refl) in Hl. by injection Hl as <- <-.
    + by destruct (_ || _); [|destruct o].
    + by destruct o.
  - destruct k; simpl in Hx; [destruct quit; [|done]| |done]; injection Hx as <-; [by split|].
    split; [intros _; by apply Hq|done].
Qed.

Lemma reachable_noticed st : rtc wake_step asleep st -> noticed st.
Proof.
  intros Hr. assert (noticed asleep) as H0 by (by split). revert H0.
  induction Hr as [|st1 st2 st3 Hs _ IH]; [done|]. intros Hn. apply IH. by eapply step_noticed.
Qed.

(** ** Progress once the engine has asked to stop *)

Definition read_cost (got : nat) : nat := 5 + 6 * (maxFrame - got).

Definition loop_cost (l : loop_pc) : nat :=
  match l with
  | LReturn => 0 | LCheck => 1 | LArm => 2 | LHandle => 3 | LTimeout _ => 4
  | LRead got => read_cost got
  | LNext got => 1 + read_cost got | LPast got => 2 + read_cost got | LRecheck got => 3 + read_cost got
  | LExtend got => 4 + read_cost got
  end.

Definition wake_cost (st : wakeup) : nat :=
  loop_cost (wk_loop st) + match wk_waker st with KWait => 2 | KSet => 1 | KDone => 0 end.

Lemma loop_cost_step o l d l' d' :
  loop_exec o l d true = Some (l', d') -> (loop_cost l' < loop_cost l)%nat.
Proof.
  intros Hx. destruct l as [| |got|got|got|got|got|got| |]; cbn [loop_exec] in Hx; simplify_eq; try (simpl; lia).
  - unfold loop_cost at 2, read_cost. destruct d; [|simplify_eq; simpl; lia].
    destruct o as [|k| | | |]; simplify_eq; try (simpl; lia).
    destruct (Nat.ltb_spec 0 k); [|done]. destruct (Nat.leb_spec (got + k) maxFrame); [|done].
    cbn [andb] in Hx. destruct (Nat.eqb_spec got 0); simplify_eq; unfold loop_cost, read_cost; lia.
  - destruct o; unfold loop_cost, read_cost; lia.
  - rewrite orb_true_r. simpl. lia.
  - destruct o; simpl; lia.
Qed.

Lemma wake_cost_step st st' :
  wk_quit st = true -> wake_step st st' -> wk_quit st' = true /\ (wake_cost st' < wake_cost st)%nat.
Proof.
  intros Hq [ev Hx]. destruct st as [l k d quit]. cbn [wk_quit] in Hq. subst quit. unfold wake_cost.
  destruct ev as [|o|]; unfold wake_exec in Hx; [done| |].
  - destruct (loop_exec o l d true) as [[l' d']|] eqn:Hl; [|done]. injection Hx as <-.
    apply loop_cost_step in Hl. cbn [wk_loop wk_waker wk_quit]. split; [done|lia].
  - destruct k; simpl in Hx; simplify_eq; cbn [wk_loop wk_waker wk_quit]; (split; [done|lia]).
Qed.

(** Steps neither the peer nor the clock has a part in. *)
Definition own (ev : wake_event) : bool :=
  match ev with WLoop Nothing | WWaker => true | _ => false end.

Definition stalled (st : wakeup) : Prop := forall ev, own ev = true -> wake_exec ev st = None.

Lemma stalled_returned st : noticed st -> wk_quit st = true -> stalled st -> wk_loop st = LReturn.
Proof.
  intros [_ Hp] Hq Hs. destruct st as [l k d quit]. cbn [wk_loop wk_waker wk_deadline wk_quit] in *. subst quit.
  pose proof (Hs WWaker eq_refl) as Hw. pose proof (Hs (WLoop Nothing) eq_refl) as Hl. unfold wake_exec in Hw, Hl.
  destruct k; [done|done|]. specialize (Hp eq_refl).
  destruct l; try done. by rewrite (Hp eq_refl) in Hl.
Qed.

(** C27: a shutdown always wakes the read goroutine.  Once the engine has closed
    its quit channel, and whatever the interleaving of the closer's past deadline
    with the deadlines the loop and the frame reader arm, the two goroutines take
    a bounded number of further steps (a frame's worth of arriving bytes at most),
    and the only state in which neither can move by itself is the one where the
    loop has returned: no read stays blocked until the idle timeout. *)
Theorem shutdown_wakes st :
  rtc wake_step asleep st -> wk_quit st = true ->
  (forall n st', nsteps wake_step n st st' -> (n <= 6 * maxFrame + 11)%nat) /\
  (forall st', rtc wake_step st st' -> stalled st' -> wk_loop st' = LReturn).
Proof.
  intros Hr Hq. split.
  - intros n st' Hn. assert (n + wake_cost st' <= wake_cost st)%nat.
    { revert Hq. clear Hr. induction Hn as [|n st1 st2 st3 Hs _ IH]; [lia|]. intros Hq.
      destruct (wake_cost_step _ _ Hq Hs) as [Hq' Hc]. specialize (IH Hq'). lia. }
    assert (wake_cost st <= 6 * maxFrame + 11)%nat; [|lia].
    unfold wake_cost, loop_cost, read_cost. destruct (wk_loop st), (wk_waker st); lia.
  - intros st' Hr' Hs. apply stalled_returned; [| |exact Hs].
    + apply reachable_noticed. by etransitivity.
    + clear Hr Hs. induction Hr' as [|st1 st2 st3 Hs _ IH]; [done|]. apply IH. by eapply wake_cost_step.
Qed.

(** The race the re-check in [frameReader] closes: the first byte of a frame
    arrives, the closer sets its past deadline, and only then does the frame
    reader extend it. *)
Definition race : list wake_event :=
  [WLoop Nothing; WLoop Nothing; WLoop (Data 3); WQuit; WWaker; WWaker; WLoop Nothing].

Definition wake_run (evs : list wake_event) (st : wakeup) : option wakeup :=
  foldl (fun o ev => o ≫= wake_exec ev) (Some st) evs.

Lemma wake_run_rtc evs st st' : wake_run evs st = Some st' -> rtc wake_step st st'.
Proof.
  unfold wake_run. revert st. induction evs as [|ev evs IH]; intros st; simpl; [by intros [= <-]|].
  destruct (wake_exec ev st) as [st1|] eqn:Hx.
  - intros Hr. eapply rtc_l; [by exists ev|by apply IH].
  - intros Hr. exfalso. revert Hr. clear. by induction evs.
Qed.

Lemma shutdown_wakes_witness :
  exists st, wake_run race asleep = Some st /\ wk_deadline st = Armed /\
    forall st', rtc wake_step st st' -> stalled st' -> wk_loop st' = LReturn.
Proof.
  eexists. split; [vm_compute; reflexivity|]. split; [reflexivity|].
  apply shutdown_wakes; [apply (wake_run_rtc race); vm_compute; reflexivity | reflexivity].
Defined.
