(* ===== verification/System.v ===== *)
(** * The sessions of one virtual SMSC together
      ([acceptLoop] of [internal/smsc/engine.go], [run] and [readLoop] of [session.go])

    Connections are accepted, served and torn down in any order over one shared
    [virtualSMSC].  An iteration of a read loop is one step; [Interleave] lets the
    sessions interleave between its accesses to the registry, the recorder and the
    counters, and [Serialize] shows that this step is enough. *)

From S2P Require Import Prelude.
From S2P Require Import SmppPdu.
From S2P Require Import SmppCodec.
From S2P Require Import SmppCodecThms.
From S2P Require Import SmppFraming.
From S2P Require Import SmppReceipt.
From S2P Require Import Rng.
From S2P Require Import Schedule.
From S2P Require Import Recorder.
From S2P Require Import Config.
From S2P Require Import Fault.
From S2P Require Import Validate.
From S2P Require Import ValidateThms.
From S2P Require Import Scenario.
From S2P Require Import ScenarioThms.
From S2P Require Import Dlr.
From S2P Require Import Close.
From S2P Require Import Binds.
From S2P Require Import VirtualSMSC.
From S2P Require Import EngineSafety.
From S2P Require Import SessionState.
From S2P Require Import Session.
From S2P Require Import SessionRuns.
From S2P Require Import SessionBind.
From S2P Require Import SessionThms.
From S2P Require Import ReadLoop.
From S2P Require Import SessionFrame.
From S2P Require Import Replay.

(** ** What one iteration does to the shared state *)

Section Change.
Context {R : Type} `{RandSource R}.
Implicit Types (w : world R) (pdu : PDU).

(** Nothing but the active profile. *)
Record shared_kept (env : Env) w w' : Prop := {
  sk_smsc : w_smsc w' = set_v_activeProfile (v_activeProfile (w_smsc w')) (w_smsc w);
  sk_id : s_id (w_session w') = s_id (w_session w);
  sk_bound : s_bound (w_session w') = s_bound (w_session w);
  sk_clock : s_perBindClock (w_session w') = s_perBindClock (w_session w);
  sk_state : s_state (w_session w') = s_state (w_session w) \/ s_state (w_session w') = stateClosed
}.

#[export] Instance shared_kept_frame : FrameRel shared_kept.
Proof.
  split.
  - intros env [s [] out c]. split; try done. by left.
  - intros env w1 w2 w3 [A1 A2 A3 A4 A5] [B1 B2 B3 B4 B5]. split; try congruence.
    + by rewrite B1, A1.
    + destruct B5 as [-> | ->]; [done|by right].
  - intros env f [s [] out c] [F1 F2 F3 F4]. split; simpl; auto.
  - intros env p [s [] out c]. split; auto.
  - intros env m [s [] out c] _. split; auto.
  - intros env b k [s [] out c]. split; auto.
  - intros env d [s [] out c]. split; auto.
  - intros env b d [s [] out c]. split; auto.
Qed.

(** An iteration binds, commits one submit, or leaves the shared state alone; the
    record is the one it adds to the journal. *)
Inductive change w w' : option RecordedPDU -> Prop :=
| ChangeNone env : shared_kept env w w' -> change w w' None
| ChangeBind info :
    s_state (w_session w) = stateOpen -> s_state (w_session w') <> stateOpen ->
    v_bindSeq (w_smsc w') = v_bindSeq (w_smsc w) +64 1 ->
    bi_id info = v_bindSeq (w_smsc w') -> v_binds (w_smsc w') = add info (v_binds (w_smsc w)) ->
    v_recorder (w_smsc w') = v_recorder (w_smsc w) ->
    v_logicalClock (w_smsc w') = v_logicalClock (w_smsc w) ->
    s_id (w_session w') = v_bindSeq (w_smsc w') -> s_bound (w_session w') = true ->
    s_perBindClock (w_session w') = s_perBindClock (w_session w) ->
    change w w' None
| ChangeSubmit msg record :
    s_state (w_session w) = stateBound -> s_state (w_session w') <> stateOpen ->
    v_bindSeq (w_smsc w') = v_bindSeq (w_smsc w) -> v_binds (w_smsc w') = v_binds (w_smsc w) ->
    v_logicalClock (w_smsc w') = v_logicalClock (w_smsc w) +64 1 ->
    s_id (w_session w') = s_id (w_session w) -> s_bound (w_session w') = s_bound (w_session w) ->
    s_perBindClock (w_session w') = s_perBindClock (w_session w) +64 1 ->
    record = record_of (s_perBindClock (w_session w'))
      (Dlr.messageID (s_id (w_session w)) (s_perBindClock (w_session w'))) msg ->
    Append record (v_recorder (w_smsc w)) = Ok (v_recorder (w_smsc w')) ->
    change w w' (Some record).

Lemma change_kept env w w' : shared_kept env w w' -> exists log, change w w' log.
Proof. intros Hk. exists None. by econstructor. Qed.

(** Updates around a change. *)
Lemma change_modify f w w' log :
  benign f -> (forall s, s_state (f s) = s_state s) -> change (upd f w) w' log -> change w w' log.
Proof.
  intros Hf Hs Hc. pose proof (bg_id _ Hf (w_session w)) as E1. pose proof (bg_bound _ Hf (w_session w)) as E2.
  pose proof (bg_clock _ Hf (w_session w)) as E3. pose proof (Hs (w_session w)) as E4.
  destruct Hc as [env Hk|info|msg record].
  - apply ChangeNone with env. eapply frame_trans; [by apply frame_modify|exact Hk].
  - apply ChangeBind with info; try done; simpl in *; congruence.
  - simpl in *. apply ChangeSubmit with msg; try done; simpl in *; congruence.
Qed.

Lemma handleBind_change pdu env w w' : handleBind pdu env w = Ok ((), w') -> exists log, change w w' log.
Proof.
  intros Hx. pose proof (handleBind_run pdu env w) as Hrun.
  destruct (judge_bind w pdu) as [| | |b|b] eqn:Hj.
  5: destruct Hrun as (r & _ & Hrun).
  all: rewrite Hrun in Hx; injection Hx as <-.
  1-4: apply (change_kept env); destruct w as [s [] out c]; split; simpl; auto.
  exists None. apply ChangeBind with (mkBindInfo (v_bindSeq (w_smsc w) +64 1) (Bind_SystemID b)
    (bindKind (PDU_CommandID pdu)).1 (env_now env)); [|done..]. apply (judge_bind_open w pdu). by rewrite Hj.
Qed.

Lemma handleSubmit_change pdu env w w' :
  world_safe w -> handleSubmit pdu env w = Ok ((), w') -> exists log, change w w' log.
Proof.
  intros Hs Hx. destruct (submit_refusal (w_session w) pdu) as [status|] eqn:Href.
  { rewrite (submit_refusal_run _ _ _ _ Href) in Hx. injection Hx as <-. apply (change_kept env).
    destruct w as [s [] out c]. split; auto. }
  apply submit_refusal_None in Href as (Hst & Hcan & msg & Hb).
  destruct (handleSubmit_step pdu msg env w Hs Hst Hcan Hb) as (d & e & st & st' & w1 & _ & _ & Hrun & Hr).
  rewrite Hrun in Hx. injection Hx as ->. destruct (abandoned env d).
  - destruct Hr as (w1 & [Hv Hse _ _ _] & ->). apply (change_kept env).
    split; simpl; [exact Hv|by rewrite Hse..|by right].
  - pose proof (sr_kept _ _ _ _ _ _ _ _ _ _ Hr) as Hk. eexists (Some _). eapply ChangeSubmit with (msg := msg); try done;
      try apply Hk; try apply Hr.
    + rewrite (sr_state _ _ _ _ _ _ _ _ _ _ Hr). by destruct (_ || _).
    + rewrite (sr_clock _ _ _ _ _ _ _ _ _ _ Hr). apply Hr.
Qed.

Lemma handle_change pdu env w w' :
  world_safe w -> handle pdu env w = Ok ((), w') -> exists log, change w w' log.
Proof.
  intros Hs. unfold handle. case_bool_decide; [apply handleBind_change|].
  destruct (_ =? SubmitSM); [by apply handleSubmit_change|].
  intros Hx. apply (change_kept env). revert Hx.
  match goal with |- ?m env w = _ -> _ => assert (respects shared_kept m) as Hm end; [respect|].
  apply Hm.
Qed.

Lemma handleFrame_change frame env w goon w' :
  world_safe w -> handleFrame frame env w = Ok (goon, w') -> exists log, change w w' log.
Proof.
  intros Hs. unfold handleFrame. rewrite modify_run.
  set (w1 := upd (fun s => set_s_pdusRead (s_pdusRead s +64 1) s) w).
  assert (world_safe w1) as Hs1 by (by apply upd_pdusRead_safe).
  assert (forall log, change w1 w' log -> change w w' log) as Hup.
  { intros log. apply change_modify; [prove_benign|done]. }
  destruct (Decode frame) as [pdu|err|]; [| |done].
  - destruct (handle_safe pdu env w1 Hs1) as (w2 & Hrun & _). erewrite M_bind_run by exact Hrun. rewrite gets_run.
    intros [= _ <-]. destruct (handle_change pdu env w1 w2 Hs1 Hrun) as [log Hc]. exists log. by apply Hup.
  - intros Hx. assert (respects shared_kept (rejectMalformed frame err;; mret true)) as Hm by respect.
    destruct (change_kept env w1 w' (Hm _ _ _ _ Hx)) as [log Hc]. exists log. by apply Hup.
Qed.

Lemma readLoop_iter_change re c w r w' :
  looping w -> readLoop_iter re c (re_env re) w = Ok (r, w') -> exists log, change w w' log.
Proof.
  intros [Hs Hst]. unfold readLoop_iter. erewrite M_bind_run by apply armReadDeadline_run.
  set (arm := set_s_readDeadline (armed (re_armNow re) w)).
  assert (forall log, change (upd arm w) w' log -> change w w' log) as Hup.
  { intros log. apply change_modify; [prove_benign|done]. }
  assert (world_safe (upd arm w)) as Hs1 by (by apply upd_deadline_safe).
  generalize dependent (upd arm w). intros w1 Hup Hs1.
  destruct (re_quitBefore re).
  { intros Hx. assert (respects shared_kept (closeWith reasonShutdown None;; mret (A := option conn) None)) as Hm by respect.
    destruct (change_kept _ w1 w' (Hm _ _ _ _ Hx)) as [log Hc]. exists log. by apply Hup. }
  destruct (ReadPDU c) as [res c'].
  assert (exists w2, when (starts c) (extendDeadline (re_frameNow re)) (re_env re) w1 = Ok ((), w2) /\ world_safe w2 /\
    forall log, change w2 w' log -> change w1 w' log) as (w2 & Hw2 & Hs2 & Hup2).
  { unfold when. destruct (starts c); [|by exists w1]. eexists. split; [reflexivity|].
    split; [by apply upd_deadline_safe|]. intros log. apply change_modify; [prove_benign|done]. }
  erewrite M_bind_run by exact Hw2. intros Hx.
  assert (exists log, change w2 w' log) as [log Hc]; [|exists log; by apply Hup, Hup2].
  destruct res as [frame|err|]; [| |done].
  - destruct (handleFrame frame (re_env re) w2) as [[goon w3]| |] eqn:Hf; unfold mbind, M_bind in Hx; rewrite Hf in Hx;
      [|done..]. injection Hx as _ <-. by eapply handleFrame_change.
  - apply (change_kept (re_env re)).
    match type of Hx with ?m (re_env re) w2 = _ => assert (respects shared_kept m) as Hm by respect end.
    by apply (Hm _ _ _ _ Hx).
Qed.

End Change.

(** ** The sessions and what they share *)

Record client (R : Type) := mkClient {
  c_session : session R;
  c_out : list effect;
  c_nextChan : chan;
  c_conn : option conn      (* None once the read loop has returned *)
}.
Arguments mkClient {R}. Arguments c_session {R}. Arguments c_out {R}. Arguments c_nextChan {R}.
Arguments c_conn {R}.

(** The journal is every record ever appended; the recorder retains its last ones. *)
Record system (R : Type) := mkSystem {
  y_smsc : virtualSMSC;
  y_clients : gmap nat (client R);
  y_journal : list RecordedPDU
}.
Arguments mkSystem {R}. Arguments y_smsc {R}. Arguments y_clients {R}. Arguments y_journal {R}.

Inductive sys_event :=
| Accept (k : nat) (now : Z) (c : conn)   (* acceptLoop: a new connection [k] *)
| Serve (k : nat) (re : ReadEnv)          (* one iteration of its read loop *)
| Release (k : nat).                      (* the teardown of [run] deregisters it *)

Section System.
Context {R : Type} `{RandSource R} (capacity : Z).
Implicit Types (y : system R) (c : client R) (v : virtualSMSC).

Definition client_world v c : world R := mkWorld (c_session c) v (c_out c) (c_nextChan c).

Definition client_of (w : world R) (conn : option conn) : client R :=
  mkClient (w_session w) (w_out w) (w_nextChan w) conn.

(** [None]: the event is not possible. *)
Definition sys_exec (ev : sys_event) y : may_panic (option (system R)) :=
  let '(mkSystem v clients journal) := y in
  match ev with
  | Accept k now conn =>
      match clients !! k with
      | Some _ => Ok None
      | None => Ok (Some (mkSystem v (<[k := mkClient (newSession v now) [] 0 (Some conn)]> clients) journal))
      end
  | Serve k re =>
      match clients !! k with
      | Some c =>
          match c_conn c with
          | Some conn =>
              let* r := readLoop_iter re conn (re_env re) (client_world v c) in
              Ok (Some (mkSystem (w_smsc r.2) (<[k := client_of r.2 r.1]> clients)
                          (journal ++ option_list (newRecord (v_recorder v) (v_recorder (w_smsc r.2))))))
          | None => Ok None
          end
      | None => Ok None
      end
  | Release k =>
      match clients !! k with
      | Some c =>
          match c_conn c with
          | None => Ok (Some (mkSystem (set_v_binds (remove (s_id (c_session c)) (v_binds v)) v)
                                (delete k clients) journal))
          | Some _ => Ok None
          end
      | None => Ok None
      end
  end.

Definition sys_step y y' : Prop := exists ev, sys_exec ev y = Ok (Some y').

Definition sys_boot (cfg : VirtualSMSCConfig) : system R := mkSystem (newVirtualSMSC cfg).1 ∅ [].

(** ** Well-formed systems *)

Definition is_registered c : Prop := s_bound (c_session c) = true.

(** A session in the system, after [n] steps. *)
Record client_ok (n : Z) v c : Prop := {
  co_safe : session_safe (c_session c);
  co_running : is_Some (c_conn c) -> s_state (c_session c) <> stateClosed;
  co_open : s_state (c_session c) = stateOpen -> ~ is_registered c;
  co_bound : s_state (c_session c) = stateBound -> is_registered c;
  co_free : ~ is_registered c -> s_id (c_session c) = 0;
  co_registered : is_registered c -> 1 <= s_id (c_session c) <= v_bindSeq v /\
    is_Some (binds (v_binds v) !! s_id (c_session c));
  co_clock : 0 <= s_perBindClock (c_session c) <= n
}.

(** A record names the bind and the tick it was minted at. *)
Definition minted (n : Z) v (clients : gmap nat (client R)) (r : RecordedPDU) : Prop :=
  exists id, 1 <= id <= v_bindSeq v /\ 1 <= Rec_PerBindClock r <= n /\
    Rec_MessageID r = Dlr.messageID id (Rec_PerBindClock r) /\
    forall k c, clients !! k = Some c -> is_registered c -> s_id (c_session c) = id ->
      Rec_PerBindClock r <= s_perBindClock (c_session c).

Record system_ok (n : Z) y : Prop := {
  so_smsc : smsc_safe (y_smsc y);
  so_clients : forall k c, y_clients y !! k = Some c -> client_ok n (y_smsc y) c;
  so_distinct : forall k1 k2 c1 c2, y_clients y !! k1 = Some c1 -> y_clients y !! k2 = Some c2 ->
    is_registered c1 -> is_registered c2 -> s_id (c_session c1) = s_id (c_session c2) -> k1 = k2;
  so_registry : forall id info, binds (v_binds (y_smsc y)) !! id = Some info -> bi_id info = id /\
    exists k c, y_clients y !! k = Some c /\ is_registered c /\ s_id (c_session c) = id;
  so_seq : 0 <= v_bindSeq (y_smsc y) <= n;
  so_journal : len (y_journal y) <= n;
  so_logical : v_logicalClock (y_smsc y) = len (y_journal y);
  so_total : total (v_recorder (y_smsc y)) = len (y_journal y);
  so_recorder : append_all (y_journal y) (Recorder.New capacity) = Ok (v_recorder (y_smsc y));
  so_minted : forall r, r ∈ y_journal y -> minted n (y_smsc y) (y_clients y) r;
  so_unique : NoDup (Rec_MessageID <$> y_journal y)
}.

Lemma sys_boot_ok cfg :
  capacity = VS_PDUBufferSize cfg -> scenario_ok (VS_Scenario cfg) -> scenario_typed (VS_Scenario cfg) ->
  system_ok 0 (sys_boot cfg).
Proof.
  intros Hcap Ho Ht. split; simpl; try done; try lia.
  - by apply newVirtualSMSC_safe.
  - by rewrite Hcap.
  - intros r Hr. by apply elem_of_nil in Hr.
  - apply NoDup_nil_2.
Qed.

(** More binds and steps keep the others well formed. *)
Lemma client_ok_mono n n' v v' c :
  client_ok n v c -> n <= n' -> v_bindSeq v <= v_bindSeq v' ->
  (forall id, is_registered c -> id = s_id (c_session c) ->
    is_Some (binds (v_binds v) !! id) -> is_Some (binds (v_binds v') !! id)) ->
  client_ok n' v' c.
Proof.
  intros [H1 H2 H3 H4 H5 H6 H7] Hn Hs Hb. split; try done; [|lia].
  intros Hr. destruct (H6 Hr) as [? ?]. split; [lia|]. by apply Hb.
Qed.

Lemma accept_ok n k now conn y y' :
  system_ok n y -> sys_exec (Accept k now conn) y = Ok (Some y') -> system_ok (n + 1) y'.
Proof.
  destruct y as [v clients journal]. intros [S1 S2 S3 S4 S5 S6 S7 S8 S11 S9 S10]. simpl.
  destruct (clients !! k) eqn:Hk; [done|]. intros [= <-]. simpl in *.
  assert (forall c, <[k:=mkClient (newSession (R := R) v now) [] 0 (Some conn)]> clients !! k = Some c ->
    ~ is_registered c) as Hnew.
  { intros c. rewrite lookup_insert_eq. by intros [= <-]. }
  assert (forall k' c, <[k:=mkClient (newSession (R := R) v now) [] 0 (Some conn)]> clients !! k' = Some c ->
    is_registered c -> clients !! k' = Some c) as Hold.
  { intros k' c Hc Hr. destruct (decide (k = k')) as [<-|]; [by destruct (Hnew c Hc)|].
    by rewrite lookup_insert_ne in Hc. }
  split; simpl; try done; try lia.
  - intros k' c Hc. destruct (decide (k = k')) as [<-|].
    + rewrite lookup_insert_eq in Hc. injection Hc as <-. split; simpl; try done; try lia.
    + rewrite lookup_insert_ne in Hc by done. eapply client_ok_mono; [by eapply S2|lia|lia|by intros].
  - intros k1 k2 c1 c2 H1 H2 R1 R2. eapply S3; eauto.
  - intros id info Hi. destruct (S4 id info Hi) as (Hid & k' & c & Hc & Hr & Hs). split; [done|].
    exists k', c. rewrite lookup_insert_ne; [done|]. intros ->. congruence.
  - intros r (id & A1 & A2 & A3 & A4)%S9. exists id. split_and!; [lia..|done|]. intros k' c Hc Hr. eapply A4; eauto.
Qed.

Lemma release_ok n k y y' :
  system_ok n y -> sys_exec (Release k) y = Ok (Some y') -> system_ok (n + 1) y'.
Proof.
  destruct y as [v clients journal]. intros [S1 S2 S3 S4 S5 S6 S7 S8 S11 S9 S10]. simpl.
  destruct (clients !! k) as [c|] eqn:Hk; [|done]. destruct (c_conn c) eqn:Hconn; [done|]. intros [= <-]. simpl in *.
  pose proof (S2 _ _ Hk) as Hc.
  split; simpl; try done; try lia.
  - by destruct S1.
  - intros k' c' (Hne & Hc')%lookup_delete_Some. eapply client_ok_mono; [by eapply S2|lia|simpl; lia|].
    intros id Hr -> Hb. simpl. rewrite lookup_delete_ne; [done|]. intros Heq.
    destruct (decide (is_registered c)) as [Hrc|Hrc].
    + by destruct (Hne (S3 _ _ _ _ Hk Hc' Hrc Hr Heq)).
    + rewrite (co_free _ _ _ Hc Hrc) in Heq. pose proof (co_registered _ _ _ (S2 _ _ Hc') Hr). lia.
  - intros k1 k2 c1 c2 (_ & H1)%lookup_delete_Some (_ & H2)%lookup_delete_Some. by eapply S3.
  - intros id info (Hne & Hi)%lookup_delete_Some. destruct (S4 id info Hi) as (Hid & k' & c' & Hc' & Hr & Hs).
    split; [done|]. exists k', c'. rewrite lookup_delete_ne; [done|]. intros ->. congruence.
  - intros r (id & A1 & A2 & A3 & A4)%S9. exists id. split_and!; [simpl; lia..|done|].
    intros k' c' (_ & Hc')%lookup_delete_Some. by eapply A4.
Qed.

(** Two submits never mint the same id. *)
Lemma messageID_inj id tick id' tick' :
  is_u64 id -> is_u64 tick -> is_u64 id' -> is_u64 tick' ->
  Dlr.messageID id tick = Dlr.messageID id' tick' -> id = id' /\ tick = tick'.
Proof.
  intros H1 H2 H3 H4 Heq. apply (f_equal parse_messageID) in Heq.
  rewrite !parse_messageID_messageID in Heq by done. by injection Heq.
Qed.

(** ** One session moves and the shared state follows *)
Section Update.
Context (n : Z) (k : nat) (v v' : virtualSMSC) (clients : gmap nat (client R)) (c c' : client R)
  (journal : list RecordedPDU) (log : option RecordedPDU).

Hypothesis Hok : system_ok n (mkSystem v clients journal).
Hypothesis Hn : n + 1 < 2 ^ 64.
Hypothesis Hk : clients !! k = Some c.
Hypothesis Hv' : smsc_safe v'.
Hypothesis Hc' : client_ok (n + 1) v' c'.
Hypothesis Hseq : v_bindSeq v <= v_bindSeq v' <= n + 1.
Hypothesis Hmono : forall id, is_Some (binds (v_binds v) !! id) -> is_Some (binds (v_binds v') !! id).
Hypothesis Hreg : forall id info, binds (v_binds v') !! id = Some info ->
  binds (v_binds v) !! id = Some info \/ bi_id info = id /\ is_registered c' /\ s_id (c_session c') = id.
Hypothesis Hcont : is_registered c -> is_registered c' /\ s_id (c_session c') = s_id (c_session c) /\
  s_perBindClock (c_session c) <= s_perBindClock (c_session c').
Hypothesis Hfresh : is_registered c' -> ~ is_registered c -> v_bindSeq v < s_id (c_session c').
Hypothesis Hlog : forall r, log = Some r -> is_registered c /\
  s_perBindClock (c_session c') = s_perBindClock (c_session c) + 1 /\
  Rec_PerBindClock r = s_perBindClock (c_session c') /\
  Rec_MessageID r = Dlr.messageID (s_id (c_session c)) (s_perBindClock (c_session c')).

(** The client at [k1] after the move: the one that moved, or one that was there. *)
Lemma moved_lookup k1 c1 : <[k := c']> clients !! k1 = Some c1 ->
  k1 = k /\ c1 = c' \/ k1 <> k /\ clients !! k1 = Some c1.
Proof. intros [[<- <-]|[? ?]]%lookup_insert_Some; auto. Qed.

Lemma old_client k1 c1 : clients !! k1 = Some c1 -> client_ok n v c1.
Proof. apply (so_clients _ _ Hok). Qed.

(** No other client holds the id of the one that moved. *)
Lemma moved_alone k1 c1 :
  clients !! k1 = Some c1 -> is_registered c1 -> is_registered c' ->
  s_id (c_session c1) = s_id (c_session c') -> k1 = k.
Proof.
  intros H1 R1 R' I1. destruct (decide (is_registered c)) as [Rc|Rc].
  - destruct (Hcont Rc) as (_ & I2 & _). apply (so_distinct _ _ Hok _ _ _ _ H1 Hk R1 Rc). congruence.
  - specialize (Hfresh R' Rc). pose proof (co_registered _ _ _ (old_client _ _ H1) R1). lia.
Qed.

Lemma moved_registry id info :
  binds (v_binds v') !! id = Some info -> bi_id info = id /\
  exists k1 c1, <[k := c']> clients !! k1 = Some c1 /\ is_registered c1 /\ s_id (c_session c1) = id.
Proof.
  intros Hi. destruct (Hreg id info Hi) as [Hold|(Hbi & Hr & Hs)].
  - destruct (so_registry _ _ Hok _ _ Hold) as (Hbi & k1 & c1 & H1 & R1 & I1). simpl in H1. split; [done|].
    destruct (decide (k = k1)) as [<-|Hne]; [|exists k1, c1; by rewrite lookup_insert_ne].
    exists k, c'. rewrite lookup_insert_eq. replace c1 with c in * by congruence.
    destruct (Hcont R1) as (? & ? & _). split_and!; [done..|congruence].
  - split; [done|]. exists k, c'. by rewrite lookup_insert_eq.
Qed.

(** The records already there stay minted, since no clock moves back. *)
Lemma moved_minted_old r : r ∈ journal -> minted (n + 1) v' (<[k := c']> clients) r.
Proof.
  intros Hr. destruct (so_minted _ _ Hok r Hr) as (id & A1 & A2 & A3 & A4). simpl in A1, A4.
  exists id. split_and!; [lia..|done|]. intros k1 c1 [[-> ->]|[_ H1]]%moved_lookup R1 I1; [|by eapply A4].
  destruct (decide (is_registered c)) as [Rc|Rc].
  - destruct (Hcont Rc) as (_ & I2 & Hcl). specialize (A4 k c Hk Rc ltac:(congruence)). lia.
  - specialize (Hfresh R1 Rc). lia.
Qed.

Lemma moved_minted_new r : log = Some r -> minted (n + 1) v' (<[k := c']> clients) r.
Proof.
  intros Hl. destruct (Hlog r Hl) as (Rc & Hcl & Ht & Hm). destruct (Hcont Rc) as (R' & I' & _).
  pose proof (old_client _ _ Hk) as Hc.
  pose proof (co_registered _ _ _ Hc Rc) as [Hid1 _]. pose proof (co_clock _ _ _ Hc).
  exists (s_id (c_session c)). rewrite Ht. split_and!; [lia..|done|].
  intros k1 c1 [[-> ->]|[Hne H1]]%moved_lookup R1 I1; [lia|]. destruct Hne.
  apply (moved_alone k1 c1); congruence.
Qed.

(** A record's id is its bind's and its tick's: the tick is past every earlier one. *)
Lemma moved_unique r : log = Some r -> Rec_MessageID r ∉ Rec_MessageID <$> journal.
Proof.
  intros Hl (r1 & Hm & Hr)%list_elem_of_fmap. destruct (Hlog r Hl) as (Rc & Hcl & Ht & Hmr).
  destruct (so_minted _ _ Hok r1 Hr) as (id & A1 & A2 & A3 & A4). simpl in A1, A4. rewrite A3, Hmr in Hm.
  pose proof (so_seq _ _ Hok) as Hs. simpl in Hs. pose proof (old_client _ _ Hk) as Hc.
  pose proof (co_registered _ _ _ Hc Rc) as [Hid1 _]. pose proof (co_clock _ _ _ Hc).
  apply messageID_inj in Hm as [<- Htick]; unfold is_u64; try lia.
  specialize (A4 k c Hk Rc eq_refl). lia.
Qed.

Lemma update_ok :
  v_logicalClock v' = len (journal ++ option_list log) ->
  total (v_recorder v') = len (journal ++ option_list log) ->
  append_all (journal ++ option_list log) (Recorder.New capacity) = Ok (v_recorder v') ->
  system_ok (n + 1) (mkSystem v' (<[k := c']> clients) (journal ++ option_list log)).
Proof.
  intros Hlc Htot Hrec. split; simpl; try done.
  - intros k1 c1 [[-> ->]|[_ H1]]%moved_lookup; [done|].
    eapply client_ok_mono; [by apply (old_client k1)|lia|lia|]. intros id _ _. apply Hmono.
  - intros k1 k2 c1 c2 [[-> ->]|[_ H1]]%moved_lookup [[-> ->]|[_ H2]]%moved_lookup R1 R2 I; [done| | |].
    + symmetry. by eapply moved_alone.
    + by eapply moved_alone.
    + by apply (so_distinct _ _ Hok k1 k2 c1 c2).
  - apply moved_registry.
  - pose proof (so_seq _ _ Hok) as Hs. simpl in Hs. lia.
  - pose proof (so_journal _ _ Hok) as Hj. simpl in Hj. rewrite length_app. destruct log; simpl; lia.
  - intros r [Hr|Hr]%elem_of_app; [by apply moved_minted_old|]. apply moved_minted_new.
    destruct log; [by apply list_elem_of_singleton in Hr as ->|by apply elem_of_nil in Hr].
  - pose proof (so_unique _ _ Hok) as Hu. pose proof moved_unique as Hnew. simpl in Hu.
    destruct log as [r|]; simpl; [|by rewrite app_nil_r].
    rewrite fmap_app. apply NoDup_app. split_and!; [done| |apply NoDup_singleton].
    intros m Hm ->%list_elem_of_singleton. by apply (Hnew r eq_refl).
Qed.

End Update.

(** A served session stays well formed. *)
Lemma served_client n v c w' conn :
  client_ok n v c -> world_safe w' -> (is_Some conn -> s_state (w_session w') <> stateClosed) ->
  (s_state (w_session w') = stateOpen -> s_bound (w_session w') <> true) ->
  (s_state (w_session w') = stateBound -> s_bound (w_session w') = true) ->
  (s_bound (w_session w') <> true -> s_id (w_session w') = 0) ->
  (s_bound (w_session w') = true -> 1 <= s_id (w_session w') <= v_bindSeq (w_smsc w') /\
    is_Some (binds (v_binds (w_smsc w')) !! s_id (w_session w'))) ->
  s_perBindClock (c_session c) <= s_perBindClock (w_session w') <= s_perBindClock (c_session c) + 1 ->
  client_ok (n + 1) (w_smsc w') (client_of w' conn).
Proof.
  intros Hc [_ Hs] H1 H2 H3 H4 H5 H6. pose proof (co_clock _ _ _ Hc).
  split; unfold is_registered; simpl; try done. lia.
Qed.

Lemma u64_succ_small x n : 0 <= x <= n -> n + 1 < 2 ^ 64 -> x +64 1 = x + 1.
Proof. intros Hx Hn. apply u64_small. unfold is_u64. lia. Qed.

(** ** One iteration of a read loop *)
Section Served.
Context (n : Z) (k : nat) (c : client R) (conn : option conn) (w' : world R) (v : virtualSMSC)
  (clients : gmap nat (client R)) (journal : list RecordedPDU).

Hypothesis Hok : system_ok n (mkSystem v clients journal).
Hypothesis Hn : n + 1 < 2 ^ 64.
Hypothesis Hk : clients !! k = Some c.
Hypothesis Hs : world_safe w'.
Hypothesis Hrun : is_Some conn -> s_state (w_session w') <> stateClosed.

Definition served (log : option RecordedPDU) : system R :=
  mkSystem (w_smsc w') (<[k := client_of w' conn]> clients) (journal ++ option_list log).

Lemma served_none env : shared_kept env (client_world v c) w' -> system_ok (n + 1) (served None).
Proof.
  intros [E1 E2 E3 E4 E5]. simpl in *. pose proof (so_clients _ _ Hok k c Hk) as Hc. simpl in Hc.
  pose proof (so_seq _ _ Hok) as Hseq. pose proof (so_logical _ _ Hok) as Hlog. pose proof (so_total _ _ Hok) as Htot.
  pose proof (so_recorder _ _ Hok) as Hrec. simpl in Hseq, Hlog, Htot, Hrec.
  assert (v_bindSeq (w_smsc w') = v_bindSeq v /\ v_binds (w_smsc w') = v_binds v /\
      v_logicalClock (w_smsc w') = v_logicalClock v /\ v_recorder (w_smsc w') = v_recorder v) as (F1 & F2 & F3 & F4)
      by (rewrite E1; done).
  eapply (update_ok n k v _ clients c _ journal None Hok Hn Hk); simpl; rewrite ?F1, ?F2, ?F3, ?F4, ?app_nil_r; try done;
    unfold is_registered; simpl; rewrite ?E2, ?E3, ?E4; try (by auto); try lia.
  - apply Hs.
  - eapply served_client; [exact Hc|exact Hs|exact Hrun|..]; rewrite ?E2, ?E3, ?E4, ?F1, ?F2; try lia.
    + intros Ho. destruct E5 as [E5|E5]; [|congruence]. rewrite E5 in Ho. by apply (co_open _ _ _ Hc).
    + intros Ho. destruct E5 as [E5|E5]; [|congruence]. rewrite E5 in Ho. by apply (co_bound _ _ _ Hc).
    + apply (co_free _ _ _ Hc).
    + apply (co_registered _ _ _ Hc).
Qed.

Lemma served_bind info :
  s_state (c_session c) = stateOpen -> s_state (w_session w') <> stateOpen ->
  v_bindSeq (w_smsc w') = v_bindSeq v +64 1 ->
  bi_id info = v_bindSeq (w_smsc w') -> v_binds (w_smsc w') = add info (v_binds v) ->
  v_recorder (w_smsc w') = v_recorder v -> v_logicalClock (w_smsc w') = v_logicalClock v ->
  s_id (w_session w') = v_bindSeq (w_smsc w') -> s_bound (w_session w') = true ->
  s_perBindClock (w_session w') = s_perBindClock (c_session c) ->
  system_ok (n + 1) (served None).
Proof.
  intros A1 A2 A3 A4 A5 A6 A7 A8 A9 A10. pose proof (so_clients _ _ Hok k c Hk) as Hc. simpl in Hc.
  pose proof (so_seq _ _ Hok) as Hseq. pose proof (so_logical _ _ Hok) as Hlog. pose proof (so_total _ _ Hok) as Htot.
  pose proof (so_recorder _ _ Hok) as Hrec. simpl in Hseq, Hlog, Htot, Hrec.
  pose proof (co_clock _ _ _ Hc) as Hclk. pose proof (co_open _ _ _ Hc A1) as Hnr.
  rewrite (u64_succ_small _ n) in A3 by lia.
  eapply (update_ok n k v _ clients c _ journal None Hok Hn Hk); simpl; rewrite ?A5, ?A6, ?A7, ?app_nil_r; try done;
    unfold is_registered; simpl; try lia.
  - apply Hs.
  - eapply served_client; [exact Hc|exact Hs|exact Hrun|..]; rewrite ?A8, ?A9, ?A10; try done; try lia.
    intros _. split; [lia|]. rewrite A5. simpl. rewrite A4, lookup_insert_eq. by eexists.
  - intros id Hid. destruct (decide (bi_id info = id)) as [<-|]; [rewrite lookup_insert_eq; by eexists|by rewrite lookup_insert_ne].
  - intros id info' Hi. destruct (decide (bi_id info = id)) as [<-|].
    + rewrite lookup_insert_eq in Hi. injection Hi as <-. right. split; [done|]. split; [done|]. congruence.
    + left. by rewrite lookup_insert_ne in Hi.
Qed.

Lemma served_submit msg record :
  s_state (c_session c) = stateBound -> s_state (w_session w') <> stateOpen ->
  v_bindSeq (w_smsc w') = v_bindSeq v -> v_binds (w_smsc w') = v_binds v ->
  v_logicalClock (w_smsc w') = v_logicalClock v +64 1 ->
  s_id (w_session w') = s_id (c_session c) -> s_bound (w_session w') = s_bound (c_session c) ->
  s_perBindClock (w_session w') = s_perBindClock (c_session c) +64 1 ->
  record = record_of (s_perBindClock (w_session w'))
    (Dlr.messageID (s_id (c_session c)) (s_perBindClock (w_session w'))) msg ->
  Append record (v_recorder v) = Ok (v_recorder (w_smsc w')) ->
  system_ok (n + 1) (served (Some record)).
Proof.
  intros A1 A2 A3 A4 A5 A6 A7 A8 A9 A10. pose proof (so_clients _ _ Hok k c Hk) as Hc. simpl in Hc.
  pose proof (so_seq _ _ Hok) as Hseq. pose proof (so_logical _ _ Hok) as Hlog. pose proof (so_total _ _ Hok) as Htot.
  pose proof (so_journal _ _ Hok) as Hj. pose proof (so_recorder _ _ Hok) as Hrec.
  pose proof (so_smsc _ _ Hok) as [Hring _ _]. simpl in Hseq, Hlog, Htot, Hj, Hring, Hrec.
  pose proof (co_clock _ _ _ Hc) as Hclk. pose proof (co_bound _ _ _ Hc A1) as Hr. unfold is_registered in Hr.
  rewrite (u64_succ_small _ n) in A5 by lia. rewrite (u64_succ_small _ n) in A8 by lia.
  destruct (Append_total record _ Hring) as (r' & Ha & _ & Hrt). rewrite A10 in Ha. injection Ha as <-.
  rewrite (u64_succ_small _ n) in Hrt by lia.
  eapply (update_ok n k v _ clients c _ journal (Some record) Hok Hn Hk); simpl; rewrite ?A3, ?A4, ?A5, ?Hrt, ?length_app;
    unfold is_registered; simpl; rewrite ?A6, ?A7, ?A8; try done; try lia; try (by auto).
  - apply Hs.
  - eapply served_client; [exact Hc|exact Hs|exact Hrun|..]; rewrite ?A6, ?A7, ?A8, ?A3, ?A4; try done; try lia.
    apply (co_registered _ _ _ Hc).
  - intros _. split_and!; [done..|lia].
  - intros r [= <-]. rewrite A9. by rewrite <- A8.
  - by rewrite append_all_snoc, Hrec.
Qed.

Lemma serve_change_ok log :
  change (client_world v c) w' log ->
  system_ok (n + 1) (served (newRecord (v_recorder v) (v_recorder (w_smsc w')))).
Proof.
  intros Hch. assert (newRecord (v_recorder v) (v_recorder (w_smsc w')) = log) as ->.
  { pose proof (so_smsc _ _ Hok) as [Hring _ _]. simpl in Hring. transitivity (set_Index 0 <$> log).
    - apply newRecord_journaled; [done|]. unfold journaled.
      destruct Hch as [env [E _ _ _ _]|info|msg record]; simpl in *; [by rewrite E|done|done].
    - destruct Hch as [| |msg record _ _ _ _ _ _ _ _ ->]; done. }
  destruct Hch; [by eapply served_none|by eapply served_bind|by eapply served_submit].
Qed.

End Served.

Lemma serve_ok n k re y y' :
  system_ok n y -> n + 1 < 2 ^ 64 -> sys_exec (Serve k re) y = Ok (Some y') -> system_ok (n + 1) y'.
Proof.
  destruct y as [v clients journal]. intros Hok Hn. simpl.
  destruct (clients !! k) as [c|] eqn:Hk; [|done]. destruct (c_conn c) as [conn|] eqn:Hconn; [|done].
  pose proof (so_clients _ _ Hok k c Hk) as Hc.
  assert (looping (client_world v c)) as Hl.
  { split; [split; [apply (so_smsc _ _ Hok)|apply Hc]|]. apply (co_running _ _ _ Hc). by eexists. }
  destruct (readLoop_iter_ok re conn _ Hl) as (r & w' & Hrun & Hres). rewrite Hrun. simpl. intros [= <-].
  destruct (readLoop_iter_change re conn _ r w' Hl Hrun) as [log Hch].
  eapply serve_change_ok; [exact Hok|done|exact Hk| | |exact Hch].
  - destruct r; [apply Hres|]. by destruct Hres.
  - destruct r; [|by intros []]. intros _. apply Hres.
Qed.

Lemma sys_step_ok n y y' : system_ok n y -> n + 1 < 2 ^ 64 -> sys_step y y' -> system_ok (n + 1) y'.
Proof.
  intros Hok Hn [[k now conn|k re|k] Hx]; [by eapply accept_ok|by eapply serve_ok|by eapply release_ok].
Qed.

Lemma sys_reachable_ok m n y y' :
  system_ok m y -> nsteps sys_step n y y' -> m + Z.of_nat n < 2 ^ 64 -> system_ok (m + Z.of_nat n) y'.
Proof.
  intros Hok Hs. revert m Hok. induction Hs as [|n y1 y2 y3 Hs _ IH]; intros m Hok Hn; [by rewrite Z.add_0_r|].
  replace (m + Z.of_nat (S n)) with (m + 1 + Z.of_nat n) by lia. apply IH; [|lia].
  eapply sys_step_ok; [exact Hok|lia|exact Hs].
Qed.

(** No event makes a well-formed system panic. *)
Lemma sys_exec_total n y ev : system_ok n y -> exists o, sys_exec ev y = Ok o.
Proof.
  destruct y as [v clients journal]. intros Hok. destruct ev as [k now conn|k re|k]; simpl.
  - destruct (clients !! k); by eexists.
  - destruct (clients !! k) as [c|] eqn:Hk; [|by eexists]. destruct (c_conn c) as [conn|] eqn:Hconn; [|by eexists].
    pose proof (so_clients _ _ Hok k c Hk) as Hc.
    assert (looping (client_world v c)) as Hl.
    { split; [split; [apply (so_smsc _ _ Hok)|apply Hc]|]. apply (co_running _ _ _ Hc). by eexists. }
    destruct (readLoop_iter_ok re conn _ Hl) as (r & w' & Hrun & _). rewrite Hrun. by eexists.
  - destruct (clients !! k) as [c|]; [|by eexists]. destruct (c_conn c); by eexists.
Qed.

End System.

(** ** The claims *)

Definition registered_clients {R} (y : system R) : list (nat * client R) :=
  base.filter (fun kc => s_bound (c_session kc.2) = true) (map_to_list (y_clients y)).

Lemma elem_of_registered {R} (y : system R) k c :
  (k, c) ∈ registered_clients y <-> y_clients y !! k = Some c /\ is_registered c.
Proof. unfold registered_clients. rewrite list_elem_of_filter, elem_of_map_to_list. simpl. tauto. Qed.

(** The registry and the registered sessions are in bijection. *)
Lemma registry_permutation {R} capacity n (y : system R) :
  system_ok capacity n y ->
  (map_to_list (binds (v_binds (y_smsc y)))).*1 ≡ₚ (fun kc => s_id (c_session kc.2)) <$> registered_clients y.
Proof.
  intros Hok. apply NoDup_Permutation.
  - apply NoDup_fst_map_to_list.
  - apply NoDup_fmap_2_strong; [|apply NoDup_filter, NoDup_map_to_list].
    intros [k1 c1] [k2 c2] [H1 R1]%elem_of_registered [H2 R2]%elem_of_registered Heq. simpl in Heq.
    assert (k1 = k2) as -> by (by eapply (so_distinct _ _ _ Hok)). congruence.
  - intros id. rewrite !list_elem_of_fmap. split.
    + intros ([id' info] & -> & Hi%elem_of_map_to_list). destruct (so_registry _ _ _ Hok _ _ Hi) as (_ & k & c & Hc & Hr & Hs).
      exists (k, c). split; [done|]. by apply elem_of_registered.
    + intros ([k c] & -> & [Hc Hr]%elem_of_registered).
      destruct (co_registered _ _ _ (so_clients _ _ _ Hok k c Hc) Hr) as [_ [info Hi]].
      exists (s_id (c_session c), info). split; [done|]. by apply elem_of_map_to_list.
Qed.

(** The clock of a bind has reached the ticks of its records. *)
Lemma minted_reached {R} capacity n (y : system R) k c rec :
  system_ok capacity n y -> n < 2 ^ 64 -> y_clients y !! k = Some c -> rec ∈ y_journal y -> is_registered c ->
  (parse_messageID (Rec_MessageID rec)).1 = s_id (c_session c) ->
  1 <= Rec_PerBindClock rec <= s_perBindClock (c_session c).
Proof.
  intros Hok Hn Hc Hrec Hreg Hid. destruct (so_minted _ _ _ Hok _ Hrec) as (id & H1 & H2 & H3 & H4).
  pose proof (so_seq _ _ _ Hok). rewrite H3, parse_messageID_messageID in Hid by (unfold is_u64; lia). simpl in Hid.
  split; [lia|]. by eapply H4.
Qed.

(** C18: a virtual SMSC stays well typed under any interleaving of its sessions.
    After any sequence of accepted connections, read-loop iterations and
    teardowns, whatever the bytes, failures and clocks: no further event can
    panic; every session is in a state its handlers expect, open exactly until it
    is registered; no two registered sessions share an ordinal; the registry lists
    exactly the registered sessions, so the bind count it shows is theirs; and no
    clock runs backwards or wraps: the ordinals handed out, the submits counted and
    the submits of each bind are bounded by the events so far, a registered session
    has one of those ordinals, and its clock has reached every tick journalled under
    it. *)
Theorem system_well_typed {R} `{RandSource R} cfg n (y : system R) :
  scenario_ok (VS_Scenario cfg) -> scenario_typed (VS_Scenario cfg) ->
  nsteps sys_step n (sys_boot cfg) y -> Z.of_nat n < 2 ^ 64 ->
  (forall ev, exists o, sys_exec ev y = Ok o) /\
  smsc_safe (y_smsc y) /\
  (forall k c, y_clients y !! k = Some c -> session_safe (c_session c) /\
    (s_state (c_session c) = stateOpen -> ~ is_registered c) /\
    (s_state (c_session c) = stateBound -> is_registered c) /\
    0 <= s_perBindClock (c_session c) <= Z.of_nat n /\
    (is_registered c -> 1 <= s_id (c_session c) <= v_bindSeq (y_smsc y)) /\
    forall rec, rec ∈ y_journal y -> is_registered c -> (parse_messageID (Rec_MessageID rec)).1 = s_id (c_session c) ->
      1 <= Rec_PerBindClock rec <= s_perBindClock (c_session c)) /\
  0 <= v_bindSeq (y_smsc y) <= Z.of_nat n /\ v_logicalClock (y_smsc y) = len (y_journal y) /\
  len (y_journal y) <= Z.of_nat n /\
  NoDup ((fun kc => s_id (c_session kc.2)) <$> registered_clients y) /\
  (map_to_list (binds (v_binds (y_smsc y)))).*1 ≡ₚ (fun kc => s_id (c_session kc.2)) <$> registered_clients y /\
  count (v_binds (y_smsc y)) = len (registered_clients y).
Proof.
  intros Ho Ht Hr Hn.
  pose proof (sys_reachable_ok _ 0 n _ y (sys_boot_ok _ cfg eq_refl Ho Ht) Hr Hn) as Hok.
  pose proof (registry_permutation _ _ _ Hok) as Hp.
  split; [intros ev; by eapply sys_exec_total|]. split; [apply Hok|]. split.
  { intros k c Hc. pose proof (so_clients _ _ _ Hok k c Hc) as [H1 _ H3 H4 _ H6 H7].
    split_and!; [done..|lia|lia|apply H6|]. intros rec Hrec Hreg Hid. by eapply minted_reached. }
  split; [apply Hok|]. split; [apply Hok|]. split; [apply Hok|]. split_and!.
  - rewrite <- Hp. apply NoDup_fst_map_to_list.
  - done.
  - apply Permutation_length in Hp. rewrite !length_fmap in Hp. unfold count.
    by rewrite <- Hp, <- length_map_to_list.
Qed.

(** C17: the journal of a virtual SMSC is unambiguous.  Across all its sessions,
    past and present, the logical clock counts the submits committed; no two of
    them share a message id, which names the bind's ordinal and the bind's own
    tick; and the recorder answers every inspection query from exactly the last of
    them, in commit order. *)
Theorem journal_unambiguous {R} `{RandSource R} cfg n (y : system R) :
  scenario_ok (VS_Scenario cfg) -> scenario_typed (VS_Scenario cfg) ->
  nsteps sys_step n (sys_boot cfg) y -> Z.of_nat n < 2 ^ 64 ->
  v_logicalClock (y_smsc y) = len (y_journal y) /\
  NoDup (Rec_MessageID <$> y_journal y) /\
  (forall r, r ∈ y_journal y -> exists id, 1 <= id <= v_bindSeq (y_smsc y) /\
    parse_messageID (Rec_MessageID r) = (id, Rec_PerBindClock r)) /\
  (forall f, Snapshot f (v_recorder (y_smsc y)) =
    Ok (query f (retained (Z.max 1 (VS_PDUBufferSize cfg)) (indexed (y_journal y))))).
Proof.
  intros Ho Ht Hr Hn.
  pose proof (sys_reachable_ok _ 0 n _ y (sys_boot_ok _ cfg eq_refl Ho Ht) Hr Hn) as Hok.
  pose proof (so_journal _ _ _ Hok) as Hj. pose proof (so_seq _ _ _ Hok) as Hs.
  split_and!; [apply Hok|apply Hok| |].
  - intros r (id & H1 & H2 & H3 & _)%(so_minted _ _ _ Hok). exists id. split; [done|].
    rewrite H3. apply parse_messageID_messageID; unfold is_u64; lia.
  - intros f. destruct (append_all_represents (VS_PDUBufferSize cfg) (y_journal y) ltac:(lia)) as (r & Ha & Hrep).
    rewrite (so_recorder _ _ _ Hok) in Ha. injection Ha as <-.
    apply Snapshot_represents; [done|apply indexed_well_indexed|]. rewrite length_indexed. lia.
Qed.

(** ** Two clients, interleaved *)

Fixpoint sys_run {R} `{RandSource R} (evs : list sys_event) (y : system R) : option (system R) :=
  match evs with
  | [] => Some y
  | ev :: evs => match sys_exec ev y with Ok (Some y) => sys_run evs y | _ => None end
  end.

Lemma sys_run_nsteps {R} `{RandSource R} evs (y y' : system R) :
  sys_run evs y = Some y' -> nsteps sys_step (length evs) y y'.
Proof.
  revert y. induction evs as [|ev evs IH]; intros y; simpl; [intros [= <-]; constructor|].
  destruct (sys_exec ev y) as [[y1|]| |] eqn:Hx; [|done..]. intros Hr. econstructor; [by exists ev|by apply IH].
Qed.

(** Each binds and submits; the first hangs up and is torn down. *)
Definition two_clients : list sys_event :=
  let conn := [Recv bind_frame; Recv (frame_of sample_submit)] in
  let env := sample_env_at 0 in
  [Accept 0 0 conn; Accept 1 0 conn; Serve 0 env; Serve 1 env; Serve 1 env; Serve 0 env; Serve 0 env; Release 0].

Definition two_clients_end : system PCG := default (sys_boot sample_vs) (sys_run two_clients (sys_boot sample_vs)).

Lemma two_clients_run : nsteps sys_step 8 (sys_boot sample_vs) two_clients_end.
Proof. apply (sys_run_nsteps two_clients). vm_compute. reflexivity. Qed.

Lemma system_well_typed_witness :
  count (v_binds (y_smsc two_clients_end)) = 1 /\
  exists o, sys_exec (Serve 1 (sample_env_at 0)) two_clients_end = Ok o.
Proof.
  destruct (system_well_typed sample_vs 8 two_clients_end (proj1 sample_vs_ok) (proj2 sample_vs_ok) two_clients_run
    ltac:(lia)) as (Hx & _ & _ & _ & _ & _ & _ & _ & Hc).
  split; [|apply Hx]. rewrite Hc. vm_compute. reflexivity.
Defined.

Lemma journal_unambiguous_witness :
  v_logicalClock (y_smsc two_clients_end) = 2 /\
  Rec_MessageID <$> y_journal two_clients_end = ["2-0001"; "1-0001"]%string /\
  match Snapshot (mkFilter "" "" 0 1) (v_recorder (y_smsc two_clients_end)) with
  | Ok l => Rec_MessageID <$> l
  | _ => []
  end = ["2-0001"]%string.
Proof.
  destruct (journal_unambiguous sample_vs 8 two_clients_end (proj1 sample_vs_ok) (proj2 sample_vs_ok) two_clients_run
    ltac:(lia)) as (-> & _ & _ & ->).
  split; [|split]; vm_compute; reflexivity.
Defined.
