(* ===== verification/Access.v ===== *)
(** * The shared accesses of a session ([session.go], [schedule_events.go], [binds.go])

    The handlers of [Session] once more, as programs that name every access they
    make to what the sessions of an SMSC share: an atomic counter, a method of the
    registry or of the recorder under its lock, the active profile.  Between two
    accesses a program runs code of the session's own.  [iteration_alone] states
    that a program left alone is the handler it was cut from; [Interleave] lets
    other goroutines run between any two accesses. *)

From S2P Require Import Prelude.
From S2P Require Import SmppPdu.
From S2P Require Import SmppCodec.
From S2P Require Import SmppFraming.
From S2P Require Import Rng.
From S2P Require Import Recorder.
From S2P Require Import Config.
From S2P Require Import Scenario.
From S2P Require Import Close.
From S2P Require Import Binds.
From S2P Require Import VirtualSMSC.
From S2P Require Import SessionState.
From S2P Require Import Session.
From S2P Require Import ReadLoop.

(** ** Accesses *)

Inductive access :=
| TakeOrdinal                        (* bindSeq.Add(1) *)
| Register (info : bindInfo)         (* binds.add *)
| AskOldest (id : Z)                 (* binds.isOldest *)
| StoreProfile (p : Profile)         (* activeProfile.Store *)
| CountSubmit                        (* logicalClock.Add(1) *)
| Journal (p : RecordedPDU).         (* recorder.Append *)

Definition answer (c : access) : Type :=
  match c with TakeOrdinal => Z | AskOldest _ => bool | _ => () end.

(** One access, under its lock. *)
Definition perform (c : access) (v : virtualSMSC) : may_panic (answer c * virtualSMSC) :=
  match c with
  | TakeOrdinal => let n := v_bindSeq v +64 1 in Ok (n, set_v_bindSeq n v)
  | Register info => Ok ((), set_v_binds (add info (v_binds v)) v)
  | AskOldest id => Ok (isOldest (v_binds v) id, v)
  | StoreProfile p => Ok ((), set_v_activeProfile p v)
  | CountSubmit => Ok ((), set_v_logicalClock (v_logicalClock v +64 1) v)
  | Journal p => let* r := Append p (v_recorder v) in Ok ((), set_v_recorder r v)
  end.

(** ** Programs *)

(** [Local] code works on the session, and reads of the SMSC only what no one
    writes: its configuration, its engines and its timeouts. *)
Inductive prog (R A : Type) : Type :=
| Done (a : A)
| Local (B : Type) (m : M R B) (k : B -> prog R A)
| Shared (c : access) (k : answer c -> prog R A).
Arguments Done {R A}. Arguments Local {R A B}. Arguments Shared {R A}.

Fixpoint prog_bind {R A B} (p : prog R A) (f : A -> prog R B) : prog R B :=
  match p with
  | Done a => f a
  | Local m k => Local m (fun b => prog_bind (k b) f)
  | Shared c k => Shared c (fun b => prog_bind (k b) f)
  end.

#[export] Instance prog_ret {R} : MRet (prog R) := fun A a => Done a.
#[export] Instance prog_mbind {R} : MBind (prog R) := fun A B f p => prog_bind p f.

Definition local {R A} (m : M R A) : prog R A := Local m Done.
Definition shared {R} (c : access) : prog R (answer c) := Shared c Done.

Definition atomically {R} (c : access) : M R (answer c) := fun _ w =>
  let* r := perform c (w_smsc w) in Ok (r.1, set_w_smsc r.2 w).

(** The program with nobody in between. *)
Fixpoint alone {R A} (p : prog R A) : M R A :=
  match p with
  | Done a => mret a
  | Local m k => b ← m; alone (k b)
  | Shared c k => b ← atomically c; alone (k b)
  end.

(** ** The handlers, access by access *)

Section Handlers.
Context {R : Type} `{RandSource R}.
Implicit Types pdu : PDU.

Definition applyTransition_prog (to : Profile) : prog R () :=
  engines ← local (gets_v v_engines);
  match engines !! to with
  | None => mret ()
  | Some engine =>
      local (modify (set_s_currentEngine (Some engine)));;
      shared (StoreProfile to);;
      cfg ← local (gets_v v_cfg);
      local (emit (Metric (SetActiveScenario (VS_Name cfg) to)))
  end.

Fixpoint applyDueTransitions_loop_prog (ts : list ScheduledTransition) (tick : Z) : prog R () :=
  match ts with
  | [] => mret ()
  | t :: ts =>
      if ST_AtTick t <=? tick then
        applyTransition_prog (ST_ToProfile t);;
        local (modify (fun s => set_s_transitionCursor (S (s_transitionCursor s)) s));;
        applyDueTransitions_loop_prog ts tick
      else mret ()
  end.

Definition applyDueTransitions_prog (tick : Z) : prog R () :=
  cursor ← local (gets s_transitionCursor);
  transitions ← local (gets s_transitions);
  applyDueTransitions_loop_prog (drop cursor transitions) tick.

Definition isDisconnectTarget_prog (scope : DisconnectScope) (dueTick : Z) : prog R bool :=
  if String.eqb scope DisconnectScopeAll then mret true
  else if String.eqb scope DisconnectScopeOldest then
    id ← local (gets s_id);
    shared (AskOldest id)
  else if String.eqb scope DisconnectScopeRandom then
    state ← local (gets s_scenarioState);
    state ← local (nonnil state);
    mret (DisconnectDraw state dueTick)
  else mret false.

Fixpoint dueDisconnect_loop_prog (ds : list ScheduledDisconnect) (clock : Z) : prog R bool :=
  match ds with
  | [] => mret false
  | d :: ds =>
      if SD_AtTick d >? clock then mret false
      else if String.eqb (SD_When d) DisconnectBeforeResponse then
        target ← isDisconnectTarget_prog (SD_Scope d) (SD_AtTick d);
        if target : bool then mret true else dueDisconnect_loop_prog ds clock
      else dueDisconnect_loop_prog ds clock
  end.

Definition dueDisconnectBeforeResponse_prog : prog R bool :=
  disconnects ← local (gets s_disconnects);
  cursor ← local (gets s_disconnectCursor);
  clock ← local (gets s_perBindClock);
  ds ← local (lift (go_slice disconnects (Z.of_nat cursor) (len disconnects)));
  dueDisconnect_loop_prog ds clock.

Fixpoint applyDueDisconnects_loop_prog (ds : list ScheduledDisconnect) (tick : Z) : prog R () :=
  match ds with
  | [] => mret ()
  | d :: ds =>
      if SD_AtTick d <=? tick then
        local (modify (fun s => set_s_disconnectCursor (S (s_disconnectCursor s)) s));;
        target ← isDisconnectTarget_prog (SD_Scope d) (SD_AtTick d);
        local (when target (closeWith reasonScheduledDisconnect None));;
        applyDueDisconnects_loop_prog ds tick
      else mret ()
  end.

Definition applyDueDisconnects_prog (tick : Z) : prog R () :=
  cursor ← local (gets s_disconnectCursor);
  disconnects ← local (gets s_disconnects);
  applyDueDisconnects_loop_prog (drop cursor disconnects) tick.

(** An admitted bind: the ordinal, the session's fields, the registry, the rest. *)
Definition admitBind_prog pdu (bind : Bind) (scenario : Engine) (cfg : VirtualSMSCConfig) : prog R () :=
  let '(bindType, respID) := bindKind (PDU_CommandID pdu) in
  id ← shared TakeOrdinal;
  local (modify (set_s_id id));;
  local (modify (set_s_state stateBound));;
  local (modify (set_s_systemID (Bind_SystemID bind)));;
  local (modify (set_s_bindType bindType));;
  local (modify (set_s_canSubmit (negb (PDU_CommandID pdu =? BindReceiver))));;
  local (modify (set_s_canReceive (negb (PDU_CommandID pdu =? BindTransmitter))));;
  entropy ← local (ask env_entropy);
  chaosBase ← local (ask env_chaosBase);
  local (modify (set_s_scenarioState
                   (Some (NewBindState scenario (VS_Seed cfg) (VS_Name cfg) id entropy chaosBase))));;
  local (modify (set_s_currentEngine (Some scenario)));;
  now ← local (ask env_now);
  shared (Register (mkBindInfo id (Bind_SystemID bind) bindType now));;
  local (emit (Metric (IncBind (VS_Name cfg) bindType)));;
  local (modify (set_s_bound true));;
  local (modify (set_s_lastSubmit now));;
  local scheduleConfiguredEvents;;
  local (send (reply pdu respID StatusROK (Some (BodyBindResp (mkBindResp (VS_Name cfg) []))))).

Definition handleBind_prog pdu : prog R () :=
  let '(bindType, respID) := bindKind (PDU_CommandID pdu) in
  state ← local (gets s_state);
  if negb (bool_decide (state = stateOpen)) then local (send (reply pdu respID StatusInvBndSts None))
  else
    match PDU_Body pdu with
    | Some (BodyBind bind) =>
        scenario ← local (gets_v v_scenario);
        if RejectBind scenario then
          local (modify (set_s_bindType bindType);;
                 send (reply pdu respID StatusBindFail None);;
                 closeWith reasonBindRejected None)
        else
          cfg ← local (gets_v v_cfg);
          let creds := VS_BindCredentials cfg in
          let idOK := ConstantTimeCompare (bytes_of_string (Bind_SystemID bind))
                        (bytes_of_string (BC_SystemID creds)) =? 1 in
          let pwOK := ConstantTimeCompare (bytes_of_string (Bind_Password bind))
                        (bytes_of_string (BC_Password creds)) =? 1 in
          if negb idOK || negb pwOK then
            local (modify (set_s_bindType bindType);;
                   modify (set_s_systemID (Bind_SystemID bind));;
                   send (reply pdu respID StatusBindFail None);;
                   closeWith reasonAuthFailed None)
          else admitBind_prog pdu bind scenario cfg
    | _ => local (send (reply pdu respID StatusSysErr None))
    end.

Definition recordSubmit_prog (messageID : string) (msg : Message) : prog R () :=
  clock ← local (gets s_perBindClock);
  shared (Journal {|
    Rec_Index := 0;
    Rec_MessageID := messageID;
    Rec_SourceAddr := SourceAddr msg;
    Rec_SourceTON := SourceAddrTON msg;
    Rec_SourceNPI := SourceAddrNPI msg;
    Rec_DestAddr := DestAddr msg;
    Rec_DestTON := DestAddrTON msg;
    Rec_DestNPI := DestAddrNPI msg;
    Rec_DataCoding := DataCoding msg;
    Rec_ShortMessage := ShortMessage msg;
    Rec_PerBindClock := clock
  |}).

(** The clock of the bind, the counter, the metrics, and only then the journal. *)
Definition commitSubmit_prog (tick : Z) (d : Decision) (msg : Message) : prog R string :=
  local (modify (set_s_perBindClock tick));;
  shared CountSubmit;;
  cfg ← local (gets_v v_cfg);
  local (emit (Metric (IncSubmit (VS_Name cfg))));;
  local (emit (Metric (IncOutcome (VS_Name cfg) (outcomeLabel (D_Outcome d)))));;
  now ← local (ask env_now);
  local (modify (set_s_lastSubmit now));;
  id ← local messageID;
  recordSubmit_prog id msg;;
  mret id.

Definition drainSubmit_prog : prog R () :=
  clock ← local (gets s_perBindClock);
  local (drainDue clock);;
  applyDueDisconnects_prog clock.

Definition answerSubmit_prog pdu (d : Decision) (msg : Message) (id : string) : prog R () :=
  match D_Outcome d with
  | OutcomeSuccess =>
      sent ← local (submitResp pdu d StatusROK (Some (BodySubmitResp (mkSubmitResp id))));
      local (match D_DLR d with
             | Some plan => scheduleDLR id msg plan sent
             | None => mret ()
             end);;
      drainSubmit_prog
  | OutcomeError =>
      local (submitResp pdu d (D_Status d) None);;
      drainSubmit_prog
  | OutcomeTimeout => drainSubmit_prog
  | OutcomeDisconnect =>
      local (when (String.eqb (D_DisconnectWhen d) DisconnectAfterResponse)
               (send (reply pdu SubmitSMResp StatusROK (Some (BodySubmitResp (mkSubmitResp id))));;
                observeServed (D_LatencyMS d)));;
      local (closeWith reasonFaultInjection None)
  end.

(** The submit of a bound session, under its next tick. *)
Definition serveSubmit_prog pdu (msg : Message) (tick : Z) : prog R () :=
  applyDueTransitions_prog tick;;
  d ← local (evaluateSubmit tick);
  served ← local (if bool_decide (D_Outcome d = OutcomeDisconnect)
                  then serveLatency (D_LatencyMS d) else mret true);
  if negb served then local (closeWith reasonShutdown None)
  else
    id ← commitSubmit_prog tick d msg;
    cut ← dueDisconnectBeforeResponse_prog;
    if cut : bool then local (closeWith reasonScheduledDisconnect None)
    else answerSubmit_prog pdu d msg id.

Definition handleSubmit_prog pdu : prog R () :=
  state ← local (gets s_state);
  canSubmit ← local (gets s_canSubmit);
  if negb (bool_decide (state = stateBound)) || negb canSubmit
  then local (send (reply pdu SubmitSMResp StatusInvBndSts None))
  else
    match PDU_Body pdu with
    | Some (BodyMessage msg) =>
        clock ← local (gets s_perBindClock);
        serveSubmit_prog pdu msg (clock +64 1)
    | _ => local (send (reply pdu SubmitSMResp StatusSysErr None))
    end.

(** The other commands touch the session alone. *)
Definition handle_prog pdu : prog R () :=
  if bool_decide (PDU_CommandID pdu ∈ [BindTransmitter; BindReceiver; BindTransceiver]) then handleBind_prog pdu
  else if PDU_CommandID pdu =? SubmitSM then handleSubmit_prog pdu
  else local (handle pdu).

Definition handleFrame_prog (frame : bytes) : prog R bool :=
  local (modify (fun s => set_s_pdusRead (s_pdusRead s +64 1) s));;
  match Decode frame with
  | Panic => local (lift Panic)
  | Err err => local (rejectMalformed frame err);; mret true
  | Ok pdu =>
      handle_prog pdu;;
      state ← local (gets s_state);
      mret (negb (bool_decide (state = stateClosed)))
  end.

Definition readLoop_iter_prog (re : ReadEnv) (c : conn) : prog R (option conn) :=
  local (armReadDeadline (re_armNow re));;
  if re_quitBefore re then local (closeWith reasonShutdown None);; mret None
  else
    let '(res, c') := ReadPDU c in
    local (when (starts c) (extendDeadline (re_frameNow re)));;
    goon ← match res with
           | Panic => local (lift Panic)
           | Err err => local (handleReadError re err)
           | Ok frame => handleFrame_prog frame
           end;
    mret (if goon : bool then Some c' else None).

End Handlers.

(** ** A program left alone is its handler *)

Definition same {R A} (p : prog R A) (m : M R A) : Prop := forall env w, alone p env w = m env w.

Create HintDb same.

Section Same.
Context {R : Type} `{RandSource R}.
Implicit Types (pdu : PDU) (A B : Type).

Lemma same_ret {A} (a : A) : same (R := R) (mret a) (mret a).
Proof. done. Qed.

Lemma same_local {A} (m : M R A) : same (local m) m.
Proof. intros env w. simpl. unfold mbind, M_bind. by destruct (m env w) as [[]| |]. Qed.

Lemma alone_bind {A B} (p : prog R A) (f : A -> prog R B) env w :
  alone (p ≫= f) env w = (a ← alone p; alone (f a)) env w.
Proof.
  revert w. induction p as [a|C m k IH|c k IH]; intros w; [done|..]; simpl; unfold mbind at 1 3, M_bind at 1 3.
  - unfold mbind, M_bind. destruct (m env w) as [[b w']| |]; [apply IH|done..].
  - unfold mbind, M_bind. destruct (atomically c env w) as [[b w']| |]; [apply IH|done..].
Qed.

Lemma same_bind {A B} (p : prog R A) m (f : A -> prog R B) g :
  same p m -> (forall a, same (f a) (g a)) -> same (p ≫= f) (m ≫= g).
Proof.
  intros Hp Hf env w. rewrite alone_bind. unfold mbind, M_bind. rewrite Hp.
  destruct (m env w) as [[a w']| |]; [apply Hf|done..].
Qed.

(** One access may be two computations of the handler. *)
Lemma same_fused {A B C} (p : prog R B) (m1 : M R A) (m2 : A -> M R B) (f : B -> prog R C) g :
  same p (a ← m1; m2 a) -> (forall b, same (f b) (g b)) -> same (p ≫= f) (a ← m1; b ← m2 a; g b).
Proof.
  intros Hp Hf env w. rewrite alone_bind. unfold mbind, M_bind in *. rewrite Hp.
  destruct (m1 env w) as [[a w1]| |]; [|done..]. destruct (m2 a env w1) as [[b w2]| |]; [apply Hf|done..].
Qed.

Lemma same_StoreProfile to :
  same (R := R) (shared (StoreProfile to);; cfg ← local (gets_v v_cfg);
                 local (emit (Metric (SetActiveScenario (VS_Name cfg) to))))
    (v ← gets_v id; let '(v, m) := setActiveProfile to v in modify_v (fun _ => v);; emit (Metric m)).
Proof. done. Qed.

Lemma same_TakeOrdinal :
  same (R := R) (shared TakeOrdinal) (modify_v (fun v => set_v_bindSeq (v_bindSeq v +64 1) v);; gets_v v_bindSeq).
Proof. done. Qed.

Lemma same_Register info :
  same (R := R) (shared (Register info)) (modify_v (fun v => set_v_binds (add info (v_binds v)) v)).
Proof. done. Qed.

Lemma same_AskOldest :
  same (R := R) (id ← local (gets s_id); shared (AskOldest id))
    (id ← gets s_id; binds ← gets_v v_binds; mret (isOldest binds id)).
Proof. by intros env [? [] ? ?]. Qed.

Lemma same_CountSubmit :
  same (R := R) (shared CountSubmit) (modify_v (fun v => set_v_logicalClock (v_logicalClock v +64 1) v)).
Proof. done. Qed.

Lemma same_Journal p :
  same (R := R) (shared (Journal p)) (r ← gets_v v_recorder; r ← lift (Append p r); modify_v (set_v_recorder r)).
Proof.
  intros env w. unfold shared, alone, atomically, perform, lift, gets_v, modify_v, mbind, M_bind.
  by destruct (Append p (v_recorder (w_smsc w))).
Qed.

End Same.

#[export] Hint Resolve same_ret same_local same_TakeOrdinal same_Register same_AskOldest same_CountSubmit
  same_Journal : same.

(** Cut both sides at the same places. *)
Ltac cut_same :=
  repeat first
    [ solve [eauto with same]
    | apply same_bind; [|intros ?]
    | apply same_fused; [|intros ?]
    | match goal with |- same (if ?b then _ else _) _ => destruct b end ].

Section Handlers.
Context {R : Type} `{RandSource R}.
Implicit Types pdu : PDU.

Lemma same_applyTransition to : same (R := R) (applyTransition_prog to) (applyTransition to).
Proof.
  unfold applyTransition_prog, applyTransition. apply same_bind; [apply same_local|]. intros engines.
  destruct (engines !! to); [|apply same_ret]. apply same_bind; [apply same_local|]. intros _. apply same_StoreProfile.
Qed.
Hint Resolve same_applyTransition : same.

Lemma same_applyDueTransitions_loop ts tick :
  same (R := R) (applyDueTransitions_loop_prog ts tick) (applyDueTransitions_loop ts tick).
Proof. induction ts as [|t ts IH]; cbn [applyDueTransitions_loop_prog applyDueTransitions_loop]; cut_same. Qed.
Hint Resolve same_applyDueTransitions_loop : same.

Lemma same_isDisconnectTarget scope t : same (R := R) (isDisconnectTarget_prog scope t) (isDisconnectTarget scope t).
Proof. unfold isDisconnectTarget_prog, isDisconnectTarget. cut_same. Qed.
Hint Resolve same_isDisconnectTarget : same.

Lemma same_dueDisconnect_loop ds clock :
  same (R := R) (dueDisconnect_loop_prog ds clock) (dueDisconnect_loop ds clock).
Proof. induction ds as [|d ds IH]; cbn [dueDisconnect_loop_prog dueDisconnect_loop]; cut_same. Qed.
Hint Resolve same_dueDisconnect_loop : same.

Lemma same_applyDueDisconnects_loop ds tick :
  same (R := R) (applyDueDisconnects_loop_prog ds tick) (applyDueDisconnects_loop ds tick).
Proof. induction ds as [|d ds IH]; cbn [applyDueDisconnects_loop_prog applyDueDisconnects_loop]; cut_same. Qed.
Hint Resolve same_applyDueDisconnects_loop : same.

Lemma same_handleBind pdu : same (R := R) (handleBind_prog pdu) (handleBind pdu).
Proof.
  unfold handleBind_prog, handleBind, admitBind_prog. destruct (bindKind (PDU_CommandID pdu)) as [bindType respID].
  apply same_bind; [apply same_local|]. intros state. destruct (negb _); [apply same_local|].
  destruct (PDU_Body pdu) as [[b|b|msg|b]|]; try apply same_local. cut_same.
Qed.

Lemma same_recordSubmit id msg : same (R := R) (recordSubmit_prog id msg) (recordSubmit id msg).
Proof. unfold recordSubmit_prog, recordSubmit. apply same_bind; [apply same_local|]. intros clock. apply same_Journal. Qed.
Hint Resolve same_recordSubmit : same.

Lemma same_commitSubmit tick d msg : same (R := R) (commitSubmit_prog tick d msg) (commitSubmit tick d msg).
Proof. unfold commitSubmit_prog, commitSubmit. cut_same. Qed.
Hint Resolve same_commitSubmit : same.

Lemma same_drainSubmit : same (R := R) drainSubmit_prog drainSubmit.
Proof. unfold drainSubmit_prog, drainSubmit, applyDueDisconnects_prog, applyDueDisconnects. cut_same. Qed.
Hint Resolve same_drainSubmit : same.

Lemma same_answerSubmit pdu d msg id : same (R := R) (answerSubmit_prog pdu d msg id) (answerSubmit pdu d msg id).
Proof. unfold answerSubmit_prog, answerSubmit. destruct (D_Outcome d); cut_same. Qed.
Hint Resolve same_answerSubmit : same.

Lemma same_handleSubmit pdu : same (R := R) (handleSubmit_prog pdu) (handleSubmit pdu).
Proof.
  unfold handleSubmit_prog, serveSubmit_prog, handleSubmit, applyDueTransitions_prog, applyDueTransitions,
    dueDisconnectBeforeResponse_prog, dueDisconnectBeforeResponse.
  apply same_bind; [apply same_local|]. intros state. apply same_bind; [apply same_local|]. intros canSubmit.
  destruct (negb _ || negb _); [apply same_local|]. destruct (PDU_Body pdu) as [[b|b|msg|b]|]; try apply same_local.
  cut_same.
Qed.
Hint Resolve same_handleBind same_handleSubmit : same.

Lemma same_handle pdu : same (R := R) (handle_prog pdu) (handle pdu).
Proof.
  unfold handle_prog. pose proof (same_local (handle (R := R) pdu)) as Hl. unfold handle in *.
  destruct (bool_decide _); [apply same_handleBind|]. destruct (_ =? SubmitSM); [apply same_handleSubmit|exact Hl].
Qed.
Hint Resolve same_handle : same.

Lemma same_handleFrame frame : same (R := R) (handleFrame_prog frame) (handleFrame frame).
Proof. unfold handleFrame_prog, handleFrame. cut_same. destruct (Decode frame); cut_same. Qed.
Hint Resolve same_handleFrame : same.

Lemma same_readLoop_iter re c : same (R := R) (readLoop_iter_prog re c) (readLoop_iter re c).
Proof.
  unfold readLoop_iter_prog, readLoop_iter. cut_same. destruct (ReadPDU c) as [[frame|err|] c']; cut_same.
Qed.

End Handlers.
