(* ===== verification/Shape.v ===== *)
(** * The shape of an iteration

    What a program of [Access] may do, read off the program: its own code leaves
    the SMSC alone and does the same whatever the sessions have written there, and
    its accesses follow [allows], an ordinal that is then registered or a submit
    that is counted and then journalled, at most one of the two and nothing after
    it.  The configuration must have no disconnect scoped to the oldest bind: that
    one asks the registry, which every session writes. *)

From S2P Require Import Prelude.
From S2P Require Import SmppPdu.
From S2P Require Import SmppCodec.
From S2P Require Import SmppCodecThms.
From S2P Require Import SmppFraming.
From S2P Require Import Rng.
From S2P Require Import Schedule.
From S2P Require Import Recorder.
From S2P Require Import Config.
From S2P Require Import Scenario.
From S2P Require Import Dlr.
From S2P Require Import Close.
From S2P Require Import Binds.
From S2P Require Import VirtualSMSC.
From S2P Require Import EngineSafety.
From S2P Require Import SessionState.
From S2P Require Import Session.
From S2P Require Import SessionRuns.
From S2P Require Import SessionBind.
From S2P Require Import SessionThms.
From S2P Require Import ReadLoop.
From S2P Require Import SessionFrame.
From S2P Require Import Replay.
From S2P Require Import System.
From S2P Require Import Access.

(** ** Code of the session's own *)

(** What no session writes. *)
Definition constants (v : virtualSMSC) : VirtualSMSCConfig * Engine * gmap Profile Engine * Z :=
  (v_cfg v, v_scenario v, v_engines v, v_idleTimeout v).

Definition not_oldest (d : ScheduledDisconnect) : Prop := String.eqb (SD_Scope d) DisconnectScopeOldest = false.

Definition calm_config (cfg : VirtualSMSCConfig) : Prop := Forall not_oldest (VS_ScheduledDisconnects cfg).

Definition calm {R} (w : world R) : Prop :=
  Forall not_oldest (s_disconnects (w_session w)) /\ calm_config (v_cfg (w_smsc w)).

Record own_run {R A} (m : M R A) (env : Env) w (a : A) w' : Prop := {
  or_smsc : w_smsc w' = w_smsc w;
  or_calm : calm w';
  or_any : forall v, constants v = constants (w_smsc w) -> m env (set_w_smsc v w) = Ok (a, set_w_smsc v w')
}.

Definition own {R A} (m : M R A) : Prop :=
  forall env w a w', calm w -> m env w = Ok (a, w') -> own_run m env w a w'.

Create HintDb own.

Section Own.
Context {R : Type}.

Lemma own_bind {A B} (m : M R A) (f : A -> M R B) : own m -> (forall a, own (f a)) -> own (m ≫= f).
Proof.
  intros Hm Hf env w b w' Hc Hrun. unfold mbind, M_bind in Hrun.
  destruct (m env w) as [[a w1]| |] eqn:Hmr; [|done..]. destruct (Hm _ _ _ _ Hc Hmr) as [E1 C1 Hm'].
  destruct (Hf a _ _ _ _ C1 Hrun) as [E2 C2 Hf']. split; [congruence|done|]. intros v Hv.
  unfold mbind, M_bind. rewrite (Hm' v Hv). apply Hf'. by rewrite E1.
Qed.

Lemma own_ret {A} (a : A) : own (R := R) (mret a).
Proof. by intros env w a' w' Hc [= <- <-]. Qed.

Lemma own_gets {A} (f : session R -> A) : own (gets f).
Proof. by intros env w a w' Hc [= <- <-]. Qed.

(** Reads of what no session writes. *)
Lemma own_gets_v {A} (f : virtualSMSC -> A) :
  (forall v v', constants v' = constants v -> f v' = f v) -> own (R := R) (gets_v f).
Proof.
  intros Hf env w a w' Hc [= <- <-]. split; [done..|]. intros v Hv. unfold gets_v. simpl. by rewrite (Hf (w_smsc w) v Hv).
Qed.

Lemma own_cfg : own (R := R) (gets_v v_cfg).
Proof. apply own_gets_v. by intros v v' [=]. Qed.

Lemma own_engines : own (R := R) (gets_v v_engines).
Proof. apply own_gets_v. by intros v v' [=]. Qed.

Lemma own_scenario : own (R := R) (gets_v v_scenario).
Proof. apply own_gets_v. by intros v v' [=]. Qed.

Lemma own_idleTimeout : own (R := R) (gets_v v_idleTimeout).
Proof. apply own_gets_v. by intros v v' [=]. Qed.

Lemma own_cfg_bind {A} (k : VirtualSMSCConfig -> M R A) :
  (forall cfg, calm_config cfg -> own (k cfg)) -> own (gets_v v_cfg ≫= k).
Proof.
  intros Hk env w a w' Hc Hrun. rewrite gets_v_run in Hrun. destruct (Hk _ (proj2 Hc) _ _ _ _ Hc Hrun) as [E C Hv].
  split; [done..|]. intros v Hcs. rewrite gets_v_run. simpl.
  replace (v_cfg v) with (v_cfg (w_smsc w)) by (by injection Hcs). by apply Hv.
Qed.

Lemma own_modify (f : session R -> session R) : (forall s, s_disconnects (f s) = s_disconnects s) -> own (modify f).
Proof.
  intros Hf env w a w' [Hc Hcfg] [= <- <-]. split; [done| |done]. split; [|done]. simpl. by rewrite Hf.
Qed.

Lemma own_disconnects l : Forall not_oldest l -> own (R := R) (modify (set_s_disconnects l)).
Proof. intros Hl env w a w' [_ Hcfg] [= <- <-]. by split. Qed.

Lemma own_emit e : own (R := R) (emit e).
Proof. by intros env w a w' Hc [= <- <-]. Qed.

Lemma own_ask {A} (f : Env -> A) : own (R := R) (ask f).
Proof. by intros env w a w' Hc [= <- <-]. Qed.

Lemma own_lift {A} (m : may_panic A) : own (R := R) (lift m).
Proof. intros env w a w' Hc. unfold lift. by destruct m; [intros [= <- <-]|..]. Qed.

Lemma own_nonnil {A} (o : option A) : own (R := R) (nonnil o).
Proof. intros env w a w' Hc. unfold nonnil. by destruct o; [intros [= <- <-]|]. Qed.

Lemma own_make_chan : own (R := R) make_chan.
Proof. by intros env w a w' Hc [= <- <-]. Qed.

Lemma own_encode pdu edge : own (R := R) (encode pdu edge).
Proof.
  intros env w a w' Hc. rewrite encode_run. intros [= <- <-]. split; [done..|]. intros v _. apply encode_run.
Qed.

End Own.

#[export] Hint Resolve own_ret own_gets own_cfg own_engines own_scenario own_idleTimeout own_emit own_ask own_lift
  own_nonnil own_make_chan own_encode : own.
#[export] Hint Extern 1 (own (modify _)) => apply own_modify; reflexivity : own.

(** Every shape of computation the handlers are built from. *)
Ltac owned :=
  repeat first
    [ solve [eauto with own]
    | apply own_bind; [|intros ?]
    | match goal with
      | |- own (match ?b with _ => _ end) => destruct b
      | |- own (when ?b _) => unfold when
      | |- own (sendBytes _ _) => unfold sendBytes
      | |- own (sendWhen _ _ _ _) => unfold sendWhen
      end ].

Section OwnHandlers.
Context {R : Type} `{RandSource R}.

Lemma own_sendKind pdu kind : own (R := R) (sendKind pdu kind).
Proof. unfold sendKind. owned. Qed.
Hint Resolve own_sendKind : own.

Lemma own_send pdu : own (R := R) (send pdu).
Proof. apply own_sendKind. Qed.
Hint Resolve own_send : own.

Lemma own_closeWith reason err : own (R := R) (closeWith reason err).
Proof. unfold closeWith. owned. Qed.
Hint Resolve own_closeWith : own.

Lemma own_schedule t p : own (R := R) (schedule t p).
Proof. unfold schedule. owned. Qed.
Hint Resolve own_schedule : own.

Lemma own_dispatch ev : own (R := R) (dispatch ev).
Proof. unfold dispatch, emitDLR, emitMO. owned. Qed.
Hint Resolve own_dispatch : own.

Lemma own_dispatch_all evs : own (R := R) (dispatch_all evs).
Proof. induction evs as [|ev evs IH]; cbn [dispatch_all]; owned. Qed.
Hint Resolve own_dispatch_all : own.

Lemma own_drainDue clock : own (R := R) (drainDue clock).
Proof. unfold drainDue. owned. Qed.

Lemma own_flushSchedule : own (R := R) flushSchedule.
Proof. unfold flushSchedule. owned. Qed.
Hint Resolve own_flushSchedule : own.

Lemma own_for_each {A} (l : list A) (f : A -> M R ()) : (forall x, own (f x)) -> own (for_each l f).
Proof. intros Hf. induction l; cbn [for_each]; owned. Qed.

Lemma own_scheduleConfiguredEvents : own (R := R) scheduleConfiguredEvents.
Proof.
  unfold scheduleConfiguredEvents. apply own_cfg_bind. intros cfg Hcfg. owned; [apply own_for_each; owned|].
  by apply own_disconnects, sortedByTick_Forall.
Qed.

Lemma own_evaluateSubmit tick : own (R := R) (evaluateSubmit tick).
Proof. unfold evaluateSubmit. owned. Qed.

Lemma own_serveLatency ms : own (R := R) (serveLatency ms).
Proof. unfold serveLatency. owned. Qed.

Lemma own_observeServed ms : own (R := R) (observeServed ms).
Proof. unfold observeServed. owned. Qed.
Hint Resolve own_observeServed : own.

Lemma own_submitResp pdu d status body : own (R := R) (submitResp pdu d status body).
Proof. unfold submitResp, respond. owned. Qed.

Lemma own_scheduleDLR id msg plan sent : own (R := R) (scheduleDLR id msg plan sent).
Proof. unfold scheduleDLR. owned. Qed.

Lemma own_rejectMalformed frame err : own (R := R) (rejectMalformed frame err).
Proof. unfold rejectMalformed. owned. Qed.

Lemma own_handleReadError re err : own (R := R) (handleReadError re err).
Proof. unfold handleReadError, readFailure. owned. Qed.

End OwnHandlers.

#[export] Hint Resolve own_sendKind own_send own_closeWith own_schedule own_dispatch_all own_drainDue own_flushSchedule
  own_scheduleConfiguredEvents own_evaluateSubmit own_serveLatency own_observeServed own_submitResp own_scheduleDLR own_rejectMalformed
  own_handleReadError : own.

(** ** Stages *)

(** How far an iteration is in what it commits. *)
Inductive stage :=
| Fresh                (* nothing yet *)
| Took (id : Z)        (* an ordinal, still to be registered *)
| Counting             (* a submit is counted, still to be journalled *)
| Over.                (* a bind is registered, or a submit journalled *)

Definition allows (st : stage) (c : access) : Prop :=
  match c with
  | TakeOrdinal | StoreProfile _ | CountSubmit => st = Fresh
  | Register info => st = Took (bi_id info)
  | Journal p => st = Counting /\ Rec_Index p = 0
  | AskOldest _ => False
  end.

Definition after (st : stage) (c : access) : answer c -> stage :=
  match c with
  | TakeOrdinal => Took
  | CountSubmit => fun _ => Counting
  | Register _ | Journal _ => fun _ => Over
  | _ => fun _ => st
  end.

Section Obeys.
Context {R : Type}.
Implicit Types (st : stage).

Fixpoint obeys {A} (p : prog R A) st (Q : A -> stage -> Prop) : Prop :=
  match p with
  | Done a => Q a st
  | Local m k => own m /\ forall env w b w', calm w -> m env w = Ok (b, w') -> obeys (k b) st Q
  | Shared c k => allows st c /\ forall a, obeys (k a) (after st c a) Q
  end.

Lemma obeys_mono {A} (p : prog R A) st (Q Q' : A -> stage -> Prop) :
  (forall a st, Q a st -> Q' a st) -> obeys p st Q -> obeys p st Q'.
Proof.
  intros HQ. revert st. induction p as [a|B m k IH|c k IH]; intros st; simpl; [apply HQ|..].
  - intros [Ho Hm]. split; [done|]. intros env w b w' Hc Hr. by eapply IH, Hm.
  - intros [Ha Hk]. split; [done|]. intros a. by apply IH.
Qed.

Lemma obeys_bind {A B} (p : prog R A) (f : A -> prog R B) st Q :
  obeys p st (fun a st => obeys (f a) st Q) -> obeys (p ≫= f) st Q.
Proof.
  revert st. induction p as [a|C m k IH|c k IH]; intros st; simpl; [done|..].
  - intros [Ho Hm]. split; [done|]. intros env w b w' Hc Hr. by eapply IH, Hm.
  - intros [Ha Hk]. split; [done|]. intros a. by apply IH.
Qed.

Lemma obeys_then {A B} (p : prog R A) (f : A -> prog R B) st S Q :
  obeys p st S -> (forall a st, S a st -> obeys (f a) st Q) -> obeys (p ≫= f) st Q.
Proof. intros Hp Hf. apply obeys_bind. by eapply obeys_mono. Qed.

Lemma obeys_ret {A} (a : A) st (Q : A -> stage -> Prop) : Q a st -> obeys (mret a) st Q.
Proof. done. Qed.

Lemma obeys_local {A} (m : M R A) st (Q : A -> stage -> Prop) :
  own m -> (forall a, Q a st) -> obeys (local m) st Q.
Proof. intros Hm HQ. split; [done|]. intros ? ? b ? _ _. apply HQ. Qed.

Lemma obeys_shared c st (Q : answer c -> stage -> Prop) :
  allows st c -> (forall a, Q a (after st c a)) -> obeys (shared c) st Q.
Proof. by split. Qed.

(** The disconnects a session has pending are the configured ones. *)
Lemma obeys_disconnects {A} (k : list ScheduledDisconnect -> prog R A) st Q :
  (forall ds, Forall not_oldest ds -> obeys (k ds) st Q) -> obeys (local (gets s_disconnects) ≫= k) st Q.
Proof. intros Hk. split; [apply own_gets|]. intros env w b w' [Hc _] [= <- _]. by apply Hk. Qed.

Lemma obeys_lift {A B} (m : may_panic A) (k : A -> prog R B) st Q :
  (forall a, m = Ok a -> obeys (k a) st Q) -> obeys (local (lift m) ≫= k) st Q.
Proof.
  intros Hk. split; [apply own_lift|]. intros env w b w' _ Hm. apply Hk. unfold lift in Hm.
  destruct m; [|done..]. by injection Hm as <- _.
Qed.

End Obeys.

Ltac obey :=
  repeat match goal with
    | |- obeys (local (gets s_disconnects) ≫= _) _ _ => apply obeys_disconnects; intros ? ?
    | |- obeys (local (lift _) ≫= _) _ _ => apply obeys_lift; intros ? ?
    | |- obeys (_ ≫= _) _ _ => apply obeys_bind
    | |- obeys (mret _) _ _ => apply obeys_ret
    | |- obeys (local _) _ _ => apply obeys_local; [owned|intros ?]
    | |- obeys (shared _) _ _ => apply obeys_shared; [done|intros ?; cbn [after]]
    | |- obeys (match ?b with _ => _ end) _ _ => destruct b
    end.

(** ** The handlers *)

Section Handlers.
Context {R : Type} `{RandSource R}.
Implicit Types (pdu : PDU) (st : stage).

Lemma applyTransition_obeys to : obeys (R := R) (applyTransition_prog to) Fresh (fun _ st => st = Fresh).
Proof. unfold applyTransition_prog. obey; done. Qed.

Lemma applyDueTransitions_obeys tick : obeys (R := R) (applyDueTransitions_prog tick) Fresh (fun _ st => st = Fresh).
Proof.
  unfold applyDueTransitions_prog. obey. match goal with |- obeys (_ ?l _) _ _ => induction l as [|t ts IH] end;
    cbn [applyDueTransitions_loop_prog]; obey; try done.
  eapply obeys_mono; [|apply applyTransition_obeys]. intros _ st ->. by obey.
Qed.

Lemma isDisconnectTarget_obeys d t st :
  not_oldest d -> obeys (R := R) (isDisconnectTarget_prog (SD_Scope d) t) st (fun _ st' => st' = st).
Proof. unfold not_oldest. intros Hd. unfold isDisconnectTarget_prog. rewrite Hd. obey; done. Qed.

Lemma dueDisconnect_loop_obeys ds clock st :
  Forall not_oldest ds -> obeys (R := R) (dueDisconnect_loop_prog ds clock) st (fun _ st' => st' = st).
Proof.
  induction 1 as [|d ds Hd _ IH]; cbn [dueDisconnect_loop_prog]; obey; try done.
  eapply obeys_mono; [|by apply isDisconnectTarget_obeys]. intros [] st' ->; [by obey|done].
Qed.

Lemma dueDisconnectBeforeResponse_obeys st :
  obeys (R := R) dueDisconnectBeforeResponse_prog st (fun _ st' => st' = st).
Proof.
  unfold dueDisconnectBeforeResponse_prog. obey. apply dueDisconnect_loop_obeys. by eapply go_slice_Forall.
Qed.

Lemma applyDueDisconnects_loop_obeys ds tick st :
  Forall not_oldest ds -> obeys (R := R) (applyDueDisconnects_loop_prog ds tick) st (fun _ st' => st' = st).
Proof.
  induction 1 as [|d ds Hd _ IH]; cbn [applyDueDisconnects_loop_prog]; obey; try done.
  eapply obeys_mono; [|by apply isDisconnectTarget_obeys]. intros target st' ->. by obey.
Qed.

Lemma drainSubmit_obeys st : obeys (R := R) drainSubmit_prog st (fun _ st' => st' = st).
Proof.
  unfold drainSubmit_prog, applyDueDisconnects_prog. obey. apply applyDueDisconnects_loop_obeys. by apply Forall_drop.
Qed.

Lemma answerSubmit_obeys pdu d msg id st :
  obeys (R := R) (answerSubmit_prog pdu d msg id) st (fun _ st' => st' = st).
Proof. unfold answerSubmit_prog. obey; first [done|apply drainSubmit_obeys]. Qed.

Lemma commitSubmit_obeys tick d msg : obeys (R := R) (commitSubmit_prog tick d msg) Fresh (fun _ st => st = Over).
Proof.
  unfold commitSubmit_prog, recordSubmit_prog. obey; done.
Qed.

(** Nothing is committed, or all of it. *)
Definition finished st : Prop := st = Fresh \/ st = Over.

Lemma handleSubmit_obeys pdu : obeys (R := R) (handleSubmit_prog pdu) Fresh (fun _ => finished).
Proof.
  unfold handleSubmit_prog, serveSubmit_prog. obey; try by left.
  eapply obeys_mono; [|apply applyDueTransitions_obeys]. intros _ st ->. obey; try by left.
  eapply obeys_mono; [|apply commitSubmit_obeys]. intros mid st ->. obey.
  eapply obeys_mono; [|apply dueDisconnectBeforeResponse_obeys]. intros [] st ->; [obey; by right|].
  eapply obeys_mono; [|apply answerSubmit_obeys]. intros _ st ->. by right.
Qed.

Lemma handleBind_obeys pdu : obeys (R := R) (handleBind_prog pdu) Fresh (fun _ => finished).
Proof. unfold handleBind_prog, admitBind_prog. obey; first [by left|by right]. Qed.

Lemma handle_obeys pdu : obeys (R := R) (handle_prog pdu) Fresh (fun _ => finished).
Proof.
  unfold handle_prog. destruct (bool_decide _) eqn:Hb; [apply handleBind_obeys|].
  destruct (PDU_CommandID pdu =? SubmitSM) eqn:Hs; [apply handleSubmit_obeys|].
  apply obeys_local; [|by left]. unfold handle. rewrite Hb, Hs. owned.
Qed.

Lemma handleFrame_obeys frame : obeys (R := R) (handleFrame_prog frame) Fresh (fun _ => finished).
Proof.
  unfold handleFrame_prog. obey; try by left. eapply obeys_mono; [|apply handle_obeys]. intros u st Hst. by obey.
Qed.

(** An iteration commits at most once, and does nothing after it that another
    session can see. *)
Lemma readLoop_iter_obeys re c : obeys (R := R) (readLoop_iter_prog re c) Fresh (fun _ => finished).
Proof.
  unfold readLoop_iter_prog, armReadDeadline, extendDeadline. obey; try by left.
  eapply obeys_mono; [|apply handleFrame_obeys]. done.
Qed.

End Handlers.
