(* ===== verification/Protocol.v ===== *)
(** * The protocol the programs of a session keep with their SMSC

    What an iteration of the read loop does to the shared state, whatever the
    others do between its accesses: it takes an ordinal, registers it, and from
    then on counts a submit before it journals it under the next tick of its bind.
    [wp] is a weakest precondition over programs whose SMSC is anything well formed
    at every access; [iteration_keeps] is its instance for the read loop. *)

From S2P Require Import Prelude.
From S2P Require Import SmppPdu.
From S2P Require Import SmppCodec.
From S2P Require Import SmppCodecThms.
From S2P Require Import SmppFraming.
From S2P Require Import Rng.
From S2P Require Import Schedule.
From S2P Require Import Recorder.
From S2P Require Import Config.
From S2P Require Import Scenario.
From S2P Require Import Dlr.
From S2P Require Import Close.
From S2P Require Import Binds.
From S2P Require Import VirtualSMSC.
From S2P Require Import EngineSafety.
From S2P Require Import SessionState.
From S2P Require Import Session.
From S2P Require Import SessionRuns.
From S2P Require Import SessionBind.
From S2P Require Import SessionThms.
From S2P Require Import ReadLoop.
From S2P Require Import SessionFrame.
From S2P Require Import System.
From S2P Require Import Access.

(** ** Phases *)

(** How far a session is in its bind, and in the submit it is committing. *)
Inductive phase :=
| Unbound
| Numbered (id : Z)           (* the ordinal is taken and not yet registered *)
| Listed (id tick : Z)        (* registered, with [tick] submits journalled *)
| Counted (id tick : Z).      (* the next one is counted and not yet journalled *)

(** The access a phase allows. *)
Definition may (ph : phase) (c : access) : Prop :=
  match c with
  | TakeOrdinal => ph = Unbound
  | Register info => ph = Numbered (bi_id info)
  | AskOldest _ | StoreProfile _ => True
  | CountSubmit => match ph with Listed _ _ => True | _ => False end
  | Journal p =>
      match ph with
      | Counted id tick =>
          Rec_PerBindClock p = tick +64 1 /\ Rec_MessageID p = Dlr.messageID id (tick +64 1)
      | _ => False
      end
  end.

Definition next (ph : phase) (c : access) : answer c -> phase :=
  match c with
  | TakeOrdinal => fun id => Numbered id
  | Register info => fun _ => Listed (bi_id info) 0
  | CountSubmit => fun _ => match ph with Listed id tick => Counted id tick | _ => ph end
  | Journal _ => fun _ => match ph with Counted id tick => Listed id (tick +64 1) | _ => ph end
  | _ => fun _ => ph
  end.

(** ** Weakest preconditions *)

Section Wp.
Context {R : Type}.
Implicit Types (s : session R) (w : world R) (ph : phase).

Fixpoint wp {A} (p : prog R A) (env : Env) ph s (Q : A -> phase -> session R -> Prop) : Prop :=
  match p with
  | Done a => Q a ph s
  | Local m k => forall w, w_session w = s -> smsc_safe (w_smsc w) ->
      match m env w with
      | Ok (b, w') => w_smsc w' = w_smsc w /\ wp (k b) env ph (w_session w') Q
      | _ => False
      end
  | Shared c k => may ph c /\ forall a, wp (k a) env (next ph c a) s Q
  end.

Definition triple {A} (P : phase -> session R -> Prop) (p : prog R A) (Q : A -> phase -> session R -> Prop) : Prop :=
  forall env ph s, P ph s -> wp p env ph s Q.

Lemma wp_mono {A} (p : prog R A) env ph s (Q Q' : A -> phase -> session R -> Prop) :
  (forall a ph s, Q a ph s -> Q' a ph s) -> wp p env ph s Q -> wp p env ph s Q'.
Proof.
  intros HQ. revert ph s. induction p as [a|B m k IH|c k IH]; intros ph s; simpl; [apply HQ|..].
  - intros Hm w Hw Hv. specialize (Hm w Hw Hv). destruct (m env w) as [[b w']| |]; [|done..].
    destruct Hm as [? Hm]. split; [done|]. by apply IH.
  - intros [Hm Hk]. split; [done|]. intros a. by apply IH.
Qed.

Lemma wp_bind {A B} (p : prog R A) (f : A -> prog R B) env ph s Q :
  wp p env ph s (fun a ph s => wp (f a) env ph s Q) -> wp (p ≫= f) env ph s Q.
Proof.
  revert ph s. induction p as [a|C m k IH|c k IH]; intros ph s; simpl; [done|..].
  - intros Hm w Hw Hv. specialize (Hm w Hw Hv). destruct (m env w) as [[b w']| |]; [|done..].
    destruct Hm as [? Hm]. split; [done|]. by apply IH.
  - intros [Hm Hk]. split; [done|]. intros a. by apply IH.
Qed.

Lemma triple_weaken {A} (P P' : phase -> session R -> Prop) (p : prog R A) (Q Q' : A -> phase -> session R -> Prop) :
  (forall ph s, P ph s -> P' ph s) -> triple P' p Q' -> (forall a ph s, Q' a ph s -> Q a ph s) -> triple P p Q.
Proof. intros HP Hp HQ env ph s Hs. eapply wp_mono; [exact HQ|]. by apply Hp, HP. Qed.

Lemma triple_pre {A} (P P' : phase -> session R -> Prop) (p : prog R A) Q :
  (forall ph s, P ph s -> P' ph s) -> triple P' p Q -> triple P p Q.
Proof. intros HP Hp. by eapply triple_weaken. Qed.

Lemma triple_bind {A B} P (p : prog R A) Q (f : A -> prog R B) S :
  triple P p Q -> (forall a, triple (Q a) (f a) S) -> triple P (p ≫= f) S.
Proof.
  intros Hp Hf env ph s Hs. apply wp_bind. eapply wp_mono; [|by apply Hp]. intros a ph' s'. apply Hf.
Qed.

Lemma triple_ret {A} (P : phase -> session R -> Prop) (a : A) Q :
  (forall ph s, P ph s -> Q a ph s) -> triple P (mret a) Q.
Proof. intros HQ env ph s. apply HQ. Qed.

(** The session's own code leaves the SMSC alone. *)
Lemma triple_local {A} P (m : M R A) Q :
  (forall env ph w, P ph (w_session w) -> smsc_safe (w_smsc w) ->
     exists a w', m env w = Ok (a, w') /\ w_smsc w' = w_smsc w /\ Q a ph (w_session w')) ->
  triple P (local m) Q.
Proof.
  intros Hm env ph s Hs w <- Hv. destruct (Hm env ph w Hs Hv) as (a & w' & -> & Hw & HQ). done.
Qed.

Lemma triple_gets {A B} P (f : session R -> A) (k : A -> prog R B) Q :
  (forall a, triple (fun ph s => P ph s /\ f s = a) (k a) Q) -> triple P (local (gets f) ≫= k) Q.
Proof.
  intros Hk. eapply triple_bind; [|exact Hk]. apply triple_local. intros env ph w Hs _. by exists (f (w_session w)), w.
Qed.

Lemma triple_gets_v {A B} P (f : virtualSMSC -> A) (k : A -> prog R B) Q :
  (forall v, smsc_safe v -> triple P (k (f v)) Q) -> triple P (local (gets_v f) ≫= k) Q.
Proof.
  intros Hk env ph s Hs w <- Hv. simpl. split; [done|]. by apply Hk.
Qed.

Lemma triple_ask {A B} P (f : Env -> A) (k : A -> prog R B) Q :
  (forall a, triple P (k a) Q) -> triple P (local (ask f) ≫= k) Q.
Proof. intros Hk env ph s Hs w <- Hv. simpl. split; [done|]. by apply Hk. Qed.

Lemma triple_modify {B} (P P' : phase -> session R -> Prop) f (k : () -> prog R B) Q :
  (forall ph s, P ph s -> P' ph (f s)) -> triple P' (k ()) Q -> triple P (local (modify f) ≫= k) Q.
Proof. intros Hf Hk env ph s Hs w <- Hv. simpl. split; [done|]. by apply Hk, Hf. Qed.

Lemma triple_emit {B} P e (k : () -> prog R B) Q : triple P (k ()) Q -> triple P (local (emit e) ≫= k) Q.
Proof. intros Hk env ph s Hs w <- Hv. simpl. split; [done|]. by apply Hk. Qed.

Lemma triple_shared {B} P c (k : answer c -> prog R B) Q :
  (forall ph s, P ph s -> may ph c) ->
  (forall a, triple (fun ph s => exists ph0, P ph0 s /\ ph = next ph0 c a) (k a) Q) ->
  triple P (shared c ≫= k) Q.
Proof. intros Hm Hk env ph s Hs. simpl. split; [by eapply Hm|]. intros a. apply Hk. by exists ph. Qed.

Lemma triple_false {A} P (p : prog R A) Q : (forall ph s, ~ P ph s) -> triple P p Q.
Proof. intros HP env ph s Hs. by destruct (HP ph s). Qed.

End Wp.

(** ** Code of the session's own *)

Definition keeps_smsc {R A} (m : M R A) : Prop := forall env w a w', m env w = Ok (a, w') -> w_smsc w' = w_smsc w.

Create HintDb keeps.

Section Keeps.
Context {R : Type}.

Lemma keeps_bind {A B} (m : M R A) (f : A -> M R B) :
  keeps_smsc m -> (forall a, keeps_smsc (f a)) -> keeps_smsc (m ≫= f).
Proof.
  intros Hm Hf env w b w' Hrun. unfold mbind, M_bind in Hrun.
  destruct (m env w) as [[a w1]| |] eqn:Hmr; [|done..]. rewrite (Hf a _ _ _ _ Hrun). by eapply Hm.
Qed.

Lemma keeps_reads {A} (m : M R A) : reads m -> keeps_smsc m.
Proof. intros Hm env w a w' Hrun. by rewrite (Hm _ _ _ _ Hrun). Qed.

Lemma keeps_ret {A} (a : A) : keeps_smsc (R := R) (mret a).
Proof. by intros env w a' w' [= _ <-]. Qed.

Lemma keeps_gets {A} (f : session R -> A) : keeps_smsc (gets f).
Proof. by intros env w a w' [= _ <-]. Qed.

Lemma keeps_gets_v {A} (f : virtualSMSC -> A) : keeps_smsc (R := R) (gets_v f).
Proof. by intros env w a w' [= _ <-]. Qed.

Lemma keeps_modify (f : session R -> session R) : keeps_smsc (modify f).
Proof. by intros env w a w' [= _ <-]. Qed.

Lemma keeps_emit e : keeps_smsc (R := R) (emit e).
Proof. by intros env w a w' [= _ <-]. Qed.

Lemma keeps_ask {A} (f : Env -> A) : keeps_smsc (R := R) (ask f).
Proof. by intros env w a w' [= _ <-]. Qed.

Lemma keeps_lift {A} (m : may_panic A) : keeps_smsc (R := R) (lift m).
Proof. intros env w a w'. unfold lift. by destruct m; [intros [= _ <-]|..]. Qed.

Lemma keeps_sendKind pdu kind : keeps_smsc (R := R) (sendKind pdu kind).
Proof. intros env w a w'. rewrite sendKind_run. by intros [= _ <-]. Qed.

Lemma keeps_closeWith reason err : keeps_smsc (R := R) (closeWith reason err).
Proof. by intros env w a w' [= _ <-]. Qed.

Lemma keeps_dispatch_all evs : keeps_smsc (R := R) (dispatch_all evs).
Proof.
  induction evs as [|ev evs IH]; [apply keeps_ret|]. cbn [dispatch_all]. apply keeps_bind.
  - intros env w a w'. rewrite dispatch_run. by intros [= _ <-].
  - intros _. apply keeps_bind; [apply keeps_gets|]. intros state. destruct (bool_decide _); [apply keeps_ret|done].
Qed.

End Keeps.

#[export] Hint Resolve keeps_ret keeps_gets keeps_gets_v keeps_modify keeps_emit keeps_ask keeps_lift keeps_sendKind
  keeps_closeWith keeps_dispatch_all : keeps.

Ltac keep :=
  repeat first
    [ solve [eauto with keeps]
    | apply keeps_bind; [|intros ?]
    | match goal with
      | |- keeps_smsc (match ?b with _ => _ end) => destruct b
      | |- keeps_smsc (when ?b _) => unfold when
      | |- keeps_smsc (send _) => unfold send
      end ].

(** ** The handlers keep the protocol *)

Section Handlers.
Context {R : Type} `{RandSource R}.
Implicit Types (s : session R) (w : world R) (ph : phase) (pdu : PDU).

(** A bound session that has journalled [tick] submits and is serving another PDU. *)
Record bound_at (id tick : Z) s : Prop := {
  ba_safe : session_safe s;
  ba_state : s_state s = stateBound;
  ba_bound : s_bound s = true;
  ba_id : s_id s = id;
  ba_clock : s_perBindClock s = tick
}.

Definition listed (id tick : Z) ph s : Prop := ph = Listed id tick /\ bound_at id tick s.

(** A session between two iterations. *)
Definition settled ph s : Prop :=
  session_safe s /\
  match ph with
  | Unbound => s_bound s = false /\ s_id s = 0 /\ s_perBindClock s = 0 /\ s_state s <> stateBound
  | Listed id tick => s_bound s = true /\ s_id s = id /\ s_perBindClock s = tick /\ s_state s <> stateOpen
  | _ => False
  end.

Lemma listed_settled id tick ph s : listed id tick ph s -> settled ph s.
Proof. intros [-> [Hs Hst ? ? ?]]. split; [done|]. by rewrite Hst. Qed.

Lemma settled_state ph s : settled ph s -> (s_state s = stateOpen -> ph = Unbound) /\
  (s_state s = stateBound -> exists id tick, listed id tick ph s).
Proof.
  intros [Hs Hp]. destruct ph as [|id|id tick|id tick]; [| done | |done].
  - destruct Hp as (? & ? & ? & ?). by split.
  - destruct Hp as (? & ? & ? & ?). split; [done|]. intros. exists id, tick. split; [done|]. by split.
Qed.

(** Code that neither binds nor commits keeps a session settled. *)
Lemma quiet_settled env ph w w' : settled ph (w_session w) -> shared_kept env w w' ->
  session_safe (w_session w') -> settled ph (w_session w').
Proof.
  intros [_ Hp] [_ E1 E2 E3 E4] Hs. split; [done|].
  destruct ph; try done; rewrite E1, E2, E3; destruct Hp as (? & ? & ? & ?); split_and!; try done;
    destruct E4 as [->| ->]; done.
Qed.

Lemma triple_quiet {A} (P : phase -> session R -> Prop) (m : M R A) :
  (forall ph s, P ph s -> settled ph s) -> keeps_smsc m -> respects shared_kept m ->
  (forall env w, P Unbound (w_session w) \/ (exists id tick, P (Listed id tick) (w_session w)) -> world_safe w ->
     exists a w', m env w = Ok (a, w') /\ world_safe w') ->
  triple P (local m) (fun _ => settled).
Proof.
  intros HP Hk Hr Ht. apply triple_local. intros env ph w Hs Hv. pose proof (HP _ _ Hs) as Hset.
  destruct (Ht env w) as (a & w' & Hrun & [_ Hs']).
  - destruct Hset as [_ Hp]. destruct ph as [|id|id tick|id tick]; [by left|done| |done]. right. by exists id, tick.
  - split; [done|]. apply Hset.
  - exists a, w'. split; [done|]. split; [by eapply Hk|]. eapply quiet_settled; [exact Hset|by eapply Hr|done].
Qed.

Ltac same_bound := intros ? ? [-> [[] ? ? ? ?]]; split; [done|split; [split|..]; simpl; auto].

Lemma applyTransition_keeps id tick to : triple (listed id tick) (applyTransition_prog to) (fun _ => listed id tick).
Proof.
  apply triple_gets_v. intros v [_ _ Hen]. destruct (v_engines v !! to) as [e|] eqn:He; [|by apply triple_ret].
  eapply (triple_modify _ (listed id tick)).
  { intros ph s [-> [[Hb ? ? ?] Hst ? ? ?]]. split; [done|]. split; simpl; try done. split; simpl; try done.
    intros _. split; [by apply Hb|]. exists e. split; [done|]. by eapply Hen. }
  apply triple_shared; [done|]. intros []. eapply triple_pre; [by intros ph s (? & Hl & ->); exact Hl|].
  apply triple_gets_v. intros v' _. apply triple_local. intros env ph w Hs _. by eexists _, _.
Qed.

Lemma applyDueTransitions_keeps id tick clock :
  triple (listed id tick) (applyDueTransitions_prog clock) (fun _ => listed id tick).
Proof.
  apply triple_gets. intros cursor. apply triple_gets. intros ts.
  eapply triple_pre; [by intros ph s [[Hl _] _]; exact Hl|].
  generalize (drop cursor ts). clear ts. intros ts. induction ts as [|t ts IH]; cbn [applyDueTransitions_loop_prog].
  - by apply triple_ret.
  - destruct (_ <=? _); [|by apply triple_ret]. eapply triple_bind; [apply applyTransition_keeps|]. intros ?.
    eapply triple_modify; [|exact IH]. same_bound.
Qed.

Lemma evaluateSubmit_keeps id tick clock :
  triple (listed id tick) (local (evaluateSubmit clock)) (fun _ => listed id tick).
Proof.
  apply triple_local. intros env ph w [-> [Hs Hst ? ? ?]] Hv. destruct (ss_bound _ Hs Hst) as [[st Hsc] (e & He & Hes)].
  destruct (evaluateSubmit_run clock env w e st He Hes Hsc) as (d & st' & _ & Hrun).
  eexists _, _. split; [exact Hrun|]. split; [done|]. split; [done|]. split; simpl; try done.
  destruct Hs as [Hb ? ? ?]. split; simpl; try done. intros _. split; [by eexists|]. by apply Hb.
Qed.

(** Whether a disconnect targets this bind is only read. *)
Definition has_scenario s : Prop := is_Some (s_scenarioState s).

Lemma isDisconnectTarget_keeps (P : phase -> session R -> Prop) scope t :
  (forall ph s, P ph s -> has_scenario s) ->
  triple P (isDisconnectTarget_prog scope t) (fun _ => P).
Proof.
  intros Hsc. unfold isDisconnectTarget_prog. destruct (String.eqb scope _); [by apply triple_ret|].
  destruct (String.eqb scope _).
  { apply triple_gets. intros id. unfold shared. intros env ph s [Hs _]. simpl. by split. }
  destruct (String.eqb scope _); [|by apply triple_ret].
  apply triple_gets. intros state. eapply (triple_bind _ _ (fun _ => P)); [|by intros ?; apply triple_ret].
  apply triple_local. intros env ph w [Hs <-] _. destruct (Hsc _ _ Hs) as [st Hst].
  exists st, w. split; [|done]. unfold nonnil. by rewrite Hst.
Qed.

Lemma listed_has_scenario id tick ph s : listed id tick ph s -> has_scenario s.
Proof. intros [_ [Hs Hst _ _ _]]. by apply (ss_bound _ Hs). Qed.

Lemma dueDisconnectBeforeResponse_keeps id tick :
  triple (listed id tick) dueDisconnectBeforeResponse_prog (fun _ => listed id tick).
Proof.
  apply triple_gets. intros ds. apply triple_gets. intros cursor. apply triple_gets. intros clock.
  eapply (triple_bind _ _ (fun _ => listed id tick)).
  - apply triple_local. intros env ph w [[[Hl <-] <-] _] _. pose proof (ss_cursor _ (ba_safe _ _ _ (proj2 Hl))) as Hc.
    eexists _, w. split; [|done]. unfold lift. rewrite go_slice_ok by lia. reflexivity.
  - clear. intros ds. induction ds as [|d ds IH]; cbn [dueDisconnect_loop_prog]; [by apply triple_ret|].
    destruct (_ >? _); [by apply triple_ret|]. destruct (String.eqb _ _); [|exact IH].
    eapply triple_bind; [apply isDisconnectTarget_keeps, listed_has_scenario|]. intros [|]; [by apply triple_ret|exact IH].
Qed.

(** A committed submit moves its bind to the next tick. *)
Lemma commitSubmit_keeps id tick d msg :
  triple (listed id tick) (commitSubmit_prog (tick +64 1) d msg) (fun _ => listed id (tick +64 1)).
Proof.
  eapply (triple_modify _ (fun ph s => ph = Listed id tick /\ bound_at id (tick +64 1) s)); [same_bound|].
  apply triple_shared; [by intros ph s [-> _]|]. intros [].
  eapply (triple_pre _ (fun ph s => ph = Counted id tick /\ bound_at id (tick +64 1) s));
    [by intros ph s (ph0 & [-> ?] & ->)|].
  apply triple_gets_v. intros v _. apply triple_emit, triple_emit, triple_ask. intros now.
  eapply (triple_modify _ (fun ph s => ph = Counted id tick /\ bound_at id (tick +64 1) s)); [same_bound|].
  eapply (triple_bind _ _ (fun m ph s => (ph = Counted id tick /\ bound_at id (tick +64 1) s) /\
    m = Dlr.messageID id (tick +64 1))).
  { apply triple_local. intros env ph w Hs _. eexists _, w. split; [reflexivity|]. split; [done|]. split; [done|].
    destruct Hs as [_ [_ _ _ -> ->]]. done. }
  intros m. eapply (triple_bind _ _ (fun _ => listed id (tick +64 1))); [|by intros ?; apply triple_ret].
  apply triple_gets. intros clock. unfold shared. intros env ph s [[[-> Hb] ->] <-]. simpl.
  rewrite (ba_clock _ _ _ Hb). split; [done|]. by intros _.
Qed.

(** ** The drains of a submit *)

Record draining (id tick : Z) (n : nat) ph s : Prop := {
  dr_phase : ph = Listed id tick;
  dr_safe : session_safe s;
  dr_open : s_state s <> stateOpen;
  dr_bound : s_bound s = true;
  dr_id : s_id s = id;
  dr_clock : s_perBindClock s = tick;
  dr_scenario : has_scenario s;
  dr_cursor : (s_disconnectCursor s + n <= length (s_disconnects s))%nat
}.

Lemma applyDueDisconnects_loop_keeps id tick ds clock :
  triple (draining id tick (length ds)) (applyDueDisconnects_loop_prog ds clock) (fun _ => settled).
Proof.
  assert (forall n ph s, draining id tick n ph s -> settled ph s) as Hset by (intros n ph s []; subst; by split).
  induction ds as [|d ds IH]; cbn [applyDueDisconnects_loop_prog]; [apply triple_ret; eauto|].
  destruct (_ <=? _); [|apply triple_ret; eauto].
  eapply (triple_modify _ (draining id tick (length ds))).
  { intros ph s [-> [Hb Hc Ho Hx] D3 D4 D5 D6 D7 D8]. simpl in D8. split; simpl; try done; [|lia].
    split; simpl; try done; lia. }
  eapply triple_bind; [apply isDisconnectTarget_keeps; by intros ph s []|]. intros target.
  eapply (triple_bind _ _ (fun _ => draining id tick (length ds))); [|intros ?; exact IH].
  apply triple_local. intros env ph w Hd _. destruct target; [|by exists (), w].
  eexists _, _. split; [apply closeWith_run|]. split; [done|].
  destruct Hd as [-> [Hb Hc Ho Hx] D3 D4 D5 D6 D7 D8]. split; simpl; done.
Qed.

Lemma drainSubmit_keeps id tick : triple (listed id tick) drainSubmit_prog (fun _ => settled).
Proof.
  apply triple_gets. intros clock. eapply (triple_bind _ _ (fun _ => listed id tick)).
  - apply triple_local. intros env ph w [[-> [Hs Hst ? ? ?]] _] _.
    destruct (drainDue_run clock env w) as (due & rest & _ & Hrun); [congruence|].
    eexists _, _. split; [exact Hrun|]. split; [done|]. split; [done|]. destruct Hs. by split.
  - intros ?. apply triple_gets. intros cursor. apply triple_gets. intros ds.
    eapply triple_pre; [|apply applyDueDisconnects_loop_keeps].
    intros ph s [[Hl <-] <-]. pose proof (listed_has_scenario _ _ _ _ Hl). destruct Hl as [-> [Hs Hst ? ? ?]].
    pose proof (ss_cursor _ Hs). split; try done; rewrite ?length_drop; first [congruence|lia].
Qed.

(** ** Answers and submits *)

Lemma closeWith_settles (P : phase -> session R -> Prop) reason err :
  (forall ph s, P ph s -> settled ph s) ->
  triple P (local (closeWith reason err)) (fun _ ph s => settled ph s /\ s_state s = stateClosed).
Proof.
  intros HP. apply triple_local. intros env ph w Hs Hv. pose proof (HP _ _ Hs) as Hset.
  eexists _, _. split; [reflexivity|]. split; [done|]. split; [|done].
  eapply (quiet_settled env); [exact Hset| |].
  - destruct w as [s [] out c]. split; simpl; auto.
  - apply (closed_safe reason err w). split; [done|apply Hset].
Qed.

Lemma closeWith_settled (P : phase -> session R -> Prop) reason err :
  (forall ph s, P ph s -> settled ph s) -> triple P (local (closeWith reason err)) (fun _ => settled).
Proof.
  intros HP. eapply triple_weaken; [intros ph s Hs; exact Hs|exact (closeWith_settles P reason err HP)|].
  by intros a ph s [Hs _].
Qed.

Lemma submitResp_keeps id tick pdu d status body :
  triple (listed id tick) (local (submitResp pdu d status body)) (fun _ => listed id tick).
Proof.
  apply triple_local. intros env ph w [-> Hb] Hv. destruct (ss_bound _ (ba_safe _ _ _ Hb) (ba_state _ _ _ Hb)) as [_ (e & He & _)].
  eexists _, _. split; [by apply submitResp_run|]. cbn zeta. by destruct (defers _ _).
Qed.

Lemma scheduleDLR_keeps id tick mid msg plan sent :
  triple (listed id tick)
    (local (match plan with Some plan => scheduleDLR mid msg plan sent | None => mret () end)) (fun _ => listed id tick).
Proof.
  apply triple_local. intros env ph w [-> [[] ? ? ? ?]] Hv. destruct (scheduleDLR_run mid msg plan sent env w) as (r & _ & Hrun).
  eexists _, _. split; [exact Hrun|]. split; [done|]. split; [done|]. by split.
Qed.

Lemma answerSubmit_keeps id tick pdu d msg mid :
  triple (listed id tick) (answerSubmit_prog pdu d msg mid) (fun _ => settled).
Proof.
  unfold answerSubmit_prog. destruct (D_Outcome d).
  - eapply triple_bind; [apply submitResp_keeps|]. intros sent.
    eapply triple_bind; [apply scheduleDLR_keeps|]. intros ?. apply drainSubmit_keeps.
  - eapply triple_bind; [apply submitResp_keeps|]. intros ?. apply drainSubmit_keeps.
  - apply drainSubmit_keeps.
  - eapply (triple_bind _ _ (fun _ => listed id tick)).
    + apply triple_local. intros env ph w [-> Hb] Hv.
      destruct (ss_bound _ (ba_safe _ _ _ Hb) (ba_state _ _ _ Hb)) as [_ (e & He & _)].
      destruct (String.eqb _ _); [|by exists (), w]. eexists _, _. split.
      { unfold when. erewrite M_bind_run by apply sendKind_run. unfold observeServed.
        rewrite gets_v_run, gets_run. erewrite M_bind_run by (unfold nonnil; simpl; by rewrite He). reflexivity. }
      done.
    + intros ?. apply closeWith_settled. apply listed_settled.
Qed.

Lemma reply_settled pdu : triple settled (local (send pdu)) (fun _ => settled).
Proof.
  apply triple_quiet; [done|keep|respect|].
  intros env w _ Hs. eexists _, _. split; [apply sendKind_run|]. by apply add_out_safe.
Qed.

Lemma serveSubmit_keeps id tick pdu msg :
  triple (listed id tick) (serveSubmit_prog pdu msg (tick +64 1)) (fun _ => settled).
Proof.
  eapply triple_bind; [apply applyDueTransitions_keeps|]. intros ?.
  eapply triple_bind; [apply evaluateSubmit_keeps|]. intros d.
  eapply (triple_bind _ _ (fun _ => listed id tick)).
  { apply triple_local. intros env ph w Hl _. eexists _, w. split; [apply served_run|done]. }
  intros served. destruct (negb served); [apply closeWith_settled, listed_settled|].
  eapply triple_bind; [apply commitSubmit_keeps|]. intros mid.
  eapply triple_bind; [apply dueDisconnectBeforeResponse_keeps|]. intros [|].
  - apply closeWith_settled, listed_settled.
  - apply answerSubmit_keeps.
Qed.

Lemma handleSubmit_keeps pdu : triple settled (handleSubmit_prog pdu) (fun _ => settled).
Proof.
  apply triple_gets. intros state. apply triple_gets. intros canSubmit.
  destruct (negb (bool_decide (state = stateBound)) || negb canSubmit) eqn:Hg.
  { eapply triple_pre; [|apply reply_settled]. by intros ph s [[Hs _] _]. }
  apply orb_false_iff in Hg as [Hst%negb_false_iff%bool_decide_eq_true _].
  destruct (PDU_Body pdu) as [[b|b|msg|b]|].
  3: { apply triple_gets. intros tick env ph s [[[Hs Hst'] _] Htick]. subst state.
    destruct (proj2 (settled_state _ _ Hs) Hst') as (id & t & Hl).
    assert (t = tick) as -> by (rewrite <- Htick; symmetry; apply Hl). by eapply serveSubmit_keeps. }
  all: eapply triple_pre; [|apply reply_settled]; by intros ph s [[Hs _] _].
Qed.

(** ** Binds *)

Lemma wp_modify {B} f (k : () -> prog R B) env ph s Q :
  wp (k ()) env ph (f s) Q -> wp (local (modify f) ≫= k) env ph s Q.
Proof. intros Hk w <- Hv. simpl. by split. Qed.

Lemma wp_ask {A B} (f : Env -> A) (k : A -> prog R B) env ph s Q :
  wp (k (f env)) env ph s Q -> wp (local (ask f) ≫= k) env ph s Q.
Proof. intros Hk w <- Hv. simpl. by split. Qed.

Lemma wp_emit {B} e (k : () -> prog R B) env ph s Q :
  wp (k ()) env ph s Q -> wp (local (emit e) ≫= k) env ph s Q.
Proof. intros Hk w <- Hv. simpl. by split. Qed.

Lemma wp_shared {B} c (k : answer c -> prog R B) env ph s Q :
  may ph c -> (forall a, wp (k a) env (next ph c a) s Q) -> wp (shared c ≫= k) env ph s Q.
Proof. by split. Qed.

Lemma admitBind_keeps pdu b scenario cfg :
  engine_safe scenario ->
  triple (fun ph s => settled ph s /\ s_state s = stateOpen) (admitBind_prog pdu b scenario cfg) (fun _ => settled).
Proof.
  intros He. unfold admitBind_prog. destruct (bindKind (PDU_CommandID pdu)) as [bindType respID].
  apply triple_shared; [intros ph s [Hs Ho]; by apply (settled_state ph s)|]. intros id env ph s (ph0 & [Hs Ho] & ->).
  rewrite (proj1 (settled_state _ _ Hs) Ho) in Hs. destruct Hs as [[_ _ Hcur _] (_ & _ & Hclk & _)].
  specialize (Hcur Ho). do 6 apply wp_modify. do 2 apply wp_ask. do 2 apply wp_modify. apply wp_ask.
  match goal with |- wp _ _ _ ?s0 _ => remember s0 as s1 eqn:E end.
  assert (is_Some (s_scenarioState s1) /\ s_currentEngine s1 = Some scenario /\ s_disconnectCursor s1 = 0%nat /\
    s_state s1 = stateBound /\ s_id s1 = id /\ s_perBindClock s1 = 0) as (A1 & A2 & A3 & A4 & A5 & A6)
    by (subst s1; split_and!; [by eexists|done..]). clear E.
  apply wp_shared; [done|]. intros []. apply wp_emit. do 2 apply wp_modify.
  apply wp_bind. intros w Hw Hv. destruct (scheduleConfiguredEvents_run env w) as (r & _ & ->).
  split; [done|]. intros w2 Hw2 Hv2. unfold send. rewrite sendKind_run. split; [done|]. simpl. rewrite Hw2. simpl.
  rewrite Hw. split; simpl; [|split_and!; [done..|congruence]].
  split; simpl; rewrite ?A3; try done; try lia. all: rewrite ?A4; try done. intros _. split; [done|]. by exists scenario.
Qed.

Lemma handleBind_keeps pdu : triple settled (handleBind_prog pdu) (fun _ => settled).
Proof.
  unfold handleBind_prog. destruct (bindKind (PDU_CommandID pdu)) as [bindType respID] eqn:Hk.
  apply triple_gets. intros state. destruct (negb (bool_decide (state = stateOpen))) eqn:Hst.
  { eapply triple_pre; [|apply reply_settled]. by intros ph s [Hs _]. }
  apply negb_false_iff, bool_decide_eq_true in Hst as ->.
  destruct (PDU_Body pdu) as [[b|b|msg|b]|].
  2-5: eapply triple_pre; [|apply reply_settled]; by intros ph s [Hs _].
  apply triple_gets_v. intros v Hv. destruct (RejectBind (v_scenario v)).
  { apply triple_quiet; [by intros ph s [Hs _]|keep|respect|]. intros env w _ [Hw []]. eexists _, _. split.
    - rewrite modify_run. erewrite M_bind_run by apply sendKind_run. apply closeWith_run.
    - apply closed_safe, add_out_safe. split; [done|by split]. }
  apply triple_gets_v. intros v' Hv'. cbn zeta. destruct (_ || _).
  - apply triple_quiet; [by intros ph s [Hs _]|keep|respect|]. intros env w _ [Hw []]. eexists _, _. split.
    + rewrite !modify_run. erewrite M_bind_run by apply sendKind_run. apply closeWith_run.
    + apply closed_safe, add_out_safe. split; [done|by split].
  - apply admitBind_keeps, Hv.
Qed.

(** ** The read loop *)

Definition looping_at ph s : Prop := settled ph s /\ s_state s <> stateClosed.

(** The session an iteration leaves, and whether the loop goes on. *)
Definition iterated (goon : bool) ph s : Prop :=
  settled ph s /\ if goon then s_state s <> stateClosed else s_state s = stateClosed.

Lemma handle_keeps pdu : triple settled (handle_prog pdu) (fun _ => settled).
Proof.
  unfold handle_prog. destruct (bool_decide _) eqn:Hb; [apply handleBind_keeps|].
  destruct (PDU_CommandID pdu =? SubmitSM) eqn:Hs; [apply handleSubmit_keeps|].
  assert (exists m : M R (), handle pdu = m /\ keeps_smsc m /\ respects shared_kept m) as (m & Hm & Hk & Hr).
  { unfold handle. rewrite Hb, Hs. eexists. split; [reflexivity|]. split; [keep|respect]. }
  rewrite Hm. apply triple_quiet; [done..|]. intros env w _ Hw. rewrite <- Hm.
  destruct (handle_safe pdu env w Hw) as (w' & ? & ?). by exists (), w'.
Qed.

(** An update of a field the protocol does not mention. *)
Lemma upd_looping f (env : Env) ph w :
  benign f -> (forall s, s_state (f s) = s_state s) -> (world_safe w -> world_safe (upd f w)) ->
  smsc_safe (w_smsc w) -> looping_at ph (w_session w) -> looping_at ph (f (w_session w)).
Proof.
  intros Hf Hst Hsafe Hv [Hs Hc]. split; [|by rewrite Hst].
  apply (quiet_settled env ph w (upd f w)); [done|by apply frame_modify|]. apply Hsafe. split; [done|apply Hs].
Qed.

Lemma modify_looping {B} f (k : () -> prog R B) Q :
  benign f -> (forall s, s_state (f s) = s_state s) -> (forall w, world_safe w -> world_safe (upd f w)) ->
  triple looping_at (k ()) Q -> triple looping_at (local (modify f) ≫= k) Q.
Proof.
  intros Hf Hst Hsafe Hk env ph s Hs w <- Hv. split; [done|]. apply Hk, (upd_looping f env ph w); auto.
Qed.

Lemma state_iterated ph s : settled ph s -> iterated (negb (bool_decide (s_state s = stateClosed))) ph s.
Proof. intros Hs. split; [done|]. by case_bool_decide. Qed.

Lemma handleFrame_keeps frame :
  HeaderLen <= len frame -> triple looping_at (handleFrame_prog frame) iterated.
Proof.
  intros Hl. apply modify_looping; [prove_benign|done|intros w; by apply upd_pdusRead_safe|].
  pose proof (Decode_total frame) as Hd. destruct (Decode frame) as [pdu|err|]; [| |done].
  - eapply triple_bind; [eapply triple_pre; [|apply handle_keeps]; by intros ph s [Hs _]|]. intros ?.
    apply triple_gets. intros state. apply triple_ret. intros ph s [Hs <-]. by apply state_iterated.
  - destruct (rejectMalformed_run (R := R) frame err Hl) as [p Hrun].
    eapply (triple_bind _ _ (fun _ => looping_at)).
    + apply triple_local. intros env ph w Hs _. eexists _, _. split; [apply Hrun|done].
    + intros ?. by apply triple_ret.
Qed.

(** What the loop reads of an iteration besides its [Env]. *)
Definition with_env (env : Env) (re : ReadEnv) : ReadEnv :=
  mkReadEnv env (re_armNow re) (re_quitBefore re) (re_frameNow re) (re_quitAfter re) (re_failNow re).

Lemma handleReadError_keeps re err : triple looping_at (local (handleReadError re err)) iterated.
Proof.
  apply triple_local. intros env ph w [Hs Hst] Hv.
  destruct (handleReadError_ok (with_env env re) err w) as (goon & w' & Hrun & [[_ Hs'] Hg] & _).
  { split; [|done]. split; [done|apply Hs]. }
  exists goon, w'. split; [exact Hrun|]. split.
  - revert Hrun. apply (fun Hk : keeps_smsc (handleReadError (with_env env re) err) => Hk env w goon w').
    unfold handleReadError, readFailure, flushSchedule. keep.
  - split; [|by destruct goon; [|apply Hg]]. eapply (quiet_settled env); [exact Hs| |done].
    assert (respects shared_kept (handleReadError (R := R) (with_env env re) err)) as Hr by respect. by eapply Hr.
Qed.

Lemma readLoop_iter_keeps re c :
  triple looping_at (readLoop_iter_prog re c) (fun r => iterated (bool_decide (is_Some r))).
Proof.
  unfold readLoop_iter_prog. eapply (triple_bind _ _ (fun _ => looping_at)).
  { apply triple_local. intros env ph w Hs Hv. eexists _, _. split; [apply armReadDeadline_run|]. split; [done|].
    eapply (upd_looping _ env); [prove_benign|done|apply upd_deadline_safe|done..]. }
  intros ?. destruct (re_quitBefore re).
  { eapply (triple_bind _ _ (fun _ => iterated false)); [|intros ?; by apply triple_ret].
    apply closeWith_settles. by intros ph s [Hs _]. }
  destruct (ReadPDU c) as [res c'] eqn:Hr. eapply (triple_bind _ _ (fun _ => looping_at)).
  { apply triple_local. intros env ph w Hs Hv. destruct (starts c); [|by exists (), w].
    eexists _, _. split; [reflexivity|]. split; [done|].
    apply (upd_looping (set_s_readDeadline (re_frameNow re + v_idleTimeout (w_smsc w))) env ph w);
      [prove_benign|done|apply upd_deadline_safe|done..]. }
  intros ?. eapply (triple_bind _ _ iterated); [|by intros [|]; apply triple_ret].
  pose proof (ReadPDU_progress c res c' Hr). destruct res as [frame|err|]; [| |done].
  - apply handleFrame_keeps. by destruct (ReadPDU_Ok_length c frame c' Hr) as [[Hl _] _].
  - apply handleReadError_keeps.
Qed.

End Handlers.
