(* ===== verification/Interleave.v ===== *)
(** * The sessions of one virtual SMSC, access by access
      ([acceptLoop] of [engine.go], [run] and [readLoop] of [session.go], [view] of [virtualsmsc.go])

    [System] takes an iteration of a read loop as one step.  Here the sessions run
    the programs of [Access] and interleave between any two accesses to what they
    share, and an inspection reads the SMSC field by field between them.  The
    phase a thread carries is an auxiliary variable: [perform] moves it and nothing
    reads it. *)

From S2P Require Import Prelude.
From S2P Require Import SmppPdu.
From S2P Require Import SmppCodec.
From S2P Require Import SmppFraming.
From S2P Require Import Rng.
From S2P Require Import Schedule.
From S2P Require Import Recorder.
From S2P Require Import Config.
From S2P Require Import Validate.
From S2P Require Import ValidateThms.
From S2P Require Import Scenario.
From S2P Require Import ScenarioThms.
From S2P Require Import Dlr.
From S2P Require Import Close.
From S2P Require Import Binds.
From S2P Require Import VirtualSMSC.
From S2P Require Import EngineSafety.
From S2P Require Import SessionState.
From S2P Require Import Session.
From S2P Require Import SessionRuns.
From S2P Require Import SessionBind.
From S2P Require Import SessionThms.
From S2P Require Import ReadLoop.
From S2P Require Import SessionFrame.
From S2P Require Import Replay.
From S2P Require Import System.
From S2P Require Import Access.
From S2P Require Import Protocol.

(** ** Threads *)

(** What the goroutine of a session has left to do. *)
Inductive code (R : Type) :=
| Idle (c : conn)                                   (* before an iteration *)
| Busy (env : Env) (p : prog R (option conn))       (* inside one *)
| Ended.                                            (* the loop has returned; its teardown is to come *)
Arguments Idle {R}. Arguments Busy {R}. Arguments Ended {R}.

Record thread (R : Type) := mkThread {
  t_session : session R;
  t_out : list effect;
  t_nextChan : chan;
  t_code : code R;
  t_phase : phase            (* auxiliary *)
}.
Arguments mkThread {R}. Arguments t_session {R}. Arguments t_out {R}. Arguments t_nextChan {R}.
Arguments t_code {R}. Arguments t_phase {R}.

(** The journal is every record ever appended. *)
Record interleaving (R : Type) := mkInterleaving {
  z_smsc : virtualSMSC;
  z_threads : gmap nat (thread R);
  z_journal : list RecordedPDU
}.
Arguments mkInterleaving {R}. Arguments z_smsc {R}. Arguments z_threads {R}. Arguments z_journal {R}.

Inductive fine_event :=
| Open (k : nat) (now : Z) (c : conn)    (* acceptLoop: a new connection [k] *)
| Begin (k : nat) (re : ReadEnv)         (* its read loop starts an iteration *)
| Advance (k : nat)                      (* and performs one access, or code of its own *)
| Leave (k : nat).                       (* the teardown of [run]: binds.remove *)

(** The records an access adds to the journal. *)
Definition journals (c : access) : list RecordedPDU := match c with Journal p => [p] | _ => [] end.

Section Exec.
Context {R : Type} `{RandSource R}.
Implicit Types (v : virtualSMSC) (t : thread R) (z : interleaving R).

Definition thread_world v t : world R := mkWorld (t_session t) v (t_out t) (t_nextChan t).

Definition set_t_code (c : code R) t : thread R := mkThread (t_session t) (t_out t) (t_nextChan t) c (t_phase t).

(** What an iteration that is over leaves to do. *)
Definition over (r : option conn) : code R := match r with Some c => Idle c | None => Ended end.

(** One node of a program: the thread, the SMSC and the records it leaves. *)
Definition advance (env : Env) (p : prog R (option conn)) t v
  : may_panic (thread R * virtualSMSC * list RecordedPDU) :=
  match p with
  | Done r => Ok (set_t_code (over r) t, v, [])
  | Local m k =>
      let* r := m env (thread_world v t) in
      Ok (mkThread (w_session r.2) (w_out r.2) (w_nextChan r.2) (Busy env (k r.1)) (t_phase t), w_smsc r.2, [])
  | Shared c k =>
      let* r := perform c v in
      Ok (mkThread (t_session t) (t_out t) (t_nextChan t) (Busy env (k r.1)) (next (t_phase t) c r.1), r.2, journals c)
  end.

(** [None]: the event is not possible. *)
Definition fine_exec (ev : fine_event) z : may_panic (option (interleaving R)) :=
  let '(mkInterleaving v threads journal) := z in
  match ev with
  | Open k now c =>
      Ok match threads !! k with
         | Some _ => None
         | None => Some (mkInterleaving v (<[k := mkThread (newSession v now) [] 0 (Idle c) Unbound]> threads) journal)
         end
  | Begin k re =>
      Ok match threads !! k with
         | Some t =>
             match t_code t with
             | Idle c =>
                 Some (mkInterleaving v (<[k := set_t_code (Busy (re_env re) (readLoop_iter_prog re c)) t]> threads) journal)
             | _ => None
             end
         | None => None
         end
  | Advance k =>
      match threads !! k with
      | Some t =>
          match t_code t with
          | Busy env p =>
              let* r := advance env p t v in
              Ok (Some (mkInterleaving r.1.2 (<[k := r.1.1]> threads) (journal ++ r.2)))
          | _ => Ok None
          end
      | None => Ok None
      end
  | Leave k =>
      Ok match threads !! k with
         | Some t =>
             match t_code t with
             | Ended =>
                 Some (mkInterleaving (set_v_binds (remove (s_id (t_session t)) (v_binds v)) v) (delete k threads) journal)
             | _ => None
             end
         | None => None
         end
  end.

Definition fine_step z z' : Prop := exists ev, fine_exec ev z = Ok (Some z').

Definition fine_boot (cfg : VirtualSMSCConfig) : interleaving R := mkInterleaving (newVirtualSMSC cfg).1 ∅ [].

End Exec.

(** ** What the phases say *)

Definition ordinal (ph : phase) : option Z :=
  match ph with Unbound => None | Numbered id | Listed id _ | Counted id _ => Some id end.

Definition registered_id (ph : phase) : option Z :=
  match ph with Listed id _ | Counted id _ => Some id | _ => None end.

Definition journalled_ticks (ph : phase) : Z :=
  match ph with Listed _ tick | Counted _ tick => tick | _ => 0 end.

Definition is_counted (ph : phase) : bool := match ph with Counted _ _ => true | _ => false end.

(** The sessions between counting a submit and journalling it. *)
Definition committing {R} (z : interleaving R) : Z :=
  Z.of_nat (base.size (base.filter (fun kt => is_counted (t_phase kt.2) = true) (z_threads z))).

(** The ticks at which a bind's submits were journalled, in journal order. *)
Definition ticks_of (id : Z) (journal : list RecordedPDU) : list Z :=
  Rec_PerBindClock <$> base.filter (fun r => Rec_MessageID r = Dlr.messageID id (Rec_PerBindClock r)) journal.

Section Invariant.
Context {R : Type} `{RandSource R} (capacity : Z).
Implicit Types (z : interleaving R) (v : virtualSMSC) (threads : gmap nat (thread R)) (t : thread R).

Definition thread_ok t : Prop :=
  match t_code t with
  | Idle _ => looping_at (t_phase t) (t_session t)
  | Busy env p => wp p env (t_phase t) (t_session t) (fun r => iterated (bool_decide (is_Some r)))
  | Ended => iterated false (t_phase t) (t_session t)
  end.

(** The ordinals and the registry. *)
Record registry_ok v threads : Prop := {
  rg_seq : 0 <= v_bindSeq v;
  rg_range : forall k t id, threads !! k = Some t -> ordinal (t_phase t) = Some id -> 1 <= id <= v_bindSeq v;
  rg_distinct : forall k1 k2 t1 t2 id, threads !! k1 = Some t1 -> threads !! k2 = Some t2 ->
    ordinal (t_phase t1) = Some id -> ordinal (t_phase t2) = Some id -> k1 = k2;
  rg_listed : forall k t id, threads !! k = Some t -> registered_id (t_phase t) = Some id ->
    is_Some (binds (v_binds v) !! id);
  rg_owned : forall id info, binds (v_binds v) !! id = Some info -> bi_id info = id /\
    exists k t, threads !! k = Some t /\ registered_id (t_phase t) = Some id
}.

(** The journal, after [n] events. *)
Record journal_ok (n : Z) v threads (journal : list RecordedPDU) : Prop := {
  jn_seq : v_bindSeq v <= n;
  jn_logical : v_logicalClock v = len journal + committing (mkInterleaving v threads journal);
  jn_count : v_logicalClock v <= n;
  jn_total : total (v_recorder v) = len journal;
  jn_recorder : append_all journal (Recorder.New capacity) = Ok (v_recorder v);
  jn_minted : forall r, r ∈ journal -> exists id, 1 <= id <= v_bindSeq v /\ 1 <= Rec_PerBindClock r <= n /\
    Rec_MessageID r = Dlr.messageID id (Rec_PerBindClock r);
  jn_unique : NoDup (Rec_MessageID <$> journal);
  jn_ticks : forall id, is_u64 id -> exists m, 0 <= m <= n /\ ticks_of id journal = seqZ 1 m /\
    (v_bindSeq v < id -> m = 0) /\
    forall k t, threads !! k = Some t -> ordinal (t_phase t) = Some id -> journalled_ticks (t_phase t) = m
}.

Record fine_ok (n : Z) z : Prop := {
  fo_smsc : smsc_safe (z_smsc z);
  fo_threads : forall k t, z_threads z !! k = Some t -> thread_ok t;
  fo_registry : registry_ok (z_smsc z) (z_threads z);
  fo_journal : journal_ok n (z_smsc z) (z_threads z) (z_journal z)
}.

Lemma fine_boot_ok cfg :
  capacity = VS_PDUBufferSize cfg -> scenario_ok (VS_Scenario cfg) -> scenario_typed (VS_Scenario cfg) ->
  fine_ok 0 (fine_boot cfg).
Proof.
  intros Hcap Ho Ht. split; simpl; [by apply newVirtualSMSC_safe|done| |].
  - split; simpl; done.
  - split; simpl; try done; [by rewrite Hcap|intros r Hr; by apply elem_of_nil in Hr|apply NoDup_nil_2|].
    intros id _. exists 0. split_and!; try done; lia.
Qed.

(** ** Updates that leave the phases alone *)

Lemma committing_insert threads k t v j :
  committing (mkInterleaving v (<[k := t]> threads) j) =
  committing (mkInterleaving v (delete k threads) j) + if is_counted (t_phase t) then 1 else 0.
Proof.
  unfold committing. simpl. rewrite <- insert_delete_eq. generalize (lookup_delete_eq threads k).
  generalize (delete k threads). intros m Hm. rewrite map_filter_insert. simpl.
  destruct (is_counted (t_phase t)) eqn:Hc; simpl.
  - rewrite map_size_insert_None; [lia|]. apply map_lookup_filter_None. by left.
  - rewrite delete_id by done. lia.
Qed.

Lemma committing_lookup threads k t v j : threads !! k = Some t ->
  committing (mkInterleaving v threads j) =
  committing (mkInterleaving v (delete k threads) j) + if is_counted (t_phase t) then 1 else 0.
Proof. intros Hk. rewrite <- (committing_insert threads k t v j). by rewrite insert_id. Qed.

Lemma committing_move threads k t t' v v' j j' : threads !! k = Some t ->
  committing (mkInterleaving v' (<[k := t']> threads) j') =
  committing (mkInterleaving v threads j) - (if is_counted (t_phase t) then 1 else 0)
    + if is_counted (t_phase t') then 1 else 0.
Proof.
  intros Hk. rewrite committing_insert, (committing_lookup threads k t v j Hk). unfold committing. simpl. lia.
Qed.

(** One thread moves. *)
Section Move.
Context (n : Z) (k : nat) (v v' : virtualSMSC) (threads : gmap nat (thread R)) (t t' : thread R)
  (journal : list RecordedPDU).

Hypothesis Hk : threads !! k = Some t.

Lemma moved_thread k1 t1 : <[k := t']> threads !! k1 = Some t1 ->
  k1 = k /\ t1 = t' \/ k1 <> k /\ threads !! k1 = Some t1.
Proof. intros [[<- <-]|[? ?]]%lookup_insert_Some; auto. Qed.

(** The move keeps the ordinals it finds, or takes the next one. *)
Definition keeps_ordinal : Prop :=
  forall id, ordinal (t_phase t') = Some id ->
    ordinal (t_phase t) = Some id \/ ordinal (t_phase t) = None /\ id = v_bindSeq v + 1 /\ v_bindSeq v' = v_bindSeq v + 1.

Lemma registry_move :
  registry_ok v threads -> keeps_ordinal -> v_bindSeq v <= v_bindSeq v' ->
  (forall id, is_Some (binds (v_binds v) !! id) -> is_Some (binds (v_binds v') !! id)) ->
  (forall id, registered_id (t_phase t') = Some id -> is_Some (binds (v_binds v') !! id)) ->
  (forall id, registered_id (t_phase t) = Some id -> registered_id (t_phase t') = Some id) ->
  (forall id info, binds (v_binds v') !! id = Some info ->
     binds (v_binds v) !! id = Some info \/ bi_id info = id /\ registered_id (t_phase t') = Some id) ->
  registry_ok v' (<[k := t']> threads).
Proof.
  intros [H1 H2 H3 H4 H5] Hord Hseq Hmono Hnew Hkept Hreg.
  assert (forall k1 t1 id, threads !! k1 = Some t1 -> ordinal (t_phase t1) = Some id ->
    ordinal (t_phase t') = Some id -> k1 = k) as Halone.
  { intros k1 t1 id Ht1 O1 O'. destruct (Hord _ O') as [O|(_ & -> & _)]; [by eapply H3|].
    specialize (H2 _ _ _ Ht1 O1). lia. }
  split; [lia|..].
  - intros k1 t1 id [[-> ->]|[_ Ht1]]%moved_thread Hid; [|specialize (H2 _ _ _ Ht1 Hid); lia].
    destruct (Hord _ Hid) as [O|(_ & -> & ->)]; [specialize (H2 _ _ _ Hk O); lia|lia].
  - intros k1 k2 t1 t2 id [[-> ->]|[Hne1 Ht1]]%moved_thread [[-> ->]|[Hne2 Ht2]]%moved_thread O1 O2; [done| | |by eapply H3].
    + destruct Hne2. by eapply Halone.
    + destruct Hne1. by eapply Halone.
  - intros k1 t1 id [[-> ->]|[_ Ht1]]%moved_thread Hid; [by apply Hnew|]. by eapply Hmono, H4.
  - intros id info Hi. destruct (Hreg _ _ Hi) as [Hold|[Hbi Hr]].
    + destruct (H5 _ _ Hold) as (Hbi & k1 & t1 & Ht1 & Hr). split; [done|].
      destruct (decide (k1 = k)) as [->|Hne]; [|exists k1, t1; by rewrite lookup_insert_ne].
      exists k, t'. rewrite lookup_insert_eq. split; [done|]. apply Hkept. congruence.
    + split; [done|]. exists k, t'. by rewrite lookup_insert_eq.
Qed.

(** The rest of the shared state follows the phase. *)
Lemma journal_move :
  journal_ok n v threads journal -> keeps_ordinal ->
  v_bindSeq v <= v_bindSeq v' <= n + 1 -> v_recorder v' = v_recorder v ->
  v_logicalClock v' = v_logicalClock v - (if is_counted (t_phase t) then 1 else 0) +
    (if is_counted (t_phase t') then 1 else 0) ->
  (ordinal (t_phase t) = None -> journalled_ticks (t_phase t') = 0) ->
  (is_Some (ordinal (t_phase t)) -> journalled_ticks (t_phase t') = journalled_ticks (t_phase t)) ->
  journal_ok (n + 1) v' (<[k := t']> threads) journal.
Proof.
  intros [J1 J2 J3 J4 J5 J6 J7 J8] Hord Hseq Hrec Hclk Hfree Htick. split; rewrite ?Hrec; try done; try lia.
  - by rewrite (committing_move threads k t t' v v' journal journal Hk), Hclk, J2; lia.
  - destruct (is_counted (t_phase t)), (is_counted (t_phase t')); lia.
  - intros r (id & A1 & A2 & A3)%J6. exists id. split_and!; [lia..|done].
  - intros id Hid. destruct (J8 id Hid) as (m & Hm & Ht & Hlate & Hown). exists m. split_and!; [lia..|done| |].
    + intros. apply Hlate. lia.
    + intros k1 t1 [[-> ->]|[_ Ht1]]%moved_thread O; [|by eapply Hown].
      destruct (Hord _ O) as [O1|(O1 & -> & _)]; [|rewrite Hlate by lia; by apply Hfree].
      rewrite Htick by (by eexists). by apply (Hown k).
Qed.

End Move.

Lemma ticks_of_snoc id journal r :
  ticks_of id (journal ++ [r]) =
  ticks_of id journal ++
    (if decide (Rec_MessageID r = Dlr.messageID id (Rec_PerBindClock r)) then [Rec_PerBindClock r] else []).
Proof.
  unfold ticks_of. rewrite filter_app, fmap_app. f_equal. rewrite filter_cons. by case_decide.
Qed.

Lemma elem_of_ticks_of id journal r :
  r ∈ journal -> Rec_MessageID r = Dlr.messageID id (Rec_PerBindClock r) -> Rec_PerBindClock r ∈ ticks_of id journal.
Proof. intros Hr Hm. apply list_elem_of_fmap. exists r. split; [done|]. by apply list_elem_of_filter. Qed.

(** A submit is journalled under the next tick of its bind. *)
Lemma journal_append n k v r' threads t t' journal id tick p :
  threads !! k = Some t -> t_phase t = Counted id tick -> t_phase t' = Listed id (tick +64 1) ->
  may (Counted id tick) (Journal p) -> Append p (v_recorder v) = Ok r' -> ring_ok (v_recorder v) ->
  registry_ok v threads -> journal_ok n v threads journal -> n + 1 < 2 ^ 64 ->
  journal_ok (n + 1) (set_v_recorder r' v) (<[k := t']> threads) (journal ++ [p]).
Proof.
  intros Hk Hph Hph' [Hpt Hpm] Ha Hring Hreg [J1 J2 J3 J4 J5 J6 J7 J8] Hn.
  assert (1 <= id <= v_bindSeq v) as Hid by (eapply (rg_range _ _ Hreg); [exact Hk|by rewrite Hph]).
  assert (is_u64 id) as Hidu by (unfold is_u64; lia).
  destruct (J8 id Hidu) as (m & Hm & Ht & _ & Hown).
  assert (m = tick) as -> by (symmetry; rewrite <- (Hown k t Hk); by rewrite Hph).
  rewrite (u64_succ_small tick n) in * by lia.
  assert (len journal <= n) as Hlen by (unfold committing in J2; lia).
  destruct (Append_total p _ Hring) as (r1 & Ha1 & _ & Htot). rewrite Ha in Ha1. injection Ha1 as <-.
  assert (forall id', is_u64 id' -> Rec_MessageID p = Dlr.messageID id' (Rec_PerBindClock p) -> id' = id) as Hinj.
  { intros id' Hu Heq. rewrite Hpt, Hpm in Heq. apply messageID_inj in Heq as [-> _]; unfold is_u64; [done|lia..|apply Hu|lia]. }
  split; simpl; try lia.
  - rewrite (committing_move threads k t t' v _ journal _ Hk), J2, Hph, Hph', length_app. simpl. lia.
  - rewrite Htot, J4, (u64_succ_small _ n), length_app by lia. simpl. lia.
  - by rewrite append_all_snoc, J5.
  - intros r [Hr|Hr]%elem_of_app.
    + destruct (J6 r Hr) as (id' & A1 & A2 & A3). exists id'. split_and!; [lia..|done].
    + apply list_elem_of_singleton in Hr as ->. exists id. split_and!; [lia..|congruence].
  - rewrite fmap_app. apply NoDup_app. split_and!; [done| |apply NoDup_singleton].
    intros mid (r & -> & Hr)%list_elem_of_fmap Hin%list_elem_of_singleton.
    destruct (J6 r Hr) as (id' & A1 & A2 & A3). rewrite A3, Hpm in Hin.
    apply messageID_inj in Hin as [-> Htick]; unfold is_u64; try lia.
    pose proof (elem_of_ticks_of id journal r Hr A3) as Hin. rewrite Ht in Hin. apply elem_of_seqZ in Hin. lia.
  - intros id' Hu. destruct (J8 id' Hu) as (m & Hm' & Ht' & Hlate & Hown'). rewrite ticks_of_snoc.
    destruct (decide (id' = id)) as [->|Hne].
    + exists (tick + 1). split_and!; [lia|lia| | |].
      * rewrite decide_True by congruence. rewrite Ht, Hpt, seqZ_app by lia. unfold seqZ at 3. simpl. by rewrite Z.add_comm.
      * intros. lia.
      * intros k1 t1 [[-> ->]|[Hk1 Ht1]]%moved_thread O; [by rewrite Hph'|]. destruct Hk1.
        eapply (rg_distinct _ _ Hreg); [exact Ht1|exact Hk|exact O|by rewrite Hph].
    + rewrite decide_False by (intros Heq; by apply Hne, Hinj). rewrite app_nil_r. exists m. split_and!; [lia..|done|done|].
      intros k1 t1 [[-> ->]|[_ Ht1]]%moved_thread O; [|by eapply Hown'].
      rewrite Hph' in O. injection O as <-. done.
Qed.

(** ** Connections come and go *)

Lemma registry_open v threads k t :
  threads !! k = None -> t_phase t = Unbound -> registry_ok v threads -> registry_ok v (<[k := t]> threads).
Proof.
  intros Hk Hph [H1 H2 H3 H4 H5].
  assert (forall k1 t1, <[k := t]> threads !! k1 = Some t1 -> is_Some (ordinal (t_phase t1)) -> threads !! k1 = Some t1)
    as Hold.
  { intros k1 t1 [[-> ->]|[_ Ht1]]%moved_thread Ho; [|done]. rewrite Hph in Ho. by destruct Ho. }
  split; [done|..].
  - intros k1 t1 id Ht1 Ho. eapply H2; [|done]. apply Hold; [done|by eexists].
  - intros k1 k2 t1 t2 id Ht1 Ht2 O1 O2. eapply H3; [apply Hold; [done|by eexists]..|done|done].
  - intros k1 t1 id [[-> ->]|[_ Ht1]]%moved_thread Hr; [by rewrite Hph in Hr|by eapply H4].
  - intros id info Hi. destruct (H5 _ _ Hi) as (Hbi & k1 & t1 & Ht1 & Hr). split; [done|]. exists k1, t1.
    rewrite lookup_insert_ne; [done|]. intros ->. congruence.
Qed.

Lemma journal_open n v threads journal k t :
  threads !! k = None -> t_phase t = Unbound ->
  journal_ok n v threads journal -> journal_ok (n + 1) v (<[k := t]> threads) journal.
Proof.
  intros Hk Hph [J1 J2 J3 J4 J5 J6 J7 J8]. split; try done; try lia.
  - rewrite committing_insert, Hph, delete_id by done. simpl. lia.
  - intros r (id & A1 & A2 & A3)%J6. exists id. split_and!; [lia..|done].
  - intros id Hid. destruct (J8 id Hid) as (m & Hm & Ht & Hlate & Hown). exists m. split_and!; [lia..|done|done|].
    intros k1 t1 [[-> ->]|[_ Ht1]]%moved_thread O; [by rewrite Hph in O|by eapply Hown].
Qed.

(** The ordinal an ended session deregisters: its own, or none. *)
Lemma ended_ordinal t : iterated false (t_phase t) (t_session t) ->
  registered_id (t_phase t) = ordinal (t_phase t) /\ is_counted (t_phase t) = false /\
  match ordinal (t_phase t) with Some id => s_id (t_session t) = id | None => s_id (t_session t) = 0 end.
Proof. intros [[_ Hp] _]. destruct (t_phase t); try done; simpl; by destruct Hp as (? & ? & _). Qed.

Lemma registry_leave v threads k t :
  threads !! k = Some t -> iterated false (t_phase t) (t_session t) -> registry_ok v threads ->
  registry_ok (set_v_binds (remove (s_id (t_session t)) (v_binds v)) v) (delete k threads).
Proof.
  intros Hk Hv [H1 H2 H3 H4 H5]. destruct (ended_ordinal t Hv) as (Hreg & _ & Hid).
  assert (forall k1 t1 id, k1 <> k -> threads !! k1 = Some t1 -> ordinal (t_phase t1) = Some id ->
    s_id (t_session t) <> id) as Hother.
  { intros k1 t1 id Hne Ht1 O1 <-. destruct (ordinal (t_phase t)) as [id|] eqn:O.
    - subst id. destruct Hne. by eapply H3.
    - specialize (H2 _ _ _ Ht1 O1). lia. }
  split; simpl; [done|..].
  - intros k1 t1 id (_ & Ht1)%lookup_delete_Some. by eapply H2.
  - intros k1 k2 t1 t2 id (_ & Ht1)%lookup_delete_Some (_ & Ht2)%lookup_delete_Some. by eapply H3.
  - intros k1 t1 id (Hne & Ht1)%lookup_delete_Some Hr. rewrite lookup_delete_ne; [by eapply H4|].
    apply (Hother k1 t1 id); [congruence|done|by destruct (t_phase t1)].
  - intros id info (Hne & Hi)%lookup_delete_Some. destruct (H5 _ _ Hi) as (Hbi & k1 & t1 & Ht1 & Hr). split; [done|].
    exists k1, t1. rewrite lookup_delete_ne; [done|]. intros ->. rewrite Hk in Ht1. injection Ht1 as <-.
    rewrite Hreg in Hr. rewrite Hr in Hid. done.
Qed.

Lemma journal_leave n v v' threads journal k t :
  threads !! k = Some t -> is_counted (t_phase t) = false ->
  v_bindSeq v' = v_bindSeq v -> v_logicalClock v' = v_logicalClock v -> v_recorder v' = v_recorder v ->
  journal_ok n v threads journal -> journal_ok (n + 1) v' (delete k threads) journal.
Proof.
  intros Hk Hc E1 E2 E3 [J1 J2 J3 J4 J5 J6 J7 J8]. split; rewrite ?E1, ?E2, ?E3; try done; try lia.
  - rewrite J2, (committing_lookup threads k t v journal Hk), Hc. unfold committing. simpl. lia.
  - intros r (id & A1 & A2 & A3)%J6. exists id. split_and!; [lia..|done].
  - intros id Hid. destruct (J8 id Hid) as (m & Hm & Ht & Hlate & Hown). exists m. split_and!; [lia..|done|done|].
    intros k1 t1 (_ & Ht1)%lookup_delete_Some. by apply (Hown k1).
Qed.

(** ** One event *)

Lemma fine_update n k v v' threads t' journal journal' :
  fine_ok n (mkInterleaving v threads journal) -> smsc_safe v' -> thread_ok t' ->
  registry_ok v' (<[k := t']> threads) -> journal_ok (n + 1) v' (<[k := t']> threads) journal' ->
  fine_ok (n + 1) (mkInterleaving v' (<[k := t']> threads) journal').
Proof.
  intros [_ Hts _ _] Hv Ht Hr Hj. split; simpl; try done.
  intros k1 t1 [[-> ->]|[_ Ht1]]%moved_thread; [done|by apply (Hts k1)].
Qed.

(** Neither the phase nor what it stands for moves. *)
Lemma still_ok n k p v threads t t' journal :
  fine_ok n (mkInterleaving v threads journal) -> threads !! k = Some t -> t_phase t' = t_phase t -> thread_ok t' ->
  fine_ok (n + 1) (mkInterleaving (set_v_activeProfile p v) (<[k := t']> threads) (journal ++ [])).
Proof.
  intros Hok Hk Hph Ht. rewrite app_nil_r. destruct (Hok) as [[] Hts Hreg Hj]. simpl in *.
  pose proof (jn_seq _ _ _ _ Hj).
  assert (keeps_ordinal v (set_v_activeProfile p v) t t') as Hord by (intros id; rewrite Hph; auto).
  eapply fine_update; [exact Hok|by split|done|..].
  - eapply registry_move; [exact Hk|exact Hreg|exact Hord|..]; rewrite ?Hph; simpl; try done; [|by auto].
    intros id. by apply (rg_listed _ _ Hreg k).
  - eapply journal_move; [exact Hk|exact Hj|exact Hord|..]; rewrite ?Hph; simpl; try done; try lia.
    intros Ho. by destruct (t_phase t).
Qed.

Lemma unmoved_ok n k v threads t t' journal :
  fine_ok n (mkInterleaving v threads journal) -> threads !! k = Some t -> t_phase t' = t_phase t -> thread_ok t' ->
  fine_ok (n + 1) (mkInterleaving v (<[k := t']> threads) (journal ++ [])).
Proof.
  intros Hok Hk Hph Ht. replace v with (set_v_activeProfile (v_activeProfile v) v) at 1 by (by destruct v).
  by eapply still_ok.
Qed.

(** One access of a thread, by the access. *)
Section Shared.
Context (n : Z) (k : nat) (v : virtualSMSC) (threads : gmap nat (thread R)) (t : thread R) (journal : list RecordedPDU)
  (env : Env).
Context (Hok : fine_ok n (mkInterleaving v threads journal)) (Hk : threads !! k = Some t) (Hn : n + 1 < 2 ^ 64).

(** The state [c] leaves. *)
Let after_access (c : access) (p : answer c -> prog R (option conn)) a v' : interleaving R :=
  mkInterleaving v' (<[k := mkThread (t_session t) (t_out t) (t_nextChan t) (Busy env (p a)) (next (t_phase t) c a)]> threads)
    (journal ++ journals c).

Let continues (c : access) (p : answer c -> prog R (option conn)) : Prop := forall a,
  wp (p a) env (next (t_phase t) c a) (t_session t) (fun r => iterated (bool_decide (is_Some r))).

Lemma take_ok p : t_phase t = Unbound -> continues TakeOrdinal p ->
  fine_ok (n + 1) (after_access TakeOrdinal p (v_bindSeq v +64 1) (set_v_bindSeq (v_bindSeq v +64 1) v)).
Proof.
  intros Hph Hp. destruct (Hok) as [[Hring Hsc Hen] Hts Hreg Hj]. simpl in *.
  pose proof (jn_seq _ _ _ _ Hj). pose proof (rg_seq _ _ Hreg). unfold after_access. cbn [journals].
  rewrite (u64_succ_small _ n), app_nil_r by lia.
  assert (keeps_ordinal v (set_v_bindSeq (v_bindSeq v + 1) v) t
    (mkThread (t_session t) (t_out t) (t_nextChan t) (Busy env (p (v_bindSeq v + 1))) (Numbered (v_bindSeq v + 1)))) as Hord.
  { intros id [= <-]. right. by rewrite Hph. }
  eapply fine_update; [exact Hok|by split|apply Hp|..].
  - eapply registry_move; [exact Hk|exact Hreg|exact Hord|..]; simpl; try done; [lia|by rewrite Hph|by left].
  - eapply journal_move; [exact Hk|exact Hj|exact Hord|..]; simpl; rewrite ?Hph; simpl; try done; lia.
Qed.

Lemma register_ok info p : t_phase t = Numbered (bi_id info) -> continues (Register info) p ->
  fine_ok (n + 1) (after_access (Register info) p () (set_v_binds (add info (v_binds v)) v)).
Proof.
  intros Hph Hp. destruct (Hok) as [[Hring Hsc Hen] Hts Hreg Hj]. simpl in *.
  pose proof (jn_seq _ _ _ _ Hj). unfold after_access. cbn [journals]. rewrite app_nil_r.
  assert (keeps_ordinal v (set_v_binds (add info (v_binds v)) v) t
    (mkThread (t_session t) (t_out t) (t_nextChan t) (Busy env (p ())) (Listed (bi_id info) 0))) as Hord.
  { intros id [= <-]. left. by rewrite Hph. }
  eapply fine_update; [exact Hok|by split|apply Hp|..].
  - eapply registry_move; [exact Hk|exact Hreg|exact Hord|..]; simpl; try done.
    + intros id Hid. destruct (decide (bi_id info = id)) as [<-|]; [rewrite lookup_insert_eq; by eexists|by rewrite lookup_insert_ne].
    + intros id [= <-]. rewrite lookup_insert_eq. by eexists.
    + by rewrite Hph.
    + intros id info' [[<- <-]|[_ Hi]]%lookup_insert_Some; [by right|by left].
  - eapply journal_move; [exact Hk|exact Hj|exact Hord|..]; simpl; rewrite ?Hph; simpl; try done; lia.
Qed.

(** The ordinal of a session that is committing stays registered. *)
Lemma listed_ordinal_kept id tick : t_phase t = Listed id tick \/ t_phase t = Counted id tick ->
  is_Some (binds (v_binds v) !! id).
Proof. intros Hph. apply (rg_listed _ _ (fo_registry _ _ Hok) k t); [done|]. by destruct Hph as [-> | ->]. Qed.

Lemma count_ok id tick p : t_phase t = Listed id tick -> continues CountSubmit p ->
  fine_ok (n + 1) (after_access CountSubmit p () (set_v_logicalClock (v_logicalClock v +64 1) v)).
Proof.
  intros Hph Hp. pose proof (listed_ordinal_kept id tick (or_introl Hph)) as Hin.
  destruct (Hok) as [[Hring Hsc Hen] Hts Hreg Hj]. simpl in *. unfold after_access, continues in *.
  pose proof (jn_seq _ _ _ _ Hj). pose proof (jn_count _ _ _ _ Hj). pose proof (jn_logical _ _ _ _ Hj).
  cbn [journals]. rewrite (u64_succ_small _ n), app_nil_r by (unfold committing in *; lia).
  simpl in *. rewrite Hph in *. assert (keeps_ordinal v (set_v_logicalClock (v_logicalClock v + 1) v) t
    (mkThread (t_session t) (t_out t) (t_nextChan t) (Busy env (p ())) (Counted id tick))) as Hord.
  { intros id' [= <-]. left. by rewrite Hph. }
  eapply fine_update; [exact Hok|by split|apply (Hp ())|..].
  - eapply registry_move; [exact Hk|exact Hreg|exact Hord|..]; simpl; rewrite ?Hph; simpl; try done; [|by left].
    by intros id' [= <-].
  - eapply journal_move; [exact Hk|exact Hj|exact Hord|..]; simpl; rewrite ?Hph; simpl; try done; lia.
Qed.

Lemma journalled_ok id tick rec r' p : t_phase t = Counted id tick -> may (t_phase t) (Journal rec) ->
  Append rec (v_recorder v) = Ok r' -> ring_ok r' -> continues (Journal rec) p ->
  fine_ok (n + 1) (after_access (Journal rec) p () (set_v_recorder r' v)).
Proof.
  intros Hph Hmay Ha Hring' Hp. pose proof (listed_ordinal_kept id tick (or_intror Hph)) as Hin.
  destruct (Hok) as [[Hring Hsc Hen] Hts Hreg Hj]. simpl in *. unfold after_access, continues in *. simpl in *.
  rewrite Hph in *. eapply fine_update; [exact Hok|by split|apply (Hp ())|..].
  - eapply (registry_move k v); [exact Hk|exact Hreg|..]; simpl; rewrite ?Hph; simpl; try done.
    + intros id' [= <-]. left. by rewrite Hph.
    + by intros id' [= <-].
    + by left.
  - eapply (journal_append n k v r' threads t); [exact Hk|exact Hph|done|exact Hmay|exact Ha|done|done|exact Hj|lia].
Qed.

Lemma shared_ok c p :
  may (t_phase t) c -> continues c p ->
  exists a v', perform c v = Ok (a, v') /\ fine_ok (n + 1) (after_access c p a v').
Proof.
  intros Hmay Hp. pose proof (vs_ring _ (fo_smsc _ _ Hok)) as Hring. simpl in Hring.
  destruct c as [|info|id|pr| |rec]; simpl.
  - eexists _, _. split; [reflexivity|]. by apply take_ok.
  - eexists (), _. split; [reflexivity|]. by apply register_ok.
  - eexists _, v. split; [reflexivity|]. eapply unmoved_ok; [exact Hok|exact Hk|done|apply Hp].
  - eexists (), _. split; [reflexivity|]. eapply still_ok; [exact Hok|exact Hk|done|apply Hp].
  - assert (exists id tick, t_phase t = Listed id tick) as (id & tick & Hph)
      by (clear Hp; simpl in Hmay; destruct (t_phase t); naive_solver).
    eexists (), _. split; [reflexivity|]. by apply (count_ok id tick).
  - assert (exists id tick, t_phase t = Counted id tick) as (id & tick & Hph)
      by (clear Hp; simpl in Hmay; destruct (t_phase t); naive_solver).
    destruct (Append_total rec _ Hring) as (r' & Ha & Hring' & _). rewrite Ha. eexists (), _. split; [reflexivity|].
    by apply (journalled_ok id tick).
Qed.

End Shared.

Lemma thread_advance_ok n k env p v threads t journal :
  threads !! k = Some t -> t_code t = Busy env p -> n + 1 < 2 ^ 64 ->
  fine_ok n (mkInterleaving v threads journal) ->
  exists t' v' log, advance env p t v = Ok (t', v', log) /\
    fine_ok (n + 1) (mkInterleaving v' (<[k := t']> threads) (journal ++ log)).
Proof.
  intros Hk Hcode Hn Hok. pose proof (fo_threads _ _ Hok _ _ Hk) as Ht. unfold thread_ok in Ht. rewrite Hcode in Ht.
  destruct p as [r|B m kont|c kont]; simpl in Ht.
  - eexists _, v, []. split; [reflexivity|]. eapply unmoved_ok; [exact Hok|exact Hk|done|].
    unfold thread_ok. simpl. by destruct r.
  - specialize (Ht (thread_world v t) eq_refl (fo_smsc _ _ Hok)). simpl.
    destruct (m env (thread_world v t)) as [[b w']| |]; [|done..]. destruct Ht as [Hw Ht].
    eexists _, _, []. split; [reflexivity|]. simpl. rewrite Hw.
    eapply unmoved_ok; [exact Hok|exact Hk|done|exact Ht].
  - destruct Ht as [Hmay Ht]. destruct (shared_ok n k v threads t journal env Hok Hk Hn c kont Hmay Ht) as (a & v' & Hp & Hok').
    simpl. rewrite Hp. eexists _, _, _. by split.
Qed.

Lemma fine_exec_ok n ev z :
  fine_ok n z -> n + 1 < 2 ^ 64 ->
  exists o, fine_exec ev z = Ok o /\ forall z', o = Some z' -> fine_ok (n + 1) z'.
Proof.
  destruct z as [v threads journal]. intros Hok Hn. pose proof Hok as [Hv Hts Hreg Hj]. simpl in *.
  destruct ev as [k now c|k re|k|k]; simpl.
  - destruct (threads !! k) eqn:Hk; eexists; (split; [reflexivity|]); [done|]. intros z' [= <-].
    eapply fine_update; [exact Hok|done|..|by apply registry_open|by apply journal_open].
    split; [|done]. split; [apply newSession_safe|done].
  - destruct (threads !! k) as [t|] eqn:Hk; [|by eexists]. pose proof (Hts _ _ Hk) as Ht. unfold thread_ok in Ht.
    destruct (t_code t) as [c|env p|]; eexists; (split; [reflexivity|]); try done. intros z' [= <-].
    rewrite <- (app_nil_r journal). eapply unmoved_ok; [exact Hok|exact Hk|done|].
    apply readLoop_iter_keeps, Ht.
  - destruct (threads !! k) as [t|] eqn:Hk; [|by eexists].
    destruct (t_code t) as [c|env p|] eqn:Hcode; [by eexists| |by eexists].
    destruct (thread_advance_ok n k env p v threads t journal Hk Hcode Hn Hok) as (t' & v' & log & -> & Hok').
    eexists. split; [reflexivity|]. by intros z' [= <-].
  - destruct (threads !! k) as [t|] eqn:Hk; [|by eexists]. pose proof (Hts _ _ Hk) as Ht. unfold thread_ok in Ht.
    destruct (t_code t) as [c|env p|]; eexists; (split; [reflexivity|]); try done. intros z' [= <-].
    split; simpl.
    + by destruct Hv.
    + intros k1 t1 (_ & Ht1)%lookup_delete_Some. by apply (Hts k1).
    + by apply registry_leave.
    + destruct (ended_ordinal t Ht) as (_ & Hc & _). by eapply (journal_leave n v).
Qed.

Lemma fine_reachable_ok m n z z' :
  fine_ok m z -> nsteps fine_step n z z' -> m + Z.of_nat n < 2 ^ 64 -> fine_ok (m + Z.of_nat n) z'.
Proof.
  intros Hok Hs. revert m Hok. induction Hs as [|n z1 z2 z3 [ev Hx] _ IH]; intros m Hok Hn; [by rewrite Z.add_0_r|].
  replace (m + Z.of_nat (S n)) with (m + 1 + Z.of_nat n) by lia. apply IH; [|lia].
  destruct (fine_exec_ok m ev z1 Hok) as (o & Ho & Hall); [lia|]. rewrite Hx in Ho. injection Ho as <-. by apply Hall.
Qed.

End Invariant.

(** ** Between iterations *)

Section Rest.
Context {R : Type} `{RandSource R} (capacity : Z).
Implicit Types (z : interleaving R) (t : thread R).

(** No session is inside an iteration. *)
Definition at_rest z : Prop := forall k t, z_threads z !! k = Some t -> match t_code t with Busy _ _ => False | _ => True end.

Definition client_of_thread t : client R :=
  mkClient (t_session t) (t_out t) (t_nextChan t) (match t_code t with Idle c => Some c | _ => None end).

(** The state of [System] it is then. *)
Definition project z : system R := mkSystem (z_smsc z) (client_of_thread <$> z_threads z) (z_journal z).

Lemma rest_settled t : thread_ok t -> (match t_code t with Busy _ _ => False | _ => True end) ->
  settled (t_phase t) (t_session t) /\ (is_Some (c_conn (client_of_thread t)) -> s_state (t_session t) <> stateClosed).
Proof.
  unfold thread_ok, client_of_thread. destruct (t_code t) as [c|env p|]; simpl; [by intros [? ?]|done|].
  intros [? ?] _. split; [done|]. by intros [].
Qed.

Lemma listed_ordinal t : settled (t_phase t) (t_session t) -> is_registered (client_of_thread t) ->
  t_phase t = Listed (s_id (t_session t)) (s_perBindClock (t_session t)).
Proof.
  unfold is_registered. simpl. intros [_ Hp] Hb. destruct (t_phase t) as [|id|id tick|id tick]; try done.
  - destruct Hp. congruence.
  - by destruct Hp as (_ & -> & -> & _).
Qed.

Lemma rest_client_ok n z k t : fine_ok capacity n z -> n < 2 ^ 64 -> at_rest z -> z_threads z !! k = Some t ->
  client_ok n (z_smsc z) (client_of_thread t).
Proof.
  intros Hok Hn Hrest Hk. destruct (rest_settled t (fo_threads _ _ _ Hok _ _ Hk) (Hrest _ _ Hk)) as [Hset Hrun].
  pose proof (fo_registry _ _ _ Hok) as Hreg. pose proof (fo_journal _ _ _ Hok) as Hj. pose proof (jn_seq _ _ _ _ _ Hj).
  pose proof (rg_seq _ _ Hreg) as Hpos.
  destruct (Hset) as [Hsafe Hp]. destruct (t_phase t) as [|id|id tick|id tick] eqn:Hph; try done.
  - destruct Hp as (Hb & Hid & Hclk & Hst). split; unfold is_registered; simpl; try done; rewrite ?Hb; try done. lia.
  - destruct Hp as (Hb & Hid & Hclk & Hst).
    assert (1 <= id <= v_bindSeq (z_smsc z)) as Hr by (eapply (rg_range _ _ Hreg); [exact Hk|by rewrite Hph]).
    destruct (jn_ticks _ _ _ _ _ Hj id) as (m & Hm & _ & _ & Hown); [unfold is_u64; lia|].
    specialize (Hown k t Hk). rewrite Hph in Hown. specialize (Hown eq_refl). simpl in Hown.
    split; unfold is_registered; simpl; try done; rewrite ?Hid, ?Hclk; try done; [|lia].
    intros _. split; [done|]. apply (rg_listed _ _ Hreg k t); [done|by rewrite Hph].
Qed.

Lemma rest_system_ok n z : fine_ok capacity n z -> n < 2 ^ 64 -> at_rest z -> system_ok capacity n (project z).
Proof.
  intros Hok Hn Hrest. pose proof (fo_registry _ _ _ Hok) as Hreg. pose proof (fo_journal _ _ _ Hok) as Hj.
  assert (forall k t, z_threads z !! k = Some t -> settled (t_phase t) (t_session t)) as Hset
    by (intros k t Hk; apply (rest_settled t (fo_threads _ _ _ Hok _ _ Hk) (Hrest _ _ Hk))).
  assert (committing z = 0) as Hc.
  { unfold committing. rewrite (proj2 (map_empty_filter _ _)); [done|]. intros k t Hk. simpl.
    destruct (Hset k t Hk) as [_ Hp]. by destruct (t_phase t). }
  pose proof (jn_seq _ _ _ _ _ Hj). pose proof (rg_seq _ _ Hreg). pose proof (jn_count _ _ _ _ _ Hj).
  pose proof (jn_logical _ _ _ _ _ Hj) as Hlog. destruct z as [v threads journal]. simpl in *. rewrite Hc in Hlog.
  assert (forall k c, (client_of_thread <$> threads) !! k = Some c ->
    exists t, threads !! k = Some t /\ c = client_of_thread t) as Hlook
    by (intros k c; rewrite lookup_fmap; intros (t & ? & ->)%fmap_Some; by exists t).
  assert (forall k t, threads !! k = Some t -> is_registered (client_of_thread t) ->
    t_phase t = Listed (s_id (t_session t)) (s_perBindClock (t_session t))) as Hlist
    by (intros k t Hk; apply listed_ordinal; by eapply Hset).
  split; simpl; try lia.
  - apply Hok.
  - intros k c (t & Ht & ->)%Hlook. by apply (rest_client_ok n (mkInterleaving v threads journal) k).
  - intros k1 k2 c1 c2 (t1 & Ht1 & ->)%Hlook (t2 & Ht2 & ->)%Hlook R1 R2 Hid. simpl in Hid.
    eapply (rg_distinct _ _ Hreg); [exact Ht1|exact Ht2|by rewrite (Hlist _ _ Ht1 R1)|by rewrite (Hlist _ _ Ht2 R2), Hid].
  - intros id info Hi. destruct (rg_owned _ _ Hreg _ _ Hi) as (Hbi & k & t & Ht & Hr). split; [done|].
    exists k, (client_of_thread t). rewrite lookup_fmap, Ht. split; [done|]. destruct (Hset _ _ Ht) as [_ Hp].
    destruct (t_phase t) as [|id'|id' tick|id' tick]; try done. injection Hr as <-. by destruct Hp as (? & ? & _).
  - apply Hj.
  - apply Hj.
  - intros r Hr. destruct (jn_minted _ _ _ _ _ Hj r Hr) as (id & A1 & A2 & A3). exists id. split_and!; [lia..|done|].
    intros k c (t & Ht & ->)%Hlook Rc Hid. pose proof (Hlist _ _ Ht Rc) as E. simpl in Hid. rewrite Hid in E.
    destruct (jn_ticks _ _ _ _ _ Hj id) as (m & _ & Hm & _ & Hown); [unfold is_u64; lia|].
    specialize (Hown k t Ht). rewrite E in Hown. specialize (Hown eq_refl). simpl in *.
    pose proof (elem_of_ticks_of id journal r Hr A3) as Hin. rewrite Hm in Hin. apply elem_of_seqZ in Hin. lia.
  - apply Hj.
Qed.

End Rest.

(** ** The claims *)

Definition registered_threads {R} (z : interleaving R) : list (nat * thread R) :=
  base.filter (fun kt => is_Some (registered_id (t_phase kt.2))) (map_to_list (z_threads z)).

(** C2: what the sessions of an SMSC share stays consistent however their
    accesses interleave.  After any sequence of events in which a session performs
    one access at a time: no further event can panic; the logical clock counts the
    submits journalled and the ones between being counted and being journalled; no
    two journalled submits share a message id, and those of one bind are its ticks
    1, 2, 3 and so on, in order and without a gap; the recorder answers from the
    last of them; no two sessions hold the same ordinal; and whenever no session is
    inside an iteration, the SMSC is in a state [System] calls well formed. *)
Theorem interleaving_safe {R} `{RandSource R} cfg n (z : interleaving R) :
  scenario_ok (VS_Scenario cfg) -> scenario_typed (VS_Scenario cfg) ->
  nsteps fine_step n (fine_boot cfg) z -> Z.of_nat n + 1 < 2 ^ 64 ->
  (forall ev, exists o, fine_exec ev z = Ok o) /\
  v_logicalClock (z_smsc z) = len (z_journal z) + committing z /\
  NoDup (Rec_MessageID <$> z_journal z) /\
  (forall id, is_u64 id -> exists m, ticks_of id (z_journal z) = seqZ 1 m) /\
  (forall f, Snapshot f (v_recorder (z_smsc z)) =
    Ok (query f (retained (Z.max 1 (VS_PDUBufferSize cfg)) (indexed (z_journal z))))) /\
  (forall k1 k2 t1 t2 id, z_threads z !! k1 = Some t1 -> z_threads z !! k2 = Some t2 ->
    ordinal (t_phase t1) = Some id -> ordinal (t_phase t2) = Some id -> k1 = k2) /\
  (at_rest z -> system_ok (VS_PDUBufferSize cfg) (Z.of_nat n) (project z)).
Proof.
  intros Ho Ht Hr Hn.
  pose proof (fine_reachable_ok _ 0 n _ z (fine_boot_ok _ cfg eq_refl Ho Ht) Hr ltac:(lia)) as Hok. rewrite Z.add_0_l in Hok.
  pose proof (fo_journal _ _ _ Hok) as Hj. split_and!.
  - intros ev. destruct (fine_exec_ok _ _ ev z Hok) as (o & Hx & _); [lia|]. by exists o.
  - rewrite (jn_logical _ _ _ _ _ Hj). by destruct z.
  - apply Hj.
  - intros id Hid. destruct (jn_ticks _ _ _ _ _ Hj id Hid) as (m & _ & Hm & _). by exists m.
  - intros f. pose proof (jn_logical _ _ _ _ _ Hj) as Hlog. pose proof (jn_count _ _ _ _ _ Hj) as Hcount.
    assert (len (z_journal z) < 2 ^ 64) as Hlen by (unfold committing in Hlog; lia).
    destruct (append_all_represents (VS_PDUBufferSize cfg) (z_journal z) Hlen) as (r & Ha & Hrep).
    rewrite (jn_recorder _ _ _ _ _ Hj) in Ha. injection Ha as <-.
    apply Snapshot_represents; [done|apply indexed_well_indexed|]. by rewrite length_indexed.
  - apply (fo_registry _ _ _ Hok).
  - intros Hrest. by apply rest_system_ok; [|lia|].
Qed.
