(* ===== verification/Observe.v ===== *)
(** * What is seen between two accesses ([view] of [virtualsmsc.go], [readLoop] of [session.go])

    An inspection of an SMSC reads its fields one by one while the sessions go on;
    and a session that nobody interrupts performs exactly an iteration of
    [ReadLoop], so that [System] is [Interleave] under a scheduler that lets every
    iteration finish. *)

From S2P Require Import Prelude.
From S2P Require Import SmppPdu.
From S2P Require Import SmppCodec.
From S2P Require Import SmppFraming.
From S2P Require Import Rng.
From S2P Require Import Schedule.
From S2P Require Import Recorder.
From S2P Require Import Config.
From S2P Require Import Validate.
From S2P Require Import ValidateThms.
From S2P Require Import Scenario.
From S2P Require Import ScenarioThms.
From S2P Require Import Dlr.
From S2P Require Import Close.
From S2P Require Import Binds.
From S2P Require Import VirtualSMSC.
From S2P Require Import EngineSafety.
From S2P Require Import SessionState.
From S2P Require Import Session.
From S2P Require Import SessionRuns.
From S2P Require Import SessionBind.
From S2P Require Import SessionThms.
From S2P Require Import ReadLoop.
From S2P Require Import SessionFrame.
From S2P Require Import Replay.
From S2P Require Import System.
From S2P Require Import Access.
From S2P Require Import Protocol.
From S2P Require Import Interleave.

(** ** The summary, read field by field *)

(** [view] with the SMSC as it is at each of its four reads. *)
Definition view_at (v1 v2 v3 v4 : virtualSMSC) : VirtualSMSCView :=
  mkVirtualSMSCView (VS_Name (v_cfg v1)) (VS_Port (v_cfg v1)) (v_activeProfile v1)
    (count (v_binds v2)) (v_logicalClock v3) (Recorder.Len (v_recorder v4)).

Lemma view_at_once v : view v = view_at v v v v.
Proof. done. Qed.

Section Grows.
Context {R : Type} `{RandSource R} (capacity : Z).
Implicit Types (z : interleaving R) (t : thread R).

(** What an event can only add to. *)
Record grows z z' : Prop := {
  gw_journal : z_journal z `prefix_of` z_journal z';
  gw_clock : v_logicalClock (z_smsc z) <= v_logicalClock (z_smsc z')
}.

Lemma grows_refl z : grows z z.
Proof. by split. Qed.

Lemma grows_trans z1 z2 z3 : grows z1 z2 -> grows z2 z3 -> grows z1 z3.
Proof. intros [A1 A2] [B1 B2]. split; [by etrans|lia]. Qed.

Lemma advance_clock n k env p v threads t journal r :
  threads !! k = Some t -> t_code t = Busy env p -> n + 1 < 2 ^ 64 ->
  fine_ok capacity n (mkInterleaving v threads journal) -> advance env p t v = Ok r ->
  v_logicalClock v <= v_logicalClock r.1.2.
Proof.
  intros Hk Hcode Hn Hok. pose proof (fo_threads _ _ _ Hok _ _ Hk) as Ht. unfold thread_ok in Ht. rewrite Hcode in Ht.
  pose proof (jn_count _ _ _ _ _ (fo_journal _ _ _ Hok)) as Hc. pose proof (jn_logical _ _ _ _ _ (fo_journal _ _ _ Hok)) as Hl.
  simpl in Hc, Hl. unfold committing in Hl.
  destruct p as [o|B m kont|c kont]; simpl in *; [by intros [= <-]|..].
  - specialize (Ht (thread_world v t) eq_refl (fo_smsc _ _ _ Hok)).
    destruct (m env (thread_world v t)) as [[b w']| |]; [|done..]. destruct Ht as [Hw _]. intros [= <-]. simpl.
    by rewrite Hw.
  - destruct c; simpl; try by intros [= <-].
    + intros [= <-]. simpl. rewrite (u64_succ_small _ n); lia.
    + destruct (Append _ _); [|done..]. by intros [= <-].
Qed.

Lemma fine_exec_grows n ev z z' :
  fine_ok capacity n z -> n + 1 < 2 ^ 64 -> fine_exec ev z = Ok (Some z') -> grows z z'.
Proof.
  destruct z as [v threads journal]. intros Hok Hn. destruct ev as [k now c|k re|k|k]; simpl.
  - destruct (threads !! k); [done|]. by intros [= <-].
  - destruct (threads !! k) as [t|]; [|done]. destruct (t_code t); try done. by intros [= <-].
  - destruct (threads !! k) as [t|] eqn:Hk; [|done]. destruct (t_code t) as [c|env p|] eqn:Hcode; try done.
    destruct (advance env p t v) as [r| |] eqn:Ha; try done. intros [= <-].
    split; simpl; [by apply prefix_app_r|]. by eapply advance_clock.
  - destruct (threads !! k) as [t|]; [|done]. destruct (t_code t); try done. by intros [= <-].
Qed.

Lemma fine_steps_grow m n z z' :
  fine_ok capacity m z -> nsteps fine_step n z z' -> m + Z.of_nat n < 2 ^ 64 -> grows z z'.
Proof.
  intros Hok Hs. revert m Hok. induction Hs as [|n z1 z2 z3 [ev Hx] Hs IH]; intros m Hok Hn; [apply grows_refl|].
  apply grows_trans with z2; [by apply (fine_exec_grows m ev); [|lia|]|]. apply (IH (m + 1)); [|lia].
  destruct (fine_exec_ok capacity m ev z1 Hok) as (o & Ho & Hall); [lia|]. rewrite Hx in Ho. injection Ho as <-. by apply Hall.
Qed.

(** The registry and the registered sessions are in bijection. *)
Lemma registered_permutation v threads journal :
  registry_ok v threads ->
  (map_to_list (binds (v_binds v))).*1 ≡ₚ
  (fun kt => default 0 (registered_id (t_phase kt.2))) <$> registered_threads (mkInterleaving (R := R) v threads journal).
Proof.
  intros Hreg. unfold registered_threads. simpl.
  assert (forall k t, (k, t) ∈ base.filter (fun kt : nat * thread R => is_Some (registered_id (t_phase kt.2))) (map_to_list threads) <->
    threads !! k = Some t /\ is_Some (registered_id (t_phase t))) as Helem.
  { intros k t. rewrite list_elem_of_filter, elem_of_map_to_list. simpl. tauto. }
  apply NoDup_Permutation.
  - apply NoDup_fst_map_to_list.
  - apply NoDup_fmap_2_strong; [|apply NoDup_filter, NoDup_map_to_list].
    intros [k1 t1] [k2 t2] [H1 [id1 R1]]%Helem [H2 [id2 R2]]%Helem. simpl. rewrite R1, R2. simpl. intros ->.
    assert (k1 = k2) as -> by (eapply (rg_distinct _ _ Hreg); [exact H1|exact H2|by destruct (t_phase t1)|by destruct (t_phase t2)]).
    congruence.
  - intros id. rewrite !list_elem_of_fmap. split.
    + intros ([id' info] & -> & Hi%elem_of_map_to_list). destruct (rg_owned _ _ Hreg _ _ Hi) as (_ & k & t & Ht & Hr).
      exists (k, t). simpl. rewrite Hr. split; [done|]. apply Helem. split; [done|by eexists].
    + intros ([k t] & -> & [Ht [i Hr]]%Helem). destruct (rg_listed _ _ Hreg _ _ _ Ht Hr) as [info Hi].
      exists (i, info). simpl. rewrite Hr. split; [done|]. by apply elem_of_map_to_list.
Qed.

Lemma registered_count n z : fine_ok capacity n z -> count (v_binds (z_smsc z)) = len (registered_threads z).
Proof.
  intros Hok. destruct z as [v threads journal].
  pose proof (registered_permutation v threads journal (fo_registry _ _ _ Hok)) as Hp.
  apply Permutation_length in Hp. rewrite !length_fmap in Hp. unfold count. simpl. by rewrite <- Hp, <- length_map_to_list.
Qed.

Lemma recorder_len n z : fine_ok capacity n z -> n < 2 ^ 64 ->
  Recorder.Len (v_recorder (z_smsc z)) = Z.min (len (z_journal z)) (Z.max 1 capacity).
Proof.
  intros Hok Hn. pose proof (fo_journal _ _ _ Hok) as Hj. pose proof (jn_logical _ _ _ _ _ Hj) as Hlog.
  pose proof (jn_count _ _ _ _ _ Hj). unfold committing in Hlog.
  destruct (append_all_represents capacity (z_journal z)) as (r & Ha & Hrep); [lia|].
  rewrite (jn_recorder _ _ _ _ _ Hj) in Ha. injection Ha as <-. unfold Recorder.Len.
  by rewrite (rep_size _ _ _ Hrep), length_indexed.
Qed.

End Grows.

(** C16: a summary is bounded by what was committed when it was asked for and when
    it was given.  The four fields are read at four moments of a run, any number of
    events apart: the bind count is the number of sessions registered at the second;
    the logical clock is what was journalled at the third and the sessions then
    between counting a submit and journalling it; the number of recorded PDUs is
    what was journalled at the fourth, up to the capacity.  So neither number
    misses a submit journalled before the request began, and the records cannot be
    fewer than the clock by more than the sessions in between. *)
Theorem view_consistent {R} `{RandSource R} cfg n0 n1 n2 n3 n4 (z0 z1 z2 z3 z4 : interleaving R) :
  scenario_ok (VS_Scenario cfg) -> scenario_typed (VS_Scenario cfg) ->
  nsteps fine_step n0 (fine_boot cfg) z0 -> nsteps fine_step n1 z0 z1 -> nsteps fine_step n2 z1 z2 ->
  nsteps fine_step n3 z2 z3 -> nsteps fine_step n4 z3 z4 ->
  Z.of_nat (n0 + n1 + n2 + n3 + n4) < 2 ^ 64 ->
  let V := view_at (z_smsc z1) (z_smsc z2) (z_smsc z3) (z_smsc z4) in
  let cap := Z.max 1 (VS_PDUBufferSize cfg) in
  VV_BindCount V = len (registered_threads z2) /\
  VV_LogicalClock V = len (z_journal z3) + committing z3 /\
  VV_RecordedPDUs V = Z.min (len (z_journal z4)) cap /\
  len (z_journal z0) <= VV_LogicalClock V <= v_logicalClock (z_smsc z4) /\
  Z.min (len (z_journal z0)) cap <= VV_RecordedPDUs V /\
  Z.min (VV_LogicalClock V - committing z3) cap <= VV_RecordedPDUs V.
Proof.
  intros Ho Ht H0 H1 H2 H3 H4 Hn V cap.
  pose proof (fine_boot_ok (R := R) _ cfg eq_refl Ho Ht) as Hb.
  pose proof (fine_reachable_ok _ _ _ _ _ Hb H0 ltac:(lia)) as K0.
  pose proof (fine_reachable_ok _ _ _ _ _ K0 H1 ltac:(lia)) as K1.
  pose proof (fine_reachable_ok _ _ _ _ _ K1 H2 ltac:(lia)) as K2.
  pose proof (fine_reachable_ok _ _ _ _ _ K2 H3 ltac:(lia)) as K3.
  pose proof (fine_reachable_ok _ _ _ _ _ K3 H4 ltac:(lia)) as K4.
  pose proof (fine_steps_grow _ _ _ _ _ K0 H1 ltac:(lia)) as G1. pose proof (fine_steps_grow _ _ _ _ _ K1 H2 ltac:(lia)) as G2.
  pose proof (fine_steps_grow _ _ _ _ _ K2 H3 ltac:(lia)) as G3. pose proof (fine_steps_grow _ _ _ _ _ K3 H4 ltac:(lia)) as G4.
  pose proof (grows_trans _ _ _ (grows_trans _ _ _ G1 G2) G3) as [J03%prefix_length _]. destruct G4 as [J34%prefix_length C34].
  assert (VV_LogicalClock V = len (z_journal z3) + committing z3) as Hclk.
  { simpl. rewrite (jn_logical _ _ _ _ _ (fo_journal _ _ _ K3)). by destruct z3. }
  assert (VV_RecordedPDUs V = Z.min (len (z_journal z4)) cap) as Hrec by (apply (recorder_len _ _ _ K4); lia).
  assert (0 <= committing z3) by (unfold committing; lia).
  split_and!; [by eapply registered_count|done|done|lia|exact C34|lia|lia].
Qed.

(** ** A session nobody interrupts *)

Section Alone.
Context {R : Type} `{RandSource R}.
Implicit Types (w : world R) (t : thread R).

Definition thread_of w (c : code R) (ph : phase) : thread R := mkThread (w_session w) (w_out w) (w_nextChan w) c ph.

Lemma perform_total v c : smsc_safe v -> exists r, perform c v = Ok r /\ smsc_safe r.2 /\
  append_all (journals c) (v_recorder v) = Ok (v_recorder r.2).
Proof.
  intros [Hring Hs He]. destruct c; simpl; try (eexists; split; [reflexivity|]; split; [by split|done]).
  destruct (Append_total p _ Hring) as (r' & Ha & Hr' & _). rewrite Ha. simpl. eexists. split; [reflexivity|].
  split; [by split|]. simpl. rewrite ?Ha. done.
Qed.

Lemma append_all_app l1 l2 r :
  append_all (l1 ++ l2) r = let* r := append_all l1 r in append_all l2 r.
Proof. revert r. induction l1 as [|x l1 IH]; intros r; simpl; [done|]. destruct (Append x r); simpl; [apply IH|done..]. Qed.

Lemma alone_runs env (p : prog R (option conn)) ph Q k w threads journal :
  wp p env ph (w_session w) Q -> smsc_safe (w_smsc w) ->
  exists r w' ph' m log, alone p env w = Ok (r, w') /\ Q r ph' (w_session w') /\
    append_all log (v_recorder (w_smsc w)) = Ok (v_recorder (w_smsc w')) /\
    nsteps fine_step m (mkInterleaving (w_smsc w) (<[k := thread_of w (Busy env p) ph]> threads) journal)
      (mkInterleaving (w_smsc w') (<[k := thread_of w' (over r) ph']> threads) (journal ++ log)).
Proof.
  revert ph w journal. induction p as [r|B m kont IH|c kont IH]; intros ph w journal Hp Hv; simpl in Hp.
  - exists r, w, ph, 1%nat, []. split; [done|]. split; [done|]. split; [done|].
    econstructor; [|constructor]. exists (Advance k). simpl. rewrite lookup_insert_eq. simpl.
    unfold set_t_code, thread_of. simpl. by rewrite insert_insert_eq.
  - specialize (Hp w eq_refl Hv). simpl. destruct (m env w) as [[b w1]| |] eqn:Hm; [|done..]. destruct Hp as [Hw Hp].
    destruct (IH b ph w1 journal Hp) as (r & w' & ph' & n & log & Ha & HQ & Hl & Hs); [by rewrite Hw|].
    exists r, w', ph', (S n), log. split; [by erewrite M_bind_run by exact Hm|]. split; [done|]. rewrite <- Hw. split; [done|].
    econstructor; [|exact Hs]. exists (Advance k). simpl. rewrite lookup_insert_eq. cbn [advance t_code thread_of].
    unfold thread_world. cbn [t_session t_out t_nextChan thread_of]. rewrite Hw.
    replace (mkWorld (w_session w) (w_smsc w) (w_out w) (w_nextChan w)) with w by (by destruct w).
    rewrite Hm. simpl. by rewrite insert_insert_eq, app_nil_r, Hw.
  - destruct Hp as [Hmay Hp]. destruct (perform_total (w_smsc w) c Hv) as ([a v'] & Hperf & Hv' & Hj). simpl in Hv', Hj.
    destruct (IH a (next ph c a) (set_w_smsc v' w) (journal ++ journals c) (Hp a) Hv') as (r & w' & ph' & n & log & Ha & HQ & Hl & Hs).
    exists r, w', ph', (S n), (journals c ++ log). split.
    { simpl. erewrite M_bind_run; [exact Ha|]. unfold atomically. by rewrite Hperf. }
    split; [done|]. split; [by rewrite append_all_app, Hj|]. rewrite app_assoc.
    econstructor; [|exact Hs]. exists (Advance k). simpl. rewrite lookup_insert_eq. simpl. rewrite Hperf. simpl.
    by rewrite insert_insert_eq.
Qed.

End Alone.

(** A session nobody interrupts performs an iteration of the read loop.  From
    any state reachable by interleaved accesses, a session that begins an iteration
    and is then the only one to move comes to the end of it, with the session, the
    SMSC and the effects that [readLoop_iter] computes, its journal extended by the
    records the recorder was given; the other sessions are where they were. *)
Theorem iteration_alone {R} `{RandSource R} cfg n (z : interleaving R) k t c re :
  scenario_ok (VS_Scenario cfg) -> scenario_typed (VS_Scenario cfg) ->
  nsteps fine_step n (fine_boot cfg) z -> Z.of_nat n < 2 ^ 64 ->
  z_threads z !! k = Some t -> t_code t = Idle c ->
  exists r w', readLoop_iter re c (re_env re) (thread_world (z_smsc z) t) = Ok (r, w') /\
    exists m ph log, nsteps fine_step m z
        (mkInterleaving (w_smsc w') (<[k := thread_of w' (over r) ph]> (z_threads z)) (z_journal z ++ log)) /\
      append_all log (v_recorder (z_smsc z)) = Ok (v_recorder (w_smsc w')).
Proof.
  intros Ho Ht Hr Hn Hk Hcode.
  pose proof (fine_reachable_ok _ 0 n _ z (fine_boot_ok _ cfg eq_refl Ho Ht) Hr ltac:(lia)) as Hok.
  pose proof (fo_threads _ _ _ Hok _ _ Hk) as Hl. unfold thread_ok in Hl. rewrite Hcode in Hl.
  destruct z as [v threads journal]. simpl in *. set (w := thread_world v t).
  destruct (alone_runs (re_env re) (readLoop_iter_prog re c) (t_phase t) _ k w threads journal
    (readLoop_iter_keeps re c (re_env re) (t_phase t) (t_session t) Hl) (fo_smsc _ _ _ Hok))
    as (r & w' & ph & m & log & Ha & _ & Hj & Hs).
  exists r, w'. split; [by rewrite <- (same_readLoop_iter re c)|]. exists (S m), ph, log. split; [|done].
  econstructor; [|exact Hs]. exists (Begin k re). simpl. rewrite Hk, Hcode. done.
Qed.

(** ** Two sessions, access by access *)

(** Events that are not possible are skipped. *)
Fixpoint fine_run {R} `{RandSource R} (evs : list fine_event) (z : interleaving R) : interleaving R :=
  match evs with
  | [] => z
  | ev :: evs => fine_run evs match fine_exec ev z with Ok (Some z') => z' | _ => z end
  end.

Lemma fine_run_nsteps {R} `{RandSource R} evs (z : interleaving R) :
  exists n, (n <= length evs)%nat /\ nsteps fine_step n z (fine_run evs z).
Proof.
  revert z. induction evs as [|ev evs IH]; intros z; simpl; [exists O; split; [lia|constructor]|].
  destruct (fine_exec ev z) as [[z'|]| |] eqn:Hx.
  - destruct (IH z') as (n & Hn & Hs). exists (S n). split; [lia|]. econstructor; [by exists ev|done].
  - destruct (IH z) as (n & Hn & Hs). exists n. split; [lia|done].
  - destruct (IH z) as (n & Hn & Hs). exists n. split; [lia|done].
  - destruct (IH z) as (n & Hn & Hs). exists n. split; [lia|done].
Qed.

(** A session takes up to [n] steps. *)
Definition steps (n : nat) (k : nat) : list fine_event := replicate n (Advance k).

(** An iteration from beginning to end. *)
Definition whole (k : nat) : list fine_event := Begin k (sample_env_at 0) :: steps 40 k.

Definition peer : conn := [Recv bind_frame; Recv (frame_of sample_submit)].

Definition both_bound : list fine_event := [Open 0 0 peer; Open 1 0 peer] ++ whole 0 ++ whole 1.

(** Both count a submit before either journals it. *)
Definition both_counted : list fine_event :=
  both_bound ++ Begin 0 (sample_env_at 0) :: steps 14 0 ++ Begin 1 (sample_env_at 0) :: steps 14 1.

Definition mid : interleaving PCG := fine_run both_counted (fine_boot sample_vs).

Definition later : interleaving PCG := fine_run (steps 10 1) mid.

Lemma fine_run_reaches evs (z : interleaving PCG) :
  (length evs <=? 1000)%nat = true -> exists n, Z.of_nat n <= 1000 /\ nsteps fine_step n z (fine_run evs z).
Proof. intros Hl%Nat.leb_le. destruct (fine_run_nsteps evs z) as (n & Hn & Hs). exists n. split; [lia|done]. Qed.

Lemma mid_reached : exists n, Z.of_nat n <= 1000 /\ nsteps fine_step n (fine_boot sample_vs) mid.
Proof. apply fine_run_reaches. vm_compute. reflexivity. Qed.

Lemma later_reached : exists n, Z.of_nat n <= 1000 /\ nsteps fine_step n mid later.
Proof. apply fine_run_reaches. vm_compute. reflexivity. Qed.

Lemma interleaving_safe_witness :
  v_logicalClock (z_smsc mid) = 0 + committing mid /\ committing mid = 2 /\
  exists o, fine_exec (Advance 0) mid = Ok o.
Proof.
  destruct mid_reached as (n & Hn & Hs).
  destruct (interleaving_safe sample_vs n mid (proj1 sample_vs_ok) (proj2 sample_vs_ok) Hs ltac:(lia))
    as (Hx & Hc & _).
  split; [exact Hc|]. split; [vm_compute; reflexivity|apply Hx].
Defined.

(** The clock is read between the counts and the records, the journal after one of them. *)
Lemma view_consistent_witness :
  let V := view_at (z_smsc mid) (z_smsc mid) (z_smsc mid) (z_smsc later) in
  VV_BindCount V = 2 /\ VV_LogicalClock V = 2 /\ VV_RecordedPDUs V = 1 /\ Z.min (2 - committing mid) 10 <= 1.
Proof.
  destruct mid_reached as (n & Hn & Hs). destruct later_reached as (n' & Hn' & Hs').
  destruct (view_consistent sample_vs n 0 0 0 n' mid mid mid mid later (proj1 sample_vs_ok) (proj2 sample_vs_ok)
    Hs (nsteps_O _ _) (nsteps_O _ _) (nsteps_O _ _) Hs' ltac:(lia)) as (E1 & E2 & E3 & _ & _ & _).
  cbv zeta in *. rewrite E1, E2, E3. split_and!; [vm_compute; reflexivity..|vm_compute; discriminate].
Defined.

Definition bound_pair : interleaving PCG := fine_run both_bound (fine_boot sample_vs).

Lemma iteration_alone_witness :
  exists r w' z', (exists n, nsteps fine_step n bound_pair z') /\ z_smsc z' = w_smsc w' /\
    match z_threads bound_pair !! 1%nat with
    | Some t => readLoop_iter (sample_env_at 0) [Recv (frame_of sample_submit)] sample_env (thread_world (z_smsc bound_pair) t) = Ok (r, w')
    | None => False
    end.
Proof.
  destruct (fine_run_reaches both_bound (fine_boot sample_vs)) as (n & Hn & Hs); [vm_compute; reflexivity|].
  destruct (z_threads bound_pair !! 1%nat) as [t|] eqn:Ht; [|vm_compute in Ht; discriminate].
  assert (t_code t = Idle [Recv (frame_of sample_submit)]) as Hc.
  { assert (t_code <$> z_threads bound_pair !! 1%nat = Some (Idle [Recv (frame_of sample_submit)])) as Hx
      by (vm_compute; reflexivity). rewrite Ht in Hx. by injection Hx. }
  destruct (iteration_alone sample_vs n bound_pair 1 t _ (sample_env_at 0) (proj1 sample_vs_ok) (proj2 sample_vs_ok)
    Hs ltac:(lia) Ht Hc) as (r & w' & Hrun & m & ph & log & Hm & _).
  exists r, w'. eexists. split; [exists m; exact Hm|]. split; [reflexivity|exact Hrun].
Defined.

(** ** The oldest bind may change between two reads *)

(** A disconnect of the oldest bind at tick 1, before the response. *)
Definition oldest_vs : VirtualSMSCConfig :=
  mkVirtualSMSCConfig "carrier-a" 2775 (mkBindCredentials "esme" "secret") 0 0 ""
    (mkTLSConfig false "" "") (Some 42) 10 None None
    (mkScenarioConfig ProfileHealthy zero_params
       (mkLatencyConfig LatencyFixed (mkLatencyParams (Some 0) None None None None None None None)) None false None)
    None [mkScheduledDisconnect 1 DisconnectScopeOldest DisconnectBeforeResponse] [].

(** The second bind submits; the first leaves between the peek of
    [dueDisconnectBeforeResponse] and [applyDueDisconnects]. *)
Definition oldest_leaves : list fine_event :=
  [Open 0 0 [Recv bind_frame; Fail EOF]; Open 1 0 peer] ++ whole 0 ++ whole 1 ++
  Begin 1 (sample_env_at 0) :: steps 26 1 ++ whole 0 ++ [Leave 0] ++ steps 40 1.

(** A disconnect that is to come before the response answers the submit and then
    cuts the link: the two reads of the registry disagree. *)
Example before_response_answers :
  match z_threads (fine_run oldest_leaves (fine_boot (R := PCG) oldest_vs)) !! 1%nat with
  | Some t =>
      s_closeReason (t_session t) = Some reasonScheduledDisconnect /\
      last (responses (t_out t)) =
        encoded (reply sample_submit SubmitSMResp StatusROK (Some (BodySubmitResp (mkSubmitResp "2-0001")))) None
  | None => False
  end.
Proof. vm_compute. split; reflexivity. Qed.
