(* ===== verification/Serialize.v ===== *)
(** * Interleaved sessions are serializable ([readLoop] of [session.go])

    Every interleaving of the accesses of [Interleave], seen when no session is
    inside an iteration, is a run of [System] in which whole iterations follow one
    another, in the order in which they took an ordinal, journalled a submit or,
    when they did neither, ended.  [related] is the simulation: a session inside an
    iteration is still at its beginning in [System] until it commits, and from then
    on already at its end. *)

From S2P Require Import Prelude.
From S2P Require Import SmppPdu.
From S2P Require Import SmppCodec.
From S2P Require Import SmppFraming.
From S2P Require Import Rng.
From S2P Require Import Schedule.
From S2P Require Import Recorder.
From S2P Require Import Config.
From S2P Require Import Validate.
From S2P Require Import ValidateThms.
From S2P Require Import Scenario.
From S2P Require Import ScenarioThms.
From S2P Require Import Dlr.
From S2P Require Import Close.
From S2P Require Import Binds.
From S2P Require Import VirtualSMSC.
From S2P Require Import EngineSafety.
From S2P Require Import SessionState.
From S2P Require Import Session.
From S2P Require Import SessionRuns.
From S2P Require Import SessionBind.
From S2P Require Import SessionThms.
From S2P Require Import ReadLoop.
From S2P Require Import SessionFrame.
From S2P Require Import Replay.
From S2P Require Import System.
From S2P Require Import Access.
From S2P Require Import Shape.
From S2P Require Import Protocol.
From S2P Require Import Interleave.
From S2P Require Import Observe.

(** ** Runs of a program *)

(** An access and what it answered. *)
Inductive performed := Performed (c : access) (a : answer c).

Section Runs.
Context {R : Type}.
Implicit Types (w : world R) (log : list performed).

(** The program from [w] to [w'], with the accesses in [log]; the SMSC of the two
    worlds stands for its constants alone. *)
Fixpoint runs {A} (env : Env) (p : prog R A) w log (r : A) w' : Prop :=
  match p with
  | Done a => log = [] /\ r = a /\ w' = w
  | Local m k => exists b w1, m env w = Ok (b, w1) /\ own_run m env w b w1 /\ runs env (k b) w1 log r w'
  | Shared c k => exists a log', log = Performed c a :: log' /\ runs env (k a) w log' r w'
  end.

(** What a list of accesses does to an SMSC. *)
Fixpoint effects log (v v' : virtualSMSC) : Prop :=
  match log with
  | [] => v' = v
  | Performed c a :: log => exists v1, perform c v = Ok (a, v1) /\ effects log v1 v'
  end.

Lemma effects_app log1 log2 v v1 v2 : effects log1 v v1 -> effects log2 v1 v2 -> effects (log1 ++ log2) v v2.
Proof.
  revert v. induction log1 as [|[c a] log1 IH]; intros v; simpl; [by intros ->|].
  intros (v' & Hp & H1) H2. exists v'. split; [done|]. by apply IH.
Qed.

Lemma perform_constants c v a v' : perform c v = Ok (a, v') -> constants v' = constants v.
Proof.
  destruct c; simpl; try by intros [= <- <-]. destruct (Append p (v_recorder v)); [|done..]. by intros [= <- <-].
Qed.

Lemma effects_constants log v v' : effects log v v' -> constants v' = constants v.
Proof.
  revert v. induction log as [|[c a] log IH]; intros v; simpl; [by intros ->|].
  intros (v1 & Hp & He). rewrite (IH _ He). by eapply perform_constants.
Qed.

Lemma runs_alone {A} env (p : prog R A) w log r w' v v' :
  runs env p w log r w' -> constants v = constants (w_smsc w) -> effects log v v' ->
  alone p env (set_w_smsc v w) = Ok (r, set_w_smsc v' w').
Proof.
  revert w log v. induction p as [a|B m k IH|c k IH]; intros w log v; simpl.
  - by intros (-> & -> & ->) _ ->.
  - intros (b & w1 & Hm & [E C Hv] & Hr) Hc He. erewrite M_bind_run by exact (Hv v Hc).
    eapply IH; [exact Hr|by rewrite E|exact He].
  - intros (a & log' & -> & Hr) Hc (v1 & Hp & He). erewrite M_bind_run.
    2: { unfold atomically. simpl. rewrite Hp. reflexivity. }
    apply (IH a w log' v1 Hr); [|done]. by rewrite (perform_constants _ _ _ _ Hp).
Qed.

(** What is left of an iteration that has committed. *)
Lemma over_runs {A} env (p : prog R A) ph Q Q' w :
  obeys p Over Q -> wp p env ph (w_session w) Q' -> calm w -> smsc_safe (w_smsc w) ->
  exists r w', runs env p w [] r w'.
Proof.
  revert ph w. induction p as [a|B m k IH|c k IH]; intros ph w; simpl.
  - intros _ _ _ _. by exists a, w.
  - intros [Ho Hk] Hm Hc Hv. specialize (Hm w eq_refl Hv). destruct (m env w) as [[b w1]| |] eqn:Hrun; [|done..].
    destruct Hm as [Hw Hm]. pose proof (Ho _ _ _ _ Hc Hrun) as Hown.
    destruct (IH b ph w1 (Hk _ _ _ _ Hc Hrun) Hm) as (r & w' & Hr); [apply Hown|by rewrite Hw|].
    exists r, w', b, w1. done.
  - intros [Ha _]. by destruct c; simpl in Ha; try done; destruct Ha.
Qed.

Lemma took_runs {A} env (p : prog R A) id ph (Q' : A -> phase -> session R -> Prop) w :
  obeys p (Took id) (fun _ => finished) -> wp p env ph (w_session w) Q' -> calm w -> smsc_safe (w_smsc w) ->
  exists info r w', bi_id info = id /\ runs env p w [Performed (Register info) ()] r w'.
Proof.
  revert ph w. induction p as [a|B m k IH|c k IH]; intros ph w; simpl.
  - by intros [|].
  - intros [Ho Hk] Hm Hc Hv. specialize (Hm w eq_refl Hv). destruct (m env w) as [[b w1]| |] eqn:Hrun; [|done..].
    destruct Hm as [Hw Hm]. pose proof (Ho _ _ _ _ Hc Hrun) as Hown.
    destruct (IH b ph w1 (Hk _ _ _ _ Hc Hrun) Hm) as (info & r & w' & Hi & Hr); [apply Hown|by rewrite Hw|].
    exists info, r, w'. split; [done|]. by exists b, w1.
  - intros [Ha Hk] [_ Hm] Hc Hv. destruct c as [|info|id'|q| |q]; simpl in Ha; try done; [|by destruct Ha].
    injection Ha as ->. destruct (over_runs env (k ()) _ _ _ w (Hk ()) (Hm ()) Hc Hv) as (r & w' & Hr).
    exists info, r, w'. split; [done|]. by exists (), [].
Qed.

End Runs.

(** ** The simulation *)

Section Simulation.
Context {R : Type} `{RandSource R} (capacity : Z) (v0 : virtualSMSC).
Context (Hsafe0 : smsc_safe v0) (Hcalm0 : calm_config (v_cfg v0)).
Implicit Types (v : virtualSMSC) (t : thread R) (c : client R) (z : interleaving R) (y : system R)
  (log : list performed).

Definition is_profile (x : performed) : Prop := match x with Performed (StoreProfile _) _ => True | _ => False end.

(** What an iteration that has not committed has performed. *)
Definition performed_by (st : stage) log : Prop :=
  match st with
  | Fresh => Forall is_profile log
  | Counting => exists log', log = log' ++ [Performed CountSubmit ()] /\ Forall is_profile log'
  | _ => False
  end.

(** A session as it is in [Interleave] and in [System]. *)
Inductive matches v t c : Prop :=
| MRest : (match t_code t with Busy _ _ => False | _ => True end) -> c = client_of_thread t -> matches v t c
| MBefore re conn p st log :
    t_code t = Busy (re_env re) p -> c_conn c = Some conn -> obeys p st (fun _ => finished) -> performed_by st log ->
    (forall rest r w', runs (re_env re) p (thread_world v0 t) rest r w' ->
       runs (re_env re) (readLoop_iter_prog re conn) (client_world v0 c) (log ++ rest) r w') ->
    matches v t c
| MTook env p id info r w' :
    t_code t = Busy env p -> obeys p (Took id) (fun _ => finished) -> t_phase t = Numbered id -> bi_id info = id ->
    binds (v_binds v) !! id = Some info ->
    runs env p (thread_world v0 t) [Performed (Register info) ()] r w' -> c = client_of w' r -> matches v t c
| MAfter env p r w' :
    t_code t = Busy env p -> obeys p Over (fun _ => finished) ->
    runs env p (thread_world v0 t) [] r w' -> c = client_of w' r -> matches v t c.

Definition follows v t c : Prop := calm (thread_world v0 t) /\ matches v t c.

(** The registry of [System] is ahead by the ordinals taken. *)
Record ahead v v' (threads : gmap nat (thread R)) : Prop := {
  ah_kept : forall id info, binds (v_binds v) !! id = Some info -> binds (v_binds v') !! id = Some info;
  ah_new : forall id info, binds (v_binds v') !! id = Some info ->
    binds (v_binds v) !! id = Some info \/ exists k t, threads !! k = Some t /\ t_phase t = Numbered id
}.

Record related z y : Prop := {
  rl_here : constants (z_smsc z) = constants v0;
  rl_there : constants (y_smsc y) = constants v0;
  rl_seq : v_bindSeq (y_smsc y) = v_bindSeq (z_smsc z);
  rl_journal : y_journal y = z_journal z;
  rl_binds : ahead (z_smsc z) (y_smsc y) (z_threads z);
  rl_threads : forall k, option_Forall2 (follows (y_smsc y)) (z_threads z !! k) (y_clients y !! k)
}.

Lemma related_thread z y k t : related z y -> z_threads z !! k = Some t ->
  exists c, y_clients y !! k = Some c /\ calm (thread_world v0 t) /\ matches (y_smsc y) t c.
Proof.
  intros Hr Hk. pose proof (rl_threads _ _ Hr k) as Hf. rewrite Hk in Hf. inversion Hf as [t' c Hm E1 E2|]; subst.
  by exists c.
Qed.

(** One session moves in [Interleave], and perhaps in [System]. *)
Lemma follow_insert v v' (threads : gmap nat (thread R)) (clients : gmap nat (client R)) k t c :
  (forall k, option_Forall2 (follows v) (threads !! k) (clients !! k)) ->
  (forall k' t' id info, k' <> k -> threads !! k' = Some t' -> t_phase t' = Numbered id ->
     binds (v_binds v) !! id = Some info -> binds (v_binds v') !! id = Some info) ->
  follows v' t c ->
  forall k', option_Forall2 (follows v') (<[k := t]> threads !! k') (<[k := c]> clients !! k').
Proof.
  intros Hf Hb Hm k'. destruct (decide (k = k')) as [<-|Hne]; [rewrite !lookup_insert_eq; by constructor|].
  rewrite !lookup_insert_ne by done. specialize (Hf k'). inversion Hf as [t' c' [Hc Hm'] E1 E2|E1 E2]; constructor.
  split; [done|]. destruct Hm'; [by eapply MRest|by eapply MBefore| |by eapply MAfter].
  eapply MTook; try done. by eapply (Hb k' t').
Qed.

(** A session moves in [Interleave] alone. *)
Lemma follow_stutter y (threads : gmap nat (thread R)) k t c :
  (forall k, option_Forall2 (follows (y_smsc y)) (threads !! k) (y_clients y !! k)) ->
  y_clients y !! k = Some c -> follows (y_smsc y) t c ->
  forall k', option_Forall2 (follows (y_smsc y)) (<[k := t]> threads !! k') (y_clients y !! k').
Proof.
  intros Hf Hc Hm k'. rewrite <- (insert_id (y_clients y) k c Hc). eapply follow_insert; [exact Hf|done|done].
Qed.

Lemma ahead_move v v' v1 v1' (threads : gmap nat (thread R)) k t t' :
  ahead v v' threads -> threads !! k = Some t -> binds (v_binds v1) = binds (v_binds v) ->
  binds (v_binds v1') = binds (v_binds v') -> t_phase t' = t_phase t \/ (forall id, t_phase t <> Numbered id) ->
  ahead v1 v1' (<[k := t']> threads).
Proof.
  intros [H1 H2] Hk E E' Hp. split; intros id info; rewrite E, ?E'; [apply H1|].
  intros [Hi|(k1 & t1 & Hk1 & Hn)]%H2; [by left|right].
  destruct (decide (k = k1)) as [<-|Hne]; [|exists k1, t1; by rewrite lookup_insert_ne].
  exists k, t'. rewrite lookup_insert_eq. split; [done|]. rewrite Hk in Hk1. injection Hk1 as <-.
  destruct Hp as [->|Hp]; [done|]. by destruct (Hp id).
Qed.

(** An iteration of [System] from a run of its program. *)
Lemma serve_runs y k c re conn log r w' v' :
  y_clients y !! k = Some c -> c_conn c = Some conn -> constants (y_smsc y) = constants v0 ->
  runs (re_env re) (readLoop_iter_prog re conn) (client_world v0 c) log r w' -> effects log (y_smsc y) v' ->
  sys_step y (mkSystem v' (<[k := client_of w' r]> (y_clients y))
    (y_journal y ++ option_list (newRecord (v_recorder (y_smsc y)) (v_recorder v')))).
Proof.
  intros Hk Hc Hcs Hr He. exists (Serve k re). destruct y as [v clients journal].
  cbn [y_smsc y_clients y_journal] in *. unfold sys_exec. rewrite Hk, Hc.
  pose proof (runs_alone (re_env re) _ _ _ _ _ v v' Hr Hcs He) as Ha. rewrite same_readLoop_iter in Ha.
  change (set_w_smsc v (client_world v0 c)) with (client_world v c) in Ha. by rewrite Ha.
Qed.

(** Profiles change nothing else. *)
Lemma effects_profiles log v : Forall is_profile log -> exists p, effects log v (set_v_activeProfile p v).
Proof.
  revert v. induction log as [|[c a] log IH]; intros v Hf; simpl; [exists (v_activeProfile v); by destruct v|].
  apply Forall_cons in Hf as [Hc Hf]. destruct c; try done. destruct a.
  destruct (IH (set_v_activeProfile p v) Hf) as [q He]. exists q, (set_v_activeProfile p v). split; [done|].
  by destruct v.
Qed.

(** Begin: the iteration has performed nothing. *)
Lemma begin_follows v t c conn re : t_code t = Idle conn -> follows v t c ->
  follows v (set_t_code (Busy (re_env re) (readLoop_iter_prog re conn)) t) c.
Proof.
  intros Hcode [Hc Hm]. split; [done|]. destruct Hm as [_ ->| | |]; [|congruence..].
  apply (MBefore _ _ _ re conn (readLoop_iter_prog re conn) Fresh []); [done| |apply readLoop_iter_obeys|by apply Forall_nil|].
  - simpl. by rewrite Hcode.
  - intros rest r w' Hr. by rewrite app_nil_l.
Qed.

(** Code of a session's own. *)
Lemma local_follows {B} v v' t c env (m : M R B) kont b w1 :
  t_code t = Busy env (Local m kont) -> constants v' = constants v0 -> m env (thread_world v' t) = Ok (b, w1) ->
  follows v t c ->
  w_smsc w1 = v' /\
  follows v (mkThread (w_session w1) (w_out w1) (w_nextChan w1) (Busy env (kont b)) (t_phase t)) c.
Proof.
  intros Hcode Hcs Hrun [Hcalm Hm].
  assert (calm (thread_world v' t)) as Hcalm'.
  { destruct Hcalm as [Hd Hcfg]. split; [done|]. simpl in *. replace (v_cfg v') with (v_cfg v0); [done|]. by injection Hcs. }
  assert (own m -> w_smsc w1 = v' /\ m env (thread_world v0 t) = Ok (b, set_w_smsc v0 w1)) as Hown.
  { intros Ho. destruct (Ho _ _ _ _ Hcalm' Hrun) as [E _ Hany]. split; [done|]. by apply (Hany v0). }
  assert (forall st, obeys (Local m kont) st (fun _ => finished) -> w_smsc w1 = v' /\ calm (set_w_smsc v0 w1) /\
    obeys (kont b) st (fun _ => finished) /\ forall log r w', runs env (kont b) (set_w_smsc v0 w1) log r w' <->
      runs env (Local m kont) (thread_world v0 t) log r w') as Hstep.
  { intros st [Ho Hk]. destruct (Hown Ho) as [E Hrun0]. pose proof (Ho _ _ _ _ Hcalm Hrun0) as Hor.
    split_and!; [done|apply Hor|by eapply Hk|]. intros log r w'. split.
    - intros Hr. by exists b, (set_w_smsc v0 w1).
    - intros (b' & w2 & Hrun2 & _ & Hr). rewrite Hrun0 in Hrun2. by injection Hrun2 as <- <-. }
  destruct Hm as [Hrest _|re conn p st log Hp Hconn Hob Hlog Hpre|env' p id info r w' Hp Hob Hph Hi Hb Hr ->|env' p r w' Hp Hob Hr ->].
  { by rewrite Hcode in Hrest. }
  all: rewrite Hcode in Hp; injection Hp as -> <-; destruct (Hstep _ Hob) as (E & Hcalm1 & Hob1 & Hruns); (split; [done|]); (split; [done|]).
  - eapply (MBefore _ _ _ re conn (kont b) st log); [done..|]. intros rest r w' Hr. by apply Hpre, Hruns.
  - eapply (MTook _ _ _ _ (kont b) id info r w'); try done. by apply Hruns.
  - eapply (MAfter _ _ _ _ (kont b) r w'); try done. by apply Hruns.
Qed.

Lemma newSession_constants v v' now : constants v' = constants v -> newSession (R := R) v' now = newSession v now.
Proof. intros Hc. unfold newSession. by replace (v_cfg v') with (v_cfg v) by (by injection Hc). Qed.

Lemma open_related v threads journal y k now conn :
  related (mkInterleaving v threads journal) y -> threads !! k = None ->
  exists y', sys_step y y' /\
    related (mkInterleaving v (<[k := mkThread (newSession v now) [] 0 (Idle conn) Unbound]> threads) journal) y'.
Proof.
  intros [Hv Hy Hs Hj [B1 B2] Hts] Hk. simpl in *. pose proof (Hts k) as Hnone. rewrite Hk in Hnone.
  inversion Hnone as [|E1 E2]. destruct y as [v' clients j']. simpl in *.
  eexists. split; [exists (Accept k now conn); simpl; by rewrite <- E2|]. split; simpl; try done.
  - split; [done|]. intros id info [Hi|(k1 & t1 & Hk1 & Hn)]%B2; [by left|right]. exists k1, t1. split; [|done].
    rewrite lookup_insert_ne; [done|]. intros <-. congruence.
  - eapply follow_insert; [exact Hts|done|]. split; [split; [apply Forall_nil_2|exact Hcalm0]|]. apply MRest; [done|].
    unfold client_of_thread. simpl. f_equal. apply newSession_constants. congruence.
Qed.

Lemma leave_related n v threads journal y k t :
  fine_ok capacity n (mkInterleaving v threads journal) -> related (mkInterleaving v threads journal) y ->
  threads !! k = Some t -> t_code t = Ended ->
  exists y', sys_step y y' /\
    related (mkInterleaving (set_v_binds (remove (s_id (t_session t)) (v_binds v)) v) (delete k threads) journal) y'.
Proof.
  intros Hok Hr Hk Hcode. pose proof (fo_threads _ _ _ Hok k t Hk) as Ht. unfold thread_ok in Ht. rewrite Hcode in Ht.
  destruct Ht as [[_ Hset] _]. pose proof (fo_registry _ _ _ Hok) as Hreg. simpl in *.
  destruct (related_thread _ _ _ _ Hr Hk) as (c & Hc & _ & Hm).
  destruct Hm as [_ ->| | |]; [|congruence..]. destruct Hr as [Hv Hy Hs Hj [B1 B2] Hts]. simpl in *.
  assert (forall k1 t1, k1 <> k -> threads !! k1 = Some t1 -> forall id, t_phase t1 = Numbered id ->
    s_id (t_session t) <> id) as Hother.
  { intros k1 t1 Hne Hk1 id Hn Hid. destruct (t_phase t) as [|id'|id' tick|id' tick] eqn:Hph; try done.
    - destruct Hset as (_ & Hid0 & _). assert (1 <= id <= v_bindSeq v); [|lia].
      eapply (rg_range _ _ Hreg); [exact Hk1|by rewrite Hn].
    - destruct Hset as (_ & Hid0 & _). apply Hne. eapply (rg_distinct _ _ Hreg); [exact Hk1|exact Hk|by rewrite Hn|].
      rewrite Hph. simpl. congruence. }
  destruct y as [v' clients j']. simpl in *. eexists.
  split; [exists (Release k); simpl; rewrite Hc; simpl; by rewrite Hcode|]. split; simpl; try done.
  - split; simpl; intros id info; rewrite !lookup_delete_Some; intros [Hne Hi]; [by split; [|apply B1]|].
    destruct (B2 _ _ Hi) as [Hi'|(k1 & t1 & Hk1 & Hn)]; [by left|right]. exists k1, t1. split; [|done].
    rewrite lookup_delete_ne; [done|]. intros <-. rewrite Hk in Hk1. injection Hk1 as <-. by rewrite Hn in Hset.
  - intros k1. destruct (decide (k = k1)) as [<-|Hne]; [rewrite !lookup_delete_eq; constructor|].
    rewrite !lookup_delete_ne by done. specialize (Hts k1). inversion Hts as [t1 c1 [Hc1 Hm1] E1 E2|E1 E2]; constructor.
    split; [done|]. destruct Hm1; [by eapply MRest|by eapply MBefore| |by eapply MAfter].
    eapply MTook; try done. simpl. rewrite lookup_delete_ne; [done|]. by eapply (Hother k1 t1).
Qed.

Lemma over_client v t r : client_of_thread (set_t_code (over r) t) = client_of (set_w_smsc v (thread_world v0 t)) r.
Proof. by destruct r. Qed.

Lemma done_related v threads journal y k t env r :
  related (mkInterleaving v threads journal) y -> threads !! k = Some t -> t_code t = Busy env (Done r) ->
  exists y', (y' = y \/ sys_step y y') /\
    related (mkInterleaving v (<[k := set_t_code (over r) t]> threads) journal) y'.
Proof.
  intros Hr Hk Hcode. destruct (related_thread _ _ _ _ Hr Hk) as (c & Hc & Hcalm & Hm).
  assert (matches (y_smsc y) (set_t_code (over r) t) (client_of_thread (set_t_code (over r) t))) as Hrest
    by (apply MRest; [by destruct r|done]).
  destruct Hr as [Hv Hy Hs Hj Hb Hts]. simpl in *.
  destruct Hm as [Hx _|re conn p st log Hp Hconn Hob Hlog Hpre|env' p id info r' w' Hp Hob Hph Hi Hbi Hr' Hc'|env' p r' w' Hp Hob Hr' Hc'].
  { by rewrite Hcode in Hx. }
  all: rewrite Hcode in Hp; injection Hp as -> <-.
  - destruct Hob as [->| ->]; [|done]. destruct (effects_profiles log (y_smsc y) Hlog) as [q He].
    pose proof (Hpre [] r (thread_world v0 t) (conj eq_refl (conj eq_refl eq_refl))) as Hruns. rewrite app_nil_r in Hruns.
    eexists. split; [right; by eapply serve_runs|]. split; simpl; try done.
    + rewrite newRecord_same. simpl. by rewrite app_nil_r.
    + by eapply ahead_move; [exact Hb|exact Hk|done|done|left].
    + change (client_of (thread_world v0 t) r) with (client_of (set_w_smsc v0 (thread_world v0 t)) r).
      rewrite <- over_client. eapply follow_insert; [exact Hts|done|]. split; [done|]. apply MRest; [by destruct r|done].
  - by destruct Hob.
  - destruct Hr' as (_ & -> & ->). exists y. split; [by left|]. split; simpl; try done.
    + by eapply ahead_move; [exact Hb|exact Hk|done|done|left].
    + eapply follow_stutter; [exact Hts|exact Hc|]. split; [done|]. apply MRest; [by destruct r|].
      by rewrite Hc', (over_client v0).
Qed.

(** ** Accesses *)

Section Shared.
Context (n : Z) (v : virtualSMSC) (threads : gmap nat (thread R)) (journal : list RecordedPDU) (y : system R)
  (k : nat) (t : thread R) (c : client R).
Context (Hok : fine_ok capacity n (mkInterleaving v threads journal)) (Hn : n + 1 < 2 ^ 64).
Context (Hrel : related (mkInterleaving v threads journal) y).
Context (Hk : threads !! k = Some t) (Hc : y_clients y !! k = Some c) (Hcalm : calm (thread_world v0 t)).

(** The thread after an access. *)
Let moved env (x : access) (a : answer x) kont : thread R :=
  mkThread (t_session t) (t_out t) (t_nextChan t) (Busy env (kont a)) (next (t_phase t) x a).

(** An access that commits nothing. *)
Lemma stay_related re conn x kont st log a v1 :
  t_code t = Busy (re_env re) (Shared x kont) -> c_conn c = Some conn ->
  (forall a, obeys (kont a) (after st x a) (fun _ => finished)) ->
  performed_by (after st x a) (log ++ [Performed x a]) ->
  (forall rest r w', runs (re_env re) (Shared x kont) (thread_world v0 t) rest r w' ->
     runs (re_env re) (readLoop_iter_prog re conn) (client_world v0 c) (log ++ rest) r w') ->
  perform x v = Ok (a, v1) -> v_bindSeq v1 = v_bindSeq v -> binds (v_binds v1) = binds (v_binds v) ->
  next (t_phase t) x a = t_phase t \/ (forall id, t_phase t <> Numbered id) -> journals x = [] ->
  related (mkInterleaving v1 (<[k := moved (re_env re) x a kont]> threads) (journal ++ journals x)) y.
Proof.
  intros Hcode Hconn Hob Hlog Hpre Hp Hseq Hb Hph ->. destruct Hrel as [Hv Hy Hs Hj Hbs Hts]. simpl in *.
  pose proof (perform_constants _ _ _ _ Hp) as Hv1. rewrite app_nil_r. split; simpl; try congruence.
  - eapply ahead_move; [exact Hbs|exact Hk|done|done|exact Hph].
  - eapply follow_stutter; [exact Hts|exact Hc|]. split; [done|].
    eapply (MBefore _ _ _ re conn (kont a) _ (log ++ [Performed x a])); [done|done|apply Hob|done|].
    intros rest r w' Hr. rewrite <- app_assoc. apply Hpre. by exists a, rest.
Qed.

(** An ordinal is taken: the bind is over for [System]. *)
Lemma take_related re conn kont log :
  t_code t = Busy (re_env re) (Shared TakeOrdinal kont) -> c_conn c = Some conn -> Forall is_profile log ->
  (forall id, obeys (kont id) (Took id) (fun _ => finished)) ->
  t_phase t = Unbound ->
  (forall id, wp (kont id) (re_env re) (Numbered id) (t_session t) (fun r => iterated (bool_decide (is_Some r)))) ->
  (forall rest r w', runs (re_env re) (Shared TakeOrdinal kont) (thread_world v0 t) rest r w' ->
     runs (re_env re) (readLoop_iter_prog re conn) (client_world v0 c) (log ++ rest) r w') ->
  let id := v_bindSeq v +64 1 in
  exists y', sys_step y y' /\
    related (mkInterleaving (set_v_bindSeq id v) (<[k := moved (re_env re) TakeOrdinal id kont]> threads) journal) y'.
Proof.
  intros Hcode Hconn Hlog Hob Hph Hwp Hpre id. destruct Hrel as [Hv Hy Hs Hj Hbs Hts]. simpl in *.
  destruct (took_runs (re_env re) (kont id) id (Numbered id) _ (thread_world v0 t) (Hob id) (Hwp id) Hcalm Hsafe0)
    as (info & r & w' & Hi & Hr).
  destruct (effects_profiles log (y_smsc y) Hlog) as [q He]. set (v1 := set_v_activeProfile q (y_smsc y)) in He.
  assert (id = v_bindSeq v + 1) as Hid.
  { pose proof (fo_journal _ _ _ Hok) as Hjo. pose proof (jn_seq _ _ _ _ _ Hjo). simpl in *.
    pose proof (rg_seq _ _ (fo_registry _ _ _ Hok)). unfold id. simpl in *. by apply (u64_succ_small _ n). }
  assert (forall id', is_Some (binds (v_binds v) !! id') \/
    (exists k' t', threads !! k' = Some t' /\ t_phase t' = Numbered id') -> id' <> id) as Hfresh.
  { intros id' [[info' Hb']|(k' & t' & Hk' & Hn')].
    - destruct (rg_owned _ _ (fo_registry _ _ _ Hok) _ _ Hb') as (_ & k' & t' & Hk' & Hr').
      assert (1 <= id' <= v_bindSeq v); [|lia]. eapply (rg_range _ _ (fo_registry _ _ _ Hok)); [exact Hk'|].
      by destruct (t_phase t').
    - assert (1 <= id' <= v_bindSeq v); [|lia]. eapply (rg_range _ _ (fo_registry _ _ _ Hok)); [exact Hk'|by rewrite Hn']. }
  assert (effects (log ++ [Performed TakeOrdinal id; Performed (Register info) ()]) (y_smsc y)
    (set_v_binds (add info (v_binds v1)) (set_v_bindSeq id v1))) as Heff.
  { eapply effects_app; [exact He|]. exists (set_v_bindSeq id v1). simpl. rewrite Hs. split; [done|].
    eexists. by split. }
  eexists. split.
  { eapply serve_runs; [exact Hc|exact Hconn|exact Hy| |exact Heff]. apply Hpre. exists id. eexists. by split. }
  split; simpl; try done.
  - rewrite newRecord_same. simpl. by rewrite app_nil_r.
  - destruct Hbs as [B1 B2]. split; simpl; rewrite Hi; intros id' info' Hb'.
    + rewrite lookup_insert_ne; [by apply B1|]. intros <-. by eapply Hfresh; [left; eexists|].
    + apply lookup_insert_Some in Hb' as [[<- <-]|[Hne Hb']].
      { right. exists k, (moved (re_env re) TakeOrdinal id kont). by rewrite lookup_insert_eq. }
      destruct (B2 _ _ Hb') as [|(k1 & t1 & Hk1 & Hn1)]; [by left|right]. exists k1, t1. split; [|done].
      rewrite lookup_insert_ne; [done|]. intros <-. rewrite Hk in Hk1. injection Hk1 as <-. congruence.
  - eapply follow_insert; [exact Hts| |].
    + intros k' t' id' info' Hne Hk' Hn' Hb'. simpl. rewrite Hi, lookup_insert_ne; [done|].
      intros <-. by eapply Hfresh; [right; eexists _, _|].
    + split; [done|]. eapply (MTook _ _ _ (re_env re) (kont id) id info r w'); try done. simpl. by rewrite Hi, lookup_insert_eq.
Qed.

(** [System] has registered the bind already. *)
Lemma register_related env info info' kont r w' :
  (forall a, obeys (kont a) Over (fun _ => finished)) ->
  t_phase t = Numbered (bi_id info) -> bi_id info = bi_id info' -> binds (v_binds (y_smsc y)) !! bi_id info' = Some info' ->
  runs env (Shared (Register info) kont) (thread_world v0 t) [Performed (Register info') ()] r w' ->
  c = client_of w' r ->
  related (mkInterleaving (set_v_binds (add info (v_binds v)) v)
    (<[k := moved env (Register info) () kont]> threads) journal) y.
Proof.
  intros Hob Hph Hi Hb (a & log' & E & Hr) Hcl. assert (info' = info /\ log' = []) as [-> ->].
  { split; [by apply (f_equal (fun l => match l with Performed (Register i) _ :: _ => i | _ => info' end)) in E|].
    by apply (f_equal (fun l => tail l)) in E. }
  clear E. destruct a.
  destruct Hrel as [Hv Hy Hs Hj [B1 B2] Hts]. simpl in *. split; simpl; try done.
  - split; simpl.
    + intros id' i [[<- <-]|[Hne Hi']]%lookup_insert_Some; [done|by apply B1].
    + intros id' i Hi'. destruct (decide (bi_id info = id')) as [<-|Hne]; [left; rewrite lookup_insert_eq; congruence|].
      rewrite lookup_insert_ne by done. destruct (B2 _ _ Hi') as [|(k1 & t1 & Hk1 & Hn1)]; [by left|right].
      exists k1, t1. split; [|done]. rewrite lookup_insert_ne; [done|]. intros <-. rewrite Hk in Hk1. injection Hk1 as <-.
      rewrite Hph in Hn1. by injection Hn1.
  - eapply follow_stutter; [exact Hts|exact Hc|]. split; [done|].
    by eapply (MAfter _ _ _ env (kont ()) r w').
Qed.

(** The record reaches the journal: the submit is over for [System]. *)
Lemma journal_related m re conn p kont log v1 :
  system_ok capacity m y ->
  c_conn c = Some conn -> Forall is_profile log -> Rec_Index p = 0 ->
  (forall a, obeys (kont a) Over (fun _ => finished)) -> (forall id, t_phase t <> Numbered id) ->
  wp (kont ()) (re_env re) (next (t_phase t) (Journal p) ()) (t_session t) (fun r => iterated (bool_decide (is_Some r))) ->
  (forall rest r w', runs (re_env re) (Shared (Journal p) kont) (thread_world v0 t) rest r w' ->
     runs (re_env re) (readLoop_iter_prog re conn) (client_world v0 c) ((log ++ [Performed CountSubmit ()]) ++ rest) r w') ->
  perform (Journal p) v = Ok ((), v1) ->
  exists y', sys_step y y' /\
    related (mkInterleaving v1 (<[k := moved (re_env re) (Journal p) () kont]> threads) (journal ++ [p])) y'.
Proof.
  intros Hsys Hconn Hlog Hidx Hob Hph Hwp Hpre Hperf. destruct Hrel as [Hv Hy Hs Hj Hbs Hts]. simpl in *.
  pose proof (vs_ring _ (so_smsc _ _ _ Hsys)) as Hring.
  destruct (over_runs (re_env re) (kont ()) _ _ _ (thread_world v0 t) (Hob ()) Hwp Hcalm Hsafe0) as (r & w' & Hr).
  destruct (effects_profiles log (y_smsc y) Hlog) as [q He]. set (v2 := set_v_activeProfile q (y_smsc y)) in He.
  destruct (Append_total p (v_recorder (y_smsc y)) Hring) as (rec & Ha & _).
  assert (effects ((log ++ [Performed CountSubmit ()]) ++ [Performed (Journal p) ()]) (y_smsc y)
    (set_v_recorder rec (set_v_logicalClock (v_logicalClock v2 +64 1) v2))) as Heff.
  { eapply effects_app; [eapply effects_app; [exact He|]|].
    - exists (set_v_logicalClock (v_logicalClock v2 +64 1) v2). by split.
    - eexists. split; [|reflexivity]. simpl. by rewrite Ha. }
  assert (v_bindSeq v1 = v_bindSeq v /\ binds (v_binds v1) = binds (v_binds v) /\ constants v1 = constants v) as (E1 & E2 & E3).
  { destruct (Append p (v_recorder v)); [|done..]. by injection Hperf as <-. }
  eexists. split.
  { eapply serve_runs; [exact Hc|exact Hconn|exact Hy| |exact Heff]. apply Hpre. exists (), []. by split. }
  split; simpl; [congruence|exact (eq_trans (effects_constants _ _ _ Heff) Hy)|congruence| | |].
  - rewrite (newRecord_journaled (Some p)); [|done|exact Ha]. simpl. rewrite Hj. f_equal.
    unfold set_Index. rewrite <- Hidx. by destruct p.
  - eapply ahead_move; [exact Hbs|exact Hk|done|done|by right].
  - eapply follow_insert; [exact Hts|done|]. split; [done|]. by eapply (MAfter _ _ _ (re_env re) (kont ()) r w').
Qed.

(** Any access. *)
Lemma shared_related m env x kont a v1 :
  system_ok capacity m y -> t_code t = Busy env (Shared x kont) -> perform x v = Ok (a, v1) ->
  matches (y_smsc y) t c ->
  exists y', (y' = y \/ sys_step y y') /\
    related (mkInterleaving v1 (<[k := moved env x a kont]> threads) (journal ++ journals x)) y'.
Proof.
  intros Hsys Hcode Hp Hm. pose proof (fo_threads _ _ _ Hok k t Hk) as Ht. unfold thread_ok in Ht. rewrite Hcode in Ht.
  destruct Ht as [Hmay Hwp].
  destruct Hm as [Hx _|re conn p st log Hc' Hconn Hob Hlog Hpre|env' p id info r w' Hc' Hob Hph Hi Hbi Hr Hcl|env' p r w' Hc' Hob Hr Hcl].
  { by rewrite Hcode in Hx. }
  all: rewrite Hcode in Hc'; injection Hc' as -> <-; destruct Hob as [Hall Hob].
  - destruct x as [|info|id|q| |p]; simpl in Hall, Hmay.
    + subst st. injection Hp as <- <-. simpl. rewrite app_nil_r.
      destruct (take_related re conn kont log) as (y' & ? & ?); try done. exists y'. auto.
    + by subst st.
    + done.
    + subst st. injection Hp as <- <-. exists y. split; [by left|].
      eapply (stay_related re conn (StoreProfile q) kont Fresh log); try done; [|by left].
      apply Forall_app_2; [done|by apply Forall_singleton].
    + subst st. injection Hp as <- <-. exists y. split; [by left|].
      eapply (stay_related re conn CountSubmit kont Fresh log); try done; [by exists log|right; by destruct (t_phase t)].
    + destruct Hall as [-> Hidx]. destruct Hlog as (log' & -> & Hlog). destruct a.
      destruct (journal_related m re conn p kont log' v1) as (y' & ? & ?); try done; [by destruct (t_phase t)|].
      exists y'. auto.
  - destruct x as [|info'|id'|q| |p]; simpl in Hall; try done; [|by destruct Hall]. injection Hall as ->.
    injection Hp as <- <-. exists y. split; [by left|]. simpl. rewrite app_nil_r.
    eapply (register_related env' info' info); try done. by rewrite Hi.
  - by destruct x; simpl in Hall; try done; destruct Hall.
Qed.

End Shared.

Lemma step_related n m z z' y ev :
  fine_ok capacity n z -> n + 1 < 2 ^ 64 -> system_ok capacity m y -> related z y ->
  fine_exec ev z = Ok (Some z') -> exists y', (y' = y \/ sys_step y y') /\ related z' y'.
Proof.
  intros Hok Hn Hsys Hr. destruct z as [v threads journal]. destruct ev as [k now conn|k re|k|k]; cbn [fine_exec].
  - destruct (threads !! k) eqn:Hk; [done|]. intros [= <-].
    destruct (open_related _ _ _ _ k now conn Hr Hk) as (y' & ? & ?). exists y'. auto.
  - destruct (threads !! k) as [t|] eqn:Hk; [|done]. destruct (t_code t) as [conn|env p|] eqn:Hcode; try done. intros [= <-].
    destruct (related_thread _ _ _ _ Hr Hk) as (c & Hc & Hf). exists y. split; [by left|].
    destruct Hr as [Hv Hy Hs Hj Hb Hts]. split; simpl in *; try done.
    + by eapply ahead_move; [exact Hb|exact Hk|done|done|left].
    + eapply follow_stutter; [exact Hts|exact Hc|]. by apply begin_follows.
  - destruct (threads !! k) as [t|] eqn:Hk; [|done]. destruct (t_code t) as [conn|env p|] eqn:Hcode; try done.
    destruct p as [r|B mm kont|x kont]; cbn [advance].
    + intros [= <-]. simpl. rewrite app_nil_r. by eapply done_related.
    + destruct (mm env (thread_world v t)) as [[b w1]| |] eqn:Hrun; [|done..]. intros [= <-]. simpl. rewrite app_nil_r.
      destruct (related_thread _ _ _ _ Hr Hk) as (c & Hc & Hf). exists y. split; [by left|].
      destruct Hr as [Hv Hy Hs Hj Hb Hts]. simpl in *.
      destruct (local_follows (y_smsc y) v t c env mm kont b w1 Hcode Hv Hrun Hf) as [-> Hf'].
      split; simpl; try done; [by eapply ahead_move; [exact Hb|exact Hk|done|done|left]|by eapply follow_stutter].
    + destruct (perform x v) as [[a v1]| |] eqn:Hp; [|done..]. intros [= <-]. simpl.
      destruct (related_thread _ _ _ _ Hr Hk) as (c & Hc & Hcalm & Hm).
      by eapply (shared_related n v threads journal y k t c Hok Hn Hr Hk Hc Hcalm m).
  - destruct (threads !! k) as [t|] eqn:Hk; [|done]. destruct (t_code t) as [conn|env p|] eqn:Hcode; try done. intros [= <-].
    destruct (leave_related n v threads journal y k t Hok Hr Hk Hcode) as (y' & ? & ?). exists y'. auto.
Qed.

Lemma steps_related n m l z z' y :
  fine_ok capacity n z -> nsteps fine_step l z z' -> n + Z.of_nat l < 2 ^ 64 ->
  system_ok capacity m y -> m <= n -> related z y ->
  exists l' y', (l' <= l)%nat /\ nsteps sys_step l' y y' /\ related z' y'.
Proof.
  intros Hok Hs. revert n m y Hok. induction Hs as [z|l z1 z2 z3 [ev Hx] _ IH]; intros n m y Hok Hn Hsys Hm Hr.
  { exists 0%nat, y. split; [done|]. by split; [constructor|]. }
  destruct (fine_exec_ok capacity n ev z1 Hok) as (o & Ho & Hok'); [lia|].
  rewrite Hx in Ho. injection Ho as <-. specialize (Hok' _ eq_refl).
  destruct (step_related n m z1 z2 y ev Hok ltac:(lia) Hsys Hr Hx) as (y1 & [->|Hs] & Hr1).
  - destruct (IH (n + 1) m y) as (l' & y' & Hl & Hs' & Hr'); [done|lia|done|lia|done|].
    exists l', y'. split; [lia|]. by split.
  - assert (system_ok capacity (m + 1) y1) as Hsys1 by (eapply sys_step_ok; [exact Hsys|lia|exact Hs]).
    destruct (IH (n + 1) (m + 1) y1) as (l' & y' & Hl & Hs' & Hr'); [done|lia|done|lia|done|].
    exists (S l'), y'. split; [lia|]. split; [by econstructor|done].
Qed.

End Simulation.

Lemma boot_related {R} `{RandSource R} cfg :
  related (newVirtualSMSC cfg).1 (fine_boot (R := R) cfg) (sys_boot cfg).
Proof.
  split; simpl; try done. intros k. rewrite !lookup_empty. constructor.
Qed.

(** A session between two iterations is the same in both. *)
Lemma related_client {R} `{RandSource R} v0 (z : interleaving R) y k t :
  related v0 z y -> z_threads z !! k = Some t -> (match t_code t with Busy _ _ => False | _ => True end) ->
  y_clients y !! k = Some (client_of_thread t).
Proof.
  intros Hr Hk Hrest. destruct (related_thread _ _ _ _ _ Hr Hk) as (c & Hc & _ & Hm). rewrite Hc. f_equal.
  by destruct Hm as [_ ->|re conn p st log Hx|env p id info r w' Hx|env p r w' Hx]; [|rewrite Hx in Hrest..].
Qed.

(** No session inside an iteration: the two states agree. *)
Lemma related_rest {R} `{RandSource R} capacity v0 n m (z : interleaving R) y :
  fine_ok capacity n z -> n < 2 ^ 64 -> system_ok capacity m y -> related v0 z y -> at_rest z ->
  y_clients y = y_clients (project z) /\
  y_smsc y = set_v_activeProfile (v_activeProfile (y_smsc y)) (z_smsc z).
Proof.
  intros Hok Hn Hsys Hr Hrest. pose proof (rest_system_ok capacity n z Hok Hn Hrest) as Hz. split.
  - apply map_eq. intros k. simpl. rewrite lookup_fmap. destruct (z_threads z !! k) as [t|] eqn:Hk.
    + exact (related_client v0 z y k t Hr Hk (Hrest k t Hk)).
    + pose proof (rl_threads _ _ _ Hr k) as Hf. rewrite Hk in Hf. by inversion Hf.
  - destruct Hr as [Hv Hy Hs Hj [B1 B2] _].
    assert (binds (v_binds (y_smsc y)) = binds (v_binds (z_smsc z))) as Hbinds.
    { apply map_eq. intros id. apply option_eq. intros info. split; [|apply B1].
      intros [Hi|(k & t & Hk & Hn')]%B2; [done|].
      destruct (rest_settled t (fo_threads _ _ _ Hok _ _ Hk) (Hrest _ _ Hk)) as [[_ Hset] _]. by rewrite Hn' in Hset. }
    assert (v_recorder (y_smsc y) = v_recorder (z_smsc z)) as Hrec.
    { pose proof (so_recorder _ _ _ Hsys) as E1. pose proof (so_recorder _ _ _ Hz) as E2. simpl in E2.
      rewrite Hj, E2 in E1. by injection E1. }
    assert (v_logicalClock (y_smsc y) = v_logicalClock (z_smsc z)) as Hclk.
    { rewrite (so_logical _ _ _ Hsys), Hj. symmetry. apply (so_logical _ _ _ Hz). }
    rewrite <- Hv in Hy. unfold constants in Hy. destruct (y_smsc y) as [? ? ? ? [b1] ? ? ? ?], (z_smsc z) as [? ? ? ? [b2] ? ? ? ?].
    simpl in *. by simplify_eq.
Qed.

(** C3: interleaved sessions are serializable.  Take any run of the sessions of an
    SMSC, one access to the shared state at a time, none of its disconnects scoped
    to the oldest bind.  At any moment there is a run in which every iteration of a
    read loop is one uninterrupted step that has led to the same journal in the same
    order, the same ordinals handed out, and the same fields, effects and input left
    of every session that is between two iterations.  When all of them are, the
    registry, the recorder and the counters are the same too; only the active
    profile, which the last transition to be stored wins, may differ. *)
Theorem interleaving_serializable {R} `{RandSource R} cfg n (z : interleaving R) :
  scenario_ok (VS_Scenario cfg) -> scenario_typed (VS_Scenario cfg) -> calm_config cfg ->
  nsteps fine_step n (fine_boot cfg) z -> Z.of_nat n < 2 ^ 64 ->
  exists m y, (m <= n)%nat /\ nsteps sys_step m (sys_boot cfg) y /\
    y_journal y = z_journal z /\ v_bindSeq (y_smsc y) = v_bindSeq (z_smsc z) /\
    (forall k t, z_threads z !! k = Some t -> (match t_code t with Busy _ _ => False | _ => True end) ->
       y_clients y !! k = Some (client_of_thread t)) /\
    (at_rest z -> y_clients y = y_clients (project z) /\
       y_smsc y = set_v_activeProfile (v_activeProfile (y_smsc y)) (z_smsc z)).
Proof.
  intros Ho Ht Hcalm Hr Hn. pose proof (fine_boot_ok (R := R) _ cfg eq_refl Ho Ht) as Hb.
  pose proof (sys_boot_ok (R := R) _ cfg eq_refl Ho Ht) as Hsb.
  destruct (steps_related (VS_PDUBufferSize cfg) (newVirtualSMSC cfg).1 (newVirtualSMSC_safe cfg Ho Ht) Hcalm 0 0 n _ z
    (sys_boot cfg) Hb Hr ltac:(lia) Hsb ltac:(lia) (boot_related cfg)) as (m & y & Hm & Hs & Hrel).
  pose proof (fine_reachable_ok _ 0 n _ z Hb Hr ltac:(lia)) as Hok. rewrite Z.add_0_l in Hok.
  pose proof (sys_reachable_ok _ 0 m _ y Hsb Hs ltac:(lia)) as Hsys.
  exists m, y. split_and!; [done|done|apply Hrel|apply Hrel| |].
  - intros k t. by apply (related_client _ _ _ _ _ Hrel).
  - by eapply related_rest.
Qed.

(** ** Two submits that overlap *)

(** Both sessions count before either journals; the second journals first. *)
Definition overlapped : interleaving PCG := fine_run (both_counted ++ steps 40 1 ++ steps 40 0) (fine_boot sample_vs).

Definition resting {R} (z : interleaving R) : bool :=
  forallb (fun kt => match t_code kt.2 with Busy _ _ => false | _ => true end) (map_to_list (z_threads z)).

Lemma resting_at_rest {R} (z : interleaving R) : resting z = true -> at_rest z.
Proof.
  intros Hz k t Hk. unfold resting in Hz. rewrite forallb_forall in Hz.
  specialize (Hz (k, t)). rewrite <- list_elem_of_In, elem_of_map_to_list in Hz. specialize (Hz Hk). simpl in Hz.
  by destruct (t_code t).
Qed.

Lemma interleaving_serializable_witness :
  exists m y, nsteps sys_step m (sys_boot (R := PCG) sample_vs) y /\
    Rec_MessageID <$> y_journal y = ["2-0001"; "1-0001"]%string /\ v_logicalClock (y_smsc y) = 2.
Proof.
  destruct (fine_run_reaches (both_counted ++ steps 40 1 ++ steps 40 0) (fine_boot sample_vs)) as (n & Hn & Hs);
    [vm_compute; reflexivity|].
  destruct (interleaving_serializable sample_vs n overlapped (proj1 sample_vs_ok) (proj2 sample_vs_ok)
    ltac:(repeat constructor) Hs ltac:(lia)) as (m & y & _ & Hy & Hj & _ & _ & Hrest).
  destruct (Hrest (resting_at_rest overlapped ltac:(vm_compute; reflexivity))) as [_ Hv].
  exists m, y. split; [exact Hy|]. rewrite Hj, Hv. split; vm_compute; reflexivity.
Defined.
