(* ===== verification/Metrics.v ===== *)
(** * The metrics registry ([internal/metrics/metrics.go])

    The collectors as maps from label values to their current reading: a series
    exists once its labels have been used.  Counter values are integers (the
    float64 of the client library holds them exactly below 2^53), and a histogram
    is its list of observations.  Help texts and bucket bounds are left out. *)

From S2P Require Import Prelude.
From S2P Require Import Rng.
From S2P Require Import Config.
From S2P Require Import VirtualSMSC.

(** ** Collectors *)

Record Metrics := mkMetrics {
  activeBinds : gmap (string * string) Z;
  submitReceived : gmap string Z;
  submitOutcome : gmap (string * string) Z;
  activeScenario : gmap (string * string) Z;
  servedLatency : gmap (string * string) (list float64);
  sessionClosed : gmap (string * string * string * string) Z;
  outboundDepth : gmap string Z;
  outboundDrop : gmap (string * string) Z;
  scenario : gmap string string
}.

(** Collectors that have seen no call. *)
Definition unused : Metrics := mkMetrics ∅ ∅ ∅ ∅ ∅ ∅ ∅ ∅ ∅.

(** A collector as it is registered: its metric name and label names. *)
Record desc := mkDesc { d_name : string; d_labels : list string }.

Definition descs : list desc := [
  mkDesc "smsc_active_binds" ["virtual_smsc"; "bind_type"];
  mkDesc "smsc_submit_sm_received_total" ["virtual_smsc"];
  mkDesc "smsc_submit_sm_outcome_total" ["virtual_smsc"; "outcome"];
  mkDesc "smsc_active_scenario" ["virtual_smsc"; "scenario"];
  mkDesc "smsc_served_latency_seconds" ["virtual_smsc"; "scenario"];
  mkDesc "smsc_session_closed_total" ["virtual_smsc"; "bind_type"; "reason"; "initiator"];
  mkDesc "smsc_outbound_queue_depth" ["virtual_smsc"];
  mkDesc "smsc_outbound_dropped_total" ["virtual_smsc"; "kind"]]%string.

(** [promauto] registers with [MustRegister], which panics on a name already taken. *)
Fixpoint register (ds : list desc) (reg : gmap string (list string)) : may_panic (gmap string (list string)) :=
  match ds with
  | [] => Ok reg
  | d :: ds =>
      match reg !! d_name d with
      | Some _ => Panic
      | None => register ds (<[d_name d := d_labels d]> reg)
      end
  end.

(** The registry of its own the process builds ([observability.NewRegistry]). *)
Definition NewRegistry : gmap string (list string) := ∅.

Definition New (reg : gmap string (list string)) : may_panic (Metrics * gmap string (list string)) :=
  let* reg := register descs reg in Ok (unused, reg).

(** On that registry, [New] registers every
    collector; a second [New] on the same registry panics. *)
Lemma New_once :
  match New NewRegistry with
  | Ok (m, reg) => m = unused /\
      ((fun d => reg !! d_name d) <$> descs) = ((fun d => Some (d_labels d)) <$> descs) /\ New reg = Panic
  | _ => False
  end.
Proof. vm_compute. repeat split. Qed.

(** [WithLabelValues(k).Add(d)], which creates the series at zero. *)
Definition Add {K} `{Countable K} (k : K) (d : Z) (m : gmap K Z) : gmap K Z :=
  <[k := default 0%Z (m !! k) + d]>%Z m.

Definition set_activeBinds f m :=
  mkMetrics (f (activeBinds m)) (submitReceived m) (submitOutcome m) (activeScenario m) (servedLatency m)
    (sessionClosed m) (outboundDepth m) (outboundDrop m) (scenario m).
Definition set_submitReceived f m :=
  mkMetrics (activeBinds m) (f (submitReceived m)) (submitOutcome m) (activeScenario m) (servedLatency m)
    (sessionClosed m) (outboundDepth m) (outboundDrop m) (scenario m).
Definition set_submitOutcome f m :=
  mkMetrics (activeBinds m) (submitReceived m) (f (submitOutcome m)) (activeScenario m) (servedLatency m)
    (sessionClosed m) (outboundDepth m) (outboundDrop m) (scenario m).
Definition set_activeScenario f m :=
  mkMetrics (activeBinds m) (submitReceived m) (submitOutcome m) (f (activeScenario m)) (servedLatency m)
    (sessionClosed m) (outboundDepth m) (outboundDrop m) (scenario m).
Definition set_servedLatency f m :=
  mkMetrics (activeBinds m) (submitReceived m) (submitOutcome m) (activeScenario m) (f (servedLatency m))
    (sessionClosed m) (outboundDepth m) (outboundDrop m) (scenario m).
Definition set_sessionClosed f m :=
  mkMetrics (activeBinds m) (submitReceived m) (submitOutcome m) (activeScenario m) (servedLatency m)
    (f (sessionClosed m)) (outboundDepth m) (outboundDrop m) (scenario m).
Definition set_outboundDepth f m :=
  mkMetrics (activeBinds m) (submitReceived m) (submitOutcome m) (activeScenario m) (servedLatency m)
    (sessionClosed m) (f (outboundDepth m)) (outboundDrop m) (scenario m).
Definition set_outboundDrop f m :=
  mkMetrics (activeBinds m) (submitReceived m) (submitOutcome m) (activeScenario m) (servedLatency m)
    (sessionClosed m) (outboundDepth m) (f (outboundDrop m)) (scenario m).
Definition set_scenario f m :=
  mkMetrics (activeBinds m) (submitReceived m) (submitOutcome m) (activeScenario m) (servedLatency m)
    (sessionClosed m) (outboundDepth m) (outboundDrop m) (f (scenario m)).

(** ** The sink *)

(** Under the mutex: the profile it replaces is zeroed, the new one set. *)
Definition setScenario (smsc p : string) (m : Metrics) : Metrics :=
  let m :=
    match scenario m !! smsc with
    | Some prev => if String.eqb prev p then m else set_activeScenario <[(smsc, prev) := 0%Z]> m
    | None => m
    end in
  set_scenario <[smsc := p]> (set_activeScenario <[(smsc, p) := 1%Z]> m).

(** One method of the sink per call. *)
Definition record (call : metric) (m : Metrics) : Metrics :=
  match call with
  | IncBind smsc bindType => set_activeBinds (Add (smsc, bindType) 1) m
  | DecBind smsc bindType => set_activeBinds (Add (smsc, bindType) (-1)) m
  | IncSubmit smsc => set_submitReceived (Add smsc 1) m
  | IncOutcome smsc outcome => set_submitOutcome (Add (smsc, outcome) 1) m
  | ObserveServedLatency smsc p seconds =>
      set_servedLatency (fun l => <[(smsc, p) := default [] (l !! (smsc, p)) ++ [seconds]]> l) m
  | SetActiveScenario smsc p => setScenario smsc p m
  | IncSessionClosed smsc bindType reason initiator =>
      set_sessionClosed (Add (smsc, bindType, reason, initiator) 1) m
  | AddOutboundDepth smsc delta => set_outboundDepth (Add smsc delta) m
  | IncOutboundDropped smsc kind => set_outboundDrop (Add (smsc, kind) 1) m
  end.

(** What the sessions call ([metricsSink] of [internal/smsc/metrics.go]): the
    registry, or [noopMetrics] for an engine built without one. *)
Class metricsSink (S : Type) := sink : metric -> S -> S.
#[export] Instance Metrics_sink : metricsSink Metrics := record.
#[export] Instance noopMetrics : metricsSink unit := fun _ s => s.

Definition record_all (calls : list metric) (m : Metrics) : Metrics := foldl (fun m call => record call m) m calls.

(** ** What the readings mean *)

(** The profile last set for an SMSC. *)
Fixpoint last_profile (smsc : string) (calls : list metric) : option string :=
  match calls with
  | [] => None
  | call :: calls =>
      match last_profile smsc calls, call with
      | Some p, _ => Some p
      | None, SetActiveScenario s p => if String.eqb s smsc then Some p else None
      | None, _ => None
      end
  end.

Definition sets_profile (smsc p : string) (call : metric) : bool :=
  match call with SetActiveScenario s q => String.eqb s smsc && String.eqb q p | _ => false end.

(** Net binds and counted submits. *)
Definition bind_delta (smsc bindType : string) (call : metric) : Z :=
  match call with
  | IncBind s b => if String.eqb s smsc && String.eqb b bindType then 1 else 0
  | DecBind s b => if String.eqb s smsc && String.eqb b bindType then -1 else 0
  | _ => 0
  end%Z.

Definition submit_delta (smsc : string) (call : metric) : Z :=
  match call with IncSubmit s => if String.eqb s smsc then 1 else 0 | _ => 0 end%Z.

Definition sum_delta (f : metric -> Z) (calls : list metric) : Z := foldr (fun call n => f call + n)%Z 0%Z calls.

Lemma last_profile_snoc smsc calls call :
  last_profile smsc (calls ++ [call]) =
  match call with
  | SetActiveScenario s p => if String.eqb s smsc then Some p else last_profile smsc calls
  | _ => last_profile smsc calls
  end.
Proof.
  induction calls as [|c calls IH]; simpl; [by destruct call|]. rewrite IH.
  destruct call as [| | | | |s p| | |]; try done. by destruct (String.eqb s smsc).
Qed.

Lemma sum_delta_snoc f calls call : sum_delta f (calls ++ [call]) = (sum_delta f calls + f call)%Z.
Proof. induction calls as [|c calls IH]; simpl; [lia|]. rewrite IH. lia. Qed.

(** The series read off the history of calls. *)
Record reads_as (calls : list metric) (m : Metrics) : Prop := {
  ra_scenario : forall smsc, scenario m !! smsc = last_profile smsc calls;
  ra_active : forall smsc p, activeScenario m !! (smsc, p) =
    if existsb (sets_profile smsc p) calls
    then Some (if bool_decide (last_profile smsc calls = Some p) then 1%Z else 0%Z) else None;
  ra_binds : forall smsc b, default 0%Z (activeBinds m !! (smsc, b)) = sum_delta (bind_delta smsc b) calls;
  ra_submits : forall smsc, default 0%Z (submitReceived m !! smsc) = sum_delta (submit_delta smsc) calls
}.

Lemma default_Add {K} `{Countable K} (k k' : K) d (m : gmap K Z) :
  default 0%Z (Add k d m !! k') = (default 0%Z (m !! k') + if bool_decide (k = k') then d else 0)%Z.
Proof.
  unfold Add. case_bool_decide as Hk; [subst; by rewrite lookup_insert_eq|].
  rewrite lookup_insert_ne by done. lia.
Qed.

Lemma set_profile_sets smsc p calls :
  last_profile smsc calls = Some p -> existsb (sets_profile smsc p) calls = true.
Proof.
  induction calls as [|call calls IH]; simpl; [done|]. rewrite orb_true_iff.
  destruct (last_profile smsc calls) as [q|].
  - intros [= <-]. right. by apply IH.
  - destruct call as [| | | | |s q| | |]; try done. destruct (String.eqb_spec s smsc) as [->|]; [|done].
    intros [= ->]. left. simpl. by rewrite !String.eqb_refl.
Qed.

Lemma reads_as_scenario calls m smsc p :
  reads_as calls m -> reads_as (calls ++ [SetActiveScenario smsc p]) (setScenario smsc p m).
Proof.
  intros [H1 H2 H3 H4]. split.
  - intros s. rewrite last_profile_snoc. unfold setScenario. cbn [scenario set_scenario].
    destruct (String.eqb_spec smsc s) as [->|Hne]; [by rewrite lookup_insert_eq|].
    rewrite lookup_insert_ne by done. cbn [scenario set_activeScenario].
    destruct (scenario m !! smsc) as [prev|]; [|apply H1]. destruct (String.eqb prev p); apply H1.
  - intros s q. rewrite last_profile_snoc, existsb_app. cbn [existsb sets_profile]. rewrite orb_false_r.
    unfold setScenario. cbn [activeScenario set_scenario set_activeScenario].
    destruct (String.eqb_spec smsc s) as [->|Hne]; cbn [andb].
    2: { rewrite orb_false_r, lookup_insert_ne by congruence. rewrite <- H2.
         destruct (scenario m !! smsc) as [prev|]; [|done]. destruct (String.eqb prev p); [done|].
         cbn [activeScenario set_activeScenario]. by rewrite lookup_insert_ne by congruence. }
    destruct (String.eqb_spec p q) as [->|Hpq].
    { by rewrite orb_true_r, lookup_insert_eq, bool_decide_true. }
    rewrite orb_false_r, (bool_decide_false (Some p = Some q)) by congruence.
    rewrite lookup_insert_ne by congruence. rewrite H1.
    assert (activeScenario m !! (s, q) =
      if existsb (sets_profile s q) calls
      then Some (if bool_decide (last_profile s calls = Some q) then 1%Z else 0%Z) else None) as Hq by apply H2.
    destruct (last_profile s calls) as [prev|] eqn:Hl; [|by rewrite Hq, bool_decide_false].
    destruct (String.eqb_spec prev p) as [->|Hpp].
    { by rewrite Hq, bool_decide_false by congruence. }
    cbn [activeScenario set_activeScenario]. destruct (decide (prev = q)) as [->|Hpq'].
    + by rewrite lookup_insert_eq, (set_profile_sets _ _ _ Hl).
    + by rewrite lookup_insert_ne, Hq, bool_decide_false by congruence.
  - intros s b. rewrite sum_delta_snoc, <- H3. unfold setScenario. simpl.
    destruct (scenario m !! smsc) as [prev|]; [destruct (String.eqb prev p)|]; simpl; lia.
  - intros s. rewrite sum_delta_snoc, <- H4. unfold setScenario. simpl.
    destruct (scenario m !! smsc) as [prev|]; [destruct (String.eqb prev p)|]; simpl; lia.
Qed.

Lemma record_reads_as calls m call : reads_as calls m -> reads_as (calls ++ [call]) (record call m).
Proof.
  intros Hr. destruct call as [smsc b|smsc b|smsc| | |smsc p| | |]; [| | | | |by apply reads_as_scenario|..].
  all: destruct Hr as [H1 H2 H3 H4]; split; intros; rewrite ?last_profile_snoc, ?existsb_app, ?sum_delta_snoc;
    cbn [existsb sets_profile]; rewrite ?orb_false_r; try done;
    cbn [record activeBinds submitReceived set_activeBinds set_submitReceived set_submitOutcome set_servedLatency
         set_sessionClosed set_outboundDepth set_outboundDrop bind_delta submit_delta];
    rewrite ?default_Add, ?H3, ?H4; try (f_equal; lia).
  all: f_equal; repeat match goal with |- context [String.eqb ?a ?b] => destruct (String.eqb_spec a b) end;
    repeat case_bool_decide; simplify_eq; done.
Qed.

Lemma record_all_reads_as calls : reads_as calls (record_all calls unused).
Proof.
  induction calls as [|call calls IH] using rev_ind; [by split|].
  unfold record_all in *. rewrite foldl_app. by apply record_reads_as.
Qed.

(** Exactly one active-scenario series of a virtual SMSC reads 1.  After any
    sequence of calls, from any number of goroutines, the series of the profile
    last set reads 1 and every other series of that SMSC that exists reads 0; the
    active-binds gauge reads the binds less the teardowns counted on it, and the
    submit counter the submits. *)
Theorem one_active_scenario calls smsc p :
  last_profile smsc calls = Some p ->
  let m := record_all calls unused in
  activeScenario m !! (smsc, p) = Some 1 /\
  (forall q v, q <> p -> activeScenario m !! (smsc, q) = Some v -> v = 0) /\
  (forall b, default 0 (activeBinds m !! (smsc, b)) = sum_delta (bind_delta smsc b) calls) /\
  default 0 (submitReceived m !! smsc) = sum_delta (submit_delta smsc) calls.
Proof.
  intros Hl m. destruct (record_all_reads_as calls) as [_ H2 H3 H4]. fold m in H2, H3, H4.
  split; [by rewrite H2, (set_profile_sets _ _ _ Hl), bool_decide_true|]. split; [|done].
  intros q v Hq. rewrite H2, Hl. destruct (existsb _ _); [|done].
  rewrite bool_decide_false by congruence. by intros [= <-].
Qed.

Lemma one_active_scenario_witness :
  let calls := [SetActiveScenario "a" "healthy"; IncBind "a" "receiver"; SetActiveScenario "b" "healthy";
                SetActiveScenario "a" "slow_carrier"; IncBind "a" "receiver"; DecBind "a" "receiver"] in
  let m := record_all calls unused in
  activeScenario m !! ("a", "slow_carrier") = Some 1 /\ activeScenario m !! ("a", "healthy") = Some 0 /\
  default 0 (activeBinds m !! ("a", "receiver")) = 1.
Proof.
  intros calls m. destruct (one_active_scenario calls "a" "slow_carrier" eq_refl) as (H1 & _ & H3 & _).
  split; [exact H1|]. split; [vm_compute; reflexivity|]. rewrite H3. reflexivity.
Defined.

(** At boot a transition target has no series at all. *)
Lemma boot_target_series cfg p :
  p <> SC_Profile (VS_Scenario cfg) ->
  activeScenario (record (newVirtualSMSC cfg).2 unused) !! (VS_Name cfg, p) = None.
Proof.
  intros Hp. unfold newVirtualSMSC, record, setScenario, unused. cbn [snd scenario].
  rewrite lookup_empty. cbn [activeScenario set_scenario set_activeScenario].
  by rewrite lookup_insert_ne, lookup_empty by congruence.
Qed.
