(* ===== verification/TLSCert.v ===== *)
(** * TLS material of a listener ([internal/tlscert/tlscert.go])

    The certificate a virtual SMSC serves: the configured PEM pair, or one signed
    by itself at boot.  [crypto/*] is a record of operations over the state of
    [rand.Reader]; the template they are given is the source's. *)

From S2P Require Import Prelude.
From S2P Require Import Config.

#[local] Open Scope string_scope.

(** ** The certificate template *)

(** [time.Time] and [time.Duration] in nanoseconds. *)
Definition Hour : Z := 3600 * 1000000000.
Definition certValidity : Z := 365 * 24 * Hour.
Definition serialBits : Z := 128.

Definition KeyUsageDigitalSignature : Z := Z.shiftl 1 0.
Definition KeyUsageCertSign : Z := Z.shiftl 1 5.
Definition ExtKeyUsageServerAuth : Z := 1.

(** [net.IPv4(127, 0, 0, 1)] in its sixteen-byte form, and [net.IPv6loopback]. *)
Definition IPv4_loopback : list Z := replicate 10 0 ++ [255; 255; 127; 0; 0; 1]%Z.
Definition IPv6loopback : list Z := replicate 15 0 ++ [1]%Z.

Record x509_template := mkTemplate {
  SerialNumber : Z;
  CommonName : string;
  NotBefore : Z;
  NotAfter : Z;
  KeyUsage : Z;
  ExtKeyUsage : list Z;
  BasicConstraintsValid : bool;
  IsCA : bool;
  DNSNames : list string;
  IPAddresses : list (list Z)
}.

Inductive tls_error := GenerateKeyError | SerialError | CreateError | ParseError | LoadPairError.

(** ** The operations of [crypto/*] the code calls *)

Record Certificate (key der leaf : Type) := mkCertificate {
  Cert_DER : list der;
  Cert_PrivateKey : key;
  Cert_Leaf : option leaf
}.
Arguments mkCertificate {key der leaf}. Arguments Cert_DER {key der leaf}.
Arguments Cert_PrivateKey {key der leaf}. Arguments Cert_Leaf {key der leaf}.

Record crypto (entropy key der leaf : Type) := mkCrypto {
  GenerateKey : entropy -> option key * entropy;
  rand_Int : Z -> entropy -> option Z * entropy;
  CreateCertificate : x509_template -> key -> entropy -> option der * entropy;
  ParseCertificate : der -> option leaf;
  LoadX509KeyPair : string -> string -> option (Certificate key der leaf)
}.
Arguments mkCrypto {entropy key der leaf}. Arguments GenerateKey {entropy key der leaf}.
Arguments rand_Int {entropy key der leaf}. Arguments CreateCertificate {entropy key der leaf}.
Arguments ParseCertificate {entropy key der leaf}. Arguments LoadX509KeyPair {entropy key der leaf}.

Section TLSCert.
Context {entropy key der leaf : Type} (lib : crypto entropy key der leaf).
Implicit Types (rnd : entropy).

Definition template (now serial : Z) : x509_template :=
  mkTemplate serial "go-smsc-simulator self-signed" (now + -1 * Hour) (now + certValidity)
    (Z.lor KeyUsageDigitalSignature KeyUsageCertSign) [ExtKeyUsageServerAuth] true true
    ["localhost"] [IPv4_loopback; IPv6loopback].

(** [now] is [time.Now()], read once. *)
Definition SelfSigned (now : Z) rnd : outcome tls_error (Certificate key der leaf) * entropy :=
  match GenerateKey lib rnd with
  | (None, rnd) => (Err GenerateKeyError, rnd)
  | (Some k, rnd) =>
      match rand_Int lib (Z.shiftl 1 serialBits) rnd with
      | (None, rnd) => (Err SerialError, rnd)
      | (Some serial, rnd) =>
          match CreateCertificate lib (template now serial) k rnd with
          | (None, rnd) => (Err CreateError, rnd)
          | (Some d, rnd) =>
              match ParseCertificate lib d with
              | None => (Err ParseError, rnd)
              | Some l => (Ok (mkCertificate [d] k (Some l)), rnd)
              end
          end
      end
  end.

Definition LoadOrGenerate (now : Z) (cfg : TLSConfig) rnd
  : outcome tls_error (Certificate key der leaf) * entropy :=
  if negb (String.eqb (TLS_CertFile cfg) "") then
    match LoadX509KeyPair lib (TLS_CertFile cfg) (TLS_KeyFile cfg) with
    | None => (Err LoadPairError, rnd)
    | Some cert => (Ok cert, rnd)
    end
  else SelfSigned now rnd.

(** A self-signed certificate carries its parsed leaf, a single DER block made
    from the template with a serial below [2 ^ serialBits], and the key it was
    signed with. *)
Record self_signed (now : Z) (cert : Certificate key der leaf) : Prop := {
  ss_key : exists rnd, (GenerateKey lib rnd).1 = Some (Cert_PrivateKey cert);
  ss_der : exists d serial rnd, Cert_DER cert = [d] /\
    (CreateCertificate lib (template now serial) (Cert_PrivateKey cert) rnd).1 = Some d /\
    (exists rnd, (rand_Int lib (2 ^ 128) rnd).1 = Some serial) /\
    Cert_Leaf cert = ParseCertificate lib d /\ is_Some (Cert_Leaf cert)
}.

Lemma SelfSigned_ok now rnd cert :
  (SelfSigned now rnd).1 = Ok cert -> self_signed now cert.
Proof.
  unfold SelfSigned. destruct (GenerateKey lib rnd) as [[k|] rnd1] eqn:Hk; [|done].
  destruct (rand_Int lib _ rnd1) as [[serial|] rnd2] eqn:Hs; [|done].
  destruct (CreateCertificate lib _ k rnd2) as [[d|] rnd3] eqn:Hd; [|done].
  destruct (ParseCertificate lib d) as [l|] eqn:Hl; [|done]. intros [= <-]. split; simpl.
  - exists rnd. by rewrite Hk.
  - exists d, serial, rnd2. rewrite Hd, Hl. split_and!; try done.
    exists rnd1. change (2 ^ 128)%Z with (Z.shiftl 1 serialBits). by rewrite Hs.
Qed.

(** Where the certificate of a listener comes from. *)
Definition cert_source (now : Z) (cfg : TLSConfig) (cert : Certificate key der leaf) : Prop :=
  if String.eqb (TLS_CertFile cfg) "" then self_signed now cert
  else LoadX509KeyPair lib (TLS_CertFile cfg) (TLS_KeyFile cfg) = Some cert.

Lemma LoadOrGenerate_ok now cfg rnd cert :
  (LoadOrGenerate now cfg rnd).1 = Ok cert -> cert_source now cfg cert.
Proof.
  unfold LoadOrGenerate, cert_source. destruct (String.eqb _ _); simpl; [apply SelfSigned_ok|].
  destruct (LoadX509KeyPair lib _ _); [by intros [= ->]|done].
Qed.

Lemma LoadOrGenerate_no_panic now cfg rnd : no_panic (LoadOrGenerate now cfg rnd).1.
Proof.
  unfold LoadOrGenerate, SelfSigned.
  repeat match goal with
  | |- context [if ?b then _ else _] => destruct b
  | |- context [match ?o with (_, _) => _ end] => destruct o as [[?|] ?]
  | |- context [match ?o with Some _ => _ | None => _ end] => destruct o
  end; done.
Qed.

End TLSCert.
