(* ===== verification/Boot.v ===== *)
(** * Booting the process
      ([internal/config/config.go], [New] of [internal/smsc/engine.go],
      [NewServer] of [internal/observability/server.go], [run] of
      [cmd/smsc-simulator/main.go] up to its [select])

    Boot is a computation over the host: the ports this process listens on, the
    log of its socket operations, the metric calls made so far and the state of
    [rand.Reader].  An error keeps the host it leaves behind, so that a listener
    left open by a failed boot would show. *)

From S2P Require Import Prelude.
From S2P Require Import Rng.
From S2P Require Import Config.
From S2P Require Import Validate.
From S2P Require Import ValidateThms.
From S2P Require Import Scenario.
From S2P Require Import VirtualSMSC.
From S2P Require Import Metrics.
From S2P Require Import TLSCert.

(** ** The host *)

Inductive sock_op := OpListen (port : Z) | OpClose (addr : Z).

Record host (entropy : Type) := mkHost {
  h_open : gset Z;            (* the ports this process listens on *)
  h_log : list sock_op;
  h_calls : list metric;
  h_rand : entropy
}.
Arguments mkHost {entropy}. Arguments h_open {entropy}. Arguments h_log {entropy}.
Arguments h_calls {entropy}. Arguments h_rand {entropy}.

Inductive boot_error :=
| ErrNoConfigPath
| OpenConfigError
| ParseConfigError
| ErrMultipleDocuments
| ValidateError (errs : list cfg_error)
| TLSError (name : string) (e : tls_error)
| ListenError (port : Z) (name : string)
| ObservabilityListenError (port : Z).

(** What [yaml.Decoder.Decode] reports. *)
Inductive decoded (A : Type) := Document (a : A) | EndOfInput | Malformed.
Arguments Document {A}. Arguments EndOfInput {A}. Arguments Malformed {A}.

(** [os.Open] and the decoder of [gopkg.in/yaml.v3]. *)
Record yaml_lib (file decoder : Type) := mkYaml {
  os_Open : string -> option file;
  NewDecoder : file -> decoder;
  KnownFields : bool -> decoder -> decoder;
  Decode : decoder -> decoded Config * decoder;
  DecodeNode : decoder -> decoded unit * decoder
}.
Arguments os_Open {file decoder}. Arguments NewDecoder {file decoder}. Arguments KnownFields {file decoder}.
Arguments Decode {file decoder}. Arguments DecodeNode {file decoder}. Arguments mkYaml {file decoder}.

(** What the process runs on: the parts of the world boot reads. *)
Record platform (entropy key der leaf file decoder : Type) := mkPlatform {
  p_crypto : crypto entropy key der leaf;
  p_yaml : yaml_lib file decoder;
  p_regexp : string -> bool;            (* regexp.Compile succeeds *)
  p_stat : string -> bool;              (* os.Stat succeeds *)
  p_refused : Z -> bool;                (* ports held by others or not permitted *)
  p_ephemeral : gset Z -> option Z;     (* the port the OS picks for port 0 *)
  p_now : Z
}.
Arguments mkPlatform {entropy key der leaf file decoder}.
Arguments p_crypto {entropy key der leaf file decoder}. Arguments p_yaml {entropy key der leaf file decoder}.
Arguments p_regexp {entropy key der leaf file decoder}. Arguments p_stat {entropy key der leaf file decoder}.
Arguments p_refused {entropy key der leaf file decoder}. Arguments p_ephemeral {entropy key der leaf file decoder}.
Arguments p_now {entropy key der leaf file decoder}.

(** A hosted SMSC with the address of its listener and the certificate that
    listener is wrapped with. *)
Record hosted (cert : Type) := mkHosted {
  ho_smsc : virtualSMSC;
  ho_addr : Z;
  ho_cert : option cert
}.
Arguments mkHosted {cert}. Arguments ho_smsc {cert}. Arguments ho_addr {cert}. Arguments ho_cert {cert}.

(** [byName] holds pointers into [smscs]: here, their positions. *)
Record engine (cert : Type) := mkEngine {
  e_smscs : list (hosted cert);
  e_byName : gmap string nat;
  e_quit : bool;
  e_serving : bool
}.
Arguments mkEngine {cert}. Arguments e_smscs {cert}. Arguments e_byName {cert}.
Arguments e_quit {cert}. Arguments e_serving {cert}.

(** The HTTP surface; the inspection and metrics routes need their sources. *)
Record server := mkServer { srv_addr : Z; srv_insp : bool; srv_reg : bool }.

Section Boot.
Context {entropy key der leaf file decoder : Type}.
Context (pf : platform entropy key der leaf file decoder).
Abbreviation cert := (Certificate key der leaf).
Implicit Types (h : host entropy) (e : engine cert).

(** ** A computation that may fail over the host *)

Definition M (A : Type) : Type := host entropy -> outcome boot_error A * host entropy.

Definition M_ret {A} (a : A) : M A := fun h => (Ok a, h).
Definition M_fail {A} (err : boot_error) : M A := fun h => (Err err, h).
Definition M_bind {A B} (m : M A) (f : A -> M B) : M B := fun h =>
  match m h with
  | (Ok a, h') => f a h'
  | (Err err, h') => (Err err, h')
  | (Panic, h') => (Panic, h')
  end.

#[local] Notation "'do' x <- m ; k" := (M_bind m (fun x => k))
  (at level 60, x strict pattern, m at next level, right associativity).

(** [net.Listen("tcp", ":port")]. *)
Definition Listen (port : Z) (err : boot_error) : M Z := fun h =>
  let h := mkHost (h_open h) (h_log h ++ [OpListen port]) (h_calls h) (h_rand h) in
  let opened addr := (Ok addr, mkHost ({[addr]} ∪ h_open h) (h_log h) (h_calls h) (h_rand h)) in
  if port =? 0 then match p_ephemeral pf (h_open h) with Some addr => opened addr | None => (Err err, h) end
  else if not_in 0 portMax port || p_refused pf port || bool_decide (port ∈ h_open h) then (Err err, h)
  else opened port.

Definition Close (addr : Z) : M unit := fun h =>
  (Ok tt, mkHost (h_open h ∖ {[addr]}) (h_log h ++ [OpClose addr]) (h_calls h) (h_rand h)).

Definition call (c : metric) : M unit := fun h =>
  (Ok tt, mkHost (h_open h) (h_log h) (h_calls h ++ [c]) (h_rand h)).

(** ** The configuration *)

Definition decode (f : file) : M Config :=
  let dec := KnownFields (p_yaml pf) true (NewDecoder (p_yaml pf) f) in
  match Decode (p_yaml pf) dec with
  | (EndOfInput, _) => M_ret (mkConfig None [])
  | (Malformed, _) => M_fail ParseConfigError
  | (Document cfg, dec) =>
      match DecodeNode (p_yaml pf) dec with
      | (EndOfInput, _) => M_ret cfg
      | _ => M_fail ErrMultipleDocuments
      end
  end.

Definition validated (cfg : Config) : M Config :=
  match validate (p_regexp pf) (p_stat pf) cfg with
  | [] => M_ret cfg
  | errs => M_fail (ValidateError errs)
  end.

Definition Load (path : string) : M Config :=
  if String.eqb path "" then M_fail ErrNoConfigPath
  else match os_Open (p_yaml pf) path with
  | None => M_fail OpenConfigError
  | Some f => do cfg <- decode f; validated cfg
  end.

(** ** The engine *)

Definition closeListener (ho : hosted cert) : M unit := Close (ho_addr ho).

Fixpoint close_all (hs : list (hosted cert)) : M unit :=
  match hs with
  | [] => M_ret tt
  | ho :: hs => do _ <- closeListener ho; close_all hs
  end.

Definition closeListeners e : M unit := close_all (e_smscs e).

Definition loadCert (cfg : VirtualSMSCConfig) : M cert := fun h =>
  match LoadOrGenerate (p_crypto pf) (p_now pf) (VS_TLS cfg) (h_rand h) with
  | (r, rnd) =>
      let h := mkHost (h_open h) (h_log h) (h_calls h) rnd in
      match r with Ok c => (Ok c, h) | Err te => (Err (TLSError (VS_Name cfg) te), h) | Panic => (Panic, h) end
  end.

Fixpoint load_certs (cfgs : list VirtualSMSCConfig) (certs : gmap string cert) : M (gmap string cert) :=
  match cfgs with
  | [] => M_ret certs
  | cfg :: cfgs =>
      if TLS_Enabled (VS_TLS cfg) then
        do c <- loadCert cfg; load_certs cfgs (<[VS_Name cfg := c]> certs)
      else load_certs cfgs certs
  end.

(** [e.smscs = append(e.smscs, v)] and [e.byName[cfg.Name] = v]. *)
Definition addSMSC (name : string) (ho : hosted cert) e : engine cert :=
  mkEngine (e_smscs e ++ [ho]) (<[name := length (e_smscs e)]> (e_byName e)) (e_quit e) (e_serving e).

Definition serves_cert (certs : gmap string cert) (cfg : VirtualSMSCConfig) : option cert :=
  if TLS_Enabled (VS_TLS cfg) then certs !! VS_Name cfg else None.

Fixpoint open_listeners (cfgs : list VirtualSMSCConfig) (certs : gmap string cert) e : M (engine cert) :=
  match cfgs with
  | [] => M_ret e
  | cfg :: cfgs => fun h =>
      match Listen (VS_Port cfg) (ListenError (VS_Port cfg) (VS_Name cfg)) h with
      | (Ok addr, h) =>
          let v := newVirtualSMSC cfg in
          (do _ <- call v.2;
           open_listeners cfgs certs
             (addSMSC (VS_Name cfg) (mkHosted v.1 addr (serves_cert certs cfg)) e)) h
      | (Err err, h) => (do _ <- closeListeners e; M_fail err) h
      | (Panic, h) => (Panic, h)
      end
  end.

Definition New (cfgs : list VirtualSMSCConfig) : M (engine cert) :=
  do certs <- load_certs cfgs ∅;
  open_listeners cfgs certs (mkEngine [] ∅ false false).

(** [Shutdown] of an engine whose [Serve] never ran, the one boot can call. *)
Definition shutdown_unserved e : M (engine cert) :=
  do _ <- closeListeners e;
  M_ret (mkEngine (e_smscs e) (e_byName e) true (e_serving e)).

(** ** The HTTP surface and the boot sequence *)

Definition NewServer (port : Z) (insp reg : bool) : M server :=
  do addr <- Listen port (ObservabilityListenError port);
  M_ret (mkServer addr insp reg).

Definition startObservability (cfg : Config) : M (option server) :=
  match CFG_Observability cfg with
  | None => M_ret None
  | Some o => do srv <- NewServer (OC_HTTPPort o) true true; M_ret (Some srv)
  end.

(** [metrics.New] on a registry of its own. *)
Definition newMetrics : M unit := fun h =>
  match Metrics.New NewRegistry with Ok _ => (Ok tt, h) | _ => (Panic, h) end.

Definition run_boot (configPath : string) : M (Config * engine cert * option server) :=
  do cfg <- Load configPath;
  do _ <- newMetrics;
  do e <- New (CFG_VirtualSMSCs cfg);
  fun h =>
    match startObservability cfg h with
    | (Ok srv, h) => (Ok (cfg, e, srv), h)
    | (Err err, h) => (do _ <- shutdown_unserved e; M_fail err) h
    | (Panic, h) => (Panic, h)
    end.

(** ** What each stage does to the host *)

(** Nothing but [rand.Reader] and what is read. *)
Record portless h h' : Prop := {
  pl_open : h_open h' = h_open h;
  pl_log : h_log h' = h_log h;
  pl_calls : h_calls h' = h_calls h
}.

#[local] Instance portless_preorder : PreOrder portless.
Proof. split; [by split|]. intros h1 h2 h3 [] []. split; congruence. Qed.

Lemma validated_host cfg h : (validated cfg h).2 = h.
Proof. unfold validated. by destruct (validate (p_regexp pf) (p_stat pf) cfg). Qed.

Lemma Load_host path h : (Load path h).2 = h.
Proof.
  unfold Load, M_bind, decode. destruct (String.eqb path ""); [done|].
  destruct (os_Open _ path) as [f|]; [|done].
  destruct (Decode _ _) as [[cfg| |] dec]; [|apply validated_host|done].
  destruct (DecodeNode _ dec) as [[| |] ?]; try done. apply validated_host.
Qed.

(** The configuration a path designates: the one document of its file, or the empty
    one when the file holds none. *)
Definition reads (path : string) (cfg : Config) : Prop :=
  path <> ""%string /\ exists f, os_Open (p_yaml pf) path = Some f /\
    let dec := KnownFields (p_yaml pf) true (NewDecoder (p_yaml pf) f) in
    (exists dec', Decode (p_yaml pf) dec = (EndOfInput, dec') /\ cfg = mkConfig None []) \/
    exists dec' dec'', Decode (p_yaml pf) dec = (Document cfg, dec') /\
      DecodeNode (p_yaml pf) dec' = (EndOfInput, dec'').

(** Why a configuration is not loaded. *)
Definition load_error (path : string) (err : boot_error) : Prop :=
  let opened f := path <> ""%string /\ os_Open (p_yaml pf) path = Some f in
  let first f := Decode (p_yaml pf) (KnownFields (p_yaml pf) true (NewDecoder (p_yaml pf) f)) in
  match err with
  | ErrNoConfigPath => path = ""%string
  | OpenConfigError => path <> ""%string /\ os_Open (p_yaml pf) path = None
  | ParseConfigError => exists f, opened f /\ (first f).1 = Malformed
  | ErrMultipleDocuments => exists f cfg, opened f /\ (first f).1 = Document cfg /\
      (DecodeNode (p_yaml pf) (first f).2).1 <> EndOfInput
  | ValidateError errs => exists cfg, reads path cfg /\ ~ config_ok (p_regexp pf) (p_stat pf) cfg /\
      errs = validate (p_regexp pf) (p_stat pf) cfg
  | _ => False
  end.

(** The Go types of the decoded fields: weights are unsigned words. *)
Definition decode_typed : Prop := forall dec cfg dec',
  Decode (p_yaml pf) dec = (Document cfg, dec') -> config_typed cfg.

Definition loads_ok (path : string) (r : outcome boot_error Config) : Prop :=
  match r with
  | Ok cfg => reads path cfg /\ config_ok (p_regexp pf) (p_stat pf) cfg
  | Err err => load_error path err
  | Panic => False
  end.

Lemma validated_ok path cfg h : config_typed cfg -> reads path cfg -> loads_ok path (validated cfg h).1.
Proof.
  intros Hcfg Hr. unfold validated. pose proof (validate_nil (p_regexp pf) (p_stat pf) cfg Hcfg) as Hv.
  destruct (validate (p_regexp pf) (p_stat pf) cfg) eqn:He; [by split; [|apply Hv]|]. exists cfg. split_and!; [done| |done].
  by intros Hok%Hv.
Qed.

Lemma Load_cases path h : decode_typed -> loads_ok path (Load path h).1.
Proof.
  intros Hty. unfold Load, M_bind, decode. destruct (String.eqb_spec path "") as [->|Hp]; [done|].
  destruct (os_Open _ path) as [f|] eqn:Hf; [|done].
  destruct (Decode _ _) as [[cfg| |] dec] eqn:Hd.
  - destruct (DecodeNode _ dec) as [r2 dec2] eqn:Hn.
    assert (r2 <> EndOfInput -> loads_ok path (Err ErrMultipleDocuments)) as Hmany.
    { intros Hr. exists f, cfg. rewrite Hd. simpl. by rewrite Hn. }
    destruct r2; [by apply Hmany| |by apply Hmany]. apply validated_ok; [by apply (Hty _ _ _ Hd)|].
    split; [done|]. exists f. split; [done|]. right. by exists dec, dec2.
  - apply validated_ok; [constructor|]. split; [done|]. exists f. split; [done|]. left. by exists dec.
  - exists f. by rewrite Hd.
Qed.

(** The certificate of an entry can be neither loaded nor generated. *)
Definition tls_fails (cfg : VirtualSMSCConfig) (te : tls_error) : Prop :=
  exists rnd, (LoadOrGenerate (p_crypto pf) (p_now pf) (VS_TLS cfg) rnd).1 = Err te.

Lemma loadCert_cases cfg h :
  match loadCert cfg h with
  | (Ok c, h') => portless h h' /\ cert_source (p_crypto pf) (p_now pf) (VS_TLS cfg) c
  | (Err err, h') => portless h h' /\ exists te, err = TLSError (VS_Name cfg) te /\ tls_fails cfg te
  | (Panic, _) => False
  end.
Proof.
  unfold loadCert. pose proof (LoadOrGenerate_ok (p_crypto pf) (p_now pf) (VS_TLS cfg) (h_rand h)) as Hok.
  pose proof (LoadOrGenerate_no_panic (p_crypto pf) (p_now pf) (VS_TLS cfg) (h_rand h)) as Hnp.
  destruct (LoadOrGenerate _ _ _ _) as [[c|te|] rnd] eqn:Hl; [| |done].
  2: { split; [done|]. exists te. split; [done|]. exists (h_rand h). by rewrite Hl. }
  split; [by split|]. by apply Hok.
Qed.

(** Every loaded certificate belongs to an SMSC of the list that enables TLS. *)
Definition certs_from (cfgs : list VirtualSMSCConfig) (certs : gmap string cert) : Prop :=
  forall name c, certs !! name = Some c -> exists cfg, cfg ∈ cfgs /\ VS_Name cfg = name /\
    TLS_Enabled (VS_TLS cfg) = true /\ cert_source (p_crypto pf) (p_now pf) (VS_TLS cfg) c.

Lemma certs_from_insert all certs cfg c :
  certs_from all certs -> cfg ∈ all -> TLS_Enabled (VS_TLS cfg) = true ->
  cert_source (p_crypto pf) (p_now pf) (VS_TLS cfg) c -> certs_from all (<[VS_Name cfg := c]> certs).
Proof.
  intros Hfrom Hin He Hsrc name c'. destruct (decide (VS_Name cfg = name)) as [<-|Hne].
  - rewrite lookup_insert_eq. intros [= <-]. by exists cfg.
  - rewrite lookup_insert_ne by done. apply Hfrom.
Qed.

Lemma load_certs_cases all cfgs certs h :
  (forall cfg, cfg ∈ cfgs -> cfg ∈ all) -> certs_from all certs ->
  match load_certs cfgs certs h with
  | (Ok certs', h') => portless h h' /\ certs_from all certs' /\ dom certs ⊆ dom certs' /\
      forall cfg, cfg ∈ cfgs -> TLS_Enabled (VS_TLS cfg) = true -> is_Some (certs' !! VS_Name cfg)
  | (Err err, h') => portless h h' /\ exists cfg te, cfg ∈ cfgs /\ TLS_Enabled (VS_TLS cfg) = true /\
      err = TLSError (VS_Name cfg) te /\ tls_fails cfg te
  | (Panic, _) => False
  end.
Proof.
  revert certs h. induction cfgs as [|cfg cfgs IH]; intros certs h Hin Hfrom; cbn [load_certs].
  { split_and!; [done|done|done|]. intros cfg Hcfg. by apply elem_of_nil in Hcfg. }
  assert (forall cfg', cfg' ∈ cfgs -> cfg' ∈ all) as Hin' by (intros; apply Hin; by right).
  destruct (TLS_Enabled (VS_TLS cfg)) eqn:Htls.
  - unfold M_bind. pose proof (loadCert_cases cfg h) as Hc.
    destruct (loadCert cfg h) as [[c|err|] h1]; [|destruct Hc as (? & te & -> & Ht); split; [done|]; exists cfg, te; split; [left|done]|done].
    destruct Hc as [Hp Hsrc].
    assert (certs_from all (<[VS_Name cfg := c]> certs)) as Hfrom'
      by (apply certs_from_insert; [done|apply Hin; left|done|done]).
    specialize (IH _ h1 Hin' Hfrom'). destruct (load_certs cfgs _ h1) as [[certs'|err|] h2]; [| |done].
    + destruct IH as (Hp' & Hf' & Hdom & Hall). rewrite dom_insert in Hdom.
      split_and!; [by transitivity h1|done|set_solver|].
      intros cfg' [->|Hcfg']%elem_of_cons He; [|by apply Hall]. apply elem_of_dom. set_solver.
    + destruct IH as [Hp' (cfg' & te & Hin2 & Herr)]. split; [by transitivity h1|]. exists cfg', te. split; [by right|done].
  - specialize (IH certs h Hin' Hfrom). destruct (load_certs cfgs certs h) as [[certs'|err|] h2]; [| |done].
    + destruct IH as (? & ? & ? & Hall). split_and!; try done.
      intros cfg' [->|Hcfg']%elem_of_cons He; [congruence|by apply Hall].
    + destruct IH as [Hp (cfg' & te & Hin2 & Herr)]. split; [done|]. exists cfg', te. split; [by right|done].
Qed.

(** ** Listeners *)

Definition addrs (hs : list (hosted cert)) : gset Z := list_to_set (ho_addr <$> hs).

Lemma addrs_app hs1 hs2 : addrs (hs1 ++ hs2) = addrs hs1 ∪ addrs hs2.
Proof. unfold addrs. by rewrite fmap_app, list_to_set_app_L. Qed.

Lemma close_all_run hs h :
  exists h', close_all hs h = (Ok tt, h') /\ h_open h' = h_open h ∖ addrs hs.
Proof.
  revert h. induction hs as [|ho hs IH]; intros h; cbn [close_all].
  { exists h. split; [done|]. unfold addrs. simpl. set_solver. }
  unfold M_bind, closeListener, Close. destruct (IH (mkHost (h_open h ∖ {[ho_addr ho]})
    (h_log h ++ [OpClose (ho_addr ho)]) (h_calls h) (h_rand h))) as (h' & -> & Hopen).
  exists h'. split; [done|]. rewrite Hopen. unfold addrs. simpl. set_solver.
Qed.

(** Why a [Listen] fails. *)
Definition unavailable (port : Z) (opened : gset Z) : Prop :=
  if port =? 0 then p_ephemeral pf opened = None
  else not_in 0 portMax port = true \/ p_refused pf port = true \/ port ∈ opened.

Lemma Listen_cases port err h :
  match Listen port err h with
  | (Ok addr, h') => h_open h' = {[addr]} ∪ h_open h /\ h_calls h' = h_calls h /\ (port <> 0 -> addr = port)
  | (Err err', h') => err' = err /\ h_open h' = h_open h /\ unavailable port (h_open h)
  | (Panic, _) => False
  end.
Proof.
  unfold Listen, unavailable. cbn [h_open h_log h_calls h_rand]. destruct (Z.eqb_spec port 0) as [->|Hne].
  - by destruct (p_ephemeral pf (h_open h)) as [addr|] eqn:He.
  - destruct (not_in 0 portMax port) eqn:H1; [by split_and!; [..|left]|].
    destruct (p_refused pf port) eqn:H2; [by split_and!; [..|right; left]|].
    case_bool_decide; simpl; [by split_and!; [..|right; right]|done].
Qed.

(** An SMSC hosted as configured. *)
Record hosts (certs : gmap string cert) (cfg : VirtualSMSCConfig) (ho : hosted cert) : Prop := {
  hs_smsc : ho_smsc ho = (newVirtualSMSC cfg).1;
  hs_addr : ho_addr ho = VS_Port cfg;
  hs_cert : ho_cert ho = serves_cert certs cfg
}.

Lemma hosts_addrs certs cfgs hs :
  Forall2 (hosts certs) cfgs hs -> addrs hs = list_to_set (VS_Port <$> cfgs).
Proof.
  unfold addrs. induction 1 as [|cfg ho cfgs hs [_ Ha _] _ IH]; [done|]. csimpl. by rewrite IH, Ha.
Qed.

(** [byName] as the insertions of [New] leave it: the last SMSC of that name. *)
Fixpoint index_names (n : nat) (names : list string) (m : gmap string nat) : gmap string nat :=
  match names with [] => m | name :: names => index_names (S n) names (<[name := n]> m) end.

Definition port_valid (cfg : VirtualSMSCConfig) : Prop := portMin <= VS_Port cfg <= portMax.

Lemma open_listeners_cases cfgs certs e h :
  h_open h = addrs (e_smscs e) -> Forall port_valid cfgs -> NoDup (VS_Port <$> cfgs) ->
  (forall p, p ∈ VS_Port <$> cfgs -> p ∉ addrs (e_smscs e)) ->
  match open_listeners cfgs certs e h with
  | (Ok e', h') =>
      h_open h' = addrs (e_smscs e') /\
      (exists hs, e_smscs e' = e_smscs e ++ hs /\ Forall2 (hosts certs) cfgs hs) /\
      e_byName e' = index_names (length (e_smscs e)) (VS_Name <$> cfgs) (e_byName e) /\
      h_calls h' = h_calls h ++ ((fun cfg => (newVirtualSMSC cfg).2) <$> cfgs)
  | (Err err, h') =>
      h_open h' = ∅ /\
      exists cfg, cfg ∈ cfgs /\ err = ListenError (VS_Port cfg) (VS_Name cfg) /\ p_refused pf (VS_Port cfg) = true
  | (Panic, _) => False
  end.
Proof.
  revert e h. induction cfgs as [|cfg cfgs IH]; intros e h Hopen Hv Hnd Hfree; cbn [open_listeners].
  { split_and!; [done|exists []; by rewrite app_nil_r|done|by rewrite app_nil_r]. }
  inversion_clear Hv as [|? ? Hp Hv']. rewrite fmap_cons in Hnd. apply NoDup_cons in Hnd as [Hnin Hnd].
  pose proof (Listen_cases (VS_Port cfg) (ListenError (VS_Port cfg) (VS_Name cfg)) h) as Hl.
  destruct (Listen _ _ h) as [[addr|err|] h1]; [| |done].
  - destruct Hl as (Ho & Hc & Ha). unfold port_valid, portMin in Hp. rewrite Ha in Ho |- * by lia.
    set (ho := mkHosted (newVirtualSMSC cfg).1 (VS_Port cfg) (serves_cert certs cfg)).
    unfold M_bind at 1, call. cbn [h_open h_log h_calls h_rand].
    specialize (IH (addSMSC (VS_Name cfg) ho e)
      (mkHost (h_open h1) (h_log h1) (h_calls h1 ++ [(newVirtualSMSC cfg).2]) (h_rand h1))).
    cbn [h_open h_calls addSMSC e_smscs e_byName] in IH. rewrite addrs_app, length_app in IH.
    assert (addrs [ho] = {[VS_Port cfg]}) as Haddr by (unfold addrs; simpl; set_solver).
    rewrite Haddr in IH.
    destruct (open_listeners cfgs certs _ _) as [[e'|err|] h2].
    + destruct IH as (Ho' & (hs & Hhs & Hall) & Hby & Hcalls); [set_solver|done|done|set_solver|].
      rewrite <- app_assoc in Hhs. split_and!; [done| | |].
      * exists (ho :: hs). split; [done|]. by constructor.
      * rewrite Hby. simpl. by rewrite Nat.add_1_r.
      * by rewrite Hcalls, Hc, fmap_cons, <- app_assoc.
    + destruct IH as (Ho' & cfg' & Hin & Herr); [set_solver|done|done|set_solver|].
      split; [done|]. exists cfg'. split; [by right|done].
    + apply IH; [set_solver|done|done|set_solver].
  - destruct Hl as (-> & Ho & Hu). unfold closeListeners, M_bind, M_fail.
    destruct (close_all_run (e_smscs e) h1) as (h2 & -> & Ho2). split; [rewrite Ho2, Ho, Hopen; set_solver|].
    exists cfg. split_and!; [left|done|]. unfold unavailable, port_valid, portMin in *.
    destruct (Z.eqb_spec (VS_Port cfg) 0); [lia|].
    destruct Hu as [Hu|[Hu|Hu]]; [|done|].
    + exfalso. assert (not_in 0 portMax (VS_Port cfg) = false); [apply not_in_false; lia|congruence].
    + exfalso. apply (Hfree (VS_Port cfg)); [by left|]. by rewrite <- Hopen.
Qed.

(** ** The whole boot *)

Definition srv_addrs (srv : option server) : gset Z :=
  match srv with Some s => {[srv_addr s]} | None => ∅ end.

(** What a successful boot leaves running. *)
Record booted (cfg : Config) e (srv : option server) h h' : Prop := {
  bt_config : config_ok (p_regexp pf) (p_stat pf) cfg;
  bt_hosts : exists certs, certs_from (CFG_VirtualSMSCs cfg) certs /\
    (forall vs, vs ∈ CFG_VirtualSMSCs cfg -> TLS_Enabled (VS_TLS vs) = true -> is_Some (certs !! VS_Name vs)) /\
    Forall2 (hosts certs) (CFG_VirtualSMSCs cfg) (e_smscs e);
  bt_byName : e_byName e = index_names 0 (VS_Name <$> CFG_VirtualSMSCs cfg) ∅;
  bt_open : h_open h' = list_to_set (VS_Port <$> CFG_VirtualSMSCs cfg) ∪ srv_addrs srv;
  bt_surface : match CFG_Observability cfg, srv with
    | None, None => True
    | Some o, Some s => srv_insp s = true /\ srv_reg s = true /\ (OC_HTTPPort o <> 0 -> srv_addr s = OC_HTTPPort o)
    | _, _ => False
    end;
  bt_calls : h_calls h' = h_calls h ++
    ((fun vs => SetActiveScenario (VS_Name vs) (SC_Profile (VS_Scenario vs))) <$> CFG_VirtualSMSCs cfg)
}.

(** Why an engine is not built from [cfg]. *)
Definition new_error (cfg : Config) (err : boot_error) h h' : Prop :=
  match err with
  | TLSError name te => h_log h' = h_log h /\ exists vs, vs ∈ CFG_VirtualSMSCs cfg /\
      TLS_Enabled (VS_TLS vs) = true /\ VS_Name vs = name /\ tls_fails vs te
  | ListenError port name => exists vs, vs ∈ CFG_VirtualSMSCs cfg /\ VS_Port vs = port /\ VS_Name vs = name /\
      p_refused pf port = true
  | _ => False
  end.

(** What a failed boot leaves, and its cause. *)
Definition boot_failed (path : string) (err : boot_error) h h' : Prop :=
  h_open h' = ∅ /\
  match err with
  | ListenError _ _ | TLSError _ _ => exists cfg, reads path cfg /\ config_ok (p_regexp pf) (p_stat pf) cfg /\
      new_error cfg err h h'
  | ObservabilityListenError port => exists cfg, reads path cfg /\ config_ok (p_regexp pf) (p_stat pf) cfg /\
      (OC_HTTPPort <$> CFG_Observability cfg) = Some port /\
      if port =? 0 then p_ephemeral pf (list_to_set (VS_Port <$> CFG_VirtualSMSCs cfg)) = None
      else p_refused pf port = true
  | _ => h_log h' = h_log h /\ load_error path err
  end.

Lemma New_cases cfg h :
  h_open h = ∅ -> config_ok (p_regexp pf) (p_stat pf) cfg ->
  match New (CFG_VirtualSMSCs cfg) h with
  | (Ok e, h') => booted (mkConfig None (CFG_VirtualSMSCs cfg)) e None h h' /\ h_open h' = addrs (e_smscs e)
  | (Err err, h') => h_open h' = ∅ /\ new_error cfg err h h'
  | (Panic, _) => False
  end.
Proof.
  intros Hopen [_ Hvs Hports]. apply NoDup_app in Hports as (_ & _ & Hnd). unfold New, M_bind.
  pose proof (load_certs_cases (CFG_VirtualSMSCs cfg) (CFG_VirtualSMSCs cfg) ∅ h) as Hc.
  destruct (load_certs _ ∅ h) as [[certs|err|] h1]; [|..].
  2: { destruct Hc as ([Ho Hl _] & vs & te & Hin & Hen & -> & Hte); [done|by intros ? ? ?|].
       split; [by rewrite Ho|]. split; [done|]. by exists vs. }
  2: { apply Hc; [done|by intros ? ? ?]. }
  destruct Hc as ([Ho Hl Hcalls] & Hfrom & _ & Hall); [done|by intros ? ? ?|].
  pose proof (open_listeners_cases (CFG_VirtualSMSCs cfg) certs (mkEngine [] ∅ false false) h1) as Hx.
  cbn [e_smscs e_byName length app] in Hx. specialize (Hx ltac:(by rewrite Ho)).
  specialize (Hx ltac:(eapply Forall_impl; [exact Hvs|by intros vs []]) Hnd).
  specialize (Hx ltac:(intros p _; unfold addrs; simpl; set_solver)).
  destruct (open_listeners _ certs _ h1) as [[e|err|] h2]; [| |done].
  - destruct Hx as (Ho2 & (hs & Hhs & Hf2) & Hby & Hcalls2).
    split; [|done]. split; cbn [CFG_VirtualSMSCs CFG_Observability]; try done.
    + exists certs. by rewrite Hhs.
    + rewrite Ho2, Hhs, (hosts_addrs _ _ _ Hf2). simpl. set_solver.
    + by rewrite Hcalls2, Hcalls.
  - destruct Hx as (Ho2 & vs & Hin & -> & Href). split; [done|]. by exists vs.
Qed.

Lemma newMetrics_ok h : newMetrics h = (Ok tt, h).
Proof.
  unfold newMetrics. pose proof New_once as Hn. destruct (Metrics.New NewRegistry) as [[m reg]| |]; [done|by destruct Hn..].
Qed.

Lemma run_boot_cases path h :
  decode_typed -> h_open h = ∅ ->
  match run_boot path h with
  | (Ok (cfg, e, srv), h') => reads path cfg /\ booted cfg e srv h h'
  | (Err err, h') => boot_failed path err h h'
  | (Panic, _) => False
  end.
Proof.
  intros Hty Hopen. unfold run_boot. unfold M_bind at 1.
  pose proof (Load_cases path h Hty) as Hload. pose proof (Load_host path h) as Hh.
  destruct (Load path h) as [[cfg|err|] h1]; simpl in Hload, Hh; subst h1; [|by destruct err|done].
  destruct Hload as [Hreads Hload].
  unfold M_bind at 1. rewrite newMetrics_ok. unfold M_bind at 1.
  pose proof (New_cases cfg h Hopen Hload) as Hnew.
  destruct (New _ h) as [[e|err|] h1]; [| |done].
  2: { destruct Hnew as [Ho Herr]. split; [done|]. destruct err; try done; by exists cfg. }
  destruct Hnew as [[_ Hhosts Hby Ho _ Hcalls] Ha]. cbn [CFG_VirtualSMSCs srv_addrs] in *.
  unfold startObservability. destruct (CFG_Observability cfg) as [o|] eqn:Hobs; cycle 1.
  { split; [done|]. split; try done. by rewrite Hobs. }
  unfold NewServer, M_bind at 1. unfold M_bind at 1.
  pose proof (Listen_cases (OC_HTTPPort o) (ObservabilityListenError (OC_HTTPPort o)) h1) as Hl.
  destruct (Listen _ _ h1) as [[addr|err|] h2]; [| |done].
  - destruct Hl as (Ho2 & Hc2 & Haddr). split; [done|]. split; try done.
    + simpl. rewrite Ho2, Ho. set_solver.
    + by rewrite Hobs.
    + simpl. by rewrite Hc2.
  - destruct Hl as (-> & Ho2 & Hu). unfold shutdown_unserved, M_bind, closeListeners, M_ret, M_fail.
    destruct (close_all_run (e_smscs e) h2) as (h3 & -> & Ho3). split; [rewrite Ho3, Ho2, Ha; set_solver|].
    exists cfg. split_and!; [done|done|by rewrite Hobs|]. unfold unavailable in Hu.
    destruct (Z.eqb_spec (OC_HTTPPort o) 0); [rewrite <- Hu; f_equal; rewrite Ho; simpl; set_solver|].
    destruct Hload as [Hhttp _ Hports]. specialize (Hhttp o Hobs).
    destruct Hu as [Hu|[Hu|Hu]]; [|done|].
    + exfalso. apply not_in_false in Hhttp. congruence.
    + exfalso. unfold http_ports in Hports. rewrite Hobs in Hports.
      destruct (Z.ltb_spec 0 (OC_HTTPPort o)); [|lia]. apply NoDup_app in Hports as (_ & Hdis & _).
      apply (Hdis (OC_HTTPPort o)); [by left|]. rewrite Ho in Hu. set_solver.
Qed.

(** ** Looking SMSCs up by name *)

Lemma index_names_lookup names : forall n m x i,
  index_names n names m !! x = Some i <->
  (exists k, i = (n + k)%nat /\ names !! k = Some x /\ forall j, (k < j)%nat -> names !! j <> Some x) \/
  (x ∉ names /\ m !! x = Some i).
Proof.
  induction names as [|y names IH]; intros n m x i; cbn [index_names].
  { split; [intros Hx; right; split; [apply not_elem_of_nil|done]|].
    intros [(k & _ & Hk & _)|[_ ?]]; [by rewrite lookup_nil in Hk|done]. }
  rewrite IH. split.
  - intros [(k & -> & Hk & Hlast)|[Hnin Hx]].
    + left. exists (S k). split_and!; [lia|done|]. intros [|j] Hj; [lia|]. apply Hlast. lia.
    + destruct (decide (y = x)) as [->|Hne].
      * rewrite lookup_insert_eq in Hx. injection Hx as <-. left. exists 0%nat. split_and!; [lia|done|].
        intros [|j] Hj; [lia|]. intros Hx. apply Hnin. by eapply list_elem_of_lookup_2.
      * rewrite lookup_insert_ne in Hx by done. right. split; [|done]. by intros [?|?]%elem_of_cons.
  - intros [(k & -> & Hk & Hlast)|[Hnin Hx]].
    + destruct k as [|k].
      * injection Hk as ->. right. split.
        -- intros (j & Hj)%list_elem_of_lookup_1. by apply (Hlast (S j)); [lia|].
        -- rewrite lookup_insert_eq. f_equal. lia.
      * left. exists k. split_and!; [lia|done|]. intros j Hj. apply (Hlast (S j)). lia.
    + apply not_elem_of_cons in Hnin as [Hne Hnin]. right. by rewrite lookup_insert_ne by done.
Qed.

Lemma booted_lookup cfg e srv h h' i name :
  booted cfg e srv h h' ->
  e_byName e !! name = Some i <->
  (VS_Name <$> CFG_VirtualSMSCs cfg) !! i = Some name /\
  forall j, (i < j)%nat -> (VS_Name <$> CFG_VirtualSMSCs cfg) !! j <> Some name.
Proof.
  intros [_ _ -> _ _ _]. rewrite index_names_lookup. split.
  - intros [(k & -> & Hk & Hlast)|[_ Hx]]; [done|by rewrite lookup_empty in Hx].
  - intros [Hi Hlast]. left. by exists i.
Qed.

(** No later SMSC has the name of the [i]th. *)
Definition last_of_name (cfg : Config) (i : nat) (vs : VirtualSMSCConfig) : Prop :=
  CFG_VirtualSMSCs cfg !! i = Some vs /\
  forall j vs', CFG_VirtualSMSCs cfg !! j = Some vs' -> VS_Name vs' = VS_Name vs -> (j <= i)%nat.

Lemma distinct_last (cfg : Config) i vs :
  NoDup (VS_Name <$> CFG_VirtualSMSCs cfg) -> CFG_VirtualSMSCs cfg !! i = Some vs -> last_of_name cfg i vs.
Proof.
  intros Hnd Hi. split; [done|]. intros j vs' Hj Hn. assert (j = i) as ->; [|lia].
  apply (NoDup_lookup _ j i (VS_Name vs) Hnd); rewrite list_lookup_fmap; [by rewrite Hj, <- Hn|by rewrite Hi].
Qed.

(** The name of an SMSC finds the last one that has it. *)
Lemma booted_name cfg e srv h h' i vs :
  booted cfg e srv h h' -> CFG_VirtualSMSCs cfg !! i = Some vs ->
  e_byName e !! VS_Name vs = Some i <-> last_of_name cfg i vs.
Proof.
  intros Hb Hi. rewrite (booted_lookup _ _ _ _ _ _ _ Hb), list_lookup_fmap, Hi. split; intros [_ Hlast]; (split; [done|]).
  - intros j vs' Hj Hn. destruct (decide (j <= i)%nat) as [|Hlt]; [done|]. destruct (Hlast j ltac:(lia)).
    by rewrite list_lookup_fmap, Hj, <- Hn.
  - intros j Hj. rewrite list_lookup_fmap. intros (vs' & Hvs' & Hn)%fmap_Some. specialize (Hlast j vs' Hvs' (eq_sym Hn)). lia.
Qed.

End Boot.


(** A host whose file system holds one configuration; its key operations succeed
    and it refuses the ports [refused]. *)
Definition sample_platform (cfg : Config) (refused : Z -> bool) :
  platform Z unit x509_template x509_template unit (bool * bool) :=
  mkPlatform
    (mkCrypto (fun rnd => (Some tt, rnd + 1)) (fun n rnd => (Some (rnd mod n), rnd + 1))
       (fun t _ rnd => (Some t, rnd + 1)) Some (fun _ _ => None))
    (mkYaml (fun path => if String.eqb path "config.yml" then Some tt else None) (fun _ => (false, false))
       (fun known dec => (known, dec.2))
       (fun dec => (if dec.2 then EndOfInput else Document cfg, (dec.1, true)))
       (fun dec => (if dec.2 then EndOfInput else Document tt, dec)))
    (fun _ => true) (fun _ => true) refused
    (fun opened => if bool_decide (49152 ∈ opened) then None else Some 49152) 0.

Definition sample_host : host Z := mkHost ∅ [] [] 7.

Lemma sample_platform_typed cfg refused : config_typed cfg -> decode_typed (sample_platform cfg refused).
Proof. intros Hcfg dec cfg' dec' Hd. simpl in Hd. destruct dec.2; by simplify_eq. Qed.


(** Names are not checked for uniqueness: of two SMSCs with one name, the lookups
    of the surface find only the later one. *)
Definition same_name_config : Config := mkConfig None [sample_smsc "a" 2775; sample_smsc "a" 2776].

Lemma duplicate_name_hides :
  validate (fun _ => true) (fun _ => true) same_name_config = [] /\
  match (run_boot (sample_platform same_name_config (fun _ => false)) "config.yml" sample_host).1 with
  | Ok (_, e, _) => (ho_addr <$> e_smscs e) = [2775; 2776] /\ e_byName e !! "a"%string = Some 1%nat
  | _ => False
  end.
Proof. split; vm_compute; [reflexivity|]. split; reflexivity. Qed.
