(* ===== verification/Lifecycle.v ===== *)
(** * Serving and draining ([Serve], [Shutdown], [acceptLoop] of [internal/smsc/engine.go])

    The goroutines of the engine interleaved at their accesses to what they share:
    the listeners, the [quit] channel, the [serving] flag under [mu] and the wait
    group.  A session is the time its goroutine spends in [run] (or unwinding a
    panic) and then in [wg.Done]; that [run] ends once [quit] is closed is the
    subject of Wakeup and Teardown. *)

From S2P Require Import Prelude.
From S2P Require Import Rng.

(** ** Goroutines *)

(** [Serve]; [mu] is held from [SvAdd 0] to the step to [SvQuit]. *)
Inductive serve_pc :=
| SvBegin
| SvAdd (i : nat)      (* about to register accept loop [i], or to unlock *)
| SvGo (i : nat)       (* registered, about to start it *)
| SvQuit | SvWait | SvReturned.

(** A call of [Shutdown]. *)
Inductive call_pc :=
| ClClose (i : nat)    (* closeListeners, at listener [i] *)
| ClQuit | ClRead | ClWait
| ClNil                (* returned nil *)
| ClExpired.           (* returned the deadline's error *)

Inductive accept_pc :=
| LpIdle               (* not started *)
| LpAccept
| LpAdd                (* a connection accepted, [wg.Add] to come *)
| LpGo                 (* registered, about to start the session *)
| LpExit               (* returned, [wg.Done] to come *)
| LpDone.

Inductive sess_pc := SeRun | SeExit | SeDone.

Record lifecycle := mkLifecycle {
  lf_listening : list bool;
  lf_quit : bool;
  lf_serving : bool;
  lf_wg : Z;
  lf_serve : serve_pc;
  lf_loops : list accept_pc;
  lf_sessions : list sess_pc;
  lf_calls : list call_pc
}.

(** What the network, the clock and the sessions decide. *)
Inductive life_event :=
| DoServe
| DoLoop (i : nat) (conn : bool)     (* [Accept] returns a connection, or an error *)
| DoSession (k : nat)
| Shutdown                           (* a new call *)
| DoCall (k : nat)
| Expire (k : nat).                  (* its context's deadline passes *)

(** A [Wait] that has begun; a call that expired leaves the goroutine it started in
    its own. *)
Definition waiting (st : lifecycle) : bool :=
  match lf_serve st with SvWait => true | _ => false end ||
  existsb (fun c => match c with ClWait | ClExpired => true | _ => false end) (lf_calls st).

(** [wg.Add(d)] panics on a negative counter, and on an increment from zero while
    a [Wait] is in progress. *)
Definition wg_add (d : Z) (st : lifecycle) : may_panic Z :=
  let v := lf_wg st + d in
  if (v <? 0) || ((0 <? d) && (lf_wg st =? 0) && waiting st) then Panic else Ok v.

(** ** Steps; [Ok None] when the event is not possible *)

Definition mu_free (st : lifecycle) : bool :=
  match lf_serve st with SvAdd _ | SvGo _ => false | _ => true end.

Definition serve_exec (st : lifecycle) : may_panic (option lifecycle) :=
  let '(mkLifecycle ls quit serving wg sv loops ss calls) := st in
  match sv with
  | SvBegin => Ok (Some (mkLifecycle ls quit true wg (SvAdd 0) loops ss calls))
  | SvAdd i =>
      if (i <? length loops)%nat then
        let* wg := wg_add 1 st in Ok (Some (mkLifecycle ls quit serving wg (SvGo i) loops ss calls))
      else Ok (Some (mkLifecycle ls quit serving wg SvQuit loops ss calls))
  | SvGo i => Ok (Some (mkLifecycle ls quit serving wg (SvAdd (S i)) (<[i := LpAccept]> loops) ss calls))
  | SvQuit => Ok (if quit then Some (mkLifecycle ls quit serving wg SvWait loops ss calls) else None)
  | SvWait => Ok (if wg =? 0 then Some (mkLifecycle ls quit serving wg SvReturned loops ss calls) else None)
  | SvReturned => Ok None
  end.

Definition acceptLoop_exec (i : nat) (conn : bool) (st : lifecycle) : may_panic (option lifecycle) :=
  let '(mkLifecycle ls quit serving wg sv loops ss calls) := st in
  let at_pc lp := <[i := lp]> loops in
  match loops !! i with
  | Some LpAccept =>
      let open := default false (ls !! i) in
      Ok (Some (mkLifecycle ls quit serving wg sv (at_pc (if open && conn then LpAdd else LpExit)) ss calls))
  | Some LpAdd => let* wg := wg_add 1 st in Ok (Some (mkLifecycle ls quit serving wg sv (at_pc LpGo) ss calls))
  | Some LpGo => Ok (Some (mkLifecycle ls quit serving wg sv (at_pc LpAccept) (ss ++ [SeRun]) calls))
  | Some LpExit => let* wg := wg_add (-1) st in Ok (Some (mkLifecycle ls quit serving wg sv (at_pc LpDone) ss calls))
  | _ => Ok None
  end.

Definition session_exec (k : nat) (st : lifecycle) : may_panic (option lifecycle) :=
  let '(mkLifecycle ls quit serving wg sv loops ss calls) := st in
  match ss !! k with
  | Some SeRun => Ok (Some (mkLifecycle ls quit serving wg sv loops (<[k := SeExit]> ss) calls))
  | Some SeExit => let* wg := wg_add (-1) st in Ok (Some (mkLifecycle ls quit serving wg sv loops (<[k := SeDone]> ss) calls))
  | _ => Ok None
  end.

Definition call_exec (k : nat) (st : lifecycle) : option lifecycle :=
  let '(mkLifecycle ls quit serving wg sv loops ss calls) := st in
  let at_pc c := <[k := c]> calls in
  match calls !! k with
  | Some (ClClose i) =>
      Some (if (i <? length ls)%nat
            then mkLifecycle (<[i := false]> ls) quit serving wg sv loops ss (at_pc (ClClose (S i)))
            else mkLifecycle ls quit serving wg sv loops ss (at_pc ClQuit))
  | Some ClQuit => Some (mkLifecycle ls true serving wg sv loops ss (at_pc ClRead))
  | Some ClRead =>
      if mu_free st
      then Some (mkLifecycle ls quit serving wg sv loops ss (at_pc (if serving then ClWait else ClNil)))
      else None
  | Some ClWait => if wg =? 0 then Some (mkLifecycle ls quit serving wg sv loops ss (at_pc ClNil)) else None
  | _ => None
  end.

Definition life_exec (ev : life_event) (st : lifecycle) : may_panic (option lifecycle) :=
  match ev with
  | DoServe => serve_exec st
  | DoLoop i conn => acceptLoop_exec i conn st
  | DoSession k => session_exec k st
  | Shutdown =>
      let '(mkLifecycle ls quit serving wg sv loops ss calls) := st in
      Ok (Some (mkLifecycle ls quit serving wg sv loops ss (calls ++ [ClClose 0])))
  | DoCall k => Ok (call_exec k st)
  | Expire k =>
      let '(mkLifecycle ls quit serving wg sv loops ss calls) := st in
      Ok (match calls !! k with
          | Some ClWait => Some (mkLifecycle ls quit serving wg sv loops ss (<[k := ClExpired]> calls))
          | _ => None
          end)
  end.

Definition life_step (st st' : lifecycle) : Prop := exists ev, life_exec ev st = Ok (Some st').

(** The engine as [New] returns it, hosting [n] virtual SMSCs. *)
Definition new_engine (n : nat) : lifecycle :=
  mkLifecycle (replicate n true) false false 0 SvBegin (replicate n LpIdle) [] [].

(** ** The invariant *)

Definition loop_weight (l : accept_pc) : nat :=
  match l with LpIdle | LpDone => 0 | LpAccept | LpAdd | LpExit => 1 | LpGo => 2 end.
Definition sess_weight (s : sess_pc) : nat := match s with SeRun | SeExit => 1 | SeDone => 0 end.
Definition serve_weight (sv : serve_pc) : nat := match sv with SvGo _ => 1 | _ => 0 end.

(** The goroutines registered with the wait group. *)
Definition registered (st : lifecycle) : nat :=
  serve_weight (lf_serve st) + sum_list_with loop_weight (lf_loops st) + sum_list_with sess_weight (lf_sessions st).

(** Accept loop [i] has been started. *)
Definition started (sv : serve_pc) (i : nat) : bool :=
  match sv with SvBegin => false | SvAdd j | SvGo j => (i <? j)%nat | _ => true end.

(** Neither a session nor a connection on its way to one. *)
Definition deserted (st : lifecycle) : Prop :=
  Forall (eq SeDone) (lf_sessions st) /\
  Forall (fun l => l <> LpAdd /\ l <> LpGo) (lf_loops st).

Definition call_ok (st : lifecycle) (c : call_pc) : Prop :=
  match c with
  | ClClose i => forall j, (j < i)%nat -> default false (lf_listening st !! j) = false
  | ClQuit => Forall (eq false) (lf_listening st)
  | ClRead => lf_quit st = true
  | ClWait | ClExpired => lf_quit st = true /\ lf_serving st = true /\ mu_free st = true
  | ClNil => lf_quit st = true /\ deserted st
  end.

Record life_ok (st : lifecycle) : Prop := {
  lo_wg : lf_wg st = Z.of_nat (registered st);
  lo_size : length (lf_listening st) = length (lf_loops st);
  lo_serving : lf_serving st = match lf_serve st with SvBegin => false | _ => true end;
  lo_index : match lf_serve st with
    SvAdd i => (i <= length (lf_loops st))%nat | SvGo i => (i < length (lf_loops st))%nat | _ => True end;
  lo_started : forall i l, lf_loops st !! i = Some l -> started (lf_serve st) i = false <-> l = LpIdle;
  lo_begin : lf_serve st = SvBegin -> lf_sessions st = [];
  lo_quit : lf_quit st = true -> Forall (eq false) (lf_listening st);
  lo_wait : lf_serve st = SvWait -> lf_quit st = true;
  lo_returned : lf_serve st = SvReturned -> lf_quit st = true /\ deserted st;
  lo_calls : Forall (call_ok st) (lf_calls st)
}.

(** ** Preservation *)

Lemma closed_default ls i : Forall (eq false) ls -> default false (ls !! i) = false.
Proof.
  intros Hc. destruct (ls !! i) as [b|] eqn:Hi; [|done]. simpl. by rewrite <- (Forall_lookup_1 _ _ _ _ Hc Hi).
Qed.

Lemma wg_add_up st :
  lf_wg st = Z.of_nat (registered st) ->
  (waiting st = true -> (1 <= registered st)%nat) -> wg_add 1 st = Ok (lf_wg st + 1).
Proof.
  intros Hwg Hw. unfold wg_add. destruct (Z.ltb_spec (lf_wg st + 1) 0); [lia|]. simpl.
  destruct (waiting st); [|by rewrite andb_false_r]. specialize (Hw eq_refl).
  by destruct (Z.eqb_spec (lf_wg st) 0); [lia|].
Qed.

Lemma wg_add_down st :
  lf_wg st = Z.of_nat (registered st) -> (1 <= registered st)%nat -> wg_add (-1) st = Ok (lf_wg st - 1).
Proof.
  intros Hwg Hr. unfold wg_add. destruct (Z.ltb_spec (lf_wg st + -1) 0); [lia|]. done.
Qed.

(** A call whose wait group is at zero finds the engine deserted. *)
Lemma registered_zero st : registered st = 0%nat -> deserted st.
Proof.
  unfold registered. intros Hz.
  assert (sum_list_with loop_weight (lf_loops st) = 0%nat) as Hl by lia.
  assert (sum_list_with sess_weight (lf_sessions st) = 0%nat) as Hs by lia.
  apply sum_zero in Hl, Hs. split.
  - eapply Forall_impl; [exact Hs|]. by intros [].
  - eapply Forall_impl; [exact Hl|]. by intros [].
Qed.

Lemma idle_deserted st : lf_sessions st = [] -> Forall (eq LpIdle) (lf_loops st) -> deserted st.
Proof. intros Hs Hl. split; [by rewrite Hs|]. eapply Forall_impl; [exact Hl|]. by intros l <-. Qed.

Lemma begin_idle st : life_ok st -> lf_serve st = SvBegin -> deserted st.
Proof.
  intros Hok Hb. apply idle_deserted; [by apply (lo_begin st Hok)|]. apply Forall_lookup. intros i l Hl.
  symmetry. apply (lo_started st Hok i l Hl). by rewrite Hb.
Qed.

Lemma waiting_call st :
  Forall (call_ok st) (lf_calls st) -> mu_free st = false -> waiting st = false.
Proof.
  intros Hc Hm. apply not_true_iff_false. unfold waiting. rewrite orb_true_iff.
  intros [Hs|(c & Hin & Hw)%existsb_exists].
  - unfold mu_free in Hm. by destruct (lf_serve st).
  - apply list_elem_of_In in Hin. rewrite Forall_forall in Hc. specialize (Hc _ Hin).
    destruct c; try done; destruct Hc as (_ & _ & Hf); congruence.
Qed.

(** What one step keeps for the calls in progress. *)
Record keeps (st st' : lifecycle) : Prop := {
  ke_listening : forall j, default false (lf_listening st !! j) = false -> default false (lf_listening st' !! j) = false;
  ke_closed : Forall (eq false) (lf_listening st) -> Forall (eq false) (lf_listening st');
  ke_quit : lf_quit st = true -> lf_quit st' = true;
  ke_serving : lf_serving st = true -> mu_free st = true -> lf_serving st' = true /\ mu_free st' = true;
  ke_deserted : lf_quit st = true -> deserted st -> deserted st'
}.

Lemma call_keeps st st' c : keeps st st' -> call_ok st c -> call_ok st' c.
Proof. intros [] Hc. destruct c; simpl in *; naive_solver. Qed.

Lemma calls_keep st st' :
  keeps st st' -> Forall (call_ok st) (lf_calls st) -> Forall (call_ok st') (lf_calls st).
Proof. intros Hk Hc. eapply Forall_impl; [exact Hc|]. intros c. by apply call_keeps. Qed.

Lemma Forall_set {A} (P : A -> Prop) l i x : Forall P l -> P x -> Forall P (<[i := x]> l).
Proof. intros Hl Hx. by apply Forall_insert. Qed.

Definition ok_after (r : may_panic (option lifecycle)) : Prop :=
  match r with Ok (Some st') => life_ok st' | Ok None => True | _ => False end.

Lemma serve_exec_ok st : life_ok st -> ok_after (serve_exec st).
Proof.
  intros Hok. pose proof Hok as [Hwg Hsize Hserving Hindex Hstarted Hbegin Hquit Hwait Hret Hcalls].
  pose proof (waiting_call st Hcalls) as Hw. pose proof (wg_add_up st Hwg) as Hup.
  destruct st as [ls quit serving wg sv loops ss calls]. simpl in *.
  destruct sv as [|i|i| | |]; simpl.
  - split; try done; simpl in *; [lia|].
    apply (calls_keep (mkLifecycle ls quit serving wg SvBegin loops ss calls)); [|done].
    split; try done. simpl. congruence.
  - destruct (Nat.ltb_spec i (length loops)).
    + specialize (Hw eq_refl). rewrite Hup by (intros Hx; congruence). simpl.
      split; try done; simpl in *. unfold registered in *. simpl in *. lia.
    + split; try done; simpl in *.
      * intros j l Hl. rewrite <- (Hstarted j l Hl). apply lookup_lt_Some in Hl.
        destruct (Nat.ltb_spec j i); [done|lia].
      * apply (calls_keep (mkLifecycle ls quit serving wg (SvAdd i) loops ss calls)); [|done]. by split.
  - assert (loops !! i = Some LpIdle) as Hi.
    { destruct (lookup_lt_is_Some_2 loops i Hindex) as [l Hl]. rewrite Hl. f_equal.
      apply (Hstarted i l Hl). apply Nat.ltb_irrefl. }
    pose proof (sum_insert loop_weight loops i LpIdle LpAccept Hi) as Hsum. simpl in Hsum.
    split; try done; simpl in *.
    + unfold registered in *. simpl in *. lia.
    + by rewrite length_insert.
    + rewrite length_insert. lia.
    + intros j l Hl. destruct (decide (i = j)) as [<-|Hne].
      * rewrite list_lookup_insert_eq in Hl by done. injection Hl as <-.
        by replace (i <? S i)%nat with true by (symmetry; apply Nat.ltb_lt; lia).
      * rewrite list_lookup_insert_ne in Hl by done. rewrite <- (Hstarted j l Hl).
        destruct (Nat.ltb_spec j (S i)), (Nat.ltb_spec j i); done || lia.
    + apply (calls_keep (mkLifecycle ls quit serving wg (SvGo i) loops ss calls)); [|done]. split; try done.
      intros _ [Hs Hl]. split; [done|]. by apply Forall_set.
  - destruct quit; [|done]. by split.
  - destruct (Z.eqb_spec wg 0); [|done]. split; try done.
    intros _. split; [by apply Hwait|]. apply registered_zero. unfold registered in *. simpl in *. lia.
  - done.
Qed.

(** Replacing the state of one accept loop: what remains to be shown. *)
Lemma loop_update_ok ls quit serving wg sv loops ss calls i l l' wg' ss' :
  life_ok (mkLifecycle ls quit serving wg sv loops ss calls) ->
  loops !! i = Some l -> l <> LpIdle -> l' <> LpIdle ->
  wg' - wg = Z.of_nat (loop_weight l' + sum_list_with sess_weight ss') -
             Z.of_nat (loop_weight l + sum_list_with sess_weight ss) ->
  (sv = SvBegin -> ss' = []) ->
  (quit = true -> deserted (mkLifecycle ls quit serving wg sv loops ss calls) ->
   Forall (eq SeDone) ss' /\ l' <> LpAdd /\ l' <> LpGo) ->
  life_ok (mkLifecycle ls quit serving wg' sv (<[i := l']> loops) ss' calls).
Proof.
  intros [Hwg Hsize Hserving Hindex Hstarted Hbegin Hquit Hwait Hret Hcalls] Hi Hne Hne' Hw Hb Hd.
  pose proof (sum_insert loop_weight loops i l l' Hi) as Hsum.
  assert (quit = true -> deserted (mkLifecycle ls quit serving wg sv loops ss calls) ->
    deserted (mkLifecycle ls quit serving wg' sv (<[i := l']> loops) ss' calls)) as Hdes.
  { intros Hq Hdes. destruct (Hd Hq Hdes) as (H1 & H2 & H3). destruct Hdes. split; [done|].
    simpl. by apply Forall_set. }
  split; simpl in *; try done.
  - unfold registered in *. simpl in *. lia.
  - by rewrite length_insert.
  - by rewrite length_insert.
  - intros j lj Hj. destruct (decide (i = j)) as [<-|Hij].
    + rewrite list_lookup_insert_eq in Hj by (by eapply lookup_lt_Some). injection Hj as <-.
      rewrite (Hstarted i l Hi). done.
    + rewrite list_lookup_insert_ne in Hj by done. by apply Hstarted.
  - intros Hsv. destruct (Hret Hsv). auto.
  - apply (calls_keep (mkLifecycle ls quit serving wg sv loops ss calls)); [|done]. by split.
Qed.

(** A loop or a session holds a registration. *)
Lemma loop_registered st i l : lf_loops st !! i = Some l -> (loop_weight l <= registered st)%nat.
Proof. intros Hi. pose proof (sum_elem loop_weight _ _ _ Hi). unfold registered. lia. Qed.

Lemma sess_registered st k s : lf_sessions st !! k = Some s -> (sess_weight s <= registered st)%nat.
Proof. intros Hk. pose proof (sum_elem sess_weight _ _ _ Hk). unfold registered. lia. Qed.

Lemma deserted_loop st i l : deserted st -> lf_loops st !! i = Some l -> l <> LpAdd /\ l <> LpGo.
Proof. intros [_ Hl] Hi. by apply (Forall_lookup_1 _ _ _ _ Hl Hi). Qed.

Lemma acceptLoop_exec_ok i conn st : life_ok st -> ok_after (acceptLoop_exec i conn st).
Proof.
  intros Hok. pose proof (lo_wg st Hok) as Hwg. pose proof (wg_add_up st Hwg) as Hup.
  pose proof (wg_add_down st Hwg) as Hdown. pose proof (loop_registered st i) as Hreg.
  pose proof (lo_quit st Hok) as Hquit. pose proof (deserted_loop st i) as Hdl.
  pose proof (lo_begin st Hok) as Hbegin. pose proof (lo_started st Hok i) as Hst.
  destruct st as [ls quit serving wg sv loops ss calls]. cbn [lf_wg lf_loops lf_quit lf_listening lf_serve lf_sessions] in *.
  unfold acceptLoop_exec. destruct (loops !! i) as [l|] eqn:Hi; [|done].
  destruct l; try done; specialize (Hreg _ eq_refl); specialize (fun H => Hdl _ H eq_refl).
  - destruct (default false (ls !! i) && conn) eqn:Hopen; simpl;
      apply (loop_update_ok _ _ _ _ _ _ _ _ i LpAccept _ _ _ Hok Hi); try done; simpl; try lia.
    + intros Hq. rewrite (closed_default _ i (Hquit Hq)) in Hopen. done.
    + by intros _ [? _].
  - rewrite Hup by done. simpl. apply (loop_update_ok _ _ _ _ _ _ _ _ i LpAdd _ _ _ Hok Hi); try done; simpl; [lia|].
    intros _ Hd. by destruct (Hdl Hd).
  - simpl. apply (loop_update_ok _ _ _ _ _ _ _ _ i LpGo _ _ _ Hok Hi); try done; simpl.
    + rewrite sum_list_with_app. simpl. lia.
    + intros ->. exfalso. simpl in Hst. by pose proof (proj1 (Hst LpGo eq_refl) eq_refl).
    + intros _ Hd. by destruct (Hdl Hd).
  - rewrite Hdown by done. simpl. apply (loop_update_ok _ _ _ _ _ _ _ _ i LpExit _ _ _ Hok Hi); try done; simpl; [lia|].
    by intros _ [? _].
Qed.

Lemma session_exec_ok k st : life_ok st -> ok_after (session_exec k st).
Proof.
  intros Hok. pose proof (lo_wg st Hok) as Hwg. pose proof (wg_add_down st Hwg) as Hdown.
  pose proof (sess_registered st k) as Hreg. pose proof Hok as [_ Hsize Hserving Hindex Hstarted Hbegin Hquit Hwait Hret Hcalls].
  destruct st as [ls quit serving wg sv loops ss calls].
  cbn [lf_wg lf_loops lf_quit lf_listening lf_serve lf_sessions lf_serving lf_calls] in *.
  unfold session_exec. destruct (ss !! k) as [s|] eqn:Hk; [|done].
  assert (forall s' wg', wg' - wg = Z.of_nat (sess_weight s') - Z.of_nat (sess_weight s) ->
    (s = SeDone -> s' = SeDone) ->
    life_ok (mkLifecycle ls quit serving wg' sv loops (<[k := s']> ss) calls)) as Hset.
  { intros s' wg' Hd Hdone. pose proof (sum_insert sess_weight ss k s s' Hk) as Hsum.
    assert (deserted (mkLifecycle ls quit serving wg sv loops ss calls) ->
      deserted (mkLifecycle ls quit serving wg' sv loops (<[k := s']> ss) calls)) as Hdes.
    { intros [Hs Hl]. split; [|done]. simpl. apply Forall_set; [done|]. symmetry. apply Hdone.
      symmetry. by apply (Forall_lookup_1 _ _ _ _ Hs Hk). }
    split; simpl in *; try done.
    - unfold registered in *. simpl in *. lia.
    - intros Hb. by rewrite (Hbegin Hb) in Hk.
    - intros Hr. destruct (Hret Hr). auto.
    - apply (calls_keep (mkLifecycle ls quit serving wg sv loops ss calls)); [|done]. by split. }
  destruct s; [| |done].
  - apply Hset; [simpl; lia|done].
  - rewrite Hdown by exact (Hreg _ eq_refl). simpl. apply Hset; [simpl; lia|done].
Qed.

(** A call moves on: the state of the others is kept. *)
Lemma call_update_ok ls quit serving wg sv loops ss calls k c ls' quit' :
  life_ok (mkLifecycle ls quit serving wg sv loops ss calls) ->
  length ls' = length ls ->
  (forall j, default false (ls !! j) = false -> default false (ls' !! j) = false) ->
  (Forall (eq false) ls -> Forall (eq false) ls') ->
  (quit' = true -> Forall (eq false) ls') -> (quit = true -> quit' = true) ->
  call_ok (mkLifecycle ls' quit' serving wg sv loops ss calls) c ->
  life_ok (mkLifecycle ls' quit' serving wg sv loops ss (<[k := c]> calls)).
Proof.
  intros [Hwg Hsize Hserving Hindex Hstarted Hbegin Hquit Hwait Hret Hcalls] Hlen Hls Hcl Hq' Hqq Hc.
  split; simpl in *; try done.
  - congruence.
  - intros Hs. auto.
  - intros Hs. destruct (Hret Hs). auto.
  - apply Forall_set; [|by destruct c].
    apply (calls_keep (mkLifecycle ls quit serving wg sv loops ss calls)); [|done]. by split.
Qed.

Lemma call_exec_ok k st : life_ok st -> ok_after (Ok (call_exec k st)).
Proof.
  intros Hok. pose proof (begin_idle st Hok) as Hidle. pose proof (registered_zero st) as Hzero.
  pose proof Hok as [Hwg Hsize Hserving Hindex Hstarted Hbegin Hquit Hwait Hret Hcalls].
  destruct st as [ls quit serving wg sv loops ss calls].
  cbn [lf_wg lf_loops lf_quit lf_listening lf_serve lf_sessions lf_serving lf_calls] in *.
  unfold call_exec. cbn [ok_after]. destruct (calls !! k) as [c|] eqn:Hk; [|done].
  pose proof (Forall_lookup_1 _ _ _ _ Hcalls Hk) as Hc. simpl in Hc. destruct c as [i| | | | |]; try done; simpl in Hc.
  - destruct (Nat.ltb_spec i (length ls)).
    + apply (call_update_ok ls quit); try done.
      * by rewrite length_insert.
      * intros j Hj. destruct (decide (i = j)) as [<-|Hij]; [by rewrite list_lookup_insert_eq|].
        by rewrite list_lookup_insert_ne.
      * intros Hf. by apply Forall_set.
      * intros Hq. by apply Forall_set; [apply Hquit|].
      * intros j Hj. simpl. destruct (decide (i = j)) as [<-|Hij]; [by rewrite list_lookup_insert_eq|].
        rewrite list_lookup_insert_ne by done. apply Hc. lia.
    + apply (call_update_ok ls quit); try done. simpl. apply Forall_lookup. intros j b Hj.
      specialize (Hc j). rewrite Hj in Hc. symmetry. apply Hc. apply lookup_lt_Some in Hj. lia.
  - by apply (call_update_ok ls quit).
  - destruct (mu_free _) eqn:Hmu; [|done]. apply (call_update_ok ls quit); try done.
    destruct serving eqn:Hs; simpl; [done|]. split; [done|].
    destruct Hidle as [Hd1 Hd2]; [by destruct sv|]. by split.
  - destruct (Z.eqb_spec wg 0); [|done]. apply (call_update_ok ls quit); try done. simpl. split; [by apply Hc|].
    destruct Hzero; [lia|]. by split.
Qed.

Lemma life_exec_ok ev st : life_ok st -> ok_after (life_exec ev st).
Proof.
  intros Hok. destruct ev as [|i conn|k| |k|k]; simpl life_exec.
  - by apply serve_exec_ok.
  - by apply acceptLoop_exec_ok.
  - by apply session_exec_ok.
  - destruct Hok as [Hwg Hsize Hserving Hindex Hstarted Hbegin Hquit Hwait Hret Hcalls].
    destruct st as [ls quit serving wg sv loops ss calls]. simpl in *. split; try done; simpl in *.
    apply Forall_app. split; [|constructor; [simpl; intros; lia|by apply Forall_nil]].
    apply (calls_keep (mkLifecycle ls quit serving wg sv loops ss calls)); [|done]. by split.
  - by apply call_exec_ok.
  - pose proof (lo_calls st Hok) as Hcalls. pose proof (lo_quit st Hok) as Hquit.
    destruct st as [ls quit serving wg sv loops ss calls]. simpl in *.
    destruct (calls !! k) as [[]|] eqn:Hk; try done. apply (call_update_ok ls quit); try done.
    by apply (Forall_lookup_1 _ _ _ _ Hcalls Hk).
Qed.

Lemma new_engine_ok n : life_ok (new_engine n).
Proof.
  split; simpl; try done.
  - unfold registered. simpl. rewrite Nat.add_0_r. f_equal. symmetry.
    change 0%nat with (Z.to_nat 0). by induction n.
  - by rewrite !length_replicate.
  - intros i l Hl. apply lookup_replicate_1 in Hl as [-> _]. done.
Qed.

Lemma life_step_ok st st' : life_ok st -> life_step st st' -> life_ok st'.
Proof. intros Hok [ev Hx]. pose proof (life_exec_ok ev st Hok) as H. by rewrite Hx in H. Qed.

Lemma life_rtc_ok st st' : life_ok st -> rtc life_step st st' -> life_ok st'.
Proof. intros Hok Hr. revert Hok. induction Hr; [done|]. eauto using life_step_ok. Qed.

(** ** Progress of a drain *)

Definition accept_cost (l : accept_pc) : nat :=
  match l with LpDone => 0 | LpExit => 1 | LpAccept | LpIdle => 2 | LpGo => 5 | LpAdd => 6 end.
Definition sess_cost (s : sess_pc) : nat := match s with SeRun => 2 | SeExit => 1 | SeDone => 0 end.
Definition serve_cost (n : nat) (sv : serve_pc) : nat :=
  match sv with
  | SvBegin => 2 * n + 4 | SvAdd i => 2 * (n - i) + 3 | SvGo i => 2 * (n - i) + 2
  | SvQuit => 2 | SvWait => 1 | SvReturned => 0
  end.
Definition call_cost (n : nat) (c : call_pc) : nat :=
  match c with ClClose i => (n - i) + 4 | ClQuit => 3 | ClRead => 2 | ClWait => 1 | ClNil | ClExpired => 0 end.

Definition life_cost (st : lifecycle) : nat :=
  serve_cost (length (lf_loops st)) (lf_serve st) + sum_list_with accept_cost (lf_loops st) +
  sum_list_with sess_cost (lf_sessions st) + sum_list_with (call_cost (length (lf_listening st))) (lf_calls st).

(** Steps of the engine's own goroutines: everything but a new call of [Shutdown]. *)
Definition drain_step (st st' : lifecycle) : Prop :=
  exists ev, ev <> Shutdown /\ life_exec ev st = Ok (Some st').

Lemma drain_life st st' : drain_step st st' -> life_step st st'.
Proof. intros (ev & _ & Hx). by exists ev. Qed.

Ltac drain_done := unfold life_cost; cbn [lf_serve lf_loops lf_sessions lf_calls lf_listening lf_quit];
  cbn [serve_cost accept_cost sess_cost call_cost] in *; rewrite ?length_insert; split; [done|lia].

(** A call's own steps do not depend on the rest of the engine draining. *)
Lemma call_exec_cost k st st' :
  call_exec k st = Some st' ->
  (lf_quit st = true -> lf_quit st' = true) /\ (life_cost st' < life_cost st)%nat.
Proof.
  intros Hx. destruct st as [ls quit serving wg sv loops ss calls].
  unfold call_exec in Hx. destruct (calls !! k) as [c|] eqn:Hk; [|done].
  pose proof (fun y => sum_insert (call_cost (length ls)) calls k c y Hk) as Hsum.
  destruct c as [i| | | | |]; try done.
  - destruct (Nat.ltb_spec i (length ls)); simplify_eq; [specialize (Hsum (ClClose (S i)))|specialize (Hsum ClQuit)]; drain_done.
  - simplify_eq. specialize (Hsum ClRead). drain_done.
  - destruct (mu_free _); simplify_eq. destruct serving; [specialize (Hsum ClWait)|specialize (Hsum ClNil)]; drain_done.
  - destruct (wg =? 0); simplify_eq. specialize (Hsum ClNil). drain_done.
Qed.

Lemma drain_cost st st' :
  life_ok st -> lf_quit st = true -> drain_step st st' ->
  lf_quit st' = true /\ (life_cost st' < life_cost st)%nat.
Proof.
  intros Hok Hq (ev & Hev & Hx). pose proof (lo_quit st Hok Hq) as Hclosed.
  pose proof (lo_index st Hok) as Hindex. pose proof (lo_started st Hok) as Hst.
  destruct st as [ls quit serving wg sv loops ss calls]. cbn [lf_quit lf_listening lf_serve lf_loops] in *. subst quit.
  destruct ev as [|i conn|k| |k|k]; [| | |done| |]; cbn [life_exec] in Hx.
  - unfold serve_exec in Hx. destruct sv as [|i|i| | |].
    + simplify_eq. drain_done.
    + destruct (Nat.ltb_spec i (length loops)).
      * apply obind_Ok_inv in Hx as (wg' & _ & Hx). simplify_eq. drain_done.
      * simplify_eq. drain_done.
    + simplify_eq. destruct (lookup_lt_is_Some_2 loops i Hindex) as [l Hl].
      pose proof (sum_insert accept_cost loops i l LpAccept Hl) as Hsum.
      assert (l = LpIdle) as -> by (apply (Hst i l Hl), Nat.ltb_irrefl). drain_done.
    + simplify_eq. drain_done.
    + destruct (wg =? 0); simplify_eq. drain_done.
    + done.
  - unfold acceptLoop_exec in Hx. destruct (loops !! i) as [l|] eqn:Hl; [|done].
    pose proof (fun y => sum_insert accept_cost loops i l y Hl) as Hsum.
    destruct l; try done.
    + rewrite (closed_default _ i Hclosed) in Hx. simpl in Hx. simplify_eq. specialize (Hsum LpExit). drain_done.
    + apply obind_Ok_inv in Hx as (wg' & _ & Hx). simplify_eq. specialize (Hsum LpGo). drain_done.
    + simplify_eq. specialize (Hsum LpAccept).
      unfold life_cost; cbn [lf_serve lf_loops lf_sessions lf_calls lf_listening lf_quit].
      rewrite length_insert, sum_list_with_app. cbn [sum_list_with sess_cost accept_cost] in *. split; [done|lia].
    + apply obind_Ok_inv in Hx as (wg' & _ & Hx). simplify_eq. specialize (Hsum LpDone). drain_done.
  - unfold session_exec in Hx. destruct (ss !! k) as [s|] eqn:Hk; [|done].
    pose proof (fun y => sum_insert sess_cost ss k s y Hk) as Hsum. destruct s; [| |done].
    + simplify_eq. specialize (Hsum SeExit). drain_done.
    + apply obind_Ok_inv in Hx as (wg' & _ & Hx). simplify_eq. specialize (Hsum SeDone). drain_done.
  - by destruct (call_exec_cost k (mkLifecycle ls true serving wg sv loops ss calls) st'
      ltac:(by injection Hx)) as [Hq ?]; split; [apply Hq|].
  - destruct (calls !! k) as [c|] eqn:Hk; [|done]. destruct c; try done. simplify_eq.
    pose proof (sum_insert (call_cost (length ls)) calls k _ ClExpired Hk) as Hsum. drain_done.
Qed.

(** ** A drain that cannot move is over *)

Definition call_returned (c : call_pc) : Prop := c = ClNil \/ c = ClExpired.

Record drained (st : lifecycle) : Prop := {
  dr_serve : lf_serve st = SvReturned;
  dr_loops : Forall (eq LpDone) (lf_loops st);
  dr_sessions : Forall (eq SeDone) (lf_sessions st);
  dr_calls : Forall call_returned (lf_calls st);
  dr_wg : lf_wg st = 0
}.

(** The goroutines of the engine proper: [Serve], the accept loops and the sessions. *)
Definition own_event (ev : life_event) : bool :=
  match ev with DoServe | DoLoop _ _ | DoSession _ => true | _ => false end.

(** An engine none of whose own goroutines can move. *)
Record at_rest (st : lifecycle) : Prop := {
  ar_serve : lf_serve st = SvReturned;
  ar_loops : Forall (eq LpDone) (lf_loops st);
  ar_sessions : Forall (eq SeDone) (lf_sessions st);
  ar_wg : lf_wg st = 0
}.

Lemma own_loop_stuck st i conn l :
  life_ok st -> life_exec (DoLoop i conn) st = Ok None -> lf_loops st !! i = Some l -> l = LpDone \/ l = LpIdle.
Proof.
  intros Hok Hno Hl. destruct st. simpl in *. rewrite Hl in Hno. destruct l; auto; try done;
    apply obind_Ok_inv in Hno as (? & _ & ?); done.
Qed.

Lemma own_session_stuck st k s :
  life_exec (DoSession k) st = Ok None -> lf_sessions st !! k = Some s -> s = SeDone.
Proof.
  intros Hno Hk. destruct st. simpl in *. rewrite Hk in Hno.
  destruct s; try done. apply obind_Ok_inv in Hno as (? & _ & ?); done.
Qed.

Lemma own_serve_stuck st :
  lf_quit st = true -> life_exec DoServe st = Ok None ->
  mu_free st = true /\ lf_serve st <> SvBegin /\ (lf_wg st = 0 -> lf_serve st = SvReturned).
Proof.
  intros Hq Hno. destruct st as [ls quit serving wg sv loops ss calls]. simpl in *. subst quit.
  unfold mu_free. destruct sv as [|i|i| | |]; try done.
  - destruct (i <? length loops)%nat; [|done]. apply obind_Ok_inv in Hno as (? & _ & ?); done.
  - split_and!; try done. simpl. intros ->. done.
Qed.

Lemma own_stuck st :
  life_ok st -> lf_quit st = true ->
  (forall ev, own_event ev = true -> life_exec ev st = Ok None) -> at_rest st.
Proof.
  intros Hok Hq Hno. pose proof (lo_started st Hok) as Hst.
  destruct (own_serve_stuck st Hq (Hno DoServe eq_refl)) as (Hmu & Hb & Hret).
  assert (Forall (eq LpDone) (lf_loops st)) as Hdone.
  { apply Forall_lookup. intros i l Hl.
    destruct (own_loop_stuck st i true l Hok (Hno (DoLoop i true) eq_refl) Hl) as [->|Hidle]; [done|].
    apply (Hst i l Hl) in Hidle. unfold mu_free in Hmu. by destruct (lf_serve st). }
  assert (Forall (eq SeDone) (lf_sessions st)) as Hsdone.
  { apply Forall_lookup. intros k s Hk. symmetry. by apply (own_session_stuck st k s (Hno (DoSession k) eq_refl)). }
  assert (lf_wg st = 0) as Hzero.
  { rewrite (lo_wg st Hok). unfold registered.
    rewrite (proj2 (sum_zero loop_weight _)), (proj2 (sum_zero sess_weight _)).
    - unfold mu_free in Hmu. by destruct (lf_serve st).
    - eapply Forall_impl; [exact Hsdone|]. by intros ? <-.
    - eapply Forall_impl; [exact Hdone|]. by intros ? <-. }
  split; auto.
Qed.

(** At rest, a call can always move until it returns. *)
Lemma call_stuck st k c :
  at_rest st -> call_exec k st = None -> lf_calls st !! k = Some c -> call_returned c.
Proof.
  intros [Hs _ _ Hwg] Hno Hk. unfold call_returned. destruct st as [ls quit serving wg sv loops ss calls].
  simpl in *. rewrite Hk in Hno. subst wg sv. unfold mu_free in *. cbn [lf_serve] in *.
  by destruct c; auto.
Qed.

Lemma drain_stuck st :
  life_ok st -> lf_quit st = true -> (forall st', ~ drain_step st st') -> drained st.
Proof.
  intros Hok Hq Hstuck.
  assert (forall ev, ev <> Shutdown -> life_exec ev st = Ok None) as Hno.
  { intros ev Hev. pose proof (life_exec_ok ev st Hok) as H.
    destruct (life_exec ev st) as [[st'|]| |] eqn:Hx; try done. exfalso. apply (Hstuck st'). by exists ev. }
  destruct (own_stuck st Hok Hq) as [Hs Hl Hss Hwg]; [intros ev Hev; apply Hno; by intros ->|].
  split; try done. apply Forall_lookup. intros k c Hk. eapply call_stuck; [by split| |exact Hk].
  specialize (Hno (DoCall k) ltac:(done)). by injection Hno.
Qed.

(** The engine's own steps leave its listeners, its [quit] and the calls alone. *)
Lemma own_frame ev st st' :
  own_event ev = true -> life_exec ev st = Ok (Some st') ->
  lf_calls st' = lf_calls st /\ lf_quit st' = lf_quit st /\ lf_listening st' = lf_listening st /\
  (lf_serve st = SvReturned -> lf_serve st' = SvReturned).
Proof.
  intros Hev Hx. destruct st as [ls quit serving wg sv loops ss calls].
  destruct ev as [|i conn|k| | |]; try done; cbn [life_exec] in Hx.
  - unfold serve_exec in Hx. destruct sv as [|i|i| | |]; simplify_eq; try done.
    + destruct (i <? length loops)%nat; simplify_eq; [|done]. by apply obind_Ok_inv in Hx as (? & _ & [= <-]).
    + destruct quit; by simplify_eq.
    + destruct (wg =? 0); by simplify_eq.
  - unfold acceptLoop_exec in Hx. destruct (loops !! i) as [[]|]; simplify_eq; try done;
      by apply obind_Ok_inv in Hx as (? & _ & [= <-]).
  - unfold session_exec in Hx. destruct (ss !! k) as [[]|]; simplify_eq; try done;
      by apply obind_Ok_inv in Hx as (? & _ & [= <-]).
Qed.

(** Once the listeners are closed, a deserted engine stays so. *)
Lemma deserted_step st st' :
  life_ok st -> lf_quit st = true -> deserted st -> life_step st st' ->
  lf_quit st' = true /\ deserted st'.
Proof.
  intros Hok Hq [Hs Hl] [ev Hx]. pose proof (lo_quit st Hok Hq) as Hclosed.
  destruct st as [ls quit serving wg sv loops ss calls].
  cbn [lf_quit lf_listening lf_serve lf_loops lf_sessions] in *. subst quit.
  assert (forall i l, l <> LpAdd /\ l <> LpGo -> Forall (fun l => l <> LpAdd /\ l <> LpGo) (<[i := l]> loops)) as Hset
    by (intros; by apply Forall_set).
  destruct ev as [|i conn|k| |k|k]; cbn [life_exec] in Hx.
  - unfold serve_exec in Hx. destruct sv as [|i|i| | |]; simplify_eq; try by split; [|split].
    + destruct (i <? length loops)%nat; simplify_eq; [|by split; [|split]].
      apply obind_Ok_inv in Hx as (wg' & _ & Hx). simplify_eq. by split; [|split].
    + split; [done|]. split; [done|]. by apply Hset.
    + destruct (wg =? 0); simplify_eq. by split; [|split].
  - unfold acceptLoop_exec in Hx. destruct (loops !! i) as [l|] eqn:Hi; [|done].
    pose proof (Forall_lookup_1 _ _ _ _ Hl Hi) as [Ha Hg]. destruct l; try done.
    + rewrite (closed_default _ i Hclosed) in Hx. simpl in Hx. simplify_eq. split; [done|]. split; [done|]. by apply Hset.
    + apply obind_Ok_inv in Hx as (wg' & _ & Hx). simplify_eq. split; [done|]. split; [done|]. by apply Hset.
  - unfold session_exec in Hx. destruct (ss !! k) as [s|] eqn:Hk; [|done].
    pose proof (Forall_lookup_1 _ _ _ _ Hs Hk) as <-. done.
  - simplify_eq. by split; [|split].
  - unfold call_exec in Hx. destruct (calls !! k) as [[i| | | | |]|]; simplify_eq; try by split; [|split].
    + destruct (i <? length ls)%nat; simplify_eq; by split; [|split].
    + destruct (mu_free _); simplify_eq; by split; [|split].
    + destruct (wg =? 0); simplify_eq; by split; [|split].
  - destruct (calls !! k) as [[]|]; simplify_eq. by split; [|split].
Qed.

Lemma deserted_rtc st st' :
  life_ok st -> lf_quit st = true -> deserted st -> rtc life_step st st' -> deserted st'.
Proof.
  intros Hok Hq Hd Hr. revert Hok Hq Hd. induction Hr as [|st1 st2 st3 Hs _ IH]; [done|].
  intros Hok Hq Hd. destruct (deserted_step _ _ Hok Hq Hd Hs). apply IH; [by eapply life_step_ok|done..].
Qed.

(** What a returned [Serve] or a [Shutdown] that reports success promises. *)
Definition reports_drained (st : lifecycle) : Prop := lf_serve st = SvReturned \/ ClNil ∈ lf_calls st.

Lemma reports_deserted st : life_ok st -> reports_drained st -> lf_quit st = true /\ deserted st.
Proof.
  intros Hok [Hs|Hin]; [by apply (lo_returned st Hok)|].
  pose proof (lo_calls st Hok) as Hc. rewrite Forall_forall in Hc. apply (Hc _ Hin).
Qed.

(** C19: the wait group is used safely and a reported drain is real.  In every
    state the engine can reach, under any interleaving of [Serve], any number of
    [Shutdown] calls, the accept loops and the sessions, no [wg.Add] or [wg.Done]
    panics (the counter never goes negative, and is never raised from zero while a
    [Wait] is in progress); and once [Serve] has returned or a [Shutdown] has
    returned nil, even one that ran before [Serve], no session is running and none
    starts in any later state. *)
Theorem drain_safe n st :
  rtc life_step (new_engine n) st ->
  lf_wg st = Z.of_nat (registered st) /\
  (forall ev, life_exec ev st <> Panic) /\
  (reports_drained st -> forall st', rtc life_step st st' -> Forall (eq SeDone) (lf_sessions st')).
Proof.
  intros Hr. pose proof (life_rtc_ok _ _ (new_engine_ok n) Hr) as Hok. split_and!; [apply Hok| |].
  - intros ev Hx. pose proof (life_exec_ok ev st Hok) as H. by rewrite Hx in H.
  - intros Hrep st' Hr'. destruct (reports_deserted st Hok Hrep) as [Hq Hd].
    by destruct (deserted_rtc st st' Hok Hq Hd Hr').
Qed.

(** C20: a shutdown always drains.  Once [Shutdown] has closed the quit channel, the
    engine's goroutines take a bounded number of steps, and a state none of them
    can leave is fully drained: [Serve] and every [Shutdown] call have returned,
    every accept loop and every session is done and the wait group is at zero. *)
Theorem drain_completes n st :
  rtc life_step (new_engine n) st -> lf_quit st = true ->
  (forall m st', nsteps drain_step m st st' -> (m <= life_cost st)%nat) /\
  (forall st', rtc drain_step st st' -> (forall st'', ~ drain_step st' st'') -> drained st').
Proof.
  intros Hr Hq. pose proof (life_rtc_ok _ _ (new_engine_ok n) Hr) as Hok. clear Hr. split.
  - intros m st' Hn. revert Hok Hq. induction Hn as [|m st1 st2 st3 Hs _ IH]; [lia|]. intros Hok Hq.
    destruct (drain_cost _ _ Hok Hq Hs) as [Hq' Hlt].
    specialize (IH (life_step_ok _ _ Hok (drain_life _ _ Hs)) Hq'). lia.
  - intros st' Hr. revert Hok Hq. induction Hr as [|st1 st2 st3 Hs _ IH]; intros Hok Hq; [by apply drain_stuck|].
    apply IH; [eapply life_step_ok; [done|by apply drain_life]|by eapply drain_cost].
Qed.

(** ** Runs *)

Definition life_run (evs : list life_event) (st : lifecycle) : may_panic (option lifecycle) :=
  foldl (fun r ev => match r with Ok (Some st) => life_exec ev st | _ => r end) (Ok (Some st)) evs.

Lemma life_run_rtc evs st st' : life_run evs st = Ok (Some st') -> rtc life_step st st'.
Proof.
  unfold life_run. revert st. induction evs as [|ev evs IH]; intros st; simpl; [by intros [= <-]|].
  destruct (life_exec ev st) as [[st1|]| |] eqn:Hx.
  - intros Hr. eapply rtc_l; [by exists ev|by apply IH].
  - intros Hr. exfalso. revert Hr. clear. by induction evs.
  - intros Hr. exfalso. revert Hr. clear. by induction evs.
  - intros Hr. exfalso. revert Hr. clear. by induction evs.
Qed.

(** A [Shutdown] that overtakes [Serve] returns nil; [Serve] then finds its listener
    closed. *)
Definition overtakes : list life_event :=
  [Shutdown; DoCall 0; DoCall 0; DoCall 0; DoCall 0; DoServe; DoServe; DoServe; DoLoop 0 true].

Lemma drain_safe_witness :
  exists st, life_run overtakes (new_engine 1) = Ok (Some st) /\ ClNil ∈ lf_calls st /\
    lf_loops st = [LpExit] /\
    forall st', rtc life_step st st' -> Forall (eq SeDone) (lf_sessions st').
Proof.
  eexists. split; [vm_compute; reflexivity|]. split; [left|]. split; [reflexivity|].
  apply (drain_safe 1); [apply (life_run_rtc overtakes); vm_compute; reflexivity|right; left].
Defined.

(** A connection accepted while the listener is being closed is served and drained. *)
Definition late_connection : list life_event :=
  [DoServe; DoServe; DoServe; DoServe; Shutdown; DoLoop 0 true; DoCall 0; DoCall 0; DoCall 0; DoLoop 0 true;
   DoCall 0; DoLoop 0 true; DoLoop 0 true; DoServe].

Lemma drain_completes_witness :
  exists st, life_run late_connection (new_engine 1) = Ok (Some st) /\ lf_sessions st = [SeRun] /\
    forall m st', nsteps drain_step m st st' -> (m <= 5)%nat.
Proof.
  eexists. split; [vm_compute; reflexivity|]. split; [reflexivity|].
  apply (proj1 (drain_completes 1 _ (life_run_rtc late_connection (new_engine 1) _ eq_refl) eq_refl)).
Defined.

(** Any error from [Accept] ends the loop: with no shutdown requested, an SMSC whose
    listener is open may accept nothing more. *)
Lemma accept_error_deafens :
  exists st, life_run [DoServe; DoServe; DoServe; DoServe; DoLoop 0 false; DoLoop 0 false] (new_engine 1) = Ok (Some st) /\
    lf_quit st = false /\ lf_listening st = [true] /\ lf_loops st = [LpDone].
Proof. eexists. split; [vm_compute; reflexivity|]. done. Qed.
