(* ===== verification/Process.v ===== *)
(** * The running process
      ([run] of [cmd/smsc-simulator/main.go] from its [select] on; [Serve] and
      [Shutdown] of [internal/observability/server.go])

    [run]'s goroutine, the engine's goroutines ([Lifecycle]), the surface's serving
    goroutine and its connections, interleaved.  They meet in the engine, in
    [http.Server] and in the two one-element channels [obsErr] and [engineErr].
    Time passes by [Tick]; a context's deadline fires when the clock reaches it. *)

From S2P Require Import Prelude.
From S2P Require Import Rng.
From S2P Require Import Boot.
From S2P Require Import Lifecycle.

(** ** The result of [run] *)

(** What [run]'s select receives: the surface's [Serve] returning, the engine's, or
    the cancelled context of a signal. *)
Inductive ended (E : Type) := SurfaceEnded (err : option E) | EngineEnded (err : option E) | Signalled.
Arguments SurfaceEnded {E}. Arguments EngineEnded {E}. Arguments Signalled {E}.

Inductive run_error (E : Type) :=
| RunSurface (err : E) | RunSurfaceStopped | RunEngine (err : E) | RunEngineStopped | RunServe (err : E).
Arguments RunSurface {E}. Arguments RunSurfaceStopped {E}. Arguments RunEngine {E}.
Arguments RunEngineStopped {E}. Arguments RunServe {E}.

(** ** The surface *)

(** What [http.Server.Serve] returns. *)
Inductive http_error (E : Type) := ErrServerClosed | AcceptError (err : E).
Arguments ErrServerClosed {E}. Arguments AcceptError {E}.

(** [Server.Serve]: nil on a clean shutdown. *)
Definition Serve {E} (err : http_error E) : option E :=
  match err with ErrServerClosed => None | AcceptError err => Some err end.

(** The goroutine [obsErr <- srv.Serve()]. *)
Inductive surface_pc (E : Type) :=
| SuBegin
| SuServing                          (* its listener is tracked *)
| SuUntracked (err : http_error E)   (* out of the loop, the listener still to be closed *)
| SuSend (r : option E)              (* [Serve] returned, the send to come *)
| SuSent (r : option E).
Arguments SuBegin {E}. Arguments SuServing {E}. Arguments SuUntracked {E}.
Arguments SuSend {E}. Arguments SuSent {E}.

(** [http.Server]: [active] connections are in the middle of a request. *)
Record surface (E : Type) := mkSurface {
  su_listening : bool;
  su_inShutdown : bool;
  su_pc : surface_pc E;
  su_active : nat;
  su_idle : nat
}.
Arguments mkSurface {E}. Arguments su_listening {E}. Arguments su_inShutdown {E}.
Arguments su_pc {E}. Arguments su_active {E}. Arguments su_idle {E}.

Inductive surface_event (E : Type) :=
| SuServe                 (* the serving goroutine's next step *)
| SuAccept                (* [Accept] returns a connection *)
| SuFail (err : E)        (* [Accept] fails with an error that is not temporary *)
| SuIdle | SuBusy         (* a connection finishes a request, starts another *)
| SuDrop | SuHangup.      (* a connection ends in a request, or idle *)
Arguments SuServe {E}. Arguments SuAccept {E}. Arguments SuFail {E}. Arguments SuIdle {E}.
Arguments SuBusy {E}. Arguments SuDrop {E}. Arguments SuHangup {E}.

(** ** The process *)

(** [run]'s goroutine; [ev] is the arm of the select it is in. *)
Inductive main_pc (E : Type) :=
| MSelect
| MStop (ev : ended E)                        (* calling [stopEngine] *)
| MStopping (ev : ended E) (deadline : Z)     (* in [engine.Shutdown] *)
| MShutdown (ev : ended E)                    (* calling [shutdown] *)
| MClose (ev : ended E) (deadline : Z)        (* [srv.Shutdown]: close the tracked listeners, *)
| MGroup (ev : ended E) (deadline : Z)        (* wait until none is tracked, *)
| MPoll (ev : ended E) (deadline : Z)         (* poll the connections, *)
| MWait (ev : ended E) (deadline : Z)         (* poll again until none is active *)
| MRecv (ev : ended E)                        (* at [<-serveErr] *)
| MReturned (r : option (run_error E)).
Arguments MSelect {E}. Arguments MStop {E}. Arguments MStopping {E}. Arguments MShutdown {E}.
Arguments MClose {E}. Arguments MGroup {E}. Arguments MPoll {E}.
Arguments MWait {E}. Arguments MRecv {E}. Arguments MReturned {E}.

(** A channel of capacity one is the value it holds. *)
Record process (E : Type) := mkProcess {
  pr_main : main_pc E;
  pr_ctx : bool;                        (* [ctx] is cancelled *)
  pr_now : Z;
  pr_engine : lifecycle;
  pr_engineSent : bool;                 (* the goroutine [engineErr <- engine.Serve()] is done *)
  pr_engineErr : option (option E);
  pr_surface : option (surface E);
  pr_obsErr : option (option E)
}.
Arguments mkProcess {E}. Arguments pr_main {E}. Arguments pr_ctx {E}. Arguments pr_now {E}.
Arguments pr_engine {E}. Arguments pr_engineSent {E}. Arguments pr_engineErr {E}.
Arguments pr_surface {E}. Arguments pr_obsErr {E}.

(** The ready case a select takes. *)
Inductive arm := SurfaceArm | EngineArm | ContextArm.

Inductive event (E : Type) :=
| Select (a : arm)
| Main                              (* [run]'s next step past the select *)
| Deadline                          (* the context [run] waits under expires *)
| EngineStep (ev : life_event)
| EngineSend
| SurfaceStep (ev : surface_event E)
| Signal
| Tick (d : Z).
Arguments Select {E}. Arguments Main {E}. Arguments Deadline {E}. Arguments EngineStep {E}.
Arguments EngineSend {E}. Arguments SurfaceStep {E}. Arguments Signal {E}. Arguments Tick {E}.

Definition shutdownTimeout : Z := 5 * 10 ^ 9.

Section Steps.
Context {E : Type}.
Implicit Types (s : surface E) (st : process E).

(** *** The surface's side *)

Definition set_pc (pc : surface_pc E) s : surface E :=
  mkSurface (su_listening s) (su_inShutdown s) pc (su_active s) (su_idle s).

Definition set_conns (active idle : nat) s : surface E :=
  mkSurface (su_listening s) (su_inShutdown s) (su_pc s) active idle.

(** The error the loop ends with once [Accept] has failed. *)
Definition accept_failed s (err : E) : http_error E :=
  if su_inShutdown s then ErrServerClosed else AcceptError err.

(** A step of the surface alone; the final send is [surface_send]. *)
Definition surface_exec (ev : surface_event E) s : option (surface E) :=
  match ev with
  | SuServe =>
      match su_pc s with
      | SuBegin => Some (set_pc (if su_inShutdown s then SuUntracked ErrServerClosed else SuServing) s)
      | SuServing => if su_listening s then None else Some (set_pc (SuUntracked ErrServerClosed) s)
      | SuUntracked err => Some (mkSurface false (su_inShutdown s) (SuSend (Serve err)) (su_active s) (su_idle s))
      | _ => None
      end
  | SuAccept =>
      match su_pc s with
      | SuServing => if su_listening s then Some (set_conns (S (su_active s)) (su_idle s) s) else None
      | _ => None
      end
  | SuFail err =>
      match su_pc s with
      | SuServing => if su_listening s then Some (set_pc (SuUntracked (accept_failed s err)) s) else None
      | _ => None
      end
  | SuIdle => match su_active s with S n => Some (set_conns n (S (su_idle s)) s) | O => None end
  | SuBusy => match su_idle s with S n => Some (set_conns (S (su_active s)) n s) | O => None end
  | SuDrop => match su_active s with S n => Some (set_conns n (su_idle s) s) | O => None end
  | SuHangup => match su_idle s with S n => Some (set_conns (su_active s) n s) | O => None end
  end.

Definition surface_send s : option (surface E * option E) :=
  match su_pc s with SuSend r => Some (set_pc (SuSent r) s, r) | _ => None end.

Definition set_inShutdown s : surface E :=
  mkSurface (su_listening s) true (su_pc s) (su_active s) (su_idle s).

Definition tracked s : bool := match su_pc s with SuServing => true | _ => false end.

(** [closeListenersLocked]: the listeners [Serve] tracks. *)
Definition close_tracked s : surface E :=
  mkSurface (if tracked s then false else su_listening s) (su_inShutdown s) (su_pc s) (su_active s) (su_idle s).

Definition closeIdleConns s : surface E := set_conns (su_active s) 0 s.

(** *** [run]'s side *)

Definition set_main (pc : main_pc E) st : process E :=
  mkProcess pc (pr_ctx st) (pr_now st) (pr_engine st) (pr_engineSent st) (pr_engineErr st) (pr_surface st) (pr_obsErr st).

Definition set_engine (e : lifecycle) st : process E :=
  mkProcess (pr_main st) (pr_ctx st) (pr_now st) e (pr_engineSent st) (pr_engineErr st) (pr_surface st) (pr_obsErr st).

Definition set_surface (s : surface E) st : process E :=
  mkProcess (pr_main st) (pr_ctx st) (pr_now st) (pr_engine st) (pr_engineSent st) (pr_engineErr st) (Some s) (pr_obsErr st).

Definition set_obsErr (r : option (option E)) st : process E :=
  mkProcess (pr_main st) (pr_ctx st) (pr_now st) (pr_engine st) (pr_engineSent st) (pr_engineErr st) (pr_surface st) r.

(** The select. *)
Definition select_exec (a : arm) st : option (process E) :=
  match pr_main st, a with
  | MSelect, SurfaceArm =>
      r ← pr_obsErr st; Some (set_main (MStop (SurfaceEnded r)) (set_obsErr None st))
  | MSelect, EngineArm =>
      r ← pr_engineErr st;
      Some (mkProcess (MShutdown (EngineEnded r)) (pr_ctx st) (pr_now st) (pr_engine st) (pr_engineSent st) None
              (pr_surface st) (pr_obsErr st))
  | MSelect, ContextArm => if pr_ctx st then Some (set_main (MStop Signalled) st) else None
  | _, _ => None
  end.

(** Once [stopEngine] has returned: the surface's own error, or on to [shutdown]. *)
Definition after_stop (ev : ended E) : main_pc E :=
  match ev with
  | SurfaceEnded (Some err) => MReturned (Some (RunSurface err))
  | SurfaceEnded None => MReturned (Some RunSurfaceStopped)
  | _ => MShutdown ev
  end.

(** Once [shutdown] has returned [r]. *)
Definition after_shutdown (ev : ended E) (r : option E) : main_pc E :=
  MReturned match ev with
  | EngineEnded (Some err) => Some (RunEngine err)
  | EngineEnded None => Some RunEngineStopped
  | _ => RunServe <$> r
  end.

Definition main_exec st : may_panic (option (process E)) :=
  match pr_main st with
  | MStop ev =>
      let* e := life_exec Shutdown (pr_engine st) in
      Ok ((fun e => set_main (MStopping ev (pr_now st + shutdownTimeout)) (set_engine e st)) <$> e)
  | MStopping ev dl =>
      match lf_calls (pr_engine st) with
      | ClNil :: _ | ClExpired :: _ => Ok (Some (set_main (after_stop ev) st))
      | _ =>
          let* e := life_exec (DoCall 0) (pr_engine st) in
          Ok ((fun e => set_engine e st) <$> e)
      end
  | MShutdown ev =>
      Ok (Some match pr_surface st with
      | None => set_main (after_shutdown ev None) st
      | Some s => set_main (MClose ev (pr_now st + shutdownTimeout)) (set_surface (set_inShutdown s) st)
      end)
  | MClose ev dl => Ok ((fun s => set_main (MGroup ev dl) (set_surface (close_tracked s) st)) <$> pr_surface st)
  | MGroup ev dl =>
      Ok (s ← pr_surface st; if tracked s then None else Some (set_main (MPoll ev dl) st))
  | MPoll ev dl =>
      Ok ((fun s => set_main (if (su_active s =? 0)%nat then MRecv ev else MWait ev dl)
                      (set_surface (closeIdleConns s) st)) <$> pr_surface st)
  | MWait ev dl =>
      Ok (s ← pr_surface st;
          if (su_active s =? 0)%nat then Some (set_main (MRecv ev) (set_surface (closeIdleConns s) st)) else None)
  | MRecv ev => Ok (r ← pr_obsErr st; Some (set_main (after_shutdown ev r) (set_obsErr None st)))
  | MSelect | MReturned _ => Ok None
  end.

(** A drain that overruns its deadline is only logged. *)
Definition deadline_exec st : may_panic (option (process E)) :=
  match pr_main st with
  | MStopping ev dl =>
      if pr_now st <? dl then Ok None
      else let* e := life_exec (Expire 0) (pr_engine st) in Ok ((fun e => set_engine e st) <$> e)
  | MWait ev dl =>
      Ok (if pr_now st <? dl then None else Some (set_main (after_shutdown ev None) st))
  | _ => Ok None
  end.

Definition proc_exec (ev : event E) st : may_panic (option (process E)) :=
  match ev with
  | Select a => Ok (select_exec a st)
  | Main => main_exec st
  | Deadline => deadline_exec st
  | EngineStep ev =>
      if own_event ev then let* e := life_exec ev (pr_engine st) in Ok ((fun e => set_engine e st) <$> e)
      else Ok None
  | EngineSend =>
      Ok match lf_serve (pr_engine st), pr_engineSent st with
      | SvReturned, false =>
          Some (mkProcess (pr_main st) (pr_ctx st) (pr_now st) (pr_engine st) true (Some None)
                  (pr_surface st) (pr_obsErr st))
      | _, _ => None
      end
  | SurfaceStep ev =>
      Ok (s ← pr_surface st;
          match surface_exec ev s, ev, surface_send s with
          | Some s', _, _ => Some (set_surface s' st)
          | None, SuServe, Some (s', r) => Some (set_obsErr (Some r) (set_surface s' st))
          | _, _, _ => None
          end)
  | Signal =>
      Ok (Some (mkProcess (pr_main st) true (pr_now st) (pr_engine st) (pr_engineSent st) (pr_engineErr st)
                  (pr_surface st) (pr_obsErr st)))
  | Tick d =>
      Ok (if d <? 0 then None
          else Some (mkProcess (pr_main st) (pr_ctx st) (pr_now st + d) (pr_engine st) (pr_engineSent st)
                       (pr_engineErr st) (pr_surface st) (pr_obsErr st)))
  end.

Definition proc_step st st' : Prop := exists ev, proc_exec ev st = Ok (Some st').

(** [run] at its select, after a boot that hosts [n] SMSCs. *)
Definition started_process (n : nat) (srv : option server) (now : Z) : process E :=
  mkProcess MSelect false now (new_engine n) false None
    ((fun _ => mkSurface true false SuBegin 0 0) <$> srv) None.

(** The steps the process owes: [run]'s, the serving goroutine's, and the engine's
    once it has been told to stop.  Connections, requests, signals and the clock
    are the world's. *)
Definition owed st (ev : event E) : bool :=
  match ev with
  | Select _ | Main | Deadline | EngineSend | SurfaceStep SuServe => true
  | EngineStep ev => lf_quit (pr_engine st)
  | _ => false
  end.

Definition owed_step st st' : Prop := exists ev, owed st ev = true /\ proc_exec ev st = Ok (Some st').

End Steps.

(** ** Runs *)

Definition proc_run {E} (evs : list (event E)) (st : process E) : may_panic (option (process E)) :=
  foldl (fun r ev => match r with Ok (Some st) => proc_exec ev st | _ => r end) (Ok (Some st)) evs.

Lemma proc_run_rtc {E} (evs : list (event E)) st st' : proc_run evs st = Ok (Some st') -> rtc proc_step st st'.
Proof.
  unfold proc_run. revert st. induction evs as [|ev evs IH]; intros st; simpl; [by intros [= <-]|].
  assert (forall r : may_panic (option (process E)), (forall x, r <> Ok (Some x)) ->
    foldl (fun r ev => match r with Ok (Some st) => proc_exec ev st | _ => r end) r evs <> Ok (Some st')) as Hstop.
  { clear. induction evs as [|ev evs IH]; intros r Hr; simpl; [apply Hr|]. apply IH.
    destruct r as [[x|]| |]; try done. by destruct (Hr x). }
  destruct (proc_exec ev st) as [[st1|]| |] eqn:Hx; [|by intros Hr; exfalso; revert Hr; apply Hstop..].
  intros Hr. eapply rtc_l; [by exists ev|by apply IH].
Qed.
