(* ===== verification/ProcessInv.v ===== *)
(** * The invariant of the running process

    [run]'s place, the contents of the two channels, the surface's serving goroutine
    and the engine fit together in every state the process of [Process] reaches,
    and no step of it panics ([proc_exec_ok]). *)

From S2P Require Import Prelude.
From S2P Require Import Rng.
From S2P Require Import Boot.
From S2P Require Import Lifecycle.
From S2P Require Import Process.

(** ** The invariant *)

Section Invariant.
Context {E : Type}.
Implicit Types (s : surface E) (st : process E).

(** What [run] has taken from [obsErr]. *)
Definition took (pc : main_pc E) (r : option E) : Prop :=
  match pc with
  | MStop ev | MStopping ev _ => ev = SurfaceEnded r
  | MReturned _ => True
  | _ => False
  end.

Definition pc_ok (pc : main_pc E) (obs : option (option E)) s : Prop :=
  match su_pc s with
  | SuBegin => obs = None /\ su_listening s = true /\ su_active s = 0%nat /\ su_idle s = 0%nat
  | SuServing => obs = None
  | SuUntracked err => obs = None /\ (err = ErrServerClosed -> su_inShutdown s = true)
  | SuSend r => obs = None /\ su_listening s = false /\ (r = None -> su_inShutdown s = true)
  | SuSent r => su_listening s = false /\ (r = None -> su_inShutdown s = true) /\
      (obs = Some r \/ obs = None /\ took pc r)
  end.

(** What [run]'s position says of the surface. *)
Definition drain_ok (pc : main_pc E) s : Prop :=
  match pc with
  | MClose _ _ => su_inShutdown s = true /\ (tracked s = true -> su_listening s = true)
  | MGroup _ _ => su_inShutdown s = true /\ (tracked s = true -> su_listening s = false)
  | MPoll _ _ | MRecv _ => su_inShutdown s = true /\ tracked s = false
  | MWait _ _ => su_inShutdown s = true /\ tracked s = false /\ su_pc s <> SuBegin
  | MReturned _ => tracked s = false /\ su_pc s <> SuBegin
  | _ => su_inShutdown s = false /\ (tracked s = true -> su_listening s = true)
  end.

Record surface_ok (pc : main_pc E) (obs : option (option E)) s : Prop := {
  so_pc : pc_ok pc obs s;
  so_drain : drain_ok pc s
}.

(** The arm taken was really ready. *)
Definition arm_ok (ev : ended E) st : Prop :=
  match ev with
  | SurfaceEnded r => exists err s, r = Some err /\ pr_surface st = Some s /\ su_pc s = SuSent r
  | EngineEnded _ => False
  | Signalled => pr_ctx st = true
  end.

Definition stopped (st : process E) : Prop :=
  exists c, lf_calls (pr_engine st) = [c] /\ call_returned c.

(** What [run] returned, and why. *)
Definition result_ok (r : option (run_error E)) st : Prop :=
  match r with
  | None => pr_ctx st = true
  | Some (RunSurface err) => exists s, pr_surface st = Some s /\ su_pc s = SuSent (Some err)
  | Some (RunServe err) => pr_ctx st = true /\ exists s, pr_surface st = Some s /\ su_pc s = SuSent (Some err)
  | _ => False
  end.

Definition main_ok st : Prop :=
  match pr_main st with
  | MSelect => lf_calls (pr_engine st) = []
  | MStop ev => lf_calls (pr_engine st) = [] /\ arm_ok ev st
  | MStopping ev dl => (exists c, lf_calls (pr_engine st) = [c]) /\ arm_ok ev st /\ dl <= pr_now st + shutdownTimeout
  | MShutdown ev => stopped st /\ ev = Signalled /\ pr_ctx st = true
  | MClose ev dl | MGroup ev dl | MPoll ev dl | MWait ev dl =>
      stopped st /\ ev = Signalled /\ pr_ctx st = true /\ dl <= pr_now st + shutdownTimeout /\ is_Some (pr_surface st)
  | MRecv ev => stopped st /\ ev = Signalled /\ pr_ctx st = true /\ is_Some (pr_surface st)
  | MReturned r => stopped st /\ result_ok r st
  end.

Record proc_ok st : Prop := {
  po_life : life_ok (pr_engine st);
  po_quiet : lf_calls (pr_engine st) = [] -> lf_quit (pr_engine st) = false;
  po_sent : pr_engineSent st = true -> lf_serve (pr_engine st) = SvReturned;
  po_engineErr : is_Some (pr_engineErr st) -> pr_engineSent st = true;
  po_main : main_ok st;
  po_surface : match pr_surface st with
    | Some s => surface_ok (pr_main st) (pr_obsErr st) s
    | None => pr_obsErr st = None
    end
}.

(** ** Preservation *)

Lemma surface_exec_ok pc obs ev s s' :
  surface_ok pc obs s -> surface_exec ev s = Some s' -> surface_ok pc obs s'.
Proof.
  intros [Hp Hd] Hx. destruct s as [ls sh spc act idl]. unfold pc_ok, drain_ok, tracked in *. simpl in *.
  destruct ev as [| |err| | | |]; simpl in Hx.
  - destruct spc as [| |err|r|r]; simplify_eq; simpl in *.
    + destruct sh; split; unfold pc_ok, drain_ok, tracked in *; simpl in *; [naive_solver| |naive_solver|];
        destruct pc; naive_solver.
    + destruct ls; simplify_eq. split; unfold pc_ok, drain_ok, tracked in *; simpl in *; destruct pc; naive_solver.
    + split; unfold pc_ok, drain_ok, tracked in *; simpl in *; [destruct err; naive_solver|destruct pc; naive_solver].
  - destruct spc; try done. destruct ls; simplify_eq. by split.
  - destruct spc; try done. destruct ls; simplify_eq. unfold accept_failed. simpl.
    split; unfold pc_ok, drain_ok, tracked in *; simpl in *; [destruct sh; naive_solver|destruct pc; naive_solver].
  - destruct act; simplify_eq. split; [|done]. unfold pc_ok. simpl. destruct spc; naive_solver.
  - destruct idl; simplify_eq. split; [|done]. unfold pc_ok. simpl. destruct spc; naive_solver.
  - destruct act; simplify_eq. split; [|done]. unfold pc_ok. simpl. destruct spc; naive_solver.
  - destruct idl; simplify_eq. split; [|done]. unfold pc_ok. simpl. destruct spc; naive_solver.
Qed.

Lemma surface_send_ok pc obs s s' r :
  surface_ok pc obs s -> surface_send s = Some (s', r) -> obs = None /\ surface_ok pc (Some r) s'.
Proof.
  intros [Hp Hd] Hx. destruct s as [ls sh spc act idl]. unfold surface_send in Hx. simpl in Hx.
  destruct spc; simplify_eq. unfold pc_ok in Hp. simpl in Hp. destruct Hp as (-> & Hl & Hr).
  split; [done|]. split; [unfold pc_ok; simpl; auto|]. unfold drain_ok, tracked in *. simpl in *.
  destruct pc; naive_solver.
Qed.

(** A goroutine that has sent its result stays so. *)
Lemma surface_exec_sent ev s s' r :
  surface_exec ev s = Some s' -> su_pc s = SuSent r -> su_pc s' = SuSent r.
Proof.
  destruct s as [ls sh spc act idl]. simpl. intros Hx ->. destruct ev; simpl in Hx; try done.
  - by destruct act; simplify_eq.
  - by destruct idl; simplify_eq.
  - by destruct act; simplify_eq.
  - by destruct idl; simplify_eq.
Qed.

(** What the other goroutines' steps keep of what [run] relies on. *)
Record main_frame st st' : Prop := {
  mf_main : pr_main st' = pr_main st;
  mf_ctx : pr_ctx st = true -> pr_ctx st' = true;
  mf_now : pr_now st <= pr_now st';
  mf_calls : lf_calls (pr_engine st') = lf_calls (pr_engine st);
  mf_some : is_Some (pr_surface st) -> is_Some (pr_surface st');
  mf_sent : forall s r, pr_surface st = Some s -> su_pc s = SuSent r ->
    exists s', pr_surface st' = Some s' /\ su_pc s' = SuSent r
}.

Lemma main_frame_refl st st' :
  pr_main st' = pr_main st -> (pr_ctx st = true -> pr_ctx st' = true) -> pr_now st <= pr_now st' ->
  lf_calls (pr_engine st') = lf_calls (pr_engine st) -> pr_surface st' = pr_surface st -> main_frame st st'.
Proof. intros ? ? ? ? Hs. split; rewrite ?Hs; eauto. Qed.

Lemma main_frame_ok st st' : main_frame st st' -> main_ok st -> main_ok st'.
Proof.
  intros [Hm Hc Hn Hcalls Hsome Hsent] Hok. unfold main_ok, stopped in *. rewrite Hm, Hcalls.
  assert (forall ev, arm_ok ev st -> arm_ok ev st') as Harm.
  { intros [r|r|]; simpl; [|done|done]. intros (err & s & -> & Hs & Hpc).
    destruct (Hsent s _ Hs Hpc) as (s' & Hs' & Hpc'). eauto. }
  destruct (pr_main st) as [|ev|ev dl|ev|ev dl|ev dl|ev dl|ev dl|ev|r]; try naive_solver lia.
  destruct Hok as [Hst Hr]. split; [done|].
  destruct r as [[err| | | |err]|]; simpl in *; naive_solver.
Qed.

Definition proc_after (r : may_panic (option (process E))) : Prop :=
  match r with Ok (Some st') => proc_ok st' | Ok None => True | _ => False end.

Lemma life_exec_after ev e : life_ok e ->
  exists r, life_exec ev e = Ok r /\ forall e', r = Some e' -> life_ok e'.
Proof.
  intros Hok. pose proof (life_exec_ok ev e Hok) as H.
  destruct (life_exec ev e) as [[e'|]| |]; try done; eexists; (split; [done|]); naive_solver.
Qed.

Lemma engine_step_ok ev st : proc_ok st -> proc_after (proc_exec (EngineStep ev) st).
Proof.
  intros [Hl Hq Hs He Hm Hsu]. simpl. destruct (own_event ev) eqn:Hev; [|done].
  destruct (life_exec_after ev _ Hl) as (r & Hr & Hok). rewrite Hr. destruct r as [e'|]; [|done]. simpl.
  destruct (own_frame ev _ _ Hev Hr) as (Hc & Hqq & _ & Hret).
  split; simpl; auto; [by rewrite Hc, Hqq|]. apply (main_frame_ok st); [|done]. by apply main_frame_refl.
Qed.

Lemma engine_send_ok st : proc_ok st -> proc_after (proc_exec EngineSend st).
Proof.
  intros [Hl Hq Hs He Hm Hsu]. simpl. destruct (lf_serve (pr_engine st)) eqn:Hret; try done.
  by destruct (pr_engineSent st); [done|]; split; simpl; auto.
Qed.

Lemma surface_step_ok ev st : proc_ok st -> proc_after (proc_exec (SurfaceStep ev) st).
Proof.
  intros [Hl Hq Hs He Hm Hsu]. simpl. destruct (pr_surface st) as [s|] eqn:Hs0; [|done]. simpl.
  destruct (surface_exec ev s) as [s'|] eqn:Hx.
  - split; simpl; auto.
    + apply (main_frame_ok st); [|done]. split; simpl; try done. intros s1 r. rewrite Hs0. intros [= <-] Hpc.
      exists s'. split; [done|]. by eapply surface_exec_sent.
    + by eapply surface_exec_ok.
  - destruct ev; try done. destruct (surface_send s) as [[s' r]|] eqn:Hsend; [|done].
    destruct (surface_send_ok _ _ _ _ _ Hsu Hsend) as [_ Hsu']. split; simpl; auto.
    apply (main_frame_ok st); [|done]. split; simpl; try done. intros s1 r'. rewrite Hs0. intros [= <-] Hpc.
    unfold surface_send in Hsend. by rewrite Hpc in Hsend.
Qed.

Lemma world_step_ok st :
  proc_ok st -> proc_after (proc_exec Signal st) /\ forall d, proc_after (proc_exec (Tick d) st).
Proof.
  intros [Hl Hq Hs He Hm Hsu]. split; [|intros d; simpl; destruct (Z.ltb_spec d 0); [done|]];
    (split; simpl; auto; apply (main_frame_ok st); [|done]; apply main_frame_refl; simpl; try done; lia).
Qed.

(** A result on [obsErr] is that of the serving goroutine. *)
Lemma obs_sent pc r s :
  pc_ok pc (Some r) s -> su_pc s = SuSent r /\ su_listening s = false /\ (r = None -> su_inShutdown s = true).
Proof.
  unfold pc_ok. destruct (su_pc s) as [| | | |r'] eqn:Hsp; [by intros []|done|by intros []|by intros []|].
  intros (Hl & Hn & [[= <-]|[? _]]); [|done]. done.
Qed.

Lemma pc_ok_move pc pc' obs s :
  (forall r, took pc r -> took pc' r) -> pc_ok pc obs s -> pc_ok pc' obs s.
Proof.
  intros Ht. unfold pc_ok. destruct (su_pc s) as [| | | |r]; try done.
  intros (Hl & Hn & [Ho|[Ho Htk]]); auto 7.
Qed.

(** At the select: the surface's result is an error, and the engine's is not there. *)
Lemma select_ok a st : proc_ok st -> proc_after (proc_exec (Select a) st).
Proof.
  intros [Hl Hq Hs He Hm Hsu]. simpl. unfold select_exec, main_ok in *.
  destruct (pr_main st) eqn:Hpc; try done. destruct a; simpl.
  - destruct (pr_obsErr st) as [r|] eqn:Hobs; [|done]. simpl.
    destruct (pr_surface st) as [s|] eqn:Hs0; [|done]. destruct Hsu as [Hp Hd].
    destruct (obs_sent _ _ _ Hp) as (Hsp & Hli & Hn). destruct Hd as [Hd Ht].
    destruct r as [err|]; [|rewrite Hn in Hd by done; done].
    split; simpl; auto.
    + unfold main_ok. simpl. split; [done|]. by exists err, s.
    + rewrite Hs0. split; [|done]. unfold pc_ok. rewrite Hsp. simpl. auto.
  - destruct (pr_engineErr st) as [r|] eqn:Herr; [|done]. simpl.
    specialize (Hs (He (mk_is_Some _ _ eq_refl))). destruct (lo_returned _ Hl Hs) as [Hqt _].
    rewrite (Hq Hm) in Hqt. done.
  - destruct (pr_ctx st) eqn:Hctx; [|done]. split; simpl; auto.
    + unfold main_ok. simpl. auto.
    + destruct (pr_surface st) as [s|]; [|done]. destruct Hsu as [Hp Hd]. split; [|done].
      by apply (pc_ok_move MSelect).
Qed.

Lemma stop_ok ev st : proc_ok st -> pr_main st = MStop ev -> proc_after (main_exec st).
Proof.
  intros [Hl Hq Hs He Hm Hsu] Hpc. unfold main_exec, main_ok in *. rewrite Hpc in *. destruct Hm as [Hc Harm].
  destruct (life_exec_after Shutdown _ Hl) as (r & Hr & Hok). rewrite Hr. destruct r as [e|]; [|done].
  specialize (Hok e eq_refl). destruct (pr_engine st) as [ls q sv wg spc lo ss calls] eqn:Heng.
  simpl in *. subst calls. injection Hr as <-. simpl. split; simpl; auto; try done.
  - unfold main_ok. simpl. split_and!; [by eexists| |lia]. by destruct ev.
  - destruct (pr_surface st) as [s|]; [|done]. destruct Hsu as [Hp Hd]. split; [|done].
    by apply (pc_ok_move (MStop ev)).
Qed.

(** A returned call has closed [quit]. *)
Lemma stopped_quit st : life_ok (pr_engine st) -> stopped st -> lf_quit (pr_engine st) = true.
Proof.
  intros Hl (c & Hc & Hret). pose proof (lo_calls _ Hl) as Hcalls. rewrite Hc in Hcalls.
  inversion_clear Hcalls as [|? ? Hco _]. destruct Hret as [-> | ->]; apply Hco.
Qed.

Lemma stop_returns_ok ev dl st :
  proc_ok st -> pr_main st = MStopping ev dl -> stopped st -> proc_ok (set_main (after_stop ev) st).
Proof.
  intros [Hl Hq Hs He Hm Hsu] Hpc Hstop. unfold main_ok in Hm. rewrite Hpc in Hm. destruct Hm as (_ & Harm & _).
  rewrite Hpc in Hsu. destruct ev as [r|r|]; [| |]; simpl in Harm; try done.
  - destruct Harm as (err & s & -> & Hsf & Hsp). split; simpl; auto.
    + unfold main_ok. simpl. split; [done|]. by exists s.
    + rewrite Hsf in Hsu |- *. destruct Hsu as [Hp Hd]. split; [by apply (pc_ok_move (MStopping (SurfaceEnded (Some err)) dl))|].
      simpl. unfold tracked. by rewrite Hsp.
  - split; simpl; auto; [by unfold main_ok|]. destruct (pr_surface st) as [s|]; [|done]. destruct Hsu as [Hp Hd].
    split; [|done]. by apply (pc_ok_move (MStopping Signalled dl)).
Qed.

Lemma call_step_ok ev dl e c st :
  proc_ok st -> pr_main st = MStopping ev dl -> life_ok e -> lf_calls e = [c] ->
  lf_serve e = lf_serve (pr_engine st) -> proc_ok (set_engine e st).
Proof.
  intros [Hl Hq Hs He Hm Hsu] Hpc Hle Hc Hsv. unfold main_ok in Hm. rewrite Hpc in Hm.
  destruct Hm as (_ & Harm & Hdl). split; simpl; auto.
  - by rewrite Hc.
  - by rewrite Hsv.
  - unfold main_ok. simpl. rewrite Hpc. split_and!; [by eexists| |done]. by destruct ev.
Qed.

Lemma call_exec_frame k e e' :
  call_exec k e = Some e' -> lf_serve e' = lf_serve e /\ length (lf_calls e') = length (lf_calls e).
Proof.
  destruct e as [ls q sv wg spc lo ss calls]. unfold call_exec. intros Hx.
  destruct (calls !! k) as [[i| | | | |]|]; simplify_eq; simpl; rewrite ?length_insert; try done.
  - destruct (i <? length ls)%nat; simpl; by rewrite length_insert.
  - destruct (mu_free _); simplify_eq. simpl. by rewrite length_insert.
  - destruct (wg =? 0); simplify_eq. simpl. by rewrite length_insert.
Qed.

Lemma stopping_ok ev dl st :
  proc_ok st -> pr_main st = MStopping ev dl -> proc_after (main_exec st) /\ proc_after (deadline_exec st).
Proof.
  intros Hok Hpc. pose proof Hok as [Hl _ _ _ Hm _]. unfold main_ok in Hm. rewrite Hpc in Hm.
  destruct Hm as ([c Hc] & _ & _). unfold main_exec, deadline_exec. rewrite Hpc, Hc. split.
  - destruct (life_exec_after (DoCall 0) _ Hl) as (r & Hr & Hle).
    destruct c as [i| | | | |]; try by (apply (stop_returns_ok _ dl); [done|done|]; eexists; split; [done|by constructor]).
    all: rewrite Hr; destruct r as [e|]; [|done]; injection Hr as Hr; destruct (call_exec_frame _ _ _ Hr) as [Hsv Hlen].
    all: rewrite Hc in Hlen; destruct (lf_calls e) as [|c' [|]] eqn:Hce; try done.
    all: simpl; eapply call_step_ok; eauto.
  - destruct (Z.ltb_spec (pr_now st) dl); [done|]. destruct (life_exec_after (Expire 0) _ Hl) as (r & Hr & Hle).
    rewrite Hr. destruct r as [e|]; [|done]. simpl. specialize (Hle e eq_refl).
    destruct (pr_engine st) as [ls q sv wg spc lo ss calls] eqn:Heng. simpl in *. subst calls. simpl in Hr.
    destruct c; simplify_eq. by eapply call_step_ok; [| | | |rewrite Heng].
Qed.

(** [run] moving on in [shutdown], the surface in its own place. *)
Lemma drain_move_ok pc' s s' st :
  proc_ok st -> pr_surface st = Some s -> main_ok (set_main pc' (set_surface s' st)) ->
  (forall r, took (pr_main st) r -> took pc' r) ->
  lf_calls (pr_engine st) <> [] ->
  su_pc s' = su_pc s -> (su_pc s <> SuServing -> su_listening s' = su_listening s) ->
  (su_inShutdown s = true -> su_inShutdown s' = true) ->
  (su_pc s = SuBegin -> su_active s' = su_active s /\ su_idle s' = su_idle s) ->
  drain_ok pc' s' -> proc_ok (set_main pc' (set_surface s' st)).
Proof.
  intros [Hl Hq Hs He Hm Hsu] Hs0 Hm' Ht Hc Hpc Hli Hsh Hconns Hd'. split; simpl; auto.
  rewrite Hs0 in Hsu. destruct Hsu as [Hp _]. split; [|done].
  unfold pc_ok in *. rewrite Hpc. destruct (su_pc s) as [| |err|r|r] eqn:Hsp; rewrite ?Hli by done.
  - destruct Hconns as [-> ->]; done.
  - done.
  - naive_solver.
  - naive_solver.
  - destruct Hp as (? & ? & [?|[? ?]]); split_and!; auto.
Qed.

Lemma result_moves ev r st s :
  proc_ok st -> stopped st -> ev = Signalled -> pr_ctx st = true -> pr_surface st = Some s ->
  (forall err, r = Some err -> su_pc s = SuSent (Some err)) ->
  forall st', pr_engine st' = pr_engine st -> pr_ctx st' = pr_ctx st -> pr_surface st' = pr_surface st ->
  pr_main st' = after_shutdown ev r -> main_ok st'.
Proof.
  intros Hok Hst -> Hctx Hs Hr st' He Hc Hsu Hm. unfold main_ok. rewrite Hm. unfold after_shutdown, stopped.
  rewrite He. split; [done|]. destruct r as [err|]; simpl; rewrite Hc, ?Hsu; [|done]. split; [done|].
  exists s. split; [done|]. by apply Hr.
Qed.

Lemma shutdown_ok st : proc_ok st ->
  match pr_main st with MShutdown _ | MClose _ _ | MGroup _ _ | MPoll _ _ | MWait _ _ | MRecv _ => True | _ => False end ->
  proc_after (main_exec st).
Proof.
  intros Hok Hpc. pose proof Hok as [Hl Hq Hs He Hm Hsu]. unfold main_ok in Hm. unfold main_exec.
  assert (stopped st -> lf_calls (pr_engine st) <> []) as Hne by (intros (c & -> & _); done).
  destruct (pr_main st) as [|ev|ev dl|ev|ev dl|ev dl|ev dl|ev dl|ev|r] eqn:Hmain; try done; clear Hpc.
  - destruct Hm as (Hstop & -> & Hctx). destruct (pr_surface st) as [s|] eqn:Hs0; simpl.
    + destruct Hsu as [Hp [Hd1 Hd2]]. apply (drain_move_ok _ s); auto; rewrite ?Hmain; try done.
      all: unfold main_ok; simpl; split_and!; try done; lia.
    + split; simpl; auto; [by unfold main_ok|by rewrite Hs0].
  - destruct Hm as (Hstop & -> & Hctx & Hdl & [s Hs0]). rewrite Hs0 in *. simpl. destruct Hsu as [Hp [Hd1 Hd2]].
    apply (drain_move_ok _ s); auto; rewrite ?Hmain; try done;
      unfold drain_ok, tracked; simpl; unfold tracked; by destruct (su_pc s).
  - destruct Hm as (Hstop & -> & Hctx & Hdl & [s Hs0]). rewrite Hs0 in *. simpl. destruct Hsu as [Hp [Hd1 Hd2]].
    destruct (tracked s) eqn:Ht; [done|]. simpl.
    split; simpl; auto; [unfold main_ok; simpl; rewrite Hs0; by split_and!|]. rewrite Hs0. split; [by apply (pc_ok_move (MGroup Signalled dl))|done].
  - destruct Hm as (Hstop & -> & Hctx & Hdl & [s Hs0]). rewrite Hs0 in *. simpl. destruct Hsu as [Hp [Hd1 Hd2]].
    assert (su_pc s = SuBegin -> su_active s = 0%nat /\ su_idle s = 0%nat) as Hb.
    { intros Hb. unfold pc_ok in Hp. rewrite Hb in Hp. naive_solver. }
    apply (drain_move_ok _ s); auto; rewrite ?Hmain; try done.
    + unfold main_ok. destruct (su_active s =? 0)%nat; simpl; [done|]. by split_and!.
    + intros Hx. simpl. by destruct (Hb Hx) as [_ ->].
    + destruct (Nat.eqb_spec (su_active s) 0); simpl; [done|]. split_and!; try done. intros Hx. by destruct (Hb Hx).
  - destruct Hm as (Hstop & -> & Hctx & Hdl & [s Hs0]). rewrite Hs0 in *. simpl. destruct Hsu as [Hp (Hd1 & Hd2 & Hd3)].
    destruct (su_active s =? 0)%nat; [|done]. apply (drain_move_ok _ s); auto; rewrite ?Hmain; try done.
  - destruct Hm as (Hstop & -> & Hctx & [s Hs0]). destruct (pr_obsErr st) as [r|] eqn:Hobs; [|done]. simpl.
    rewrite Hs0 in Hsu. destruct Hsu as [Hp [Hd1 Hd2]]. destruct (obs_sent _ _ _ Hp) as (Hsp & Hli & Hn).
    split; simpl; auto.
    + eapply (result_moves Signalled r); eauto. by intros err ->.
    + rewrite Hs0. split; unfold pc_ok, drain_ok, tracked; simpl; rewrite Hsp; auto 7.
Qed.

Lemma wait_deadline_ok ev dl st : proc_ok st -> pr_main st = MWait ev dl -> proc_after (deadline_exec st).
Proof.
  intros Hok Hpc. pose proof Hok as [Hl Hq Hs He Hm Hsu]. unfold main_ok in Hm. unfold deadline_exec.
  rewrite Hpc in *. destruct (Z.ltb_spec (pr_now st) dl); [done|]. destruct Hm as (Hstop & -> & Hctx & Hdl & [s Hs0]).
  rewrite Hs0 in *. destruct Hsu as [Hp (Hd1 & Hd2 & Hd3)]. split; simpl; auto; [by unfold main_ok|].
  rewrite Hs0. split; [by apply (pc_ok_move (MWait Signalled dl))|done].
Qed.

Lemma proc_exec_ok ev st : proc_ok st -> proc_after (proc_exec ev st).
Proof.
  intros Hok. destruct ev as [a| | |ev| |ev| |d]; [by apply select_ok| | |by apply engine_step_ok|
    by apply engine_send_ok|by apply surface_step_ok|by apply world_step_ok..].
  - cbn [proc_exec]. destruct (pr_main st) eqn:Hpc; try (apply shutdown_ok; [done|by rewrite Hpc]);
      try (unfold main_exec; by rewrite Hpc); [by eapply stop_ok|by eapply stopping_ok].
  - cbn [proc_exec]. destruct (pr_main st) eqn:Hpc; try (unfold deadline_exec; by rewrite Hpc);
      [by eapply stopping_ok|by eapply wait_deadline_ok].
Qed.

Lemma started_ok n srv now : proc_ok (started_process (E := E) n srv now).
Proof.
  split; simpl; try done; [apply new_engine_ok|]. destruct srv; simpl; [|done]. split; [|done].
  by unfold pc_ok.
Qed.

Lemma proc_rtc_ok st st' : proc_ok st -> rtc proc_step st st' -> proc_ok st'.
Proof.
  intros Hok Hr. induction Hr as [|st1 st2 st3 [ev Hx] _ IH]; [done|]. apply IH.
  pose proof (proc_exec_ok ev st1 Hok) as H. by rewrite Hx in H.
Qed.

End Invariant.
