(* ===== verification/ProcessThms.v ===== *)
(** * How the process ends

    The measures that bound [run]'s own steps and, once the engine is told to stop,
    everybody's; the states in which nothing moves; what [run] returns. *)

From S2P Require Import Prelude.
From S2P Require Import Rng.
From S2P Require Import Boot.
From S2P Require Import Lifecycle.
From S2P Require Import Process.
From S2P Require Import ProcessInv.

(** ** Progress *)

Section Progress.
Context {E : Type}.
Implicit Types (s : surface E) (st : process E).

Definition surface_cost (pc : surface_pc E) : nat :=
  match pc with SuBegin => 4 | SuServing => 3 | SuUntracked _ => 2 | SuSend _ => 1 | SuSent _ => 0 end.

(** [n]: the listeners [engine.Shutdown] has to close. *)
Definition main_cost (n : nat) (pc : main_pc E) : nat :=
  match pc with
  | MSelect => n + 14 | MStop _ => n + 13 | MStopping _ _ => 7 | MShutdown _ => 6 | MClose _ _ => 5 | MGroup _ _ => 4
  | MPoll _ _ => 3 | MWait _ _ => 2 | MRecv _ => 1 | MReturned _ => 0
  end.

Definition proc_cost st : nat :=
  main_cost (length (lf_listening (pr_engine st))) (pr_main st) + life_cost (pr_engine st) +
  (if pr_engineSent st then 0 else 1) + match pr_surface st with Some s => surface_cost (su_pc s) | None => 0 end.

Lemma after_cost n ev r : main_cost n (after_shutdown ev r) = 0%nat.
Proof. done. Qed.

Lemma life_exec_listening ev e e' :
  life_exec ev e = Ok (Some e') -> length (lf_listening e') = length (lf_listening e).
Proof.
  intros Hx. destruct (own_event ev) eqn:Hev.
  { by destruct (own_frame ev _ _ Hev Hx) as (_ & _ & -> & _). }
  destruct e as [ls q sv wg spc lo ss calls]. destruct ev as [| | | |k|k]; try done; simpl in Hx; simplify_eq; try done.
  - destruct (calls !! k) as [[i| | | | |]|]; simplify_eq; simpl; try done.
    + destruct (i <? length ls)%nat; simpl; [by rewrite length_insert|done].
    + destruct (mu_free _); by simplify_eq.
    + destruct (wg =? 0); by simplify_eq.
  - destruct (calls !! k) as [[]|]; by simplify_eq.
Qed.

Lemma surface_serve_cost s s' : surface_exec SuServe s = Some s' -> (surface_cost (su_pc s') < surface_cost (su_pc s))%nat.
Proof.
  destruct s as [ls sh spc act idl]. simpl. intros Hx. destruct spc; simplify_eq; simpl; try lia.
  - destruct sh; simpl; lia.
  - destruct ls; simplify_eq. simpl. lia.
Qed.

Lemma engine_cost e' st :
  length (lf_listening e') = length (lf_listening (pr_engine st)) -> (life_cost e' < life_cost (pr_engine st))%nat ->
  (proc_cost (set_engine e' st) < proc_cost st)%nat.
Proof. intros Hlen Hc. unfold proc_cost. simpl. rewrite Hlen. lia. Qed.

Lemma main_cost_less pc' st st' :
  pr_engine st' = pr_engine st -> pr_engineSent st' = pr_engineSent st -> pr_main st' = pc' ->
  match pr_surface st, pr_surface st' with
  | Some s, Some s' => su_pc s' = su_pc s | None, None => True | _, _ => False
  end ->
  (main_cost (length (lf_listening (pr_engine st))) pc' <
   main_cost (length (lf_listening (pr_engine st))) (pr_main st))%nat ->
  (proc_cost st' < proc_cost st)%nat.
Proof.
  unfold proc_cost. intros -> -> -> Hs Hc. destruct (pr_surface st), (pr_surface st'); try done; [rewrite Hs|]; lia.
Qed.

(** A step that only moves [run], the serving goroutine in its place. *)
Ltac moves Hpc :=
  eapply main_cost_less; [done|done|done
    |simpl; repeat match goal with H : pr_surface _ = _ |- _ => rewrite !H end; by try destruct (pr_surface _)
    |rewrite Hpc; simpl; lia].

Lemma select_cost a st st' : select_exec a st = Some st' -> (proc_cost st' < proc_cost st)%nat.
Proof.
  unfold select_exec. intros Hx. destruct (pr_main st) eqn:Hpc, a; try done.
  - destruct (pr_obsErr st) as [r|]; simpl in Hx; simplify_eq. moves Hpc.
  - destruct (pr_engineErr st) as [r|]; simpl in Hx; simplify_eq. moves Hpc.
  - destruct (pr_ctx st); simplify_eq. moves Hpc.
Qed.

Lemma after_stop_cost n ev : (main_cost n (after_stop ev) <= 6)%nat.
Proof. destruct ev as [[]| |]; simpl; lia. Qed.

Lemma stop_cost ev st st' :
  pr_main st = MStop ev -> main_exec st = Ok (Some st') -> (proc_cost st' < proc_cost st)%nat.
Proof.
  unfold main_exec, proc_cost. intros -> Hx. destruct (pr_engine st) as [ls q sv wg spc lo ss calls] eqn:He.
  simpl in Hx. simplify_eq. simpl. unfold life_cost. cbn [lf_listening lf_loops lf_serve lf_sessions lf_calls].
  rewrite sum_list_with_app. simpl. lia.
Qed.

Lemma stopping_cost ev dl st st' :
  pr_main st = MStopping ev dl -> main_exec st = Ok (Some st') -> (proc_cost st' < proc_cost st)%nat.
Proof.
  unfold main_exec. intros Hpc Hx. rewrite Hpc in Hx.
  assert (forall e, life_exec (DoCall 0) (pr_engine st) = Ok (Some e) -> (proc_cost (set_engine e st) < proc_cost st)%nat) as Hcall.
  { intros e He. pose proof (life_exec_listening _ _ _ He) as Hlen. injection He as He.
    apply engine_cost; [done|]. by apply (call_exec_cost 0). }
  assert (proc_cost (set_main (after_stop ev) st) < proc_cost st)%nat as Hret.
  { pose proof (after_stop_cost (length (lf_listening (pr_engine st))) ev). moves Hpc. }
  destruct (lf_calls (pr_engine st)) as [|[] ?]; simplify_eq; try done;
    (destruct (life_exec (DoCall 0) (pr_engine st)) as [[e|]| |]; simpl in Hx; simplify_eq; by apply Hcall).
Qed.

Lemma main_exec_cost st st' : main_exec st = Ok (Some st') -> (proc_cost st' < proc_cost st)%nat.
Proof.
  intros Hx. destruct (pr_main st) as [|ev|ev dl|ev|ev dl|ev dl|ev dl|ev dl|ev|r] eqn:Hpc;
    [|by eapply stop_cost|by eapply stopping_cost|..]; unfold main_exec in Hx; rewrite Hpc in Hx; try done.
  - destruct (pr_surface st) as [s|] eqn:Hs; simplify_eq; moves Hpc.
  - destruct (pr_surface st) as [s|] eqn:Hs; simpl in Hx; simplify_eq. moves Hpc.
  - destruct (pr_surface st) as [s|] eqn:Hs; simpl in Hx; [destruct (tracked s)|]; simplify_eq. moves Hpc.
  - destruct (pr_surface st) as [s|] eqn:Hs; simpl in Hx; [destruct (su_active s =? 0)%nat|]; simplify_eq; moves Hpc.
  - destruct (pr_surface st) as [s|] eqn:Hs; simpl in Hx; [destruct (su_active s =? 0)%nat|]; simplify_eq; moves Hpc.
  - destruct (pr_obsErr st); simpl in Hx; simplify_eq. moves Hpc.
Qed.

Lemma deadline_cost st st' : proc_ok st -> deadline_exec st = Ok (Some st') -> (proc_cost st' < proc_cost st)%nat.
Proof.
  intros Hok Hx. pose proof (po_life st Hok) as Hl. unfold deadline_exec in Hx.
  destruct (pr_main st) as [|ev|ev dl|ev|ev dl|ev dl|ev dl|ev dl|ev|r] eqn:Hpc; try done; destruct (pr_now st <? dl); try done.
  - destruct (life_exec (Expire 0) (pr_engine st)) as [[e|]| |] eqn:He; simpl in Hx; simplify_eq.
    pose proof (life_exec_listening _ _ _ He) as Hlen. apply engine_cost; [done|].
    eapply drain_cost; [done| |by exists (Expire 0)].
    pose proof (lo_calls _ Hl) as Hcalls. destruct (pr_engine st) as [ls q sv wg spc lo ss calls]. simpl in *.
    destruct calls as [|[] ?]; simplify_eq. inversion_clear Hcalls as [|? ? Hc _]. apply Hc.
  - simplify_eq. moves Hpc.
Qed.

Lemma owed_cost st st' : proc_ok st -> owed_step st st' -> (proc_cost st' < proc_cost st)%nat.
Proof.
  intros Hok (ev & Hev & Hx). pose proof (po_life st Hok) as Hl.
  destruct ev as [a| | |ev| |ev| |d]; simpl in Hev; try done; cbn [proc_exec] in Hx.
  - injection Hx as Hx. by eapply select_cost.
  - by apply main_exec_cost.
  - by apply deadline_cost.
  - destruct (own_event ev) eqn:Hown; [|done].
    destruct (life_exec ev (pr_engine st)) as [[e|]| |] eqn:He; simpl in Hx; simplify_eq.
    apply engine_cost; [by eapply life_exec_listening|]. eapply drain_cost; [done|done|exists ev].
    split; [by intros ->|done].
  - unfold proc_cost. destruct (lf_serve (pr_engine st)); try done. destruct (pr_engineSent st); simplify_eq. simpl. lia.
  - unfold proc_cost. destruct ev; try done. destruct (pr_surface st) as [s|] eqn:Hs; [|done]. cbn [mbind option_bind] in Hx.
    destruct (surface_exec SuServe s) as [s'|] eqn:Hs'.
    + simplify_eq. apply surface_serve_cost in Hs'. simpl. lia.
    + unfold surface_send in Hx. destruct (su_pc s); simplify_eq. simpl. lia.
Qed.

(** *** What [run] itself costs, whatever the others do *)

Definition run_cost st : nat :=
  main_cost (length (lf_listening (pr_engine st))) (pr_main st) +
  sum_list_with (call_cost (length (lf_listening (pr_engine st)))) (lf_calls (pr_engine st)).

Definition others_cost st : nat :=
  serve_cost (length (lf_loops (pr_engine st))) (lf_serve (pr_engine st)) +
  sum_list_with accept_cost (lf_loops (pr_engine st)) + sum_list_with sess_cost (lf_sessions (pr_engine st)) +
  (if pr_engineSent st then 0 else 1) + match pr_surface st with Some s => surface_cost (su_pc s) | None => 0 end.

Lemma proc_cost_split st : proc_cost st = (run_cost st + others_cost st)%nat.
Proof. unfold proc_cost, run_cost, others_cost, life_cost. lia. Qed.

(** The steps of [run]'s goroutine. *)
Definition run_event (ev : event E) : bool :=
  match ev with Select _ | Main | Deadline => true | _ => false end.

Definition same_others (e e' : lifecycle) : Prop :=
  lf_serve e' = lf_serve e /\ lf_loops e' = lf_loops e /\ lf_sessions e' = lf_sessions e /\
  (lf_quit e = true -> lf_quit e' = true).

Lemma call_event_others ev e e' : own_event ev = false -> life_exec ev e = Ok (Some e') -> same_others e e'.
Proof.
  intros Hev Hx. destruct e as [ls q sv wg spc lo ss calls]. destruct ev as [| | | |k|k]; try done; simpl in Hx; simplify_eq; try done.
  - destruct (calls !! k) as [[i| | | | |]|]; simplify_eq; try done.
    + by destruct (i <? length ls)%nat.
    + destruct (mu_free _); by simplify_eq.
    + destruct (wg =? 0); by simplify_eq.
  - destruct (calls !! k) as [[]|]; by simplify_eq.
Qed.

Lemma others_same e' st : same_others (pr_engine st) e' -> others_cost (set_engine e' st) = others_cost st.
Proof. intros (Hs & Hl & Hss & _). unfold others_cost. simpl. by rewrite Hs, Hl, Hss. Qed.

(** A step that leaves the other goroutines where they are. *)
Lemma others_kept st st' :
  pr_engine st' = pr_engine st -> pr_engineSent st' = pr_engineSent st ->
  match pr_surface st, pr_surface st' with
  | Some s, Some s' => su_pc s' = su_pc s | None, None => True | _, _ => False
  end -> others_cost st' = others_cost st.
Proof. unfold others_cost. intros -> -> Hs. destruct (pr_surface st), (pr_surface st'); try done. by rewrite Hs. Qed.

Ltac kept := apply others_kept; [done|done
  |simpl; repeat match goal with H : pr_surface _ = _ |- _ => rewrite !H end; by try destruct (pr_surface _)].

Lemma engine_obind ev (f : lifecycle -> process E) e st' :
  (let* e' := life_exec ev e in Ok (f <$> e')) = Ok (Some st') ->
  exists e', life_exec ev e = Ok (Some e') /\ st' = f e'.
Proof. destruct (life_exec ev e) as [[e'|]| |]; simpl; intros; simplify_eq. by exists e'. Qed.

Lemma run_event_others ev st st' :
  run_event ev = true -> proc_exec ev st = Ok (Some st') -> others_cost st' = others_cost st.
Proof.
  intros Hev Hx. destruct ev as [a| | | | | | |]; try done; cbn [proc_exec] in Hx; clear Hev.
  - injection Hx as Hx. unfold select_exec in Hx. destruct (pr_main st), a; try done.
    + destruct (pr_obsErr st); simpl in Hx; simplify_eq. kept.
    + destruct (pr_engineErr st); simpl in Hx; simplify_eq. kept.
    + destruct (pr_ctx st); simplify_eq. kept.
  - unfold main_exec in Hx. destruct (pr_main st) as [|ev|ev dl|ev|ev dl|ev dl|ev dl|ev dl|ev|r]; try done.
    + apply engine_obind in Hx as (e & He & ->). by apply others_same, (call_event_others Shutdown).
    + assert (forall e, life_exec (DoCall 0) (pr_engine st) = Ok (Some e) -> others_cost (set_engine e st) = others_cost st)
        as Hcall by (intros e He; by apply others_same, (call_event_others (DoCall 0))).
      destruct (lf_calls (pr_engine st)) as [|[] ?]; simplify_eq; try kept;
        apply engine_obind in Hx as (e & He & ->); by apply Hcall.
    + destruct (pr_surface st) as [s|] eqn:Hs; simplify_eq; kept.
    + destruct (pr_surface st) as [s|] eqn:Hs; simpl in Hx; simplify_eq. kept.
    + destruct (pr_surface st) as [s|] eqn:Hs; simpl in Hx; [destruct (tracked s)|]; simplify_eq. kept.
    + destruct (pr_surface st) as [s|] eqn:Hs; simpl in Hx; simplify_eq. kept.
    + destruct (pr_surface st) as [s|] eqn:Hs; simpl in Hx; [destruct (su_active s =? 0)%nat|]; simplify_eq; kept.
    + destruct (pr_obsErr st); simpl in Hx; simplify_eq. kept.
  - unfold deadline_exec in Hx. destruct (pr_main st); try done; destruct (pr_now st <? _); try done.
    + apply engine_obind in Hx as (e & He & ->). by apply others_same, (call_event_others (Expire 0)).
    + simplify_eq. kept.
Qed.

Lemma other_event_run ev st st' :
  run_event ev = false -> proc_exec ev st = Ok (Some st') -> run_cost st' = run_cost st.
Proof.
  intros Hev Hx. destruct ev as [a| | |ev| |ev| |d]; try done; cbn [proc_exec] in Hx.
  - destruct (own_event ev) eqn:Hown; [|done]. apply engine_obind in Hx as (e & He & ->).
    destruct (own_frame ev _ _ Hown He) as (Hc & _ & Hl & _). unfold run_cost. simpl. by rewrite Hc, Hl.
  - destruct (lf_serve (pr_engine st)); try done. destruct (pr_engineSent st); by simplify_eq.
  - destruct (pr_surface st) as [s|]; [|done]. cbn [mbind option_bind] in Hx.
    destruct (surface_exec ev s); [by simplify_eq|]. destruct ev; try done.
    destruct (surface_send s) as [[s' r]|]; by simplify_eq.
  - by simplify_eq.
  - destruct (d <? 0); by simplify_eq.
Qed.

Lemma run_step_cost ev st st' :
  proc_ok st -> run_event ev = true -> proc_exec ev st = Ok (Some st') -> (run_cost st' < run_cost st)%nat.
Proof.
  intros Hok Hev Hx. assert (owed_step st st') as Ho by (exists ev; split; [by destruct ev|done]).
  pose proof (owed_cost _ _ Hok Ho) as Hc. pose proof (run_event_others _ _ _ Hev Hx) as Hoth.
  rewrite !proc_cost_split in Hc. lia.
Qed.

(** *** What is left once [quit] is closed *)

Lemma quit_kept ev st st' :
  proc_exec ev st = Ok (Some st') -> lf_quit (pr_engine st) = true -> lf_quit (pr_engine st') = true.
Proof.
  intros Hx Hq. destruct ev as [a| | |ev| |ev| |d]; cbn [proc_exec] in Hx.
  - injection Hx as Hx. unfold select_exec in Hx. destruct (pr_main st), a; try done.
    + by destruct (pr_obsErr st); simpl in Hx; simplify_eq.
    + by destruct (pr_engineErr st); simpl in Hx; simplify_eq.
    + by destruct (pr_ctx st); simplify_eq.
  - unfold main_exec in Hx. destruct (pr_main st) as [|ev|ev dl|ev|ev dl|ev dl|ev dl|ev dl|ev|r]; try done.
    + apply engine_obind in Hx as (e & He & ->). by apply (call_event_others Shutdown) in He as (_ & _ & _ & Hk); [apply Hk|].
    + destruct (lf_calls (pr_engine st)) as [|[] ?]; simplify_eq; try done; apply engine_obind in Hx as (e & He & ->);
        by apply (call_event_others (DoCall 0)) in He as (_ & _ & _ & Hk); [apply Hk|].
    + by destruct (pr_surface st); simplify_eq.
    + by destruct (pr_surface st); simpl in Hx; simplify_eq.
    + by destruct (pr_surface st) as [s|]; simpl in Hx; [destruct (tracked s)|]; simplify_eq.
    + by destruct (pr_surface st); simpl in Hx; simplify_eq.
    + by destruct (pr_surface st) as [s|]; simpl in Hx; [destruct (su_active s =? 0)%nat|]; simplify_eq.
    + by destruct (pr_obsErr st); simpl in Hx; simplify_eq.
  - unfold deadline_exec in Hx. destruct (pr_main st); try done; destruct (pr_now st <? _); try done; [|by simplify_eq].
    apply engine_obind in Hx as (e & He & ->). by apply (call_event_others (Expire 0)) in He as (_ & _ & _ & Hk); [apply Hk|].
  - destruct (own_event ev) eqn:Hown; [|done]. apply engine_obind in Hx as (e & He & ->).
    destruct (own_frame ev _ _ Hown He) as (_ & Hqq & _). simpl. by rewrite Hqq.
  - destruct (lf_serve (pr_engine st)); try done. by destruct (pr_engineSent st); simplify_eq.
  - destruct (pr_surface st) as [s|]; [|done]. cbn [mbind option_bind] in Hx.
    destruct (surface_exec ev s); [by simplify_eq|]. destruct ev; try done.
    destruct (surface_send s) as [[s' r]|]; by simplify_eq.
  - by simplify_eq.
  - by destruct (d <? 0); simplify_eq.
Qed.

Lemma surface_event_cost ev s s' :
  surface_exec ev s = Some s' -> (surface_cost (su_pc s') <= surface_cost (su_pc s))%nat.
Proof.
  destruct s as [ls sh spc act idl]. intros Hx. destruct ev; simpl in *.
  - destruct spc; simplify_eq; simpl; [destruct sh; simpl; lia|destruct ls; simplify_eq; simpl; lia|lia].
  - destruct spc; try done. by destruct ls; simplify_eq.
  - destruct spc; try done. destruct ls; simplify_eq. simpl. lia.
  - by destruct act; simplify_eq.
  - by destruct idl; simplify_eq.
  - by destruct act; simplify_eq.
  - by destruct idl; simplify_eq.
Qed.

(** What the world does costs the process nothing more. *)
Lemma world_cost ev st st' :
  owed st ev = false -> lf_quit (pr_engine st) = true -> proc_exec ev st = Ok (Some st') ->
  (proc_cost st' <= proc_cost st)%nat.
Proof.
  intros Hev Hq Hx. unfold proc_cost. destruct ev as [a| | |ev| |ev| |d]; simpl in Hev; try done; cbn [proc_exec] in Hx.
  - congruence.
  - destruct (pr_surface st) as [s|] eqn:Hs; [|done]. cbn [mbind option_bind] in Hx.
    destruct (surface_exec ev s) as [s'|] eqn:Hs'; [|by destruct ev].
    simplify_eq. apply surface_event_cost in Hs'. simpl. lia.
  - by simplify_eq.
  - by destruct (d <? 0); simplify_eq.
Qed.

(** Any interleaving, counting the steps of one kind. *)
Inductive counted (P : process E -> event E -> bool) : nat -> process E -> process E -> Prop :=
| counted_nil st : counted P 0 st st
| counted_cons m ev st1 st2 st3 :
    proc_exec ev st1 = Ok (Some st2) -> counted P m st2 st3 ->
    counted P (if P st1 ev then S m else m) st1 st3.

Lemma counted_bound P (cost : process E -> nat) (I : process E -> Prop) m st st' :
  (forall ev st1 st2, I st1 -> proc_exec ev st1 = Ok (Some st2) -> I st2 /\ (cost st2 <= cost st1)%nat /\
    (P st1 ev = true -> (cost st2 < cost st1)%nat)) ->
  I st -> counted P m st st' -> (m <= cost st)%nat.
Proof.
  intros Hstep Hi Hc. revert Hi. induction Hc as [st|m ev st1 st2 st3 Hx _ IH]; intros Hi; [lia|].
  destruct (Hstep ev st1 st2 Hi Hx) as (Hi' & Hle & Hlt). specialize (IH Hi').
  destruct (P st1 ev); [specialize (Hlt eq_refl)|]; lia.
Qed.

Lemma proc_exec_after ev st st' : proc_ok st -> proc_exec ev st = Ok (Some st') -> proc_ok st'.
Proof. intros Hok Hx. pose proof (proc_exec_ok ev st Hok) as H. by rewrite Hx in H. Qed.

Lemma run_bounded m st st' : proc_ok st -> counted (fun _ => run_event) m st st' -> (m <= run_cost st)%nat.
Proof.
  apply (counted_bound _ run_cost proc_ok). intros ev st1 st2 Hok Hx. split; [by eapply proc_exec_after|].
  destruct (run_event ev) eqn:Hev.
  - pose proof (run_step_cost ev _ _ Hok Hev Hx). lia.
  - rewrite (other_event_run ev _ _ Hev Hx). done.
Qed.

Lemma drain_bounded m st st' :
  proc_ok st -> lf_quit (pr_engine st) = true -> counted owed m st st' -> (m <= proc_cost st)%nat.
Proof.
  intros Hok Hq. apply (counted_bound _ proc_cost (fun st => proc_ok st /\ lf_quit (pr_engine st) = true)); [|done].
  intros ev st1 st2 [Hok1 Hq1] Hx. split; [split; [by eapply proc_exec_after|by eapply quit_kept]|].
  destruct (owed st1 ev) eqn:Hev.
  - assert (owed_step st1 st2) as Ho by by exists ev. pose proof (owed_cost _ _ Hok1 Ho). lia.
  - split; [by eapply world_cost|done].
Qed.

(** *** A process that cannot move *)

(** Every step the process owes has been taken, or is blocked. *)
Definition stuck st : Prop := forall ev, owed st ev = true -> proc_exec ev st = Ok None.

Lemma stuck_calls st c :
  proc_ok st -> stuck st -> call_exec 0 (pr_engine st) = None -> lf_calls (pr_engine st) = [c] -> call_returned c.
Proof.
  intros Hok Hst Hno Hc. pose proof (po_life st Hok) as Hl. pose proof (lo_calls _ Hl) as Hcalls. rewrite Hc in Hcalls.
  inversion_clear Hcalls as [|? ? Hco _].
  assert (lf_quit (pr_engine st) = true -> call_returned c) as Hq.
  { intros Hq. apply (call_stuck (pr_engine st) 0); [|done|by rewrite Hc]. apply own_stuck; [done|done|].
    intros ev Hev. specialize (Hst (EngineStep ev) Hq). cbn [proc_exec] in Hst. rewrite Hev in Hst.
    destruct (life_exec_after ev _ Hl) as (r & Hr & _). rewrite Hr in Hst |- *. by destruct r. }
  destruct (pr_engine st) as [ls q sv wg spc lo ss calls]. simpl in *. subst calls. simpl in Hno.
  destruct c as [i| | | | |]; try done; by apply Hq, Hco || by apply Hq.
Qed.

Lemma stuck_surface pc obs s :
  surface_ok pc obs s -> surface_exec SuServe s = None -> surface_send s = None ->
  (tracked s = true /\ su_listening s = true) \/ exists r, su_pc s = SuSent r.
Proof.
  intros _ Hx Hsend. destruct s as [ls sh spc act idl]. unfold tracked, surface_send in *. simpl in *.
  destruct spc; try done; [|by right; eexists]. left. by destruct ls.
Qed.

Lemma stuck_main st :
  proc_ok st -> stuck st ->
  (exists r, pr_main st = MReturned r) \/
  (exists ev dl s, pr_main st = MWait ev dl /\ pr_surface st = Some s /\ (0 < su_active s)%nat /\
    pr_now st < dl <= pr_now st + shutdownTimeout) \/
  (pr_main st = MSelect /\ pr_ctx st = false /\ pr_obsErr st = None /\ pr_engineErr st = None /\
   forall s, pr_surface st = Some s -> tracked s = true /\ su_listening s = true).
Proof.
  intros Hok Hst. pose proof Hok as [Hl _ _ _ Hm Hsu]. unfold main_ok in Hm.
  pose proof (fun a => Hst (Select a) eq_refl) as Hsel. pose proof (Hst Main eq_refl) as Hmain.
  pose proof (Hst Deadline eq_refl) as Hdead. pose proof (Hst (SurfaceStep SuServe) eq_refl) as Hserve.
  cbn [proc_exec] in *. unfold select_exec, main_exec, deadline_exec in *.
  assert (forall s, pr_surface st = Some s -> surface_exec SuServe s = None /\ surface_send s = None) as Hsurf.
  { intros s Hs. rewrite Hs in Hserve. cbn [mbind option_bind] in Hserve.
    destruct (surface_exec SuServe s); [done|]. by destruct (surface_send s) as [[]|]. }
  destruct (pr_main st) as [|ev|ev dl|ev|ev dl|ev dl|ev dl|ev dl|ev|r] eqn:Hpc; [| | | | | | | | |by left; eexists].
  - right. right. pose proof (Hsel ContextArm) as Hctx. pose proof (Hsel SurfaceArm) as Hobs. pose proof (Hsel EngineArm) as Herr.
    simpl in Hctx, Hobs, Herr. destruct (pr_ctx st); [done|]. destruct (pr_obsErr st) as [o|]; [done|].
    destruct (pr_engineErr st); [done|]. split_and!; try done. intros s Hs. rewrite Hs in Hsu.
    destruct (Hsurf s Hs) as [Hx Hsend]. destruct (stuck_surface _ _ _ Hsu Hx Hsend) as [?|[r Hr]]; [done|].
    destruct Hsu as [Hp _]. unfold pc_ok in Hp. rewrite Hr in Hp. by destruct Hp as (_ & _ & [?|[_ []]]).
  - destruct (pr_engine st). by simpl in Hmain.
  - destruct Hm as ([c Hc] & _ & _). rewrite Hc in Hmain.
    assert (call_exec 0 (pr_engine st) = None) as Hno.
    { destruct (call_exec 0 (pr_engine st)) as [e|] eqn:He; [|done]. cbn [life_exec] in Hmain. rewrite He in Hmain. by destruct c. }
    destruct (stuck_calls st c Hok Hst Hno Hc) as [-> | ->]; done.
  - by destruct (pr_surface st).
  - destruct Hm as (_ & _ & _ & _ & [s Hs]). by rewrite Hs in Hmain.
  - destruct Hm as (_ & _ & _ & _ & [s Hs]). rewrite Hs in Hmain, Hsu. simpl in Hmain. destruct Hsu as [_ [_ Hd]].
    destruct (tracked s) eqn:Ht; [|done]. destruct (Hsurf s Hs) as [Hx _]. specialize (Hd eq_refl).
    destruct s as [ls sh spc act idl]. unfold tracked in Ht. simpl in *. subst ls. by destruct spc.
  - destruct Hm as (_ & _ & _ & _ & [s Hs]). by rewrite Hs in Hmain.
  - destruct Hm as (_ & _ & _ & Hdl & [s Hs]). rewrite Hs in Hmain. simpl in Hmain.
    destruct (Nat.eqb_spec (su_active s) 0); [done|]. right. left. exists ev, dl, s.
    destruct (Z.ltb_spec (pr_now st) dl); [|done]. split_and!; done || lia.
  - destruct Hm as (_ & _ & _ & [s Hs]). rewrite Hs in Hsu. destruct (Hsurf s Hs) as [Hx Hsend].
    pose proof Hsu as [Hp [_ Hd]]. destruct (stuck_surface _ _ _ Hsu Hx Hsend) as [[Ht _]|[r Hr]]; [congruence|].
    unfold pc_ok in Hp. rewrite Hr in Hp. destruct Hp as (_ & _ & [Ho|[_ []]]). by rewrite Ho in Hmain.
Qed.

End Progress.

(** ** From the select to the return *)

Section Settling.
Context {E : Type}.
Implicit Types (s : surface E) (st : process E).

(** What the select receives when it takes arm [a]. *)
Definition received (a : arm) st : option (ended E) :=
  match a with
  | SurfaceArm => SurfaceEnded <$> pr_obsErr st
  | EngineArm => EngineEnded <$> pr_engineErr st
  | ContextArm => if pr_ctx st then Some Signalled else None
  end.

(** The surface's drain, begun after [st1], was given the whole of its timeout and
    overran it. *)
Definition overran (st1 st : process E) : Prop :=
  exists st2 st3, rtc proc_step st1 st2 /\ pr_main st2 = MShutdown Signalled /\
    rtc proc_step st2 st3 /\ pr_main st3 = MWait Signalled (pr_now st2 + shutdownTimeout) /\
    pr_now st2 + shutdownTimeout <= pr_now st3 /\ rtc proc_step st3 st.

(** What [run] returns once it has received [ev]. *)
Definition settled (st1 : process E) (ev : ended E) (r : option (run_error E)) st : Prop :=
  match ev with
  | SurfaceEnded (Some err) => r = Some (RunSurface err)
  | SurfaceEnded None => r = Some RunSurfaceStopped
  | EngineEnded (Some err) => r = Some (RunEngine err)
  | EngineEnded None => r = Some RunEngineStopped
  | Signalled =>
      match pr_surface st with
      | None => r = None
      | Some s => (exists res, su_pc s = SuSent res /\ r = RunServe <$> res) \/ (r = None /\ overran st1 st)
      end
  end.

Definition draining (st1 : process E) (ev e : ended E) (dl : Z) st : Prop :=
  e = ev /\ exists st2, rtc proc_step st1 st2 /\ pr_main st2 = MShutdown ev /\
    dl = pr_now st2 + shutdownTimeout /\ rtc proc_step st2 st.

Definition trail (st1 : process E) (ev : ended E) st : Prop :=
  match pr_main st with
  | MSelect => False
  | MStop e | MStopping e _ | MShutdown e | MRecv e => e = ev
  | MClose e dl | MGroup e dl | MPoll e dl | MWait e dl => draining st1 ev e dl st
  | MReturned r => settled st1 ev r st
  end.

(** What everybody but [run] leaves it. *)
Record run_frame st st' : Prop := {
  rf_main : pr_main st' = pr_main st;
  rf_none : pr_surface st = None -> pr_surface st' = None;
  rf_some : forall s, pr_surface st = Some s -> exists s', pr_surface st' = Some s' /\
    forall r, su_pc s = SuSent r -> su_pc s' = SuSent r
}.

Lemma same_surface_frame st st' :
  pr_main st' = pr_main st -> pr_surface st' = pr_surface st -> run_frame st st'.
Proof. intros ? Hs. split; rewrite ?Hs; naive_solver. Qed.

Lemma other_event_frame ev st st' :
  run_event ev = false -> proc_exec ev st = Ok (Some st') -> run_frame st st'.
Proof.
  intros Hev Hx. destruct ev as [a| | |ev| |ev| |d]; try done; cbn [proc_exec] in Hx.
  - destruct (own_event ev); [|done]. apply engine_obind in Hx as (e & _ & ->). by apply same_surface_frame.
  - destruct (lf_serve (pr_engine st)); try done. destruct (pr_engineSent st); simplify_eq. by apply same_surface_frame.
  - destruct (pr_surface st) as [s|] eqn:Hs; [|done]. cbn [mbind option_bind] in Hx.
    assert (forall s', (forall r, su_pc s = SuSent r -> su_pc s' = SuSent r) -> pr_surface st' = Some s' ->
      pr_main st' = pr_main st -> run_frame st st') as Hgo.
    { intros s' Hsent Hs' Hm. split; [done|by rewrite Hs|]. intros s0. rewrite Hs. intros [= <-]. by exists s'. }
    destruct (surface_exec ev s) as [s'|] eqn:Hx'.
    + simplify_eq. apply (Hgo s'); [|done..]. intros r. by apply surface_exec_sent with (1 := Hx').
    + destruct ev; try done. destruct (surface_send s) as [[s' r]|] eqn:Hsend; simplify_eq.
      apply (Hgo s'); [|done..]. intros r' Hpc. unfold surface_send in Hsend. by rewrite Hpc in Hsend.
  - simplify_eq. by apply same_surface_frame.
  - destruct (d <? 0); simplify_eq. by apply same_surface_frame.
Qed.

Lemma overran_step st1 st st' : overran st1 st -> proc_step st st' -> overran st1 st'.
Proof. intros (st2 & st3 & ? & ? & ? & ? & ? & ?) Hx. exists st2, st3. split_and!; try done. by eapply rtc_r. Qed.

Lemma draining_step st1 ev e dl st st' : draining st1 ev e dl st -> proc_step st st' -> draining st1 ev e dl st'.
Proof. intros (He & st2 & ? & ? & ? & ?) Hx. split; [done|]. exists st2. split_and!; try done. by eapply rtc_r. Qed.

Lemma trail_frame st1 ev st st' :
  run_frame st st' -> proc_step st st' -> trail st1 ev st -> trail st1 ev st'.
Proof.
  intros [Hm Hnone Hsome] Hx. unfold trail. rewrite Hm.
  destruct (pr_main st); try done; try (intros Hd; by apply (draining_step _ _ _ _ st)).
  unfold settled. destruct ev as [[]|[]|]; try done.
  destruct (pr_surface st) as [s|]; [|by rewrite Hnone].
  destruct (Hsome s eq_refl) as (s' & -> & Hsent). intros [(res & Hpc & ->)|[-> Ho]]; [left; eauto|right].
  split; [done|by eapply overran_step].
Qed.

Lemma draining_move st1 ev e dl st st' pc' :
  draining st1 ev e dl st -> proc_step st st' -> pr_main st' = pc' ->
  match pc' with MClose e' d | MGroup e' d | MPoll e' d | MWait e' d => e' = e /\ d = dl | MRecv e' => e' = e | _ => False end ->
  trail st1 ev st'.
Proof.
  intros Hd Hx Hm Hpc. pose proof (draining_step _ _ _ _ _ _ Hd Hx) as Hd'. unfold trail. rewrite Hm.
  destruct pc'; try done; [by destruct Hpc as [-> ->]..|]. rewrite Hpc. apply Hd.
Qed.

(** [run]'s own steps past the select. *)
Lemma trail_main st1 ev st st' :
  proc_ok st -> rtc proc_step st1 st -> trail st1 ev st -> main_exec st = Ok (Some st') -> trail st1 ev st'.
Proof.
  intros Hok Hr Ht Hx. assert (proc_step st st') as Hstep by by exists Main.
  pose proof (po_main _ Hok) as Hm. pose proof (po_surface _ Hok) as Hsu. unfold main_ok in Hm. unfold trail in Ht.
  unfold main_exec in Hx. destruct (pr_main st) as [|e|e dl|e|e dl|e dl|e dl|e dl|e|r] eqn:Hpc; try done.
  - apply engine_obind in Hx as (x & _ & ->). done.
  - assert (forall x, trail st1 ev (set_engine x st)) as Hset by (intros x; unfold trail; simpl; by rewrite Hpc).
    assert (trail st1 ev (set_main (after_stop e) st)) as Hret.
    { subst e. unfold trail. by destruct ev as [[]|[]|]. }
    destruct (lf_calls (pr_engine st)) as [|[] ?]; simplify_eq; try done; apply engine_obind in Hx as (x & _ & ->); apply Hset.
  - destruct Hm as (_ & -> & _). subst ev. destruct (pr_surface st) as [s|] eqn:Hs; simplify_eq; unfold trail; simpl.
    + split; [done|]. exists st. split_and!; try done. by apply rtc_once.
    + by rewrite Hs.
  - destruct (pr_surface st) as [s|]; simpl in Hx; simplify_eq. by eapply draining_move.
  - destruct (pr_surface st) as [s|]; simpl in Hx; [destruct (tracked s)|]; simplify_eq. by eapply draining_move.
  - destruct (pr_surface st) as [s|]; simpl in Hx; simplify_eq.
    eapply draining_move; [done|done|simpl; reflexivity|]. by destruct (su_active s =? 0)%nat.
  - destruct (pr_surface st) as [s|]; simpl in Hx; [destruct (su_active s =? 0)%nat|]; simplify_eq. by eapply draining_move.
  - destruct Hm as (_ & -> & _ & [s Hs]). subst ev. rewrite Hs in Hsu. destruct Hsu as [Hp _].
    destruct (pr_obsErr st) as [r|]; simpl in Hx; simplify_eq. unfold trail, after_shutdown. simpl. rewrite Hs. left.
    exists r. split; [by eapply obs_sent|done].
Qed.

Lemma trail_deadline st1 ev st st' :
  proc_ok st -> trail st1 ev st -> deadline_exec st = Ok (Some st') -> trail st1 ev st'.
Proof.
  intros Hok Ht Hx. assert (proc_step st st') as Hstep by by exists Deadline.
  pose proof (po_main _ Hok) as Hm. unfold main_ok in Hm. unfold trail in Ht.
  unfold deadline_exec in Hx. destruct (pr_main st) as [|e|e dl|e|e dl|e dl|e dl|e dl|e|r] eqn:Hpc; try done;
    destruct (Z.ltb_spec (pr_now st) dl); try done.
  - apply engine_obind in Hx as (x & _ & ->). unfold trail. simpl. by rewrite Hpc.
  - destruct Hm as (_ & -> & _ & _ & [s Hs]). destruct Ht as (<- & st2 & H1 & H2 & -> & H3). simplify_eq.
    unfold trail, after_shutdown. simpl. rewrite Hs. right. split; [done|]. exists st2, st. split_and!; try done.
    by apply rtc_once.
Qed.

Lemma trail_step st1 ev st st' :
  proc_ok st -> rtc proc_step st1 st -> trail st1 ev st -> proc_step st st' -> trail st1 ev st'.
Proof.
  intros Hok Hr Ht Hstep. pose proof Hstep as [e Hx]. destruct (run_event e) eqn:He.
  - destruct e as [a| | |e| |e| |d]; try done; cbn [proc_exec] in Hx; [|by eapply trail_main|by eapply trail_deadline].
    injection Hx as Hx. unfold select_exec in Hx. unfold trail in Ht. by destruct (pr_main st).
  - apply (trail_frame _ _ st); [|done|done]. by eapply other_event_frame.
Qed.

Lemma trail_rtc st1 ev st : proc_ok st1 -> trail st1 ev st1 -> rtc proc_step st1 st -> trail st1 ev st.
Proof.
  intros Hok Ht Hr. enough (proc_ok st /\ trail st1 ev st) as [_ ?] by done.
  revert st Hr. apply rtc_ind_r; [done|]. intros st2 st3 Hr Hx [Hok2 Ht2]. split.
  - destruct Hx as [e Hx]. by eapply proc_exec_after.
  - by eapply trail_step.
Qed.

(** The select moves [run] on with what it received. *)
Lemma select_received a st st1 : select_exec a st = Some st1 ->
  pr_main st = MSelect /\ exists ev, received a st = Some ev /\ trail st1 ev st1.
Proof.
  unfold select_exec, received. intros Hx. destruct (pr_main st), a; try done; (split; [done|]).
  - destruct (pr_obsErr st); simpl in *; simplify_eq. by eexists.
  - destruct (pr_engineErr st); simpl in *; simplify_eq. by eexists.
  - destruct (pr_ctx st); simplify_eq. by eexists.
Qed.

(** Leaving the select is the select's doing. *)
Lemma left_select st0 st :
  rtc proc_step st0 st -> pr_main st0 = MSelect -> pr_main st <> MSelect ->
  exists a st1 st2, rtc proc_step st0 st1 /\ select_exec a st1 = Some st2 /\ rtc proc_step st2 st.
Proof.
  intros Hr H0. revert st Hr. refine (rtc_ind_r (fun st => _ -> _) _ _ _); [done|]. intros st1 st2 Hr Hx IH H2.
  destruct (pr_main st1) eqn:H1; try by (destruct IH as (a & x & y & ? & ? & ?); [done|];
    exists a, x, y; split_and!; [done..|by eapply rtc_r]).
  destruct Hx as [ev Hx]. destruct (run_event ev) eqn:He.
  - destruct ev as [a| | |ev| |ev| |d]; try done; cbn [proc_exec] in Hx; [|unfold main_exec in Hx|unfold deadline_exec in Hx];
      rewrite ?H1 in Hx; try done. injection Hx as Hx. by exists a, st1, st2.
  - pose proof (rf_main _ _ (other_event_frame _ _ _ He Hx)). congruence.
Qed.

(** At the select of a sound process, the surface's result is an error and the engine's is not there. *)
Lemma received_ok a st ev : proc_ok st -> pr_main st = MSelect -> received a st = Some ev ->
  match ev with
  | SurfaceEnded r => pr_obsErr st = Some r /\ is_Some r
  | EngineEnded _ => False
  | Signalled => pr_ctx st = true
  end.
Proof.
  intros Hok Hpc Hrec. assert (exists st1, select_exec a st = Some st1) as [st1 Hx].
  { unfold select_exec. rewrite Hpc. unfold received in Hrec. destruct a.
    - destruct (pr_obsErr st); [by eexists|done].
    - destruct (pr_engineErr st); [by eexists|done].
    - destruct (pr_ctx st); [by eexists|done]. }
  pose proof (select_ok a st Hok) as Hok1. cbn [proc_exec] in Hok1. rewrite Hx in Hok1. simpl in Hok1.
  pose proof (po_main _ Hok1) as Hm. unfold select_exec in Hx. rewrite Hpc in Hx. unfold received in Hrec. destruct a.
  - destruct (pr_obsErr st) as [r|] eqn:Hobs; simpl in *; simplify_eq. destruct Hm as (_ & err & s & -> & _). done.
  - destruct (pr_engineErr st); simpl in *; simplify_eq. by destruct Hm as (_ & Hm & _).
  - by destruct (pr_ctx st); simplify_eq.
Qed.

End Settling.

(** ** A process that has returned *)

Lemma returned_ok {E} n srv now (st : process E) r :
  rtc proc_step (started_process n srv now) st -> pr_main st = MReturned r ->
  proc_ok st /\ stopped st /\ result_ok r st.
Proof.
  intros Hr Hpc. pose proof (proc_rtc_ok _ _ (started_ok n srv now) Hr) as Hok. split; [done|].
  pose proof (po_main _ Hok) as Hm. unfold main_ok in Hm. by rewrite Hpc in Hm.
Qed.

Lemma returned_stopped {E} n srv now (st : process E) r :
  rtc proc_step (started_process n srv now) st -> pr_main st = MReturned r ->
  Forall (eq false) (lf_listening (pr_engine st)) /\ lf_quit (pr_engine st) = true.
Proof.
  intros Hr Hpc. destruct (returned_ok n srv now st r Hr Hpc) as (Hok & Hstop & _).
  pose proof (po_life _ Hok) as Hl. pose proof (stopped_quit st Hl Hstop) as Hq. split; [by apply lo_quit|done].
Qed.

Lemma returned_surface {E} n srv now (st : process E) r :
  rtc proc_step (started_process n srv now) st -> pr_main st = MReturned r ->
  forall s, pr_surface st = Some s -> su_listening s = false \/ exists err, su_pc s = SuUntracked err.
Proof.
  intros Hr Hpc s Hs. destruct (returned_ok n srv now st r Hr Hpc) as (Hok & _).
  pose proof (po_surface _ Hok) as Hsu. rewrite Hs, Hpc in Hsu. destruct Hsu as [Hp [Ht Hb]]. unfold pc_ok, tracked in *.
  destruct (su_pc s); try done; [right; by eexists|left; apply Hp..].
Qed.

Lemma returned_settled {E} n srv now (st0 st1 st : process E) a r :
  rtc proc_step (started_process n srv now) st0 -> select_exec a st0 = Some st1 -> rtc proc_step st1 st ->
  pr_main st = MReturned r ->
  match a with
  | SurfaceArm => exists err, pr_obsErr st0 = Some (Some err) /\ r = Some (RunSurface err)
  | EngineArm => False
  | ContextArm => pr_ctx st0 = true /\ settled st1 Signalled r st
  end.
Proof.
  intros Hr Hx Hr1 Hpc. pose proof (proc_rtc_ok _ _ (started_ok n srv now) Hr) as Hok.
  destruct (select_received _ _ _ Hx) as (Hsel & ev & Hrec & Ht).
  assert (proc_ok st1) as Hok1 by (eapply (proc_exec_after (Select a)); [done|]; cbn [proc_exec]; by rewrite Hx).
  pose proof (trail_rtc _ _ _ Hok1 Ht Hr1) as Ht'. unfold trail in Ht'. rewrite Hpc in Ht'.
  pose proof (received_ok a st0 ev Hok Hsel Hrec) as Hrok. unfold received in Hrec. destruct a.
  - destruct (pr_obsErr st0); simpl in Hrec; simplify_eq. destruct Hrok as [_ [err ->]]. by exists err.
  - by destruct (pr_engineErr st0); simpl in Hrec; simplify_eq.
  - by destruct (pr_ctx st0); simplify_eq.
Qed.

(** C22: what [run] returns and what it leaves.  Whatever the interleaving of [run],
    the engine, the surface and the world, and wherever the deadlines fall: when
    [run] has returned, the SMPP listeners are closed and the engine told to stop,
    no session runs or will run unless the engine's drain overran its deadline, and
    the surface's serving goroutine has left its accept loop for good.

    [run] has come through its select by one of the arms, and what it returns is
    what that arm calls for.  The surface's arm received the error [Serve] ended
    with, and [run] returns it as the surface's, signalled meanwhile or not.  The
    engine's arm is never the one.  The context's arm was taken once a signal had
    come: with no surface [run] returns nil; with one it returns what the surface's
    [Serve] ended with (nil, or the error its [Accept] reported), or nil when the
    surface's drain, given the whole of [shutdownTimeout], overran it. *)
Theorem run_outcome {E} n srv now (st : process E) r :
  rtc proc_step (started_process n srv now) st -> pr_main st = MReturned r ->
  Forall (eq false) (lf_listening (pr_engine st)) /\ lf_quit (pr_engine st) = true /\
  (ClExpired ∈ lf_calls (pr_engine st) \/
   forall e, rtc life_step (pr_engine st) e -> Forall (eq SeDone) (lf_sessions e)) /\
  (forall s, pr_surface st = Some s -> su_listening s = false \/ exists err, su_pc s = SuUntracked err) /\
  (exists a st0 st1, rtc proc_step (started_process n srv now) st0 /\ select_exec a st0 = Some st1 /\ rtc proc_step st1 st) /\
  (forall a st0 st1, rtc proc_step (started_process n srv now) st0 -> select_exec a st0 = Some st1 -> rtc proc_step st1 st ->
   match a with
   | SurfaceArm => exists err, pr_obsErr st0 = Some (Some err) /\ r = Some (RunSurface err)
   | EngineArm => False
   | ContextArm => pr_ctx st0 = true /\
       match pr_surface st with
       | None => r = None
       | Some s => (exists res, su_pc s = SuSent res /\ r = RunServe <$> res) \/ (r = None /\ overran st1 st)
       end
   end).
Proof.
  intros Hr Hpc. destruct (returned_ok n srv now st r Hr Hpc) as (Hok & (c & Hc & Hcl) & _).
  split_and!; [by eapply returned_stopped..| |by eapply returned_surface| |].
  - pose proof (po_life _ Hok) as Hl. destruct Hcl as [-> | ->]; rewrite Hc; [right|left; by left]. intros e He.
    destruct (reports_deserted _ Hl) as [_ Hd]; [right; rewrite Hc; by left|].
    by destruct (deserted_rtc _ e Hl (proj2 (returned_stopped n srv now st r Hr Hpc)) Hd He).
  - destruct (left_select _ _ Hr eq_refl) as (a & st1 & st2 & ? & ? & ?); [by rewrite Hpc|]. by exists a, st1, st2.
  - intros a st0 st1 Hr0 Hx Hr1. by apply (returned_settled n srv now st0 st1 st a r).
Qed.

(** C23: a process whose end has come stops.  In every state the process can reach,
    no step of any goroutine panics.  [run]'s own goroutine takes boundedly many
    steps in any interleaving with the others; once it has told the engine to stop,
    so do all the process's goroutines together, whatever requests, connections and
    signals still arrive.  And a process in which nothing it owes can move has
    returned; or is in the surface's drain with a request in progress and at most
    [shutdownTimeout] left to wait; or is at its select with nothing to receive: no
    signal has come, neither channel holds a result, and its surface, if it has
    one, is serving.  So it cannot sit at its select with an end pending. *)
Theorem run_returns {E} n srv now (st : process E) :
  rtc proc_step (started_process n srv now) st ->
  (forall ev, proc_exec ev st <> Panic) /\
  (forall m st', counted (fun _ => run_event) m st st' -> (m <= run_cost st)%nat) /\
  (lf_quit (pr_engine st) = true -> forall m st', counted owed m st st' -> (m <= proc_cost st)%nat) /\
  (stuck st ->
   (exists r, pr_main st = MReturned r) \/
   (exists ev dl s, pr_main st = MWait ev dl /\ pr_surface st = Some s /\ (0 < su_active s)%nat /\
     pr_now st < dl <= pr_now st + shutdownTimeout) \/
   (pr_main st = MSelect /\ pr_ctx st = false /\ pr_obsErr st = None /\ pr_engineErr st = None /\
    forall s, pr_surface st = Some s -> tracked s = true /\ su_listening s = true)).
Proof.
  intros Hr. pose proof (proc_rtc_ok _ _ (started_ok n srv now) Hr) as Hok. split_and!.
  - intros ev Hx. pose proof (proc_exec_ok ev st Hok) as H. by rewrite Hx in H.
  - intros m st'. by apply run_bounded.
  - intros Hq m st'. by apply drain_bounded.
  - by apply stuck_main.
Qed.

Section Examples.
Open Scope string_scope.

(** The surface's [Accept] fails after the signal and before the drain reads its
    result: the error surfaces in the exit. *)
Definition fails_while_stopping : list (event string) :=
  [SurfaceStep SuServe; Signal; Select ContextArm; SurfaceStep (SuFail "accept"); SurfaceStep SuServe] ++
  replicate 7 Main ++ [SurfaceStep SuServe; Main; Main; Main; Main].

Definition the_server : server := mkServer 8080 true true.

Lemma run_outcome_witness :
  exists st st0 st1, proc_run fails_while_stopping (started_process 1 (Some the_server) 0) = Ok (Some st) /\
    proc_run (take 2 fails_while_stopping) (started_process 1 (Some the_server) 0) = Ok (Some st0) /\
    select_exec ContextArm st0 = Some st1 /\
    pr_main st = MReturned (Some (RunServe "accept")) /\ Forall (eq false) (lf_listening (pr_engine st)) /\
    match pr_surface st with
    | None => False
    | Some s => (exists res, su_pc s = SuSent res /\ Some (RunServe "accept") = RunServe <$> res) \/ overran st1 st
    end.
Proof.
  eexists _, _, _. split; [vm_compute; reflexivity|]. split; [vm_compute; reflexivity|]. split; [vm_compute; reflexivity|].
  split; [reflexivity|].
  assert (rtc proc_step (started_process 1 (Some the_server) 0) _) as Hr
    by (refine (proc_run_rtc fails_while_stopping _ _ _); vm_compute; reflexivity).
  pose proof (run_outcome 1 (Some the_server) 0 _ _ Hr eq_refl) as (H1 & _ & _ & _ & _ & H2).
  split; [exact H1|].
  assert (rtc proc_step (started_process 1 (Some the_server) 0) _) as Hr0
    by (refine (proc_run_rtc (take 2 fails_while_stopping) _ _ _); vm_compute; reflexivity).
  specialize (H2 ContextArm _ _ Hr0 eq_refl).
  destruct H2 as [_ [Hsent|[_ Ho]]]; [|left; exact Hsent|right; exact Ho].
  refine (proc_run_rtc (drop 3 fails_while_stopping) _ _ _). vm_compute. reflexivity.
Defined.

(** A request that is still being answered when the engine has stopped. *)
Definition busy_surface : list (event string) :=
  [SurfaceStep SuServe; SurfaceStep SuAccept; Signal; Select ContextArm] ++ replicate 6 Main ++
  [Main; Main; SurfaceStep SuServe; Main; Main; SurfaceStep SuServe; SurfaceStep SuServe; Tick (4 * 10 ^ 9)].

Lemma run_returns_witness :
  exists st, proc_run busy_surface (started_process 1 (Some the_server) 0) = Ok (Some st) /\
    pr_main st = MWait Signalled (5 * 10 ^ 9) /\ lf_quit (pr_engine st) = true /\
    (forall m st', counted owed m st st' -> (m <= 11)%nat) /\
    option_map pr_main (from_option id None (match proc_run [Tick (10 ^ 9); Deadline] st with Ok r => Some r | _ => None end)) =
      Some (MReturned None).
Proof.
  eexists. split; [vm_compute; reflexivity|]. split; [reflexivity|]. split; [reflexivity|]. split; [|vm_compute; reflexivity].
  assert (rtc proc_step (started_process 1 (Some the_server) 0) _) as Hr
    by (refine (proc_run_rtc busy_surface _ _ _); vm_compute; reflexivity).
  exact (proj1 (proj2 (proj2 (run_returns 1 (Some the_server) 0 _ Hr))) eq_refl).
Defined.

End Examples.
