(* ===== verification/Entry.v ===== *)
(** * The entry point ([main] of [cmd/smsc-simulator/main.go])

    The command line as package [flag] parses it, and the exit of the process: by
    its flags alone, by a boot that fails ([Boot]), or by what [run] returns when
    the booted process ([Process]) stops. *)

From Stdlib Require Import Ascii.
From S2P Require Import Prelude.
From S2P Require Import Rng.
From S2P Require Import Config.
From S2P Require Import Validate.
From S2P Require Import ValidateThms.
From S2P Require Import VirtualSMSC.
From S2P Require Import TLSCert.
From S2P Require Import Boot.
From S2P Require Import Lifecycle.
From S2P Require Import Process.
From S2P Require Import ProcessThms.

#[local] Open Scope string_scope.
#[local] Open Scope list_scope.

(** ** The command line *)

Record flags := mkFlags { fl_configPath : string; fl_showVersion : bool }.

Inductive flag_error := BadSyntax (arg : string) | NotDefined (name : string)
| NeedsArgument (name : string) | InvalidBool (value : string).

(** What [flag.Parse] ends with: the flags, a request for help, or an error. *)
Inductive parse_result := Parsed (f : flags) (rest : list string) | ErrHelp | FlagError (err : flag_error).

(** [strconv.ParseBool]. *)
Definition ParseBool (s : string) : option bool :=
  if bool_decide (s ∈ ["1"; "t"; "T"; "true"; "TRUE"; "True"]) then Some true
  else if bool_decide (s ∈ ["0"; "f"; "F"; "false"; "FALSE"; "False"]) then Some false
  else None.

(** The name and the value of [name=value], cut at its first [=] but for the first
    character. *)
Fixpoint cut_equals (s : string) : string * option string :=
  match s with
  | "" => ("", None)
  | String c s =>
      if Ascii.eqb c "="%char then ("", Some s)
      else let '(name, value) := cut_equals s in (String c name, value)
  end.

Inductive argument := NotAFlag | Terminator | BadFlag | Flag (name : string) (value : option string).

Definition named (s : string) : argument :=
  match s with
  | "" => BadFlag
  | String c s' =>
      if Ascii.eqb c "-"%char || Ascii.eqb c "="%char then BadFlag
      else let '(name, value) := cut_equals s' in Flag (String c name) value
  end.

(** One or two dashes; a lone dash is not a flag, and [--] ends them. *)
Definition classify (s : string) : argument :=
  match s with
  | String c (String c' s') =>
      if Ascii.eqb c "-"%char then
        if Ascii.eqb c' "-"%char then (if String.eqb s' "" then Terminator else named s')
        else named (String c' s')
      else NotAFlag
  | _ => NotAFlag
  end.

(** [parseOne] until it stops. *)
Fixpoint Parse (args : list string) (f : flags) : parse_result :=
  match args with
  | [] => Parsed f []
  | s :: rest =>
      match classify s with
      | NotAFlag => Parsed f args
      | Terminator => Parsed f rest
      | BadFlag => FlagError (BadSyntax s)
      | Flag name value =>
          if String.eqb name "version" then
            match value with
            | None => Parse rest (mkFlags (fl_configPath f) true)
            | Some v =>
                match ParseBool v with
                | Some b => Parse rest (mkFlags (fl_configPath f) b)
                | None => FlagError (InvalidBool v)
                end
            end
          else if String.eqb name "config" then
            match value, rest with
            | Some v, _ => Parse rest (mkFlags v (fl_showVersion f))
            | None, v :: rest => Parse rest (mkFlags v (fl_showVersion f))
            | None, [] => FlagError (NeedsArgument name)
            end
          else if String.eqb name "help" || String.eqb name "h" then ErrHelp
          else FlagError (NotDefined name)
      end
  end.

Definition parse_flags (args : list string) : parse_result := Parse args (mkFlags "" false).

(** ** The exit *)

(** The error a line on the standard error ends with: package [flag]'s own, or the
    one [main] prints after [smsc-simulator:]. *)
Inductive reported (E : Type) :=
| ReportedFlag (err : flag_error) | ReportedBoot (err : boot_error) | ReportedRun (err : run_error E).
Arguments ReportedFlag {E}. Arguments ReportedBoot {E}. Arguments ReportedRun {E}.

(** The status, the lines [fmt.Println] prints, the error reported, and whether the
    usage is printed. *)
Record exit (E : Type) := mkExit {
  ex_status : Z;
  ex_printed : list string;
  ex_reported : option (reported E);
  ex_usage : bool
}.
Arguments mkExit {E}. Arguments ex_status {E}. Arguments ex_printed {E}. Arguments ex_reported {E}. Arguments ex_usage {E}.

Definition versionLine (version : string) : string := "smsc-simulator " +:+ version.

(** [main] up to [run]: an exit, or the configuration path. *)
Definition main_flags {E} (version : string) (args : list string) : exit E + string :=
  match parse_flags args with
  | ErrHelp => inl (mkExit 0 [] None true)
  | FlagError err => inl (mkExit 2 [] (Some (ReportedFlag err)) true)
  | Parsed f _ =>
      if fl_showVersion f then inl (mkExit 0 [versionLine version] None false) else inr (fl_configPath f)
  end.

Definition exit_boot {E} (err : boot_error) : exit E :=
  mkExit 1 [] (Some (ReportedBoot err)) (match err with ErrNoConfigPath => true | _ => false end).

Definition exit_run {E} (r : option (run_error E)) : exit E :=
  match r with None => mkExit 0 [] None false | Some err => mkExit 1 [] (Some (ReportedRun err)) false end.

(** The ports the process still listens on. *)
Definition open_ports {E cert} (e : engine cert) (srv : option server) (st : process E) : gset Z :=
  list_to_set (snd <$> base.filter (fun p => p.1 = true) (zip (lf_listening (pr_engine st)) (ho_addr <$> e_smscs e))) ∪
  match srv, pr_surface st with
  | Some s, Some su => if su_listening su then {[srv_addr s]} else ∅
  | _, _ => ∅
  end.

Section Entry.
Context {entropy key der leaf file decoder : Type} {E : Type}.
Context (pf : platform entropy key der leaf file decoder) (version : string).

(** The ways the process exits, with the ports it then listens on. *)
Inductive main_exits (args : list string) (h : host entropy) : exit E -> gset Z -> Prop :=
| exits_by_flags x : main_flags version args = inl x -> main_exits args h x (h_open h)
| exits_unbooted path err h' :
    main_flags (E := E) version args = inr path -> run_boot pf path h = (Err err, h') ->
    main_exits args h (exit_boot err) (h_open h')
| exits_returned path cfg e srv h' (st : process E) r :
    main_flags (E := E) version args = inr path -> run_boot pf path h = (Ok (cfg, e, srv), h') ->
    rtc proc_step (started_process (length (e_smscs e)) srv (p_now pf)) st -> pr_main st = MReturned r ->
    main_exits args h (exit_run r) (open_ports e srv st).

End Entry.

(** ** The command line, by example and in general *)

(** Both spellings of a flag, with one dash or two, carry any value verbatim. *)
Lemma config_forms path f rest :
  Parse ("-config" :: path :: rest) f = Parse rest (mkFlags path (fl_showVersion f)) /\
  Parse (("-config=" +:+ path) :: rest) f = Parse rest (mkFlags path (fl_showVersion f)) /\
  Parse ("--config" :: path :: rest) f = Parse rest (mkFlags path (fl_showVersion f)) /\
  Parse (("--config=" +:+ path) :: rest) f = Parse rest (mkFlags path (fl_showVersion f)).
Proof. done. Qed.

(** Parsing stops at the first argument that is not a flag. *)
Lemma Parse_stops s rest f : classify s = NotAFlag -> Parse (s :: rest) f = Parsed f (s :: rest).
Proof. intros Hs. simpl. by rewrite Hs. Qed.

(** ** Which error asks for the usage *)

Section Usage.
Context {entropy key der leaf file decoder : Type}.
Context (pf : platform entropy key der leaf file decoder).
Implicit Types (h : host entropy).

Lemma open_listeners_error cfgs certs e h err h' :
  open_listeners pf cfgs certs e h = (Err err, h') -> exists port name, err = ListenError port name.
Proof.
  revert e h. induction cfgs as [|cfg cfgs IH]; intros e h Hx; cbn [open_listeners] in Hx; [done|].
  pose proof (Listen_cases pf (VS_Port cfg) (ListenError (VS_Port cfg) (VS_Name cfg)) h) as Hl.
  destruct (Listen _ _ _ h) as [[addr|lerr|] h1]; [by apply IH in Hx| |done].
  destruct Hl as (-> & _ & _). unfold M_bind, closeListeners in Hx.
  destruct (close_all_run (e_smscs e) h1) as (h2 & Hc & _). rewrite Hc in Hx. injection Hx as <- _. by do 2 eexists.
Qed.

Lemma New_error cfgs h err h' :
  New pf cfgs h = (Err err, h') -> err <> ErrNoConfigPath.
Proof.
  unfold New, M_bind. intros Hx.
  pose proof (load_certs_cases pf cfgs cfgs ∅ h (fun _ H => H)) as Hc.
  destruct (load_certs pf cfgs ∅ h) as [[certs|lerr|] h1]; [by apply open_listeners_error in Hx as (? & ? & ->)| |done].
  destruct Hc as (_ & vs & te & _ & _ & -> & _); [by intros ? ? ?|]. by injection Hx as <- _.
Qed.

Lemma Load_no_path (path : string) h h' : Load pf path h = (Err ErrNoConfigPath, h') -> path = "".
Proof.
  unfold Load, M_bind, decode. destruct (String.eqb_spec path ""); [done|].
  destruct (os_Open _ path) as [f|]; [|done].
  assert (forall cfg h, (validated pf cfg h).1 <> Err ErrNoConfigPath) as Hv
    by (intros cfg h0; unfold validated; by destruct (validate _ _ cfg)).
  destruct (Decode _ _) as [[cfg| |] dec]; [|by intros Hx; destruct (Hv (mkConfig None []) h); simpl in Hx; rewrite Hx|done].
  destruct (DecodeNode _ dec) as [[| |] ?]; try done. intros Hx. destruct (Hv cfg h). simpl in Hx. by rewrite Hx.
Qed.

Lemma boot_no_path (path : string) h err h' :
  run_boot pf path h = (Err err, h') -> err = ErrNoConfigPath <-> path = "".
Proof.
  intros Hx. unfold run_boot, M_bind at 1 in Hx. destruct (String.eqb_spec path "") as [->|Hne].
  { by injection Hx as <- _. }
  split; [intros ->|done]. destruct (Load pf path h) as [[cfg|lerr|] h1] eqn:Hload; [|by simplify_eq; apply Load_no_path in Hload|done].
  unfold M_bind at 1 in Hx. rewrite newMetrics_ok in Hx. unfold M_bind at 1 in Hx.
  destruct (New pf _ h1) as [[e|nerr|] h2] eqn:Hnew; [|by simplify_eq; apply New_error in Hnew|done].
  unfold startObservability in Hx. destruct (CFG_Observability cfg) as [o|]; [|done].
  unfold NewServer, M_bind in Hx.
  pose proof (Listen_cases pf (OC_HTTPPort o) (ObservabilityListenError (OC_HTTPPort o)) h2) as Hl.
  destruct (Listen _ _ _ h2) as [[addr|serr|] h3]; [done| |done]. destruct Hl as (-> & _).
  unfold shutdown_unserved, M_bind, closeListeners in Hx.
  destruct (close_all_run (e_smscs e) h3) as (h4 & Hc & _). rewrite Hc in Hx. by simplify_eq.
Qed.

End Usage.

(** ** What the process leaves open *)

Lemma zip_replicate_true {A} (l : list A) :
  snd <$> base.filter (fun p => p.1 = true) (zip (replicate (length l) true) l) = l.
Proof. induction l as [|x l IH]; [done|]. cbn [length replicate zip zip_with]. rewrite filter_cons_True by done. by rewrite fmap_cons, IH. Qed.

Lemma zip_closed {A} (ls : list bool) (l : list A) :
  Forall (eq false) ls -> snd <$> base.filter (fun p => p.1 = true) (zip ls l) = [].
Proof.
  intros Hc. revert l. induction Hc as [|b ls <- _ IH]; intros [|x l]; try done.
  cbn [zip zip_with]. rewrite filter_cons_False by done. apply IH.
Qed.

(** The process starts with the ports boot opened. *)
Lemma open_ports_started {E entropy key der leaf file decoder}
    (pf : platform entropy key der leaf file decoder) cfg e srv h h' :
  booted pf cfg e srv h h' -> open_ports e srv (started_process (E := E) (length (e_smscs e)) srv (p_now pf)) = h_open h'.
Proof.
  intros [_ (certs & _ & _ & Hf2) _ Hopen _ _]. unfold open_ports. simpl.
  replace (length (e_smscs e)) with (length (ho_addr <$> e_smscs e)) by apply length_fmap.
  rewrite zip_replicate_true. change (list_to_set (ho_addr <$> e_smscs e)) with (addrs (e_smscs e)).
  rewrite (hosts_addrs _ _ _ Hf2), Hopen. f_equal. by destruct srv.
Qed.

(** A returned process has closed its SMPP ports; the surface's is open only while
    its serving goroutine is between its accept loop and the listener's [Close]. *)
Lemma open_ports_returned {E cert} (e : engine cert) n srv now (st : process E) r :
  rtc proc_step (started_process n srv now) st -> pr_main st = MReturned r ->
  open_ports e srv st ⊆ srv_addrs srv /\
  ((forall s err, pr_surface st = Some s -> su_pc s <> SuUntracked err) -> open_ports e srv st = ∅).
Proof.
  intros Hr Hpc. destruct (returned_stopped n srv now st r Hr Hpc) as [Hls _].
  pose proof (returned_surface n srv now st r Hr Hpc) as Hsu.
  unfold open_ports, srv_addrs. rewrite (zip_closed _ _ Hls). simpl. rewrite (left_id_L ∅ _).
  destruct srv as [s|], (pr_surface st) as [su|] eqn:Hs; try done.
  destruct (Hsu su eq_refl) as [->|[err Herr]]; [done|]. split; [by destruct (su_listening su)|].
  intros Hno. by destruct (Hno su err).
Qed.

(** C24: how the process exits.  Help and an ill-formed command line exit 0 and 2 with
    the usage, and [-version] prints its line and exits 0, none of them touching the
    host, whatever configuration is named.  Otherwise the status is 0 exactly when
    [run] returned nil, which takes a boot that succeeded and a signal, and 1 when
    the boot failed or the surface did, the error being the one reported on the
    standard error; the usage is then printed exactly when no configuration was
    named.  In every case no port stays open, but for the
    surface's when its serving goroutine is stopped just short of closing it. *)
Theorem main_exit {entropy key der leaf file decoder E}
    (pf : platform entropy key der leaf file decoder) (version : string) (args : list string) h x ports :
  decode_typed pf -> h_open h = ∅ -> main_exits (E := E) pf version args h x ports ->
  match parse_flags args with
  | ErrHelp => x = mkExit 0 [] None true /\ ports = ∅
  | FlagError err => x = mkExit 2 [] (Some (ReportedFlag err)) true /\ ports = ∅
  | Parsed (mkFlags _ true) _ => x = mkExit 0 [versionLine version] None false /\ ports = ∅
  | Parsed (mkFlags path false) _ =>
      ex_printed x = [] /\ (ex_usage x = true <-> path = "") /\
      match run_boot pf path h with
      | (Ok (cfg, e, srv), h') => ports ⊆ srv_addrs srv /\ exists (st : process E) r,
          rtc proc_step (started_process (length (e_smscs e)) srv (p_now pf)) st /\ pr_main st = MReturned r /\
          ex_reported x = ReportedRun <$> r /\ (ex_status x = 0 <-> r = None) /\ (ex_status x = 0 \/ ex_status x = 1) /\ (ex_status x = 0 -> pr_ctx st = true)
      | (Err err, _) => ex_status x = 1 /\ ex_reported x = Some (ReportedBoot err) /\ ports = ∅
      | (Panic, _) => False
      end
  end.
Proof.
  intros Hty Hopen Hx.
  assert (forall path err h', run_boot pf path h = (Err err, h') -> h_open h' = ∅) as Herr.
  { intros path err h' Hb. pose proof (run_boot_cases pf path h Hty Hopen) as H. rewrite Hb in H. apply H. }
  destruct Hx as [x Hf|path err h' Hf Hb|path cfg e srv h' st r Hf Hb Hr Hpc]; unfold main_flags in Hf;
    destruct (parse_flags args) as [[p [|]] rest| |ferr]; simpl in Hf; simplify_eq; try done.
  - rewrite Hb. split; [done|]. split; [|split_and!; [done..|by eapply Herr]].
    rewrite <- (boot_no_path pf path h err h' Hb). by destruct err.
  - rewrite Hb. split; [by destruct r|]. split; [|split; [by eapply open_ports_returned|]].
    + split; [by destruct r|]. intros ->. unfold run_boot, M_bind at 1 in Hb. by simpl in Hb.
    + exists st, r. split_and!; [done|done|by destruct r|by destruct r|destruct r; auto|]. intros Hz.
      destruct (returned_ok _ _ _ _ _ Hr Hpc) as (_ & _ & Hres). by destruct r.
Qed.

(** A graceful stop of a process hosting two SMSCs and the surface. *)
Definition graceful : list (event string) :=
  [Signal; Select ContextArm] ++ replicate 11 Main ++
  [SurfaceStep SuServe; SurfaceStep SuServe; SurfaceStep SuServe; Main].

Lemma graceful_run :
  exists st, proc_run graceful (started_process 2 (Some the_server) 0) = Ok (Some st) /\ pr_main st = MReturned None.
Proof. eexists. split; vm_compute; reflexivity. Qed.

Definition sample_boot := sample_platform sample_config (fun _ => false).

Lemma graceful_exit :
  exists ports, main_exits (E := string) sample_boot "v1.2.0" ["-config"; "config.yml"] sample_host (mkExit 0 [] None false) ports.
Proof.
  destruct graceful_run as (st & Hrun & Hpc). apply proc_run_rtc in Hrun.
  destruct (run_boot sample_boot "config.yml" sample_host) as [r h'] eqn:Hb.
  assert ((run_boot sample_boot "config.yml" sample_host).1 = r) as Hr by (by rewrite Hb). vm_compute in Hr. subst r.
  eexists. refine (exits_returned sample_boot "v1.2.0" ["-config"; "config.yml"] sample_host "config.yml" _ _ _ _ st None
    eq_refl Hb Hrun Hpc).
Qed.

Lemma main_exit_witness :
  (forall x ports, main_exits (E := string) sample_boot "v1.2.0" ["--config=x"; "-version"] sample_host x ports ->
     ex_printed x = ["smsc-simulator v1.2.0"]) /\
  (exists ports, main_exits (E := string) sample_boot "v1.2.0" ["-config"; "config.yml"] sample_host (mkExit 0 [] None false) ports) /\
  (forall x ports, main_exits (E := string) sample_boot "v1.2.0" ["-config"; "config.yml"] sample_host x ports ->
     ex_usage x = true <-> "config.yml" = "").
Proof.
  pose proof (sample_platform_typed _ (fun _ => false) sample_config_typed : decode_typed sample_boot) as Hty.
  split_and!; [|exact graceful_exit|].
  - intros x ports Hx.
    by apply (main_exit sample_boot "v1.2.0" ["--config=x"; "-version"] sample_host x ports Hty eq_refl) in Hx as [-> _].
  - intros x ports Hx.
    exact (proj1 (proj2 (main_exit sample_boot "v1.2.0" ["-config"; "config.yml"] sample_host x ports Hty eq_refl Hx))).
Defined.
