(* ===== verification/Strconv.v ===== *)
(** * Decimal numbers ([strconv], as [internal/observability/inspect_handlers.go] uses it)

    The parsers of the standard library the query parameters go through, with the
    range checks of their widths, and their round trip with decimal printing. *)

From Stdlib Require Import Ascii.
From S2P Require Import Prelude.

(** ** Parsing *)

Definition digit_of (c : Ascii.ascii) : option Z :=
  let d := Z.of_nat (Ascii.nat_of_ascii c) - 48 in
  if (0 <=? d) && (d <=? 9) then Some d else None.

(** The accumulation loop of [ParseUint]: a syntax error and an overflow of 64 bits
    are both errors. *)
Fixpoint parse_digits (s : string) (n : Z) : option Z :=
  match s with
  | EmptyString => Some n
  | String c s =>
      d ← digit_of c;
      let n := n * 10 + d in
      if n <? 2 ^ 64 then parse_digits s n else None
  end.

(** [strconv.ParseUint(s, 10, 64)]. *)
Definition ParseUint (s : string) : option Z :=
  match s with EmptyString => None | _ => parse_digits s 0 end.

(** [strconv.Atoi(s)]: an optional sign, then 63 bits. *)
Definition Atoi (s : string) : option Z :=
  let bounded (neg : bool) (n : Z) : option Z :=
    if neg then (if n <=? 2 ^ 63 then Some (- n) else None)
    else (if n <? 2 ^ 63 then Some n else None) in
  match s with
  | EmptyString => None
  | String c s' =>
      if Ascii.eqb c "+"%char then ParseUint s' ≫= bounded false
      else if Ascii.eqb c "-"%char then ParseUint s' ≫= bounded true
      else ParseUint s ≫= bounded false
  end.

(** ** Bounds *)

Lemma digit_range c d : digit_of c = Some d -> 0 <= d <= 9.
Proof. unfold digit_of. destruct (_ && _) eqn:Hb; [|done]. intros [= <-]. bool_lia. Qed.

Lemma parse_digits_range s n m : parse_digits s n = Some m -> 0 <= n < 2 ^ 64 -> 0 <= m < 2 ^ 64.
Proof.
  revert n. induction s as [|c s IH]; intros n Hp Hn; simpl in Hp; [by injection Hp as <-|].
  destruct (digit_of c) as [d|] eqn:Hd; [|done]. cbn [mbind option_bind] in Hp.
  destruct (Z.ltb_spec (n * 10 + d) (2 ^ 64)); [|done].
  apply (IH _ Hp). apply digit_range in Hd. lia.
Qed.

Lemma ParseUint_range s m : ParseUint s = Some m -> 0 <= m < 2 ^ 64.
Proof. destruct s; [done|]. intros Hp. by apply (parse_digits_range _ _ _ Hp). Qed.

(** ** Printing and parsing back *)

Definition format (n : Z) : string := pretty (Z.to_N n).

Lemma digit_char x : (x < 10)%N -> digit_of (pretty_N_char x) = Some (Z.of_N x).
Proof.
  intros Hx. assert (x = 0 \/ x = 1 \/ x = 2 \/ x = 3 \/ x = 4 \/ x = 5 \/ x = 6 \/ x = 7 \/ x = 8 \/ x = 9)%N
    as H by lia. by repeat destruct H as [->|H]; [..|subst].
Qed.

Lemma parse_pretty_go x s :
  (x < 2 ^ 64)%N -> parse_digits (pretty_N_go x s) 0 = parse_digits s (Z.of_N x).
Proof.
  revert s. induction (N.lt_wf_0 x) as [x _ IH]. intros s Hx.
  destruct (N.eq_dec x 0) as [->|Hne]; [by rewrite pretty_N_go_0|].
  assert (x `div` 10 < x)%N as Hlt by (apply N.div_lt; lia).
  rewrite pretty_N_go_step by lia. rewrite IH by lia. cbn [parse_digits].
  rewrite digit_char by (apply N.mod_lt; lia). cbn [mbind option_bind].
  replace (Z.of_N (x `div` 10) * 10 + Z.of_N (x `mod` 10)) with (Z.of_N x)
    by (rewrite N2Z.inj_div, N2Z.inj_mod; pose proof (Z.div_mod (Z.of_N x) (Z.of_N 10)); lia).
  destruct (Z.ltb_spec (Z.of_N x) (2 ^ 64)); [done|lia].
Qed.

Lemma pretty_nonempty (x : N) : pretty x <> ""%string.
Proof.
  unfold pretty, pretty_N. case_decide; [done|]. intros He.
  pose proof (pretty_N_go_step x ""%string ltac:(lia)) as Hs. rewrite He in Hs.
  assert (forall y s c, pretty_N_go y (String c s) <> ""%string) as Hne.
  { intros y. induction (N.lt_wf_0 y) as [y _ IH]. intros s c.
    destruct (N.eq_dec y 0) as [->|]; [by rewrite pretty_N_go_0|].
    rewrite pretty_N_go_step by lia. apply IH, N.div_lt; lia. }
  by apply (Hne (x `div` 10)%N ""%string (pretty_N_char (x `mod` 10))).
Qed.

Lemma parse_format n : 0 <= n < 2 ^ 64 -> parse_digits (format n) 0 = Some n.
Proof.
  intros Hn. unfold format, pretty, pretty_N. case_decide as H0.
  - replace n with 0 by lia. done.
  - rewrite parse_pretty_go by lia. simpl. f_equal. lia.
Qed.

Lemma ParseUint_format n : 0 <= n < 2 ^ 64 -> ParseUint (format n) = Some n.
Proof.
  intros Hn. pose proof (parse_format n Hn) as Hp. unfold ParseUint.
  destruct (format n) eqn:Hf; [|done]. by apply pretty_nonempty in Hf.
Qed.

(** A printed natural number carries no sign. *)
Lemma format_unsigned n c s : 0 <= n < 2 ^ 64 -> format n = String c s -> is_Some (digit_of c).
Proof.
  intros Hn Hf. pose proof (parse_format n Hn) as Hp. rewrite Hf in Hp. simpl in Hp.
  by destruct (digit_of c).
Qed.

Lemma Atoi_format n : 0 <= n < 2 ^ 63 -> Atoi (format n) = Some n.
Proof.
  intros Hn. pose proof (ParseUint_format n ltac:(lia)) as Hp. unfold Atoi.
  destruct (format n) as [|c s] eqn:Hf; [done|].
  destruct (format_unsigned n c s ltac:(lia) Hf) as [d Hd].
  destruct (Ascii.eqb_spec c "+"%char) as [->|]; [done|]. destruct (Ascii.eqb_spec c "-"%char) as [->|]; [done|].
  rewrite Hp. simpl. destruct (Z.ltb_spec n (2 ^ 63)); [done|lia].
Qed.
