(* ===== verification/Json.v ===== *)
(** * JSON as the surface writes it ([encoding/json])

    [json.Encoder] on the values of internal/observability: strings with its HTML
    escaping and its replacement of ill-formed UTF-8, unsigned numbers, arrays and
    objects; [encoding/base64] for a byte slice.  A reader of compact JSON is the
    other half of the round trip.  [Marshal] is the class of the types the surface
    hands to the encoder. *)

From S2P Require Import Prelude.
From S2P Require Import Strconv.

(** ** UTF-8 ([unicode/utf8.DecodeRune]) *)

(** The length of an encoding and the range of its second byte, by the first. *)
Definition first_byte (b : byte) : option (nat * (Z * Z)) :=
  let z := byte_to_Z b in
  if (0xC2 <=? z) && (z <=? 0xDF) then Some (2%nat, (0x80, 0xBF))
  else if z =? 0xE0 then Some (3%nat, (0xA0, 0xBF))
  else if z =? 0xED then Some (3%nat, (0x80, 0x9F))
  else if (0xE1 <=? z) && (z <=? 0xEF) then Some (3%nat, (0x80, 0xBF))
  else if z =? 0xF0 then Some (4%nat, (0x90, 0xBF))
  else if (0xF1 <=? z) && (z <=? 0xF3) then Some (4%nat, (0x80, 0xBF))
  else if z =? 0xF4 then Some (4%nat, (0x80, 0x8F))
  else None.

Definition between (lo hi : Z) (b : byte) : bool := (lo <=? byte_to_Z b) && (byte_to_Z b <=? hi).

Definition continues (b : byte) : bool := between 0x80 0xBF b.

(** [b0] and [b1] start an encoding of [n] bytes. *)
Definition starts (n : nat) (b0 b1 : byte) : bool :=
  match first_byte b0 with Some (k, (lo, hi)) => (k =? n)%nat && between lo hi b1 | None => false end.

Inductive chunk := Ascii (b : byte) | Rune (cs : bytes) | Invalid (b : byte).

(** A string cut into runes; a byte that starts none is on its own. *)
Fixpoint runes (s : bytes) : list chunk :=
  match s with
  | [] => []
  | b0 :: s0 =>
      if byte_to_Z b0 <? 0x80 then Ascii b0 :: runes s0 else
      match s0 with
      | b1 :: s1 =>
          if starts 2 b0 b1 then Rune [b0; b1] :: runes s1 else
          match s1 with
          | b2 :: s2 =>
              if starts 3 b0 b1 && continues b2 then Rune [b0; b1; b2] :: runes s2 else
              match s2 with
              | b3 :: s3 =>
                  if starts 4 b0 b1 && continues b2 && continues b3 then Rune [b0; b1; b2; b3] :: runes s3
                  else Invalid b0 :: runes s0
              | [] => Invalid b0 :: runes s0
              end
          | [] => Invalid b0 :: runes s0
          end
      | [] => Invalid b0 :: runes s0
      end
  end.

Definition chunk_valid (c : chunk) : bool := match c with Invalid _ => false | _ => true end.

(** [utf8.ValidString]. *)
Definition valid_utf8 (s : bytes) : bool := forallb chunk_valid (runes s).

(** ** Strings ([appendString], with HTML escaping) *)

Abbreviation QUOTE := Byte.x22.
Abbreviation BACKSLASH := Byte.x5c.
Abbreviation COMMA := Byte.x2c.
Abbreviation COLON := Byte.x3a.

Definition hex_digit (d : Z) : byte := byte_of_Z (if d <? 10 then 48 + d else 87 + d).

(** [\u00xx]. *)
Definition unicode_escape (b : byte) : bytes :=
  [BACKSLASH; Byte.x75; Byte.x30; Byte.x30; hex_digit (byte_to_Z b / 16); hex_digit (byte_to_Z b mod 16)].

(** [htmlSafeSet]. *)
Definition html_safe (b : byte) : bool :=
  (0x20 <=? byte_to_Z b) &&
  negb (bool_decide (b ∈ [QUOTE; BACKSLASH; Byte.x26; Byte.x3c; Byte.x3e])).

Definition escape_ascii (b : byte) : bytes :=
  if html_safe b then [b] else
  match b with
  | QUOTE | BACKSLASH => [BACKSLASH; b]
  | Byte.x08 => [BACKSLASH; Byte.x62]
  | Byte.x0c => [BACKSLASH; Byte.x66]
  | Byte.x0a => [BACKSLASH; Byte.x6e]
  | Byte.x0d => [BACKSLASH; Byte.x72]
  | Byte.x09 => [BACKSLASH; Byte.x74]
  | _ => unicode_escape b
  end.

(** U+2028 and U+2029 are escaped; an ill-formed byte becomes [\ufffd]. *)
Definition escape_chunk (c : chunk) : bytes :=
  match c with
  | Ascii b => escape_ascii b
  | Rune [Byte.xe2; Byte.x80; Byte.xa8] => bytes_of_string "\u2028"
  | Rune [Byte.xe2; Byte.x80; Byte.xa9] => bytes_of_string "\u2029"
  | Rune cs => cs
  | Invalid _ => bytes_of_string "\ufffd"
  end.

Definition appendString (s : bytes) : bytes := [QUOTE] ++ mjoin (escape_chunk <$> runes s) ++ [QUOTE].

(** ** Values *)

Inductive json :=
| JString (s : string)
| JNumber (n : Z)                       (* the surface has only unsigned ones *)
| JArray (vs : list json)
| JObject (fields : list (string * json)).

Fixpoint commas (l : list bytes) : bytes :=
  match l with
  | [] => []
  | [x] => x
  | x :: l => x ++ [COMMA] ++ commas l
  end.

Fixpoint encode (v : json) : bytes :=
  match v with
  | JString s => appendString (bytes_of_string s)
  | JNumber n => bytes_of_string (format n)
  | JArray vs => [Byte.x5b] ++ commas (map encode vs) ++ [Byte.x5d]
  | JObject fields =>
      [Byte.x7b] ++
      commas (map (fun kv => appendString (bytes_of_string kv.1) ++ [COLON] ++ encode kv.2) fields) ++ [Byte.x7d]
  end.

(** [json.NewEncoder(w).Encode(v)]. *)
Definition Encoder_Encode (v : json) : bytes := encode v ++ [Byte.x0a].

(** ** Reading *)

(** The UTF-8 encoding of a code point below 2^16 that is not a surrogate. *)
Definition utf8_encode (c : Z) : option bytes :=
  if c <? 0x80 then Some [byte_of_Z c]
  else if c <? 0x800 then Some [byte_of_Z (0xC0 + c / 64); byte_of_Z (0x80 + c mod 64)]
  else if (0xD800 <=? c) && (c <=? 0xDFFF) then None
  else Some [byte_of_Z (0xE0 + c / 4096); byte_of_Z (0x80 + c / 64 mod 64); byte_of_Z (0x80 + c mod 64)].

Definition hex_value (b : byte) : option Z :=
  let z := byte_to_Z b in
  if (48 <=? z) && (z <=? 57) then Some (z - 48)
  else if (97 <=? z) && (z <=? 102) then Some (z - 87)
  else if (65 <=? z) && (z <=? 70) then Some (z - 55) else None.

Definition hex4 (h1 h2 h3 h4 : byte) : option Z :=
  a ← hex_value h1; b ← hex_value h2; c ← hex_value h3; d ← hex_value h4;
  Some (((a * 16 + b) * 16 + c) * 16 + d).

(** The byte a two-character escape stands for. *)
Definition unescape (b : byte) : option byte :=
  match b with
  | QUOTE | BACKSLASH | Byte.x2f => Some b
  | Byte.x62 => Some Byte.x08
  | Byte.x66 => Some Byte.x0c
  | Byte.x6e => Some Byte.x0a
  | Byte.x72 => Some Byte.x0d
  | Byte.x74 => Some Byte.x09
  | _ => None
  end.

Definition prepend (cs : bytes) (r : option (bytes * bytes)) : option (bytes * bytes) :=
  (fun p => (cs ++ p.1, p.2)) <$> r.

(** The contents of a string, up to its closing quote. *)
Fixpoint read_string (s : bytes) : option (bytes * bytes) :=
  match s with
  | [] => None
  | c :: s =>
      if Byte.eqb c QUOTE then Some ([], s)
      else if Byte.eqb c BACKSLASH then
        match s with
        | Byte.x75 :: h1 :: h2 :: h3 :: h4 :: s =>
            code ← hex4 h1 h2 h3 h4; cs ← utf8_encode code; prepend cs (read_string s)
        | e :: s => b ← unescape e; prepend [b] (read_string s)
        | [] => None
        end
      else if byte_to_Z c <? 0x20 then None
      else prepend [c] (read_string s)
  end.

Definition is_digit (b : byte) : bool := between 48 57 b.

Fixpoint span_digits (s : bytes) : bytes * bytes :=
  match s with
  | c :: s' => if is_digit c then let '(ds, r) := span_digits s' in (c :: ds, r) else ([], s)
  | [] => ([], [])
  end.

(** A value, the elements of an array and the members of an object. *)
Fixpoint read (fuel : nat) (s : bytes) : option (json * bytes) :=
  match fuel, s with
  | S fuel, c :: s' =>
      if Byte.eqb c QUOTE then '(x, r) ← read_string s'; Some (JString (string_of_bytes x), r)
      else if Byte.eqb c Byte.x5b then
        match s' with
        | Byte.x5d :: r => Some (JArray [], r)
        | _ => '(vs, r) ← read_values fuel s'; Some (JArray vs, r)
        end
      else if Byte.eqb c Byte.x7b then
        match s' with
        | Byte.x7d :: r => Some (JObject [], r)
        | _ => '(fs, r) ← read_fields fuel s'; Some (JObject fs, r)
        end
      else let '(ds, r) := span_digits s in n ← ParseUint (string_of_bytes ds); Some (JNumber n, r)
  | _, _ => None
  end
with read_values (fuel : nat) (s : bytes) : option (list json * bytes) :=
  match fuel with
  | O => None
  | S fuel =>
      '(v, r) ← read fuel s;
      match r with
      | COMMA :: r => '(vs, r) ← read_values fuel r; Some (v :: vs, r)
      | Byte.x5d :: r => Some ([v], r)
      | _ => None
      end
  end
with read_fields (fuel : nat) (s : bytes) : option (list (string * json) * bytes) :=
  match fuel, s with
  | S fuel, QUOTE :: s =>
      '(k, r) ← read_string s;
      match r with
      | COLON :: r =>
          '(v, r) ← read fuel r;
          match r with
          | COMMA :: r => '(fs, r) ← read_fields fuel r; Some ((string_of_bytes k, v) :: fs, r)
          | Byte.x7d :: r => Some ([(string_of_bytes k, v)], r)
          | _ => None
          end
      | _ => None
      end
  | _, _ => None
  end.

(** One value on a line. *)
Definition Decode (s : bytes) : option json :=
  match read (length s) s with Some (v, [Byte.x0a]) => Some v | _ => None end.

(** ** What survives the encoding *)

Definition clean_chunk (c : chunk) : bytes :=
  match c with Ascii b => [b] | Rune cs => cs | Invalid _ => [Byte.xef; Byte.xbf; Byte.xbd] end.

(** Each ill-formed byte replaced by U+FFFD. *)
Definition clean_bytes (s : bytes) : bytes := mjoin (clean_chunk <$> runes s).

Definition clean_string (s : string) : string := string_of_bytes (clean_bytes (bytes_of_string s)).

Fixpoint clean (v : json) : json :=
  match v with
  | JString s => JString (clean_string s)
  | JNumber n => JNumber n
  | JArray vs => JArray (map clean vs)
  | JObject fields => JObject (map (fun kv => (clean_string kv.1, clean kv.2)) fields)
  end.

(** ** Runes *)

Definition is_high (b : byte) : Prop := 0x80 <= byte_to_Z b.

Definition chunk_ok (c : chunk) : Prop :=
  match c with Ascii b => byte_to_Z b < 0x80 | Rune cs => Forall is_high cs /\ cs <> [] | Invalid b => is_high b end.

Definition chunk_bytes (c : chunk) : bytes :=
  match c with Ascii b | Invalid b => [b] | Rune cs => cs end.

Lemma between_high lo hi b : 0x80 <= lo -> between lo hi b = true -> is_high b.
Proof. unfold between, is_high. intros Hlo Hb. bool_lia. Qed.

Lemma starts_high n b0 b1 : starts n b0 b1 = true -> is_high b0 /\ is_high b1.
Proof.
  unfold starts, first_byte. intros Hs. split.
  - unfold is_high. repeat case_match; try done; bool_lia.
  - repeat case_match; simplify_eq; try done; apply andb_true_iff in Hs as [_ Hs]; eapply between_high; try exact Hs; lia.
Qed.

Lemma continues_high b : continues b = true -> is_high b.
Proof. by apply between_high. Qed.

(** The scan by the rune it takes first. *)
Lemma runes_cases (P : bytes -> list chunk -> Prop) :
  P [] [] ->
  (forall c s, chunk_ok c -> P s (runes s) -> P (chunk_bytes c ++ s) (c :: runes s)) ->
  forall s, P s (runes s).
Proof.
  intros Hnil Hcons.
  assert (forall n s, (length s < n)%nat -> P s (runes s)) as H; [|intros s; by apply (H (S (length s))); lia].
  induction n as [|n IH]; intros s Hn; [lia|]. destruct s as [|b0 s0]; [done|]. simpl in Hn. cbn [runes].
  assert (P s0 (runes s0)) as H0 by (apply IH; lia).
  destruct (Z.ltb_spec (byte_to_Z b0) 0x80); [by apply (Hcons (Ascii b0))|].
  assert (P (b0 :: s0) (Invalid b0 :: runes s0)) as Hbad by (by apply (Hcons (Invalid b0))).
  destruct s0 as [|b1 s1]; [done|]. simpl in Hn. destruct (starts 2 b0 b1) eqn:H2.
  { apply starts_high in H2 as [? ?]. apply (Hcons (Rune [b0; b1])); [|apply IH; lia]. by repeat constructor. }
  destruct s1 as [|b2 s2]; [done|]. simpl in Hn. destruct (starts 3 b0 b1 && continues b2) eqn:H3.
  { apply andb_true_iff in H3 as [[? ?]%starts_high ?%continues_high].
    apply (Hcons (Rune [b0; b1; b2])); [|apply IH; lia]. by repeat constructor. }
  destruct s2 as [|b3 s3]; [done|]. simpl in Hn. destruct (starts 4 b0 b1 && continues b2 && continues b3) eqn:H4; [|done].
  apply andb_true_iff in H4 as [[[? ?]%starts_high ?%continues_high]%andb_true_iff ?%continues_high].
  apply (Hcons (Rune [b0; b1; b2; b3])); [|apply IH; lia]. by repeat constructor.
Qed.

Lemma runes_ok s : Forall chunk_ok (runes s).
Proof. apply (runes_cases (fun _ => Forall chunk_ok)); [constructor|]. intros c s' Hc IH. by constructor. Qed.

Lemma runes_join s : mjoin (chunk_bytes <$> runes s) = s.
Proof.
  apply (runes_cases (fun s cs => mjoin (chunk_bytes <$> cs) = s)); [done|]. intros c s' _ IH. csimpl. by rewrite IH.
Qed.

(** A valid string is its own cleaning. *)
Lemma clean_valid s : valid_utf8 s = true -> clean_bytes s = s.
Proof.
  unfold valid_utf8, clean_bytes. intros Hv. rewrite <- (runes_join s) at 2.
  induction (runes s) as [|c cs IH]; [done|]. simpl in Hv. apply andb_true_iff in Hv as [Hc Hv].
  csimpl. rewrite (IH Hv). by destruct c.
Qed.

(** ** Strings read back *)

Lemma read_string_high c tl : is_high c -> read_string (c :: tl) = prepend [c] (read_string tl).
Proof.
  unfold is_high. intros Hc. cbn [read_string].
  destruct (Byte.eqb c QUOTE) eqn:H1; [apply Byte.byte_dec_bl in H1; subst c; by vm_compute in Hc|].
  destruct (Byte.eqb c BACKSLASH) eqn:H2; [apply Byte.byte_dec_bl in H2; subst c; by vm_compute in Hc|].
  destruct (Z.ltb_spec (byte_to_Z c) 0x20); [lia|done].
Qed.

Lemma prepend_app cs cs' r : prepend (cs ++ cs') r = prepend cs (prepend cs' r).
Proof. destruct r as [[x r]|]; [|done]. unfold prepend. simpl. by rewrite <- app_assoc. Qed.

Lemma read_string_highs cs tl : Forall is_high cs -> read_string (cs ++ tl) = prepend cs (read_string tl).
Proof.
  induction 1 as [|c cs Hc _ IH]; [by simpl; destruct (read_string tl) as [[]|]|].
  change ((c :: cs) ++ tl) with (c :: (cs ++ tl)). rewrite read_string_high, IH by done.
  by rewrite <- (prepend_app [c] cs).
Qed.

Lemma read_escape_ascii b tl :
  byte_to_Z b < 0x80 -> read_string (escape_ascii b ++ tl) = prepend [b] (read_string tl).
Proof. intros Hb. destruct b; try reflexivity; exfalso; vm_compute in Hb; discriminate. Qed.

Lemma escape_rune cs tl :
  Forall is_high cs -> read_string (escape_chunk (Rune cs) ++ tl) = prepend cs (read_string tl).
Proof.
  intros Hcs. assert (escape_chunk (Rune cs) = cs \/ cs = [Byte.xe2; Byte.x80; Byte.xa8] \/ cs = [Byte.xe2; Byte.x80; Byte.xa9])
    as [-> |[-> | ->]]; [|by apply read_string_highs|reflexivity|reflexivity].
  destruct cs as [|b0 [|b1 [|b2 [|b3 cs]]]]; try (left; reflexivity);
    (destruct b0; try (left; reflexivity)); (destruct b1; try (left; reflexivity));
    destruct b2; auto.
Qed.

Lemma read_escape_chunk c tl :
  chunk_ok c -> read_string (escape_chunk c ++ tl) = prepend (clean_chunk c) (read_string tl).
Proof.
  destruct c as [b|cs|b]; intros Hc; [by apply read_escape_ascii|by apply escape_rune, Hc|reflexivity].
Qed.

(** A written string reads back as its cleaning. *)
Lemma read_appendString s tl :
  read_string (mjoin (escape_chunk <$> runes s) ++ QUOTE :: tl) = Some (clean_bytes s, tl).
Proof.
  unfold clean_bytes. induction (runes_ok s) as [|c cs Hc _ IH]; [done|]. csimpl.
  rewrite <- app_assoc, read_escape_chunk, IH by done. done.
Qed.

(** ** Numbers read back *)

Lemma digit_of_byte c : is_Some (digit_of c) -> is_digit (Ascii.byte_of_ascii c) = true.
Proof. destruct c as [[] [] [] [] [] [] [] []]; vm_compute; intros [? ?]; done. Qed.

Lemma parse_digits_all s n m : parse_digits s n = Some m -> Forall (fun b => is_digit b = true) (bytes_of_string s).
Proof.
  revert n. induction s as [|c s IH]; intros n Hp; [constructor|]. simpl in Hp.
  destruct (digit_of c) as [d|] eqn:Hd; [|done]. cbn [mbind option_bind] in Hp.
  destruct (_ <? _); [|done]. constructor; [apply digit_of_byte; by eexists|by eapply IH].
Qed.

(** What follows a number is not a digit. *)
Definition delimited (tl : bytes) : Prop := match tl with c :: _ => is_digit c = false | [] => True end.

Lemma span_digits_app ds tl :
  Forall (fun b => is_digit b = true) ds -> delimited tl -> span_digits (ds ++ tl) = (ds, tl).
Proof.
  intros Hds Htl. induction Hds as [|c ds Hc _ IH]; simpl.
  - destruct tl as [|c tl]; [done|]. simpl in *. by rewrite Htl.
  - by rewrite Hc, IH.
Qed.

Lemma read_number n tl :
  is_u64 n -> delimited tl ->
  exists c ds, bytes_of_string (format n) = c :: ds /\ is_digit c = true /\
    span_digits ((c :: ds) ++ tl) = (c :: ds, tl) /\ ParseUint (string_of_bytes (c :: ds)) = Some n.
Proof.
  intros Hn Htl. pose proof (parse_digits_all _ _ _ (parse_format n Hn)) as Hall.
  pose proof (ParseUint_format n Hn) as Hp. rewrite <- (string_of_bytes_of_string (format n)) in Hp.
  destruct (bytes_of_string (format n)) as [|c ds] eqn:Hf; [done|]. exists c, ds.
  split_and!; [done|by inversion Hall|by apply span_digits_app|done].
Qed.

(** ** Values read back *)

Section json_induction.
Context (P : json -> Prop).
Context (Hstring : forall s, P (JString s)) (Hnumber : forall n, P (JNumber n)).
Context (Harray : forall vs, Forall P vs -> P (JArray vs)).
Context (Hobject : forall fields, Forall (fun kv => P kv.2) fields -> P (JObject fields)).

Fixpoint json_induction (v : json) : P v :=
  match v with
  | JString s => Hstring s
  | JNumber n => Hnumber n
  | JArray vs =>
      Harray vs ((fix all vs : Forall P vs := match vs with
        | [] => Forall_nil_2 _ | v :: vs => Forall_cons_2 _ _ _ (json_induction v) (all vs) end) vs)
  | JObject fields =>
      Hobject fields ((fix all fs : Forall (fun kv => P kv.2) fs := match fs with
        | [] => Forall_nil_2 _ | kv :: fs => Forall_cons_2 _ kv _ (json_induction kv.2) (all fs) end) fields)
  end.
End json_induction.

(** Every number fits a machine word. *)
Inductive json_wf : json -> Prop :=
| wf_string s : json_wf (JString s)
| wf_number n : is_u64 n -> json_wf (JNumber n)
| wf_array vs : Forall json_wf vs -> json_wf (JArray vs)
| wf_object fields : Forall (fun kv => json_wf kv.2) fields -> json_wf (JObject fields).

(** The fuel reading a value takes; it is within the length of its text. *)
Fixpoint json_size (v : json) : nat :=
  match v with
  | JString _ | JNumber _ => 1
  | JArray vs => S (sum_list (map (fun v => S (json_size v)) vs))
  | JObject fields => S (sum_list (map (fun kv => S (json_size kv.2)) fields))
  end.

Definition value_start (c : byte) : bool :=
  Byte.eqb c QUOTE || Byte.eqb c Byte.x5b || Byte.eqb c Byte.x7b || is_digit c.

Lemma encode_head v : json_wf v -> exists c r, encode v = c :: r /\ value_start c = true.
Proof.
  intros [s|n Hn|vs _|fs _]; [by do 2 eexists| |by do 2 eexists..].
  destruct (read_number n [] Hn I) as (c & ds & Hf & Hc & _). simpl. rewrite Hf. exists c, ds. split; [done|].
  unfold value_start. by rewrite Hc, !orb_true_r.
Qed.

(** Neither kind of closing bracket starts a value. *)
Lemma value_start_open {A} c s (a : bytes -> A) (b : A) :
  value_start c = true ->
  match c :: s with Byte.x5d :: r => a r | _ => b end = b /\ match c :: s with Byte.x7d :: r => a r | _ => b end = b.
Proof. by destruct c. Qed.

Lemma commas_cons x y l : commas (x :: y :: l) = x ++ [COMMA] ++ commas (y :: l).
Proof. done. Qed.

Definition reads (v : json) : Prop := forall fuel tl,
  (json_size v <= fuel)%nat -> delimited tl -> read fuel (encode v ++ tl) = Some (clean v, tl).

Lemma read_values_commas vs fuel tl :
  vs <> [] -> Forall reads vs -> (sum_list (map (fun v => S (json_size v)) vs) <= fuel)%nat ->
  read_values fuel (commas (map encode vs) ++ Byte.x5d :: tl) = Some (map clean vs, tl).
Proof.
  intros Hne Hall. revert fuel Hne. induction Hall as [|v vs Hv _ IH]; intros fuel Hne Hf; [done|].
  simpl in Hf. destruct fuel as [|fuel]; [lia|]. cbn [read_values]. destruct vs as [|v' vs].
  - cbn [map commas]. rewrite Hv; [done|lia|done].
  - cbn [map]. rewrite commas_cons, <- !app_assoc. rewrite Hv; [|lia|done]. cbn [mbind option_bind app].
    simpl in Hf. specialize (IH fuel ltac:(done) ltac:(simpl; lia)). cbn [map] in IH. by rewrite IH.
Qed.

Definition member (kv : string * json) : bytes := appendString (bytes_of_string kv.1) ++ [COLON] ++ encode kv.2.

Lemma encode_object fields : encode (JObject fields) = [Byte.x7b] ++ commas (map member fields) ++ [Byte.x7d].
Proof. done. Qed.

Lemma read_member fuel kv tl :
  reads kv.2 -> (json_size kv.2 <= fuel)%nat -> delimited tl ->
  read_fields (S fuel) (member kv ++ tl) =
  match tl with
  | COMMA :: r => '(fs, r) ← read_fields fuel r; Some ((clean_string kv.1, clean kv.2) :: fs, r)
  | Byte.x7d :: r => Some ([(clean_string kv.1, clean kv.2)], r)
  | _ => None
  end.
Proof.
  intros Hv Hf Htl. unfold member, appendString. rewrite <- !app_assoc. cbn [app read_fields].
  rewrite read_appendString. cbn [mbind option_bind]. rewrite Hv by (lia || done). cbn [mbind option_bind].
  by destruct tl as [|[] ?].
Qed.

Lemma read_fields_commas fields fuel tl :
  fields <> [] -> Forall (fun kv => reads kv.2) fields ->
  (sum_list (map (fun kv => S (json_size kv.2)) fields) <= fuel)%nat ->
  read_fields fuel (commas (map member fields) ++ Byte.x7d :: tl) =
  Some (map (fun kv => (clean_string kv.1, clean kv.2)) fields, tl).
Proof.
  intros Hne Hall. revert fuel Hne. induction Hall as [|kv fs Hv _ IH]; intros fuel Hne Hf; [done|].
  simpl in Hf. destruct fuel as [|fuel]; [lia|]. destruct fs as [|kv' fs].
  - cbn [map commas]. by rewrite read_member by (done || lia).
  - cbn [map]. rewrite commas_cons, <- !app_assoc. rewrite read_member by (done || lia). cbn [app].
    simpl in Hf. specialize (IH fuel ltac:(done) ltac:(simpl; lia)). cbn [map] in IH. by rewrite IH.
Qed.

Lemma read_encode v : json_wf v -> reads v.
Proof.
  induction v as [s|n|vs IH|fields IH] using json_induction; intros Hwf fuel tl Hf Htl;
    (destruct fuel as [|fuel]; [simpl in Hf; lia|]); inversion_clear Hwf as [|? Hn|? Hvs|? Hfs].
  - unfold encode, appendString. rewrite <- !app_assoc. cbn [app read]. simpl Byte.eqb.
    rewrite read_appendString. done.
  - destruct (read_number n tl Hn Htl) as (c & ds & Hfmt & Hc & Hspan & Hp). cbn [encode]. rewrite Hfmt.
    cbn [app read]. rewrite <- (app_comm_cons ds) in Hspan.
    assert (Byte.eqb c QUOTE = false /\ Byte.eqb c Byte.x5b = false /\ Byte.eqb c Byte.x7b = false) as (-> & -> & ->)
      by (by destruct c).
    rewrite Hspan, Hp. done.
  - cbn [encode]. rewrite <- !app_assoc. cbn [app read]. simpl Byte.eqb. cbn iota.
    destruct vs as [|v vs]; [done|]. cbn [json_size] in Hf.
    pose proof (read_values_commas (v :: vs) fuel tl ltac:(done)) as Hr. specialize (Hr ltac:(
      clear -IH Hvs; induction IH; inversion_clear Hvs; constructor; auto) ltac:(lia)).
    inversion Hvs as [|? ? Hv _]. destruct (encode_head v Hv) as (c & r & He & Hc).
    assert (exists s, commas (map encode (v :: vs)) ++ Byte.x5d :: tl = c :: s) as [s' Hs'].
    { destruct vs; cbn [map commas]; rewrite He; by eexists. }
    cbn [app] in *. rewrite Hs' in Hr |- *. destruct (value_start_open c s' (fun r => Some (JArray [], r))
      ('(vs0, r) ← read_values fuel (c :: s'); Some (JArray vs0, r)) Hc) as [-> _]. by rewrite Hr.
  - rewrite encode_object, <- !app_assoc. cbn [app read]. simpl Byte.eqb. cbn iota.
    destruct fields as [|kv fs]; [done|]. cbn [json_size] in Hf.
    pose proof (read_fields_commas (kv :: fs) fuel tl ltac:(done)) as Hr. specialize (Hr ltac:(
      clear -IH Hfs; induction IH; inversion_clear Hfs; constructor; auto) ltac:(lia)).
    assert (exists s, commas (map member (kv :: fs)) ++ Byte.x7d :: tl = QUOTE :: s) as [s' Hs'].
    { destruct fs; cbn [map commas]; by eexists. }
    rewrite Hs' in Hr |- *. by rewrite Hr.
Qed.

Lemma length_commas l : (sum_list (map (fun x => S (length x)) l) <= S (length (commas l)))%nat.
Proof.
  induction l as [|x l IH]; [simpl; lia|]. destruct l as [|y l]; [simpl; lia|].
  rewrite commas_cons, !length_app. cbn [map sum_list] in IH |- *. simpl length at 2. simpl in *. lia.
Qed.

Lemma sum_list_le {A} (f g : A -> nat) l : Forall (fun x => (f x <= g x)%nat) l ->
  (sum_list (map f l) <= sum_list (map g l))%nat.
Proof. induction 1; simpl; lia. Qed.

Lemma json_size_length v : (json_size v <= length (encode v))%nat.
Proof.
  induction v as [s|n|vs IH|fields IH] using json_induction.
  - unfold encode, appendString. rewrite length_app. simpl. lia.
  - simpl. destruct (bytes_of_string (format n)) as [|c ds] eqn:Hf; [|simpl; lia].
    assert (format n = "")%string as Hn by (by rewrite <- (string_of_bytes_of_string (format n)), Hf).
    by apply pretty_nonempty in Hn.
  - cbn [json_size encode]. rewrite !length_app. simpl length.
    pose proof (length_commas (map encode vs)) as Hl. rewrite map_map in Hl.
    assert (sum_list (map (fun v => S (json_size v)) vs) <= sum_list (map (fun v => S (length (encode v))) vs))%nat
      by (apply sum_list_le; eapply Forall_impl; [exact IH|simpl; lia]). lia.
  - rewrite encode_object. cbn [json_size]. rewrite !length_app. simpl length.
    pose proof (length_commas (map member fields)) as Hl. rewrite map_map in Hl.
    assert (sum_list (map (fun kv => S (json_size kv.2)) fields) <= sum_list (map (fun kv => S (length (member kv))) fields))%nat.
    { apply sum_list_le. eapply Forall_impl; [exact IH|]. intros kv Hkv. unfold member. rewrite !length_app. simpl in *. lia. }
    lia.
Qed.

(** Whatever is written reads back, its strings with their ill-formed bytes replaced. *)
Lemma read_written v : json_wf v -> Decode (Encoder_Encode v) = Some (clean v).
Proof.
  intros Hwf. unfold Decode, Encoder_Encode. rewrite read_encode; [done|done| |done].
  rewrite length_app. pose proof (json_size_length v). lia.
Qed.

(** ** Byte slices ([base64.StdEncoding]) *)

Definition sextet (z : Z) : byte :=
  byte_of_Z (if z <? 26 then 65 + z else if z <? 52 then 71 + z else if z <? 62 then z - 4 else if z =? 62 then 43 else 47).

Fixpoint base64 (s : bytes) : bytes :=
  match s with
  | a :: b :: c :: s =>
      let v := (byte_to_Z a * 256 + byte_to_Z b) * 256 + byte_to_Z c in
      [sextet (v / 2 ^ 18); sextet (v / 2 ^ 12 mod 64); sextet (v / 2 ^ 6 mod 64); sextet (v mod 64)] ++ base64 s
  | [a; b] =>
      let v := (byte_to_Z a * 256 + byte_to_Z b) * 256 in
      [sextet (v / 2 ^ 18); sextet (v / 2 ^ 12 mod 64); sextet (v / 2 ^ 6 mod 64); Byte.x3d]
  | [a] =>
      let v := byte_to_Z a * 2 ^ 16 in [sextet (v / 2 ^ 18); sextet (v / 2 ^ 12 mod 64); Byte.x3d; Byte.x3d]
  | [] => []
  end.

Definition sextet_value (b : byte) : option Z :=
  let z := byte_to_Z b in
  if (65 <=? z) && (z <=? 90) then Some (z - 65)
  else if (97 <=? z) && (z <=? 122) then Some (z - 71)
  else if (48 <=? z) && (z <=? 57) then Some (z + 4)
  else if z =? 43 then Some 62 else if z =? 47 then Some 63 else None.

Abbreviation PAD := Byte.x3d.

(** A group of four; padding ends the text. *)
Fixpoint base64_decode (s : bytes) : option bytes :=
  match s with
  | [] => Some []
  | a :: b :: c :: d :: s =>
      x ← sextet_value a; y ← sextet_value b;
      let b1 := byte_of_Z (x * 4 + y / 16) in
      if Byte.eqb d PAD then
        match s with
        | [] =>
            if Byte.eqb c PAD then Some [b1]
            else z ← sextet_value c; Some [b1; byte_of_Z (y * 16 + z / 4)]
        | _ => None
        end
      else
        z ← sextet_value c; t ← sextet_value d; rest ← base64_decode s;
        Some ([b1; byte_of_Z (y * 16 + z / 4); byte_of_Z (z * 64 + t)] ++ rest)
  | _ => None
  end.

Lemma sextet_value_sextet z : 0 <= z < 64 -> sextet_value (sextet z) = Some z.
Proof.
  intros Hz. unfold sextet_value, sextet. rewrite byte_to_of_Z. unfold u8.
  rewrite Z.mod_small by (repeat case_match; lia).
  destruct (Z.ltb_spec z 26); [|destruct (Z.ltb_spec z 52); [|destruct (Z.ltb_spec z 62); [|destruct (Z.eqb_spec z 62)]]];
    repeat case_match; try bool_lia; f_equal; bool_lia.
Qed.

Lemma sextet_not_pad z : 0 <= z < 64 -> Byte.eqb (sextet z) PAD = false.
Proof.
  intros Hz. destruct (Byte.eqb (sextet z) PAD) eqn:He; [|done]. apply Byte.byte_dec_bl in He.
  pose proof (sextet_value_sextet z Hz) as Hv. by rewrite He in Hv.
Qed.

(** The three bytes of four sextets, by arithmetic. *)
Lemma group_bytes a b c :
  let v := (a * 256 + b) * 256 + c in
  0 <= a < 256 -> 0 <= b < 256 -> 0 <= c < 256 ->
  (0 <= v / 2 ^ 18 < 64 /\ 0 <= v / 2 ^ 12 mod 64 < 64 /\ 0 <= v / 2 ^ 6 mod 64 < 64 /\ 0 <= v mod 64 < 64) /\
  u8 (v / 2 ^ 18 * 4 + v / 2 ^ 12 mod 64 / 16) = a /\
  u8 (v / 2 ^ 12 mod 64 * 16 + v / 2 ^ 6 mod 64 / 4) = b /\
  u8 (v / 2 ^ 6 mod 64 * 64 + v mod 64) = c.
Proof.
  intros v Ha Hb Hc. unfold u8.
  assert (v / 2 ^ 18 = a / 4) as H1 by (subst v; Z.div_mod_to_equations; lia).
  assert (v / 2 ^ 12 = a * 16 + b / 16) as H2 by (subst v; Z.div_mod_to_equations; lia).
  assert (v / 2 ^ 6 = (a * 256 + b) * 4 + c / 64) as H3 by (subst v; Z.div_mod_to_equations; lia).
  rewrite H1, H2, H3. clear H1 H2 H3. subst v. split_and!; Z.div_mod_to_equations; lia.
Qed.

Lemma base64_decode_base64 s : base64_decode (base64 s) = Some s.
Proof.
  assert (forall n s, (length s < n)%nat -> base64_decode (base64 s) = Some s) as H; [|by apply (H (S (length s))); lia].
  clear s. induction n as [|n IH]; intros s Hn; [lia|].
  assert (forall b, 0 <= byte_to_Z b < 256) as Hr by exact byte_to_Z_range.
  assert (forall z b, u8 z = byte_to_Z b -> byte_of_Z z = b) as Hb.
  { intros z b Hz. apply (inj byte_to_Z). by rewrite byte_to_of_Z. }
  destruct s as [|a [|b [|c s]]].
  - done.
  - cbn [base64 base64_decode].
    destruct (group_bytes (byte_to_Z a) 0 0) as ((R1 & R2 & _) & E1 & _); [auto|lia..|].
    replace ((byte_to_Z a * 256 + 0) * 256 + 0) with (byte_to_Z a * 2 ^ 16) in * by lia.
    rewrite !sextet_value_sextet by done. cbn [mbind option_bind]. simpl Byte.eqb. cbn iota. do 2 f_equal. by apply Hb.
  - cbn [base64 base64_decode].
    destruct (group_bytes (byte_to_Z a) (byte_to_Z b) 0) as ((R1 & R2 & R3 & _) & E1 & E2 & _); [auto|auto|lia|].
    replace ((byte_to_Z a * 256 + byte_to_Z b) * 256 + 0) with ((byte_to_Z a * 256 + byte_to_Z b) * 256) in * by lia.
    rewrite !sextet_value_sextet, sextet_not_pad by done. cbn [mbind option_bind]. simpl Byte.eqb. cbn iota.
    rewrite (Hb _ _ E1), (Hb _ _ E2). done.
  - cbn [base64]. destruct (group_bytes (byte_to_Z a) (byte_to_Z b) (byte_to_Z c)) as ((R1 & R2 & R3 & R4) & E1 & E2 & E3); [auto..|].
    cbn [app base64_decode]. rewrite !sextet_value_sextet, sextet_not_pad by done. cbn [mbind option_bind].
    simpl in Hn. rewrite IH by lia. cbn [mbind option_bind]. by rewrite (Hb _ _ E1), (Hb _ _ E2), (Hb _ _ E3).
Qed.

(** ** The types handed to the encoder *)

(** [faithful] values are represented exactly; what they are read back from is the
    cleaned tree, as [read_written] gives it. *)
Class Marshal (A : Type) := {
  MarshalJSON : A -> json;
  UnmarshalJSON : json -> option A;
  faithful : A -> Prop;
  marshal_wf a : faithful a -> json_wf (MarshalJSON a);
  marshal_back a : faithful a -> UnmarshalJSON (clean (MarshalJSON a)) = Some a
}.

Lemma marshal_roundtrip `{Marshal A} (a : A) :
  faithful a -> Decode (Encoder_Encode (MarshalJSON a)) ≫= UnmarshalJSON = Some a.
Proof. intros Ha. rewrite read_written by by apply marshal_wf. by apply marshal_back. Qed.

(** Distinct faithful values have distinct texts. *)
Lemma marshal_inj `{Marshal A} (a b : A) :
  faithful a -> faithful b -> Encoder_Encode (MarshalJSON a) = Encoder_Encode (MarshalJSON b) -> a = b.
Proof. intros Ha Hb He. apply marshal_roundtrip in Ha, Hb. rewrite He in Ha. congruence. Qed.

Lemma clean_string_valid s : valid_utf8 (bytes_of_string s) = true -> clean_string s = s.
Proof. intros Hv. unfold clean_string. by rewrite clean_valid, string_of_bytes_of_string. Qed.

#[export] Instance string_marshal : Marshal string := {|
  MarshalJSON := JString;
  UnmarshalJSON v := match v with JString s => Some s | _ => None end;
  faithful s := valid_utf8 (bytes_of_string s) = true;
  marshal_wf s _ := wf_string s;
  marshal_back s Hs := f_equal Some (clean_string_valid s Hs)
|}.

#[export] Instance number_marshal : Marshal Z := {|
  MarshalJSON := JNumber;
  UnmarshalJSON v := match v with JNumber n => Some n | _ => None end;
  faithful := is_u64;
  marshal_wf n Hn := wf_number n Hn;
  marshal_back n _ := eq_refl
|}.

(** A [uint8]. *)
#[export, refine] Instance byte_marshal : Marshal byte := {|
  MarshalJSON b := JNumber (byte_to_Z b);
  UnmarshalJSON v := match v with JNumber n => if n <? 256 then Some (byte_of_Z n) else None | _ => None end;
  faithful _ := True
|}.
Proof.
  - intros b _. constructor. pose proof (byte_to_Z_range b) as Hr. unfold is_u8, is_u64 in *. lia.
  - intros b _. simpl. pose proof (byte_to_Z_range b) as Hr. unfold is_u8 in Hr.
    destruct (Z.ltb_spec (byte_to_Z b) 256); [|lia]. by rewrite byte_of_to_Z.
Defined.

#[export, refine] Instance list_marshal `{Marshal A} : Marshal (list A) := {|
  MarshalJSON vs := JArray (map MarshalJSON vs);
  UnmarshalJSON v := match v with JArray vs => mapM UnmarshalJSON vs | _ => None end;
  faithful := Forall faithful
|}.
Proof.
  - intros vs Hvs. constructor. induction Hvs; constructor; [by apply marshal_wf|done].
  - intros vs Hvs. simpl. apply mapM_Some. induction Hvs; constructor; [by apply marshal_back|done].
Defined.

(** A byte slice, as a string of its base64. *)
Definition marshal_bytes (b : bytes) : json := JString (string_of_bytes (base64 b)).

Definition unmarshal_bytes (v : json) : option bytes :=
  match v with JString s => base64_decode (bytes_of_string s) | _ => None end.

Lemma ascii_valid s : Forall (fun b => byte_to_Z b < 0x80) s -> valid_utf8 s = true.
Proof.
  unfold valid_utf8. induction 1 as [|b s Hb _ IH]; [done|]. cbn [runes].
  destruct (Z.ltb_spec (byte_to_Z b) 0x80); [done|lia].
Qed.

Lemma sextet_ascii z : 0 <= z < 64 -> byte_to_Z (sextet z) < 0x80.
Proof. intros Hz. unfold sextet. rewrite byte_to_of_Z. unfold u8. repeat case_match; rewrite Z.mod_small; lia. Qed.

Lemma base64_ascii s : Forall (fun b => byte_to_Z b < 0x80) (base64 s).
Proof.
  assert (forall n s, (length s < n)%nat -> Forall (fun b => byte_to_Z b < 0x80) (base64 s)) as H; [|by apply (H (S (length s))); lia].
  clear s. induction n as [|n IH]; intros s Hn; [lia|].
  assert (forall b, 0 <= byte_to_Z b < 256) as Hr by exact byte_to_Z_range.
  assert (forall z, byte_to_Z (sextet (z mod 64)) < 0x80) as Hs by (intros z; apply sextet_ascii, Z.mod_pos_bound; lia).
  assert (forall v, 0 <= v < 2 ^ 24 -> byte_to_Z (sextet (v / 2 ^ 18)) < 0x80) as Hd.
  { intros v Hv. apply sextet_ascii. split; [apply Z.div_pos; lia|apply Z.div_lt_upper_bound; lia]. }
  destruct s as [|a [|b [|c s]]]; cbn [base64].
  - constructor.
  - pose proof (Hr a). repeat constructor; try done. apply Hd. lia.
  - pose proof (Hr a). pose proof (Hr b). repeat constructor; try done. apply Hd. lia.
  - pose proof (Hr a). pose proof (Hr b). pose proof (Hr c). cbn [app]. repeat constructor; try done; [apply Hd; lia|].
    apply IH. simpl in Hn. lia.
Qed.

(** Any content survives, ill-formed as text or not. *)
Lemma bytes_back b : unmarshal_bytes (clean (marshal_bytes b)) = Some b.
Proof.
  cbn [marshal_bytes clean unmarshal_bytes]. rewrite clean_string_valid.
  - by rewrite bytes_of_string_of_bytes, base64_decode_base64.
  - rewrite bytes_of_string_of_bytes. apply ascii_valid, base64_ascii.
Qed.

(** The member of an object. *)
Fixpoint field (k : string) (fields : list (string * json)) : option json :=
  match fields with
  | [] => None
  | (k', v) :: fields => if String.eqb k' k then Some v else field k fields
  end.

Definition get `{Marshal A} (k : string) (v : json) : option A :=
  match v with JObject fields => field k fields ≫= UnmarshalJSON | _ => None end.
