(* ===== verification/Rfc3339.v ===== *)
(** * Timestamps ([time.RFC3339Nano], as [views] of [internal/smsc/binds.go] formats
      [connectedAt])

    An instant is in nanoseconds since the epoch; the calendar is the one of the
    receipt dates ([Dlr]), from 1970.  A reader of the format is the other half of
    the round trip: no digit of the instant is lost. *)

From Stdlib Require Import Ascii.
From S2P Require Import Prelude.
From S2P Require Import Dlr.

#[local] Open Scope string_scope.
#[local] Open Scope list_scope.
#[local] Open Scope Z_scope.

(** ** Decimal digits *)

(** The last [k] digits of [n], most significant first. *)
Fixpoint digits (k : nat) (n : Z) : list Z :=
  match k with O => [] | S k => digits k (n / 10) ++ [n mod 10] end.

(** Trailing zeros removed. *)
Fixpoint trim (ds : list Z) : list Z :=
  match ds with
  | [] => []
  | d :: ds => match trim ds with [] => if d =? 0 then [] else [d] | ds' => d :: ds' end
  end.

Fixpoint digit_string (ds : list Z) (s : string) : string :=
  match ds with [] => s | d :: ds => String (digit_char d) (digit_string ds s) end.

(** ** Formatting *)

Definition second : Z := 10 ^ 9.

(** Two centuries and more from the epoch: an instant of 63 bits ends in 2262. *)
Definition calendar_years : nat := 300.

Definition civil_date (days : Z) : Z * Z * Z :=
  let '(y, d) := peel_years calendar_years 1970 days in
  let '(m, d) := peel_months (month_lengths y) 1 d in (y, m, d + 1).

(** The fraction is left out when it is zero. *)
Definition fraction (n : Z) : string :=
  match trim (digits 9 n) with [] => "Z" | ds => "." +:+ digit_string ds "Z" end.

(** [t.UTC().Format(time.RFC3339Nano)] for a year of four digits. *)
Definition format_time (t : Z) : string :=
  let '(y, m, d) := civil_date (t / second / 86400) in
  let s := t / second mod 86400 in
  digit_string (digits 4 y) (String "-" (digit_string (digits 2 m) (String "-" (digit_string (digits 2 d) (String "T" (
  digit_string (digits 2 (s / 3600)) (String ":" (digit_string (digits 2 (s / 60 mod 60)) (String ":" (
  digit_string (digits 2 (s mod 60)) (fraction (t mod second)))))))))))).

(** ** Reading *)

Fixpoint read_digits (k : nat) (acc : Z) (s : string) : option (Z * string) :=
  match k, s with
  | O, _ => Some (acc, s)
  | S k, String c s => d ← char_digit c; read_digits k (10 * acc + d) s
  | _, _ => None
  end.

Definition expect (c : Ascii.ascii) (s : string) : option string :=
  match s with String c' s => if Ascii.eqb c' c then Some s else None | _ => None end.

(** The digits up to the [Z], at most [k], scaled to nanoseconds. *)
Fixpoint read_fraction (k : nat) (acc : Z) (s : string) : option Z :=
  match s with
  | "" => None
  | String c s =>
      if Ascii.eqb c "Z"%char then (if String.eqb s "" then Some (acc * 10 ^ Z.of_nat k) else None)
      else match k with O => None | S k => d ← char_digit c; read_fraction k (10 * acc + d) s end
  end.

(** Nothing but the [Z] when the fraction is left out. *)
Definition read_nanos (s : string) : option Z :=
  match expect "."%char s with Some s => read_fraction 9 0 s | None => if String.eqb s "Z" then Some 0 else None end.

Fixpoint year_days (n : nat) (y : Z) : Z :=
  match n with O => 0 | S n => (if leap y then 366 else 365) + year_days n (y + 1) end.

Definition date_days (y m d : Z) : Z :=
  year_days (Z.to_nat (y - 1970)) 1970 + foldr Z.add 0 (take (Z.to_nat (m - 1)) (month_lengths y)) + (d - 1).

Definition parse_time (s : string) : option Z :=
  '(y, s) ← read_digits 4 0 s; s ← expect "-"%char s;
  '(m, s) ← read_digits 2 0 s; s ← expect "-"%char s;
  '(d, s) ← read_digits 2 0 s; s ← expect "T"%char s;
  '(hh, s) ← read_digits 2 0 s; s ← expect ":"%char s;
  '(mm, s) ← read_digits 2 0 s; s ← expect ":"%char s;
  '(ss, s) ← read_digits 2 0 s;
  n ← read_nanos s;
  Some (((date_days y m d * 86400) + hh * 3600 + mm * 60 + ss) * second + n).

(** ** The round trip *)

Definition value (ds : list Z) (acc : Z) : Z := foldl (fun a d => 10 * a + d) acc ds.

Lemma digits_range k n : Forall (fun d => 0 <= d < 10) (digits k n).
Proof.
  revert n. induction k as [|k IH]; intros n; cbn [digits]; [constructor|].
  apply Forall_app. split; [apply IH|]. repeat constructor; apply Z.mod_pos_bound; lia.
Qed.

Lemma length_digits k n : length (digits k n) = k.
Proof. revert n. induction k as [|k IH]; intros n; [done|]. cbn [digits]. rewrite length_app, IH. simpl. lia. Qed.

Lemma value_digits k n : 0 <= n < 10 ^ Z.of_nat k -> value (digits k n) 0 = n.
Proof.
  revert n. induction k as [|k IH]; intros n Hn; [simpl in *; lia|]. cbn [digits]. unfold value.
  rewrite foldl_app. fold (value (digits k (n / 10)) 0). rewrite Nat2Z.inj_succ, Z.pow_succ_r in Hn by lia.
  rewrite IH; [simpl; pose proof (Z.div_mod n 10 ltac:(lia)); lia|].
  split; [apply Z.div_pos; lia|apply Z.div_lt_upper_bound; lia].
Qed.

Lemma trim_zeros ds : exists j, ds = trim ds ++ replicate j 0.
Proof.
  induction ds as [|d ds [j IH]]; [by exists 0%nat|]. cbn [trim]. destruct (trim ds) as [|d' ds'].
  - destruct (Z.eqb_spec d 0) as [->|]; [exists (S j); simpl; by rewrite IH at 1|exists j; simpl; by rewrite IH at 1].
  - exists j. simpl. by rewrite IH at 1.
Qed.

Lemma value_zeros j acc : value (replicate j 0) acc = acc * 10 ^ Z.of_nat j.
Proof.
  revert acc. induction j as [|j IH]; intros acc; [simpl; lia|]. unfold value in *. simpl foldl.
  rewrite IH, Nat2Z.inj_succ, Z.pow_succ_r by lia. lia.
Qed.

Lemma value_trim ds j acc : ds = trim ds ++ replicate j 0 -> value ds acc = value (trim ds) acc * 10 ^ Z.of_nat j.
Proof. intros Hj. rewrite Hj at 1. unfold value. rewrite foldl_app. apply value_zeros. Qed.

Lemma read_digits_string ds acc s :
  Forall (fun d => 0 <= d < 10) ds -> read_digits (length ds) acc (digit_string ds s) = Some (value ds acc, s).
Proof.
  intros Hds. revert acc. induction Hds as [|d ds Hd _ IH]; intros acc; [done|].
  cbn [length digit_string read_digits]. rewrite char_digit_char by done. cbn [mbind option_bind]. by rewrite IH.
Qed.

Lemma read_digits_digits k n s :
  0 <= n < 10 ^ Z.of_nat k -> read_digits k 0 (digit_string (digits k n) s) = Some (n, s).
Proof.
  intros Hn. rewrite <- (length_digits k n) at 1. rewrite read_digits_string by apply digits_range.
  by rewrite value_digits.
Qed.

Lemma read_fraction_string ds k acc :
  Forall (fun d => 0 <= d < 10) ds -> (length ds <= k)%nat ->
  read_fraction k acc (digit_string ds "Z") = Some (value ds acc * 10 ^ Z.of_nat (k - length ds)).
Proof.
  intros Hds. revert k acc. induction Hds as [|d ds Hd _ IH]; intros k acc Hk; simpl in Hk.
  - rewrite Nat.sub_0_r. by destruct k.
  - destruct k as [|k]; [lia|]. cbn [digit_string read_fraction].
    pose proof (char_digit_char d Hd) as Hc. destruct (Ascii.eqb_spec (digit_char d) "Z"%char) as [Hz|_].
    { by rewrite Hz in Hc. }
    rewrite Hc. cbn [mbind option_bind]. rewrite IH by lia. done.
Qed.

Lemma fraction_read n : 0 <= n < second -> read_nanos (fraction n) = Some n.
Proof.
  unfold second. intros Hn. unfold fraction. destruct (trim_zeros (digits 9 n)) as [j Hj].
  pose proof (value_trim _ j 0 Hj) as Hv. rewrite (value_digits 9 n Hn) in Hv.
  pose proof (digits_range 9 n) as Hr. pose proof (length_digits 9 n) as Hl. rewrite Hj in Hr, Hl.
  apply Forall_app in Hr as [Hr _]. rewrite length_app, length_replicate in Hl.
  destruct (trim (digits 9 n)) as [|d ds] eqn:Ht; [simpl in Hv; by subst n|].
  change (read_nanos ("." +:+ digit_string (d :: ds) "Z")) with (read_fraction 9 0 (digit_string (d :: ds) "Z")).
  rewrite read_fraction_string by (done || lia). rewrite Hv. do 3 f_equal. lia.
Qed.

(** *** The calendar *)

Lemma peel_years_days fuel y d :
  (peel_years fuel y d).2 + year_days (Z.to_nat ((peel_years fuel y d).1 - y)) y = d.
Proof.
  revert y d. induction fuel as [|fuel IH]; intros y d; cbn [peel_years]; [rewrite Z.sub_diag; simpl; lia|].
  set (n := if leap y then 366 else 365). destruct (d <? n); [rewrite Z.sub_diag; simpl; lia|].
  pose proof (peel_years_ge fuel (y + 1) (d - n)) as Hge. specialize (IH (y + 1) (d - n)).
  replace (Z.to_nat ((peel_years fuel (y + 1) (d - n)).1 - y))
    with (S (Z.to_nat ((peel_years fuel (y + 1) (d - n)).1 - (y + 1)))) by lia.
  cbn [year_days]. fold n. lia.
Qed.

Lemma peel_months_days ls m d :
  (peel_months ls m d).2 + foldr Z.add 0 (take (Z.to_nat ((peel_months ls m d).1 - m)) ls) = d.
Proof.
  revert m d. induction ls as [|n ls IH]; intros m d; cbn [peel_months]; [rewrite take_nil; simpl; lia|].
  destruct (d <? n); [rewrite Z.sub_diag; simpl; lia|].
  pose proof (peel_months_ge ls (m + 1) (d - n)) as Hge. specialize (IH (m + 1) (d - n)).
  replace (Z.to_nat ((peel_months ls (m + 1) (d - n)).1 - m))
    with (S (Z.to_nat ((peel_months ls (m + 1) (d - n)).1 - (m + 1)))) by lia.
  simpl. lia.
Qed.

Lemma civil_date_days days y m d : civil_date days = (y, m, d) -> date_days y m d = days.
Proof.
  unfold civil_date, date_days. pose proof (peel_years_days calendar_years 1970 days) as Hy.
  destruct (peel_years calendar_years 1970 days) as [y' d1]. simpl in Hy.
  pose proof (peel_months_days (month_lengths y') 1 d1) as Hm.
  destruct (peel_months (month_lengths y') 1 d1) as [m' d2]. simpl in Hm. intros [= <- <- <-]. lia.
Qed.

Lemma civil_date_range days y m d :
  0 <= days < 365 * Z.of_nat calendar_years -> civil_date days = (y, m, d) ->
  1970 <= y < 2270 /\ 1 <= m <= 12 /\ 1 <= d <= 31.
Proof.
  intros Hd. unfold civil_date. pose proof (peel_years_ge calendar_years 1970 days) as Hge.
  destruct (peel_years_range calendar_years calendar_years 1970 days) as [Hy Hd1]; [lia|done|].
  destruct (peel_years calendar_years 1970 days) as [y' d1]. cbn [fst snd] in *.
  pose proof (peel_months_ge (month_lengths y') 1 d1) as Hgm.
  destruct (peel_months_range (month_lengths y') 1 d1) as [Hm Hd2].
  { unfold month_lengths. repeat constructor; destruct (leap y'); lia. }
  { unfold month_lengths. simpl. destruct (leap y'); lia. }
  destruct (peel_months (month_lengths y') 1 d1) as [m' d2]. cbn [fst snd] in *. intros [= <- <- <-].
  change (Z.of_nat (length (month_lengths y'))) with 12 in Hm. unfold calendar_years in Hy. lia.
Qed.

(** An instant of 63 bits reads back to the nanosecond. *)
Lemma parse_format_time t : 0 <= t < 2 ^ 63 -> parse_time (format_time t) = Some t.
Proof.
  intros Ht. unfold format_time. destruct (civil_date (t / second / 86400)) as [[y m] d] eqn:Hc.
  assert (0 <= t / second) as Hs by (apply Z.div_pos; unfold second; lia).
  assert (0 <= t / second / 86400 < 365 * Z.of_nat calendar_years) as Hdays.
  { split; [apply Z.div_pos; lia|]. apply Z.div_lt_upper_bound; [lia|]. unfold second, calendar_years.
    apply Z.div_lt_upper_bound; lia. }
  destruct (civil_date_range _ _ _ _ Hdays Hc) as (Hy & Hm & Hd). pose proof (civil_date_days _ _ _ _ Hc) as Hdd.
  pose proof (Z.mod_pos_bound (t / second) 86400 ltac:(lia)) as Hmod. set (s := t / second mod 86400) in *.
  pose proof (Z.mod_pos_bound t second ltac:(unfold second; lia)) as Hn.
  assert (0 <= s / 3600 < 24) by (split; [apply Z.div_pos|apply Z.div_lt_upper_bound]; lia).
  pose proof (Z.mod_pos_bound (s / 60) 60 ltac:(lia)). pose proof (Z.mod_pos_bound s 60 ltac:(lia)).
  assert (forall c s, expect c (String c s) = Some s) as Hexp by (intros; simpl; by rewrite Ascii.eqb_refl).
  unfold parse_time.
  do 6 (rewrite read_digits_digits by lia; cbn [mbind option_bind]; try (rewrite Hexp; cbn [mbind option_bind])).
  rewrite fraction_read by done. cbn [mbind option_bind]. f_equal. rewrite Hdd.
  pose proof (Z.div_mod t second ltac:(unfold second; lia)). pose proof (Z.div_mod (t / second) 86400 ltac:(lia)).
  assert (s / 60 / 60 = s / 3600) as H60 by (rewrite Z.div_div; [done|lia..]).
  pose proof (Z.div_mod s 60 ltac:(lia)). pose proof (Z.div_mod (s / 60) 60 ltac:(lia)). rewrite H60 in *. subst s. lia.
Qed.
