(* ===== verification/Inspect.v ===== *)
(** * The read-only surface ([internal/observability/server.go], [inspect_handlers.go],
      and the [Inspector] methods of [internal/smsc/engine.go])

    A request is answered from the engine as it is at that moment; nothing here
    returns a new engine.  Bodies are the values handed to [encoding/json]; the
    Prometheus exposition of [promhttp] is a body of its own. *)

From S2P Require Import Prelude.
From S2P Require Import Strconv.
From S2P Require Import Rng.
From S2P Require Import Recorder.
From S2P Require Import Config.
From S2P Require Import ValidateThms.
From S2P Require Import Scenario.
From S2P Require Import Binds.
From S2P Require Import VirtualSMSC.
From S2P Require Import TLSCert.
From S2P Require Import Boot.

#[local] Open Scope string_scope.
#[local] Open Scope list_scope.

(** ** The interface of the surface *)

(** The filter and the record of [internal/observability] are structs with the
    fields of the recorder's, converted one to one. *)
Definition PDUFilter : Type := Filter.
Definition RecordedPDUView : Type := RecordedPDU.

(** What the surface asks of the simulator; [None] when there is no such SMSC. *)
Class Inspector (I : Type) := {
  insp_VirtualSMSCs : I -> list VirtualSMSCView;
  insp_VirtualSMSC : string -> I -> option VirtualSMSCView;
  insp_ReceivedPDUs : string -> PDUFilter -> I -> may_panic (option (list RecordedPDUView));
  insp_Binds : string -> I -> option (list BindView);
  insp_LogicalClock : string -> I -> option Z
}.

(** What an implementation promises in the states [ok]: its methods agree on the
    SMSCs there are, and none panics. *)
Class InspectorLaws (I : Type) `{Inspector I} (ok : I -> Prop) := {
  known : string -> I -> bool;
  known_VirtualSMSC id i : is_Some (insp_VirtualSMSC id i) <-> known id i = true;
  known_Binds id i : is_Some (insp_Binds id i) <-> known id i = true;
  known_LogicalClock id i : is_Some (insp_LogicalClock id i) <-> known id i = true;
  known_ReceivedPDUs id f i : ok i ->
    exists pdus, insp_ReceivedPDUs id f i = Ok pdus /\ (is_Some pdus <-> known id i = true)
}.

(** ** The engine's methods *)

Section Engine.
Context {cert : Type}.
Implicit Types (e : engine cert).

Definition find_smsc (id : string) e : option virtualSMSC :=
  i ← e_byName e !! id; ho_smsc <$> e_smscs e !! i.

Definition VirtualSMSCs e : list VirtualSMSCView := (fun ho => view (ho_smsc ho)) <$> e_smscs e.

Definition VirtualSMSC (id : string) e : option VirtualSMSCView := view <$> find_smsc id e.

(** The view conversions are between structs with the same fields. *)
Definition ReceivedPDUs (id : string) (f : Filter) e : may_panic (option (list RecordedPDU)) :=
  match find_smsc id e with
  | None => Ok None
  | Some v => let* records := Snapshot f (v_recorder v) in Ok (Some records)
  end.

Definition Binds (id : string) e : option (list BindView) := (fun v => views (v_binds v)) <$> find_smsc id e.

Definition LogicalClock (id : string) e : option Z := v_logicalClock <$> find_smsc id e.

(** The resolved listen address. *)
Definition Addr (name : string) e : option Z := i ← e_byName e !! name; ho_addr <$> e_smscs e !! i.

#[export] Instance engine_inspector : Inspector (engine cert) := {|
  insp_VirtualSMSCs := VirtualSMSCs;
  insp_VirtualSMSC := VirtualSMSC;
  insp_ReceivedPDUs := ReceivedPDUs;
  insp_Binds := Binds;
  insp_LogicalClock := LogicalClock
|}.

End Engine.

(** ** Requests and responses *)

Record request := mkRequest {
  rq_method : string;
  rq_path : list string;                 (* the unescaped segments of a cleaned path *)
  rq_query : list (string * string)      (* the parsed query, in order *)
}.

Inductive body :=
| BHealth (status : string)
| BSMSCs (vs : list VirtualSMSCView)
| BSMSC (v : VirtualSMSCView)
| BPDUs (pdus : list RecordedPDU)
| BBinds (bs : list BindView)
| BLogicalClock (clock : Z)
| BError (msg : string)
| BExposition
| BText (msg : string).

Record response := mkResponse { rs_status : Z; rs_body : body }.

Definition StatusOK : Z := 200.
Definition StatusNotFound : Z := 404.
Definition StatusMethodNotAllowed : Z := 405.

(** [url.Values.Get]: the first value of the key. *)
Fixpoint Get (key : string) (q : list (string * string)) : string :=
  match q with
  | [] => ""
  | (k, v) :: q => if String.eqb k key then v else Get key q
  end.

Definition maxPDUPage : Z := 1000.

Definition pageLimit (s : string) : Z :=
  match Atoi s with
  | None => maxPDUPage
  | Some v => if ((v <=? 0) || (v >? maxPDUPage))%Z then maxPDUPage else v
  end.

Definition parseUint (s : string) : Z := default 0 (ParseUint s).

(** ** Handlers *)

Section Handlers.
Context {I : Type} `{Inspector I}.
Implicit Types (e : I) (r : request) (id : string).

Definition writeJSON (b : body) : response := mkResponse StatusOK b.

Definition notFound id : response := mkResponse StatusNotFound (BError ("unknown virtual smsc: " +:+ id)).

Definition handleHealth : response := mkResponse StatusOK (BHealth "ok").

Definition handleVirtualSMSCs e : response := writeJSON (BSMSCs (insp_VirtualSMSCs e)).

Definition handleVirtualSMSC id e : response :=
  match insp_VirtualSMSC id e with Some v => writeJSON (BSMSC v) | None => notFound id end.

Definition pduFilter (q : list (string * string)) : Filter :=
  mkFilter (Get "sourceAddr" q) (Get "destAddr" q) (parseUint (Get "since" q)) (pageLimit (Get "limit" q)).

Definition handleReceivedPDUs id r e : may_panic response :=
  let* pdus := insp_ReceivedPDUs id (pduFilter (rq_query r)) e in
  Ok match pdus with Some pdus => writeJSON (BPDUs pdus) | None => notFound id end.

Definition handleBinds id e : response :=
  match insp_Binds id e with Some bs => writeJSON (BBinds bs) | None => notFound id end.

Definition handleLogicalClock id e : response :=
  match insp_LogicalClock id e with Some clock => writeJSON (BLogicalClock clock) | None => notFound id end.

(** ** The mux *)

Inductive handler := HHealth | HSMSCs | HSMSC | HPDUs | HBinds | HClock | HMetrics.

Inductive segment := Lit (s : string) | Wild (name : string).

Record route := mkRoute { rt_method : string; rt_path : list segment; rt_handler : handler }.

(** The routes [NewServer] registers. *)
Definition routes (srv : server) : list route :=
  [mkRoute "GET" [Lit "health"] HHealth] ++
  (if srv_insp srv then
     [mkRoute "GET" [Lit "v1"; Lit "virtual-smscs"] HSMSCs;
      mkRoute "GET" [Lit "v1"; Lit "virtual-smscs"; Wild "id"] HSMSC;
      mkRoute "GET" [Lit "v1"; Lit "virtual-smscs"; Wild "id"; Lit "received-pdus"] HPDUs;
      mkRoute "GET" [Lit "v1"; Lit "virtual-smscs"; Wild "id"; Lit "binds"] HBinds;
      mkRoute "GET" [Lit "v1"; Lit "virtual-smscs"; Wild "id"; Lit "logical-clock"] HClock]
   else []) ++
  (if srv_reg srv then [mkRoute "GET" [Lit "metrics"] HMetrics] else []).

(** The path values of a match; a wildcard takes one segment. *)
Fixpoint match_path (pat : list segment) (path : list string) : option (list (string * string)) :=
  match pat, path with
  | [], [] => Some []
  | Lit s :: pat, p :: path => if String.eqb s p then match_path pat path else None
  | Wild name :: pat, p :: path =>
      if String.eqb p "" then None else (fun vals => (name, p) :: vals) <$> match_path pat path
  | _, _ => None
  end.

(** A GET pattern also serves HEAD. *)
Definition match_method (pat m : string) : bool := String.eqb pat m || (String.eqb pat "GET" && String.eqb m "HEAD").

Fixpoint find_route (rts : list route) (m : string) (path : list string)
  : option (handler * list (string * string)) :=
  match rts with
  | [] => None
  | rt :: rts =>
      match match_path (rt_path rt) path with
      | Some vals => if match_method (rt_method rt) m then Some (rt_handler rt, vals) else find_route rts m path
      | None => find_route rts m path
      end
  end.

Definition path_known (rts : list route) (path : list string) : bool :=
  existsb (fun rt => match match_path (rt_path rt) path with Some _ => true | None => false end) rts.

Definition handle (h : handler) (id : string) r e : may_panic response :=
  match h with
  | HHealth => Ok handleHealth
  | HSMSCs => Ok (handleVirtualSMSCs e)
  | HSMSC => Ok (handleVirtualSMSC id e)
  | HPDUs => handleReceivedPDUs id r e
  | HBinds => Ok (handleBinds id e)
  | HClock => Ok (handleLogicalClock id e)
  | HMetrics => Ok (mkResponse StatusOK BExposition)
  end.

Definition ServeHTTP (srv : server) r e : may_panic response :=
  match find_route (routes srv) (rq_method r) (rq_path r) with
  | Some (h, vals) => handle h (Get "id" vals) r e
  | None =>
      Ok (if path_known (routes srv) (rq_path r)
          then mkResponse StatusMethodNotAllowed (BText "Method Not Allowed")
          else mkResponse StatusNotFound (BText "404 page not found"))
  end.

End Handlers.

(** ** Every request gets its status *)

Lemma pageLimit_bounds s : (1 <= pageLimit s <= maxPDUPage)%Z.
Proof.
  unfold pageLimit, maxPDUPage. destruct (Atoi s) as [v|]; [|lia].
  destruct (Z.leb_spec v 0), (Z.gtb_spec v 1000); simpl; lia.
Qed.

Lemma parseUint_range s : is_u64 (parseUint s).
Proof.
  unfold parseUint, is_u64. destruct (ParseUint s) as [n|] eqn:Hp; simpl; [by apply ParseUint_range in Hp|lia].
Qed.

(** The recorder of an SMSC that has journalled some sequence of PDUs. *)
Definition journalled (cap : Z) (ps : list RecordedPDU) (v : virtualSMSC) : Prop :=
  (len ps < 2 ^ 64)%Z /\ append_all ps (Recorder.New cap) = Ok (v_recorder v).

Lemma journalled_query cap ps v f :
  journalled cap ps v -> Snapshot f (v_recorder v) = Ok (query f (retained (Z.max 1 cap) (indexed ps))).
Proof.
  intros [Hlen Hr]. destruct (append_all_represents cap ps Hlen) as (r & Hr' & Hrep).
  rewrite Hr in Hr'. simplify_eq.
  apply Snapshot_represents; [done|apply indexed_well_indexed|by rewrite length_indexed].
Qed.

Section Journalled.
Context {cert : Type}.

Definition all_journalled (e : engine cert) : Prop :=
  forall ho, ho ∈ e_smscs e -> exists cap ps, journalled cap ps (ho_smsc ho).

Lemma find_smsc_journalled e id v :
  all_journalled e -> find_smsc id e = Some v -> exists cap ps, journalled cap ps v.
Proof.
  intros Hall. unfold find_smsc. destruct (e_byName e !! id) as [i|]; [|done].
  cbn [mbind option_bind]. destruct (e_smscs e !! i) as [ho|] eqn:Hi; [|done]. intros [= <-].
  apply Hall. by eapply list_elem_of_lookup_2.
Qed.

Lemma is_Some_known {A B} (f : A -> B) (x : option A) :
  is_Some (f <$> x) <-> match x with Some _ => true | None => false end = true.
Proof. rewrite fmap_is_Some. by destruct x; split. Qed.

(** The engine keeps the interface's promises. *)
#[export, refine] Instance engine_laws : InspectorLaws (engine cert) all_journalled := {|
  known id e := match find_smsc id e with Some _ => true | None => false end
|}.
Proof.
  - intros id e. apply is_Some_known.
  - intros id e. apply is_Some_known.
  - intros id e. apply is_Some_known.
  - intros id f e Hall. simpl. unfold ReceivedPDUs. destruct (find_smsc id e) as [v|] eqn:Hv.
    + destruct (find_smsc_journalled e id v Hall Hv) as (cap & ps & Hj).
      rewrite (journalled_query _ _ _ _ Hj). by eexists.
    + exists None. split; [done|]. by split; [intros [? ?]|].
Defined.
End Journalled.

Section Surface.
Context {I : Type} `{InspectorLaws I ok}.
Implicit Types (e : I).

(** The SMSC a path names. *)
Definition names_smsc (path : list string) : option string :=
  match path with
  | [v1; smscs; id] =>
      if String.eqb "v1" v1 && String.eqb "virtual-smscs" smscs && negb (String.eqb id "") then Some id else None
  | [v1; smscs; id; view] =>
      if String.eqb "v1" v1 && String.eqb "virtual-smscs" smscs && negb (String.eqb id "") &&
         one_of ["received-pdus"; "binds"; "logical-clock"] view then Some id else None
  | _ => None
  end.

Definition fixed_paths : list (list string) := [["health"]; ["v1"; "virtual-smscs"]; ["metrics"]].

Definition served_path (path : list string) : bool :=
  bool_decide (path ∈ fixed_paths) || match names_smsc path with Some _ => true | None => false end.

Definition expected_status e (r : request) : Z :=
  if served_path (rq_path r) then
    if String.eqb (rq_method r) "GET" || String.eqb (rq_method r) "HEAD" then
      match names_smsc (rq_path r) with
      | Some id => if known id e then StatusOK else StatusNotFound
      | None => StatusOK
      end
    else StatusMethodNotAllowed
  else StatusNotFound.

(** What the mux finds for a path, by its shape. *)
Definition route_of (path : list string) : option (handler * string) :=
  match path with
  | [p] => if String.eqb "health" p then Some (HHealth, "")
           else if String.eqb "metrics" p then Some (HMetrics, "") else None
  | [v1; smscs] => if String.eqb "v1" v1 && String.eqb "virtual-smscs" smscs then Some (HSMSCs, "") else None
  | [v1; smscs; id] =>
      if String.eqb "v1" v1 && String.eqb "virtual-smscs" smscs && negb (String.eqb id "")
      then Some (HSMSC, id) else None
  | [v1; smscs; id; p] =>
      if String.eqb "v1" v1 && String.eqb "virtual-smscs" smscs && negb (String.eqb id "") then
        if String.eqb "received-pdus" p then Some (HPDUs, id)
        else if String.eqb "binds" p then Some (HBinds, id)
        else if String.eqb "logical-clock" p then Some (HClock, id) else None
      else None
  | _ => None
  end.

#[local] Arguments String.eqb : simpl never.
#[local] Arguments match_method : simpl never.

Ltac split_path :=
  simpl; try done;
  repeat (match goal with
  | |- context [String.eqb ?a ?b] => destruct (String.eqb_spec a b) as [?|?]; subst
  end; simpl; try done).

Lemma find_route_shape srv m path :
  srv_insp srv = true -> srv_reg srv = true ->
  find_route (routes srv) m path =
    (if match_method "GET" m then
       (fun hi => (hi.1, match hi.1 with HHealth | HSMSCs | HMetrics => [] | _ => [("id", hi.2)] end)) <$> route_of path
     else None) /\
  path_known (routes srv) path = match route_of path with Some _ => true | None => false end.
Proof.
  intros Hi Hr. unfold routes. rewrite Hi, Hr.
  destruct path as [|p1 [|p2 [|p3 [|p4 [|p5 path]]]]]; unfold path_known; simpl; destruct (match_method "GET" m);
    (split; split_path).
Qed.

Lemma route_of_served path :
  (match route_of path with Some _ => true | None => false end) = served_path path /\
  forall h id, route_of path = Some (h, id) ->
    names_smsc path = match h with HHealth | HSMSCs | HMetrics => None | _ => Some id end.
Proof.
  unfold served_path, fixed_paths.
  destruct path as [|p1 [|p2 [|p3 [|p4 [|p5 path]]]]]; simpl; (split; [|intros h id]); split_path.
  all: try by intros; simplify_eq.
  all: rewrite bool_decide_false; [done|]; intros Hin;
    repeat (apply elem_of_cons in Hin as [Hin|Hin]; [by simplify_eq|]); by apply elem_of_nil in Hin.
Qed.


Lemma handle_status h id r e :
  ok e ->
  exists resp, handle h id r e = Ok resp /\
    rs_status resp = match h with
      | HHealth | HSMSCs | HMetrics => StatusOK
      | _ => if known id e then StatusOK else StatusNotFound
      end.
Proof.
  intros Hok. assert (forall A (x : option A), (is_Some x <-> known id e = true) ->
    known id e = match x with Some _ => true | None => false end) as Hk.
  { intros A [a|] [H1 H2]; [by apply H1|]. apply not_true_iff_false. intros Hx. by destruct (H2 Hx). }
  destruct h; simpl; try by eexists.
  - rewrite (Hk _ _ (known_VirtualSMSC id e)). unfold handleVirtualSMSC. destruct (insp_VirtualSMSC id e); by eexists.
  - destruct (known_ReceivedPDUs id (pduFilter (rq_query r)) e Hok) as (pdus & Hp & Hs).
    unfold handleReceivedPDUs. rewrite Hp, (Hk _ _ Hs). eexists. split; [done|]. by destruct pdus.
  - rewrite (Hk _ _ (known_Binds id e)). unfold handleBinds. destruct (insp_Binds id e); by eexists.
  - rewrite (Hk _ _ (known_LogicalClock id e)). unfold handleLogicalClock. destruct (insp_LogicalClock id e); by eexists.
Qed.

(** Against the interface alone. *)
Lemma status_expected e addr r :
  ok e -> exists resp, ServeHTTP (mkServer addr true true) r e = Ok resp /\ rs_status resp = expected_status e r.
Proof.
  intros Hok. unfold ServeHTTP, expected_status.
  destruct (find_route_shape (mkServer addr true true) (rq_method r) (rq_path r) eq_refl eq_refl) as [-> ->].
  destruct (route_of_served (rq_path r)) as [<- Hn]. unfold match_method. rewrite (String.eqb_sym "GET").
  rewrite String.eqb_refl, andb_true_l.
  destruct (String.eqb (rq_method r) "GET" || String.eqb (rq_method r) "HEAD");
    (destruct (route_of (rq_path r)) as [[h id]|]; [|by eexists]); [|by eexists].
  rewrite (Hn h id eq_refl). destruct (handle_status h id r e Hok) as (resp & Hresp & Hs).
  exists resp. by destruct h.
Qed.

End Surface.

(** The surface answers every request with the right status and never panics.
    A path it does not serve is 404; a served path asked with any method but GET
    or HEAD is 405, whatever the path; a path naming a virtual SMSC that is not
    hosted is 404; everything else is 200. *)
Theorem surface_status {cert : Type} (e : engine cert) addr r :
  all_journalled e ->
  exists resp, ServeHTTP (mkServer addr true true) r e = Ok resp /\ rs_status resp = expected_status e r.
Proof. apply status_expected. Qed.

(** Two SMSCs, the first of which has journalled three PDUs. *)
Definition sample_engine : engine unit :=
  let v := (newVirtualSMSC (sample_smsc "a" 2775)).1 in
  let r := match append_all [sample_rec "x"; sample_rec "y"; sample_rec "x"] (v_recorder v) with
           | Ok r => r | _ => v_recorder v end in
  mkEngine [mkHosted (set_v_recorder r v) 2775 None; mkHosted (newVirtualSMSC (sample_smsc "b" 2776)).1 2776 None]
    {["a" := 0%nat; "b" := 1%nat]} false true.

Lemma sample_engine_journalled : all_journalled sample_engine.
Proof.
  intros ho Hin. apply elem_of_cons in Hin as [->|Hin].
  - exists 100%Z, [sample_rec "x"; sample_rec "y"; sample_rec "x"]. split; vm_compute; reflexivity.
  - apply elem_of_cons in Hin as [->|Hin]; [|by apply elem_of_nil in Hin].
    exists 100%Z, []. split; vm_compute; reflexivity.
Qed.

Lemma surface_status_witness :
  let r m path := mkRequest m path [] in
  let status m path := match ServeHTTP (mkServer 8080 true true) (r m path) sample_engine with
                       | Ok resp => rs_status resp | _ => 0%Z end in
  status "GET" ["v1"; "virtual-smscs"; "a"; "binds"] = 200%Z /\
  status "DELETE" ["v1"; "virtual-smscs"; "a"; "binds"] = 405%Z /\
  status "HEAD" ["v1"; "virtual-smscs"; "c"] = 404%Z /\ status "GET" ["v2"] = 404%Z.
Proof.
  intros r status.
  assert (forall m path, status m path = expected_status sample_engine (r m path)) as H.
  { intros m path. unfold status.
    destruct (surface_status sample_engine 8080 (r m path) sample_engine_journalled) as (resp & -> & Hs). exact Hs. }
  rewrite !H. vm_compute. repeat split.
Defined.

(** ** Reading a journal page by page *)

Definition pdus_request (id src dst : string) (since limit : Z) : request :=
  mkRequest "GET" ["v1"; "virtual-smscs"; id; "received-pdus"]
    [("sourceAddr", src); ("destAddr", dst); ("since", format since); ("limit", format limit)].

(** A client that asks again from just after the last index it was given, until a
    page is empty. *)
Fixpoint walk {cert} (fuel : nat) (srv : server) (e : engine cert) (id src dst : string) (limit since : Z)
  : option (list RecordedPDU) :=
  match fuel with
  | O => None
  | S fuel =>
      match ServeHTTP srv (pdus_request id src dst since limit) e with
      | Ok (mkResponse 200 (BPDUs page)) =>
          match last page with
          | None => Some []
          | Some rec => app page <$> walk fuel srv e id src dst limit (Rec_Index rec + 1)
          end
      | _ => None
      end
  end.

Section Walk.
Context {cert : Type} (e : engine cert) (addr : Z) (reg : bool) (id : string) (v : virtualSMSC).
Context (cap : Z) (ps : list RecordedPDU).
Context (Hid : id <> "") (Hfind : find_smsc id e = Some v) (Hj : journalled cap ps v).

Let log : list RecordedPDU := retained (Z.max 1 cap) (indexed ps).

Lemma serve_pdus q :
  ServeHTTP (mkServer addr true reg) (mkRequest "GET" ["v1"; "virtual-smscs"; id; "received-pdus"] q) e =
  Ok (mkResponse StatusOK (BPDUs (query (pduFilter q) log))).
Proof.
  unfold ServeHTTP, routes. cbn [srv_insp rq_method rq_path]. simpl.
  rewrite (proj2 (String.eqb_neq _ _) Hid). cbn [fmap option_fmap option_map].
  change (Get "id" [("id", id)]) with id. unfold handle, handleReceivedPDUs.
  cbn [insp_ReceivedPDUs engine_inspector]. unfold ReceivedPDUs. rewrite Hfind. by rewrite (journalled_query _ _ _ _ Hj).
Qed.

Lemma request_filter src dst since limit :
  is_u64 since -> (1 <= limit <= maxPDUPage)%Z ->
  pduFilter (rq_query (pdus_request id src dst since limit)) = page (mkFilter src dst 0 0) since limit.
Proof.
  intros Hs Hl. unfold maxPDUPage in Hl. unfold pduFilter, page, parseUint, pageLimit. simpl.
  rewrite ParseUint_format by done. rewrite Atoi_format by lia. simpl. f_equal.
  destruct (Z.leb_spec limit 0), (Z.gtb_spec limit maxPDUPage); unfold maxPDUPage in *; simpl; lia || done.
Qed.

Lemma retained_index rec : rec ∈ log -> (0 <= Rec_Index rec < len ps)%Z.
Proof.
  intros Hin. unfold log, retained in Hin. apply list_elem_of_lookup in Hin as [i Hi].
  rewrite lookup_drop in Hi. rewrite (indexed_well_indexed ps _ _ Hi).
  apply lookup_lt_Some in Hi. rewrite !length_indexed in *. lia.
Qed.

Lemma query_in f rec : rec ∈ query f log -> rec ∈ log.
Proof.
  unfold query, limited. intros Hin.
  assert (rec ∈ base.filter (fun rec => skips f rec = false /\ (F_Since f <= Rec_Index rec)%Z) log) as H.
  { destruct (0 <? F_Limit f)%Z; [|done]. apply elem_of_take in Hin as (i & Hi & _). by eapply list_elem_of_lookup_2. }
  by apply list_elem_of_filter in H as [_ ?].
Qed.

Lemma walk_from src dst limit fuel since :
  (1 <= limit <= maxPDUPage)%Z -> (0 <= since <= len ps)%Z ->
  (length (query (page (mkFilter src dst 0 0) since 0) log) < fuel)%nat ->
  walk fuel (mkServer addr true reg) e id src dst limit since =
  Some (query (page (mkFilter src dst 0 0) since 0) log).
Proof.
  intros Hl. revert since. induction fuel as [|fuel IH]; intros since Hs Hfuel; [lia|].
  destruct Hj as [Hlen _]. cbn [walk]. unfold pdus_request at 1. rewrite serve_pdus.
  change (pduFilter _) with (pduFilter (rq_query (pdus_request id src dst since limit))).
  rewrite request_filter by (done || unfold is_u64; lia).
  set (f := mkFilter src dst 0 0) in *. unfold StatusOK.
  destruct (last (query (page f since limit) log)) as [rec|] eqn:Hlast.
  - assert (query (page f since 0) log = query (page f since limit) log ++ query (page f (Rec_Index rec + 1) 0) log) as Hq.
    { assert (rec ∈ query (page f since limit) log) as Hin.
      { apply last_Some in Hlast as [l' ->]. set_solver. }
      apply query_since in Hin. simpl in Hin.
      apply query_page; [lia| |by rewrite Hlast|lia].
      apply (query_matches_sorted _ _ (page f since limit)), indexed_well_indexed. }
    assert (rec ∈ log) as Hrec.
    { apply (query_in (page f since limit)). apply last_Some in Hlast as [l' ->]. set_solver. }
    apply retained_index in Hrec. rewrite IH.
    + simpl. by rewrite Hq.
    + lia.
    + rewrite Hq, length_app in Hfuel. apply last_Some in Hlast as [l' Hl']. rewrite Hl', length_app in Hfuel.
      simpl in Hfuel. lia.
  - apply last_None in Hlast. rewrite query_page_limited in Hlast |- *. unfold limited in *. simpl in *.
    destruct (Z.ltb_spec 0 limit); [|lia]. destruct (base.filter _ log) as [|rec l]; [done|].
    destruct (Z.to_nat limit) eqn:Hn; [lia|done].
Qed.
End Walk.

(** C36: the surface pages through a journal exactly.  Any received-pdus request is
    answered with at most [maxPDUPage] records, whatever its query; and a client
    that walks an SMSC's journal with pages of any admissible size, each time
    asking from the index after the last one it was given, terminates within one
    request per record and one more, and has then read precisely the retained
    records that match its filters, in order, none twice and none missed. *)
Theorem pages_cover_journal {cert} (e : engine cert) addr reg id v cap ps src dst limit :
  id <> "" -> find_smsc id e = Some v -> journalled cap ps v -> (1 <= limit <= maxPDUPage)%Z ->
  let log := retained (Z.max 1 cap) (indexed ps) in
  walk (S (length ps)) (mkServer addr true reg) e id src dst limit 0 = Some (query (mkFilter src dst 0 0) log) /\
  forall q, exists page, ServeHTTP (mkServer addr true reg)
      (mkRequest "GET" ["v1"; "virtual-smscs"; id; "received-pdus"] q) e = Ok (mkResponse StatusOK (BPDUs page)) /\
    (len page <= maxPDUPage)%Z /\ sublist page log.
Proof.
  intros Hid Hfind Hj Hl log. split.
  - apply (walk_from e addr reg id v cap ps Hid Hfind Hj src dst limit (S (length ps)) 0); [done|lia|].
    rewrite query_page_limited. unfold limited. simpl.
    eapply Nat.le_lt_trans; [apply length_filter|]. unfold retained. rewrite length_drop, length_indexed. lia.
  - intros q. eexists. split; [exact (serve_pdus e addr reg id v cap ps Hid Hfind Hj q)|].
    pose proof (pageLimit_bounds (Get "limit" q)) as Hb. unfold query, limited, pduFilter. cbn [F_Limit].
    destruct (Z.ltb_spec 0 (pageLimit (Get "limit" q))); [|lia]. split.
    + rewrite length_take. lia.
    + etransitivity; [apply sublist_take|apply sublist_filter].
Qed.

Lemma pages_cover_journal_witness :
  walk 4 (mkServer 8080 true false) sample_engine "a" "x" "" 1 0 =
    Some [set_Index 0 (sample_rec "x"); set_Index 2 (sample_rec "x")] /\
  walk 4 (mkServer 8080 true false) sample_engine "a" "" "" 2 0 =
    Some (indexed [sample_rec "x"; sample_rec "y"; sample_rec "x"]).
Proof.
  assert (forall src dst limit, (1 <= limit <= maxPDUPage)%Z ->
    walk 4 (mkServer 8080 true false) sample_engine "a" src dst limit 0 =
    Some (query (mkFilter src dst 0 0) (retained 100 (indexed [sample_rec "x"; sample_rec "y"; sample_rec "x"])))) as H.
  { intros src dst limit Hl.
    refine (proj1 (pages_cover_journal sample_engine 8080 false "a" _ 100
      [sample_rec "x"; sample_rec "y"; sample_rec "x"] src dst limit _ eq_refl _ Hl)); [done|].
    split; vm_compute; reflexivity. }
  rewrite !H by (unfold maxPDUPage; lia). split; vm_compute; reflexivity.
Defined.
