(* ===== verification/Render.v ===== *)
(** * Responses as bytes ([internal/observability/inspect.go], [writeJSON] and
      [notFound] of [inspect_handlers.go], [handleHealth] of [server.go])

    The views with their JSON keys, and each body as the text [encoding/json] makes
    of it.  A client that decodes the text has the views back; the exposition of
    [promhttp] is a parameter. *)

From S2P Require Import Prelude.
From S2P Require Import Strconv.
From S2P Require Import Json.
From S2P Require Import Rng.
From S2P Require Import Recorder.
From S2P Require Import Dlr.
From S2P Require Import Rfc3339.
From S2P Require Import Config.
From S2P Require Import ValidateThms.
From S2P Require Import Binds.
From S2P Require Import VirtualSMSC.
From S2P Require Import TLSCert.
From S2P Require Import Boot.
From S2P Require Import Inspect.

#[local] Open Scope string_scope.
#[local] Open Scope list_scope.

(** ** The views *)

(** Every member of an object is well formed. *)
Ltac members := constructor; repeat (apply Forall_cons_2; [cbn [snd]; try by apply marshal_wf|]); try apply Forall_nil_2.

(** Reading a member by its key. *)
Ltac back := simpl; rewrite ?clean_string_valid by done; done.

Definition smsc_json (v : VirtualSMSCView) : json :=
  JObject [("name", MarshalJSON (VV_Name v)); ("port", MarshalJSON (VV_Port v));
           ("active_profile", MarshalJSON (VV_ActiveProfile v)); ("bind_count", MarshalJSON (VV_BindCount v));
           ("logical_clock", MarshalJSON (VV_LogicalClock v)); ("recorded_pdus", MarshalJSON (VV_RecordedPDUs v))].

Definition smsc_of_json (j : json) : option VirtualSMSCView :=
  name ← get "name" j; port ← get "port" j; profile ← get "active_profile" j; count ← get "bind_count" j;
  clock ← get "logical_clock" j; recorded ← get "recorded_pdus" j;
  Some (mkVirtualSMSCView name port profile count clock recorded).

Record smsc_faithful (v : VirtualSMSCView) : Prop := {
  sf_name : faithful (VV_Name v); sf_port : faithful (VV_Port v); sf_profile : faithful (VV_ActiveProfile v);
  sf_count : faithful (VV_BindCount v); sf_clock : faithful (VV_LogicalClock v); sf_pdus : faithful (VV_RecordedPDUs v)
}.

#[export, refine] Instance smsc_marshal : Marshal VirtualSMSCView := {|
  MarshalJSON := smsc_json; UnmarshalJSON := smsc_of_json; faithful := smsc_faithful
|}.
Proof.
  - intros v []. members.
  - intros [n p a c l r] []. unfold smsc_of_json. back.
Defined.

Definition bind_json (b : BindView) : json :=
  JObject [("id", MarshalJSON (BV_ID b)); ("system_id", MarshalJSON (BV_SystemID b));
           ("bind_type", MarshalJSON (BV_BindType b)); ("connected_at", MarshalJSON (format_time (BV_ConnectedAt b)))].

Definition bind_of_json (j : json) : option BindView :=
  id ← get "id" j; system ← get "system_id" j; type ← get "bind_type" j; at_ ← get "connected_at" j;
  t ← parse_time at_; Some (mkBindView id system type t).

Record bind_faithful (b : BindView) : Prop := {
  bf_id : faithful (BV_ID b); bf_system : faithful (BV_SystemID b); bf_type : faithful (BV_BindType b);
  bf_at : (0 <= BV_ConnectedAt b < 2 ^ 63)%Z
}.

(** *** The text of an instant is ASCII *)

Definition ascii_string (s : string) : Prop := Forall (fun b => (byte_to_Z b < 0x80)%Z) (bytes_of_string s).

Lemma ascii_cons c s : (byte_to_Z (Ascii.byte_of_ascii c) < 0x80)%Z -> ascii_string s -> ascii_string (String c s).
Proof. intros Hc Hs. by constructor. Qed.

Lemma digit_ascii d : (0 <= d < 10)%Z -> (byte_to_Z (Ascii.byte_of_ascii (digit_char d)) < 0x80)%Z.
Proof.
  intros Hd. assert (d = 0 \/ d = 1 \/ d = 2 \/ d = 3 \/ d = 4 \/ d = 5 \/ d = 6 \/ d = 7 \/ d = 8 \/ d = 9)%Z as H by lia.
  by repeat destruct H as [->|H]; [..|subst].
Qed.

Lemma digits_ascii ds s : Forall (fun d => (0 <= d < 10)%Z) ds -> ascii_string s -> ascii_string (digit_string ds s).
Proof. intros Hds Hs. induction Hds; [done|]. apply ascii_cons; [by apply digit_ascii|done]. Qed.

Lemma format_time_ascii t : ascii_string (format_time t).
Proof.
  unfold format_time. destruct (civil_date _) as [[y m] d].
  assert (ascii_string "Z") as Hz by (by repeat constructor).
  assert (forall n, ascii_string (fraction n)) as Hf.
  { intros n. unfold fraction. pose proof (digits_range 9 n) as Hr. destruct (trim_zeros (digits 9 n)) as [j Hj].
    rewrite Hj in Hr. apply Forall_app in Hr as [Hr _]. destruct (trim (digits 9 n)) as [|x ds]; [done|].
    apply ascii_cons; [done|]. by apply digits_ascii. }
  repeat (apply digits_ascii; [apply digits_range|]; try (apply ascii_cons; [done|])). apply Hf.
Qed.

#[export, refine] Instance bind_marshal : Marshal BindView := {|
  MarshalJSON := bind_json; UnmarshalJSON := bind_of_json; faithful := bind_faithful
|}.
Proof.
  - intros b []. members. constructor.
  - intros [i s ty t] [? ? ? Ht]. unfold bind_of_json. simpl in *.
    rewrite !clean_string_valid by (done || by apply ascii_valid, format_time_ascii).
    by rewrite parse_format_time.
Defined.

(** [RecordedPDUView] has the fields of the record, [short_message] in base64. *)
Definition pdu_json (p : RecordedPDU) : json :=
  JObject [("index", MarshalJSON (Rec_Index p)); ("message_id", MarshalJSON (Rec_MessageID p));
           ("source_addr", MarshalJSON (Rec_SourceAddr p)); ("source_ton", MarshalJSON (Rec_SourceTON p));
           ("source_npi", MarshalJSON (Rec_SourceNPI p)); ("dest_addr", MarshalJSON (Rec_DestAddr p));
           ("dest_ton", MarshalJSON (Rec_DestTON p)); ("dest_npi", MarshalJSON (Rec_DestNPI p));
           ("data_coding", MarshalJSON (Rec_DataCoding p)); ("short_message", marshal_bytes (Rec_ShortMessage p));
           ("per_bind_clock", MarshalJSON (Rec_PerBindClock p))].

Definition message_of_json (j : json) : option bytes :=
  match j with JObject fields => field "short_message" fields ≫= unmarshal_bytes | _ => None end.

Definition pdu_of_json (j : json) : option RecordedPDU :=
  index ← get "index" j; mid ← get "message_id" j; src ← get "source_addr" j; ston ← get "source_ton" j;
  snpi ← get "source_npi" j; dst ← get "dest_addr" j; dton ← get "dest_ton" j; dnpi ← get "dest_npi" j;
  dcs ← get "data_coding" j; msg ← message_of_json j; clock ← get "per_bind_clock" j;
  Some (mkRecordedPDU index mid src ston snpi dst dton dnpi dcs msg clock).

Record pdu_in_range (p : RecordedPDU) : Prop := {
  pr_index : is_u64 (Rec_Index p); pr_clock : is_u64 (Rec_PerBindClock p)
}.

(** The addresses and the id are text. *)
Record pdu_text (p : RecordedPDU) : Prop := {
  pt_id : faithful (Rec_MessageID p); pt_source : faithful (Rec_SourceAddr p); pt_dest : faithful (Rec_DestAddr p)
}.

Lemma pdu_json_wf p : pdu_in_range p -> json_wf (pdu_json p).
Proof. intros []. members; by constructor || by apply (marshal_wf (A := byte)). Qed.

Lemma byte_back b : UnmarshalJSON (clean (MarshalJSON (b : byte))) = Some b.
Proof. by apply marshal_back. Qed.

#[export, refine] Instance pdu_marshal : Marshal RecordedPDU := {|
  MarshalJSON := pdu_json; UnmarshalJSON := pdu_of_json; faithful p := pdu_in_range p /\ pdu_text p
|}.
Proof.
  - intros p [Hp _]. by apply pdu_json_wf.
  - intros [i mid src ston snpi dst dton dnpi dcs msg clk] [_ []]. unfold pdu_of_json, message_of_json, get, pdu_json.
    pose proof (bytes_back msg) as Hm. pose proof byte_back as Hb. simpl in Hm, Hb |- *.
    rewrite !clean_string_valid by done. by rewrite !Hb, Hm.
Defined.

Lemma message_back p : message_of_json (clean (pdu_json p)) = Some (Rec_ShortMessage p).
Proof. pose proof (bytes_back (Rec_ShortMessage p)) as Hm. unfold message_of_json. simpl in Hm |- *. exact Hm. Qed.

(** ** Bodies *)

Definition body_json (b : body) : option json :=
  match b with
  | BHealth status => Some (JObject [("status", MarshalJSON status)])
  | BSMSCs vs => Some (MarshalJSON vs)
  | BSMSC v => Some (MarshalJSON v)
  | BPDUs pdus => Some (MarshalJSON pdus)
  | BBinds bs => Some (MarshalJSON bs)
  | BLogicalClock clock => Some (JObject [("logical_clock", MarshalJSON clock)])
  | BError msg => Some (JObject [("error", MarshalJSON msg)])
  | BExposition | BText _ => None
  end.

(** The text on the wire; [exposition] is what [promhttp] writes. *)
Definition render (exposition : bytes) (b : body) : bytes :=
  match body_json b, b with
  | Some v, _ => Encoder_Encode v
  | None, BText msg => bytes_of_string msg ++ [Byte.x0a]
  | None, _ => exposition
  end.

Definition content_type (exposition : string) (b : body) : string :=
  match body_json b, b with
  | Some _, _ => "application/json"
  | None, BText _ => "text/plain; charset=utf-8"
  | None, _ => exposition
  end.

Lemma render_json x b v : body_json b = Some v -> render x b = Encoder_Encode v.
Proof. intros Hb. unfold render. by rewrite Hb. Qed.

(** The short messages of a page, read alone. *)
Definition messages_of_json (j : json) : option (list bytes) :=
  match j with JArray vs => mapM message_of_json vs | _ => None end.

Lemma pdus_wf pdus : Forall pdu_in_range pdus -> json_wf (MarshalJSON pdus).
Proof. intros Hp. constructor. induction Hp; constructor; [by apply pdu_json_wf|done]. Qed.

(** Contents survive whether or not the addresses beside them are text. *)
Lemma messages_read x pdus :
  Forall pdu_in_range pdus ->
  Json.Decode (render x (BPDUs pdus)) ≫= messages_of_json = Some (Rec_ShortMessage <$> pdus).
Proof.
  intros Hp. rewrite (render_json x (BPDUs pdus) _ eq_refl), Json.read_written by by apply pdus_wf.
  cbn [mbind option_bind]. simpl. apply mapM_Some. clear Hp. induction pdus; constructor; [apply message_back|done].
Qed.

(** Any JSON body is one line of JSON, its strings cleaned of ill-formed UTF-8. *)
Lemma body_decodes x b v : body_json b = Some v -> json_wf v -> Json.Decode (render x b) = Some (clean v).
Proof. intros Hb Hv. rewrite (render_json x b v Hb). by apply Json.read_written. Qed.

(** The counters and the summaries read back too. *)
Lemma clock_read x clock :
  is_u64 clock -> Json.Decode (render x (BLogicalClock clock)) ≫= get "logical_clock" = Some clock.
Proof. intros Hc. rewrite (body_decodes x (BLogicalClock clock) _ eq_refl); [done|]. members. Qed.

Lemma views_read `{Marshal A} x b (a : A) :
  body_json b = Some (MarshalJSON a) -> faithful a -> Json.Decode (render x b) ≫= UnmarshalJSON = Some a.
Proof. intros Hb Ha. rewrite (render_json x _ _ Hb). by apply marshal_roundtrip. Qed.

(** Addresses that are not text can collide: the content type of a submit says
    nothing of its addresses. *)
Definition addressed (src : bytes) : RecordedPDU :=
  mkRecordedPDU 0 "1-0001" (string_of_bytes src) Byte.x01 Byte.x01 "" Byte.x01 Byte.x01 Byte.x00 [] 1.

Lemma ill_formed_addresses_collide x :
  render x (BPDUs [addressed [Byte.xff]]) = render x (BPDUs [addressed [Byte.xfe]]).
Proof. vm_compute. reflexivity. Qed.

(** ** A page of the journal over HTTP *)

Definition journal_in_range (ps : list RecordedPDU) : Prop := Forall (fun p => is_u64 (Rec_PerBindClock p)) ps.

Lemma page_in_range cap ps f :
  (len ps < 2 ^ 64)%Z -> journal_in_range ps -> Forall pdu_in_range (query f (retained (Z.max 1 cap) (indexed ps))).
Proof.
  intros Hlen Hps. apply Forall_forall. intros p Hin. apply (query_in cap ps) in Hin.
  split; [by pose proof (retained_index cap ps p Hin); unfold is_u64; lia|].
  unfold retained in Hin. apply list_elem_of_lookup in Hin as [i Hi]. rewrite lookup_drop in Hi.
  unfold indexed in Hi. rewrite list_lookup_imap in Hi. destruct (ps !! _) as [p0|] eqn:Hp0; [|done].
  simpl in Hi. injection Hi as <-. by apply (Forall_lookup_1 _ _ _ _ Hps) in Hp0.
Qed.

(** C37: inspection is lossless.  The answer to a received-pdus request is a JSON text
    from which a client reads the short message of every record of the page, octet
    for octet, whatever the octets and whatever stands beside them; and when the
    addresses of the page are well-formed text, every record whole, field for
    field.  The page is the journal's: the retained records the filter selects. *)
Theorem inspection_lossless {cert} (e : engine cert) addr reg id v cap ps q x :
  id <> "" -> find_smsc id e = Some v -> journalled cap ps v -> journal_in_range ps ->
  let page := query (pduFilter q) (retained (Z.max 1 cap) (indexed ps)) in
  exists b, ServeHTTP (mkServer addr true reg)
      (mkRequest "GET" ["v1"; "virtual-smscs"; id; "received-pdus"] q) e = Ok (mkResponse StatusOK b) /\
    content_type "" b = "application/json" /\
    Json.Decode (render x b) ≫= messages_of_json = Some (Rec_ShortMessage <$> page) /\
    (Forall pdu_text page -> Json.Decode (render x b) ≫= UnmarshalJSON = Some page).
Proof.
  intros Hid Hfind Hj Hps page. exists (BPDUs page). destruct Hj as [Hlen Hr].
  pose proof (page_in_range cap ps (pduFilter q) Hlen Hps) as Hp.
  split; [by apply (serve_pdus e addr reg id v cap ps)|]. split; [done|]. split; [by apply messages_read|].
  intros Ht. apply views_read; [done|]. clear Hr. fold page in Hp.
  change (Forall (fun p => pdu_in_range p /\ pdu_text p) page). by apply Forall_and.
Qed.

(** A binary short message and an address the encoder escapes. *)
Definition sample_page : list RecordedPDU :=
  [mkRecordedPDU 0 "1-0001" "it's <b>" Byte.x01 Byte.x01 "22507000000" Byte.x01 Byte.x01 Byte.x04 [Byte.xff; Byte.x00; Byte.x0a; Byte.xc3] 1].

Definition binary_engine : engine unit :=
  let v := (newVirtualSMSC (sample_smsc "a" 2775)).1 in
  let r := match append_all sample_page (v_recorder v) with Ok r => r | _ => v_recorder v end in
  mkEngine [mkHosted (set_v_recorder r v) 2775 None] {["a" := 0%nat]} false true.

Lemma inspection_lossless_witness :
  exists b, ServeHTTP (mkServer 8080 true true)
      (mkRequest "GET" ["v1"; "virtual-smscs"; "a"; "received-pdus"] []) binary_engine = Ok (mkResponse StatusOK b) /\
    Json.Decode (render [] b) ≫= messages_of_json = Some [[Byte.xff; Byte.x00; Byte.x0a; Byte.xc3]] /\
    Json.Decode (render [] b) ≫= UnmarshalJSON = Some sample_page.
Proof.
  destruct (inspection_lossless binary_engine 8080 true "a" _ 100 sample_page [] []
    ltac:(done) eq_refl) as (b & Hb & _ & Hm & Hp).
  - split; vm_compute; reflexivity.
  - repeat constructor; unfold is_u64; simpl; lia.
  - exists b. split; [exact Hb|]. split; [exact Hm|]. apply Hp. repeat constructor.
Defined.

Lemma format_time_sample : format_time 1700000000123000000 = "2023-11-14T22:13:20.123Z".
Proof. vm_compute. reflexivity. Qed.
