(* ===== verification/Secrecy.v ===== *)
(** * The bind password stays secret
      ([BindCredentials] of [internal/config/schema.go], across [internal/smsc] and
      [internal/observability])

    Two deployments that differ in the configured password are run side by side.
    The class of computations that cannot tell them apart is closed under the
    monad, and every handler but [handleBind] is in it; [handleBind] tells them
    apart only on a PDU that carries one of the two passwords. *)

From S2P Require Import Prelude.
From S2P Require Import SmppPdu.
From S2P Require Import SmppCodec.
From S2P Require Import Rng.
From S2P Require Import Schedule.
From S2P Require Import Config.
From S2P Require Import ValidateThms.
From S2P Require Import Scenario.
From S2P Require Import Close.
From S2P Require Import Binds.
From S2P Require Import VirtualSMSC.
From S2P Require Import TLSCert.
From S2P Require Import Boot.
From S2P Require Import Inspect.
From S2P Require Import SessionState.
From S2P Require Import Session.
From S2P Require Import SessionRuns.
From S2P Require Import SessionBind.
From S2P Require Import SessionThms.
From S2P Require Import ReadLoop.
From S2P Require Import Replay.
From S2P Require Import System.

#[local] Open Scope string_scope.
#[local] Open Scope list_scope.

(** ** What a log shows *)

(** The attributes of the credentials in a structured log. *)
Definition LogValue (b : BindCredentials) : list (string * string) :=
  [("system_id", BC_SystemID b); ("password", "REDACTED")].

(** ** Another password *)

Definition repass_cfg (p : string) (cfg : VirtualSMSCConfig) : VirtualSMSCConfig :=
  mkVirtualSMSCConfig (VS_Name cfg) (VS_Port cfg) (mkBindCredentials (BC_SystemID (VS_BindCredentials cfg)) p)
    (VS_AddrTON cfg) (VS_AddrNPI cfg) (VS_AddressRange cfg) (VS_TLS cfg) (VS_Seed cfg) (VS_PDUBufferSize cfg)
    (VS_ThroughputLimitPerSec cfg) (VS_QuiescenceFlushMs cfg) (VS_Scenario cfg) (VS_MOInjection cfg)
    (VS_ScheduledDisconnects cfg) (VS_ScheduledTransitions cfg).

Definition repass (p : string) (v : virtualSMSC) : virtualSMSC :=
  mkVirtualSMSC (repass_cfg p (v_cfg v)) (v_recorder v) (v_scenario v) (v_engines v) (v_binds v) (v_idleTimeout v)
    (v_activeProfile v) (v_logicalClock v) (v_bindSeq v).

Definition repass_world {R} (p : string) (w : world R) : world R := set_w_smsc (repass p (w_smsc w)) w.

Definition repass_system {R} (p : string) (y : system R) : system R :=
  mkSystem (repass p (y_smsc y)) (y_clients y) (y_journal y).

Definition repass_hosted {cert} (p : string) (ho : hosted cert) : hosted cert :=
  mkHosted (repass p (ho_smsc ho)) (ho_addr ho) (ho_cert ho).

(** Every SMSC of the engine. *)
Definition repass_engine {cert} (p : string) (e : engine cert) : engine cert :=
  mkEngine (repass_hosted p <$> e_smscs e) (e_byName e) (e_quit e) (e_serving e).

Definition password (v : virtualSMSC) : string := BC_Password (VS_BindCredentials (v_cfg v)).

(** ** Computations that cannot tell *)

Definition relay {R A} (p : string) (r : may_panic (A * world R)) : may_panic (A * world R) :=
  match r with Ok (a, w) => Ok (a, repass_world p w) | Err e => Err e | Panic => Panic end.

(** Run where the password is [q], or [p] in its place; it stays what it is. *)
Definition blind {R A} (p q : string) (m : M R A) : Prop := forall env w,
  password (w_smsc w) = q ->
  m env (repass_world p w) = relay p (m env w) /\
  (forall a w', m env w = Ok (a, w') -> password (w_smsc w') = q).

Create HintDb blind.

Section Monad.
Context {R : Type} (p q : string).

Lemma blind_bind {A B} (m : M R A) (f : A -> M R B) :
  blind p q m -> (forall a, blind p q (f a)) -> blind p q (m ≫= f).
Proof.
  intros Hm Hf env w Hq. destruct (Hm env w Hq) as [Hx Hk]. unfold mbind, M_bind. rewrite Hx.
  destruct (m env w) as [[a w1]| |]; [|done..]. by apply (Hf a env w1), (Hk a).
Qed.

(** Computations that do not look at the SMSC, nor change it. *)
Lemma blind_local {A} (m : M R A) :
  (forall env w v, m env (set_w_smsc v w) =
     match m env w with Ok (a, w') => Ok (a, set_w_smsc v w') | Err e => Err e | Panic => Panic end) ->
  (forall env w a w', m env w = Ok (a, w') -> w_smsc w' = w_smsc w) -> blind p q m.
Proof.
  intros Hm Hk env w Hq. split; [|intros a w' Hx; by rewrite (Hk _ _ _ _ Hx)].
  unfold repass_world at 1. rewrite Hm. unfold relay. destruct (m env w) as [[a w']| |] eqn:Hx; [|done..].
  unfold repass_world. by rewrite (Hk _ _ _ _ Hx).
Qed.

Lemma blind_ret {A} (a : A) : blind (R := R) p q (mret a).
Proof. apply blind_local; [done|]. by intros env w a' w' [= _ <-]. Qed.

Lemma blind_gets {A} (f : session R -> A) : blind p q (gets f).
Proof. apply blind_local; [done|]. by intros env w a' w' [= _ <-]. Qed.

Lemma blind_ask {A} (f : Env -> A) : blind (R := R) p q (ask f).
Proof. apply blind_local; [done|]. by intros env w a' w' [= _ <-]. Qed.

Lemma blind_modify f : blind (R := R) p q (modify f).
Proof. apply blind_local; [done|]. by intros env w a' w' [= _ <-]. Qed.

Lemma blind_emit e : blind (R := R) p q (emit e).
Proof. apply blind_local; [done|]. by intros env w a' w' [= _ <-]. Qed.

Lemma blind_make_chan : blind (R := R) p q make_chan.
Proof. apply blind_local; [done|]. by intros env w a' w' [= _ <-]. Qed.

Lemma blind_lift {A} (m : may_panic A) : blind (R := R) p q (lift m).
Proof. apply blind_local; [by intros env w v; destruct m|]. intros env w a w'. unfold lift. by destruct m; intros [= _ <-]. Qed.

Lemma blind_nonnil {A} (x : option A) : blind (R := R) p q (nonnil x).
Proof. apply blind_local; [by intros env w v; destruct x|]. intros env w a w'. unfold nonnil. by destruct x; intros [= _ <-]. Qed.

Lemma blind_encode pdu edge : blind (R := R) p q (encode pdu edge).
Proof. intros env w Hq. rewrite !encode_run. split; [done|]. by intros a w' [= _ <-]. Qed.

(** A reading of the shared state but the credentials. *)
Lemma blind_gets_v {A} (f : virtualSMSC -> A) : (forall v, f (repass p v) = f v) -> blind (R := R) p q (gets_v f).
Proof. intros Hf env w Hq. unfold gets_v. simpl. rewrite Hf. split; [done|]. by intros a w' [= _ <-]. Qed.

(** A reading of the configuration whose use does not depend on them. *)
Lemma blind_cfg {A} (f : VirtualSMSCConfig -> M R A) :
  (forall cfg, f (repass_cfg p cfg) = f cfg) -> (forall cfg, blind p q (f cfg)) -> blind p q (gets_v v_cfg ≫= f).
Proof.
  intros Hf Hb env w Hq. unfold mbind, M_bind, gets_v. simpl. rewrite Hf. by apply Hb.
Qed.

Lemma blind_modify_v f :
  (forall v, f (repass p v) = repass p (f v)) -> (forall v, v_cfg (f v) = v_cfg v) -> blind (R := R) p q (modify_v f).
Proof.
  intros Hf Hc env w Hq. unfold modify_v. split.
  - simpl. by rewrite Hf.
  - intros a w' [= _ <-]. unfold password in *. simpl. by rewrite Hc.
Qed.

Lemma blind_applyTransition to : blind (R := R) p q (applyTransition to).
Proof.
  intros env w Hq. rewrite !applyTransition_run. unfold transition_world. simpl.
  destruct (v_engines (w_smsc w) !! to); (split; [done|]); by intros a w' [= _ <-].
Qed.

End Monad.

#[export] Hint Resolve blind_ret blind_gets blind_ask blind_modify blind_emit blind_make_chan blind_lift
  blind_nonnil blind_encode blind_applyTransition : blind.

(** Every shape of computation the handlers are built from. *)
Ltac blinds :=
  repeat first
    [ solve [eauto with blind]
    | apply blind_cfg; [done|intros ?]
    | apply blind_gets_v; done
    | apply blind_modify_v; done
    | apply blind_bind; [|intros ?]
    | match goal with
      | |- blind _ _ (match ?b with _ => _ end) => destruct b
      | |- blind _ _ (when ?b _) => unfold when
      end ].

(** ** The handlers *)

Section Handlers.
Context {R : Type} `{RandSource R} (p q : string).
Implicit Types (pdu : PDU) (w : world R).

Lemma blind_sendKind pdu k : blind (R := R) p q (sendKind pdu k).
Proof. unfold sendKind, sendBytes. blinds. Qed.
Hint Resolve blind_sendKind : blind.

Lemma blind_send pdu : blind (R := R) p q (send pdu).
Proof. apply blind_sendKind. Qed.
Hint Resolve blind_send : blind.

Lemma blind_closeWith reason err : blind (R := R) p q (closeWith reason err).
Proof. unfold closeWith. blinds. Qed.
Hint Resolve blind_closeWith : blind.

Lemma blind_respond b ms : blind (R := R) p q (respond b ms).
Proof. unfold respond, sendBytes, sendWhen. blinds. Qed.
Hint Resolve blind_respond : blind.

Lemma blind_schedule t x : blind (R := R) p q (schedule t x).
Proof. unfold schedule. blinds. Qed.
Hint Resolve blind_schedule : blind.

Lemma blind_for_each {A} (l : list A) (f : A -> M R ()) : (forall x, blind p q (f x)) -> blind p q (for_each l f).
Proof. intros Hf. induction l; simpl; blinds. Qed.

Lemma blind_dispatch_all evs : blind (R := R) p q (dispatch_all evs).
Proof. induction evs as [|ev evs IH]; simpl; [blinds|]. unfold dispatch, emitDLR, emitMO, sendWhen. blinds. Qed.
Hint Resolve blind_dispatch_all : blind.

Lemma blind_flushSchedule : blind (R := R) p q flushSchedule.
Proof. unfold flushSchedule. blinds. Qed.
Hint Resolve blind_flushSchedule : blind.

Lemma blind_isDisconnectTarget scope t : blind (R := R) p q (isDisconnectTarget scope t).
Proof. unfold isDisconnectTarget. blinds. Qed.
Hint Resolve blind_isDisconnectTarget : blind.

Lemma blind_dueDisconnects ds clock : blind (R := R) p q (dueDisconnect_loop ds clock).
Proof. induction ds; simpl; blinds. Qed.
Hint Resolve blind_dueDisconnects : blind.

Lemma blind_applyDueDisconnects ds clock : blind (R := R) p q (applyDueDisconnects_loop ds clock).
Proof. induction ds; simpl; blinds. Qed.
Hint Resolve blind_applyDueDisconnects : blind.

Lemma blind_applyDueTransitions ts clock : blind (R := R) p q (applyDueTransitions_loop ts clock).
Proof. induction ts; simpl; blinds. Qed.
Hint Resolve blind_applyDueTransitions : blind.

Lemma blind_drainSubmit : blind (R := R) p q drainSubmit.
Proof. unfold drainSubmit, drainDue, applyDueDisconnects. blinds. Qed.
Hint Resolve blind_drainSubmit : blind.

Lemma blind_observeServed ms : blind (R := R) p q (observeServed ms).
Proof. unfold observeServed. blinds. Qed.
Hint Resolve blind_observeServed : blind.

Lemma blind_commitSubmit tick d msg : blind (R := R) p q (commitSubmit tick d msg).
Proof. unfold commitSubmit, recordSubmit, messageID. blinds. Qed.
Hint Resolve blind_commitSubmit : blind.

Lemma blind_answerSubmit pdu d msg id : blind (R := R) p q (answerSubmit pdu d msg id).
Proof. unfold answerSubmit, submitResp, scheduleDLR. blinds. Qed.
Hint Resolve blind_answerSubmit : blind.

Lemma blind_handleSubmit pdu : blind (R := R) p q (handleSubmit pdu).
Proof.
  unfold handleSubmit, applyDueTransitions, evaluateSubmit, serveLatency, dueDisconnectBeforeResponse. blinds.
Qed.
Hint Resolve blind_handleSubmit : blind.

Lemma blind_rejectMalformed frame err : blind (R := R) p q (rejectMalformed frame err).
Proof. unfold rejectMalformed. blinds. Qed.
Hint Resolve blind_rejectMalformed : blind.

Lemma blind_handleReadError re err : blind (R := R) p q (handleReadError re err).
Proof. unfold handleReadError, readFailure. blinds. Qed.
Hint Resolve blind_handleReadError : blind.

(** ** Binds *)

(** The PDU tries one of the passwords. *)
Definition tries pdu : bool :=
  match PDU_Body pdu with
  | Some (BodyBind b) => String.eqb (Bind_Password b) p || String.eqb (Bind_Password b) q
  | _ => false
  end.

Lemma judge_bind_blind pdu w :
  password (w_smsc w) = q -> tries pdu = false -> judge_bind (repass_world p w) pdu = judge_bind w pdu.
Proof.
  intros Hq Ht. unfold judge_bind, tries in *. simpl. destruct (negb _); [done|].
  destruct (PDU_Body pdu) as [[b| | |]|]; try done. destruct (RejectBind _); [done|].
  unfold password in Hq. rewrite Hq. apply orb_false_iff in Ht as [Hp%String.eqb_neq Hq'%String.eqb_neq].
  by rewrite !bool_decide_false by (intros [_ ?]; done).
Qed.

Lemma accepted_world_blind env pdu b r w :
  accepted_world env pdu b r (repass_world p w) = repass_world p (accepted_world env pdu b r w).
Proof.
  unfold accepted_world, scheduled_world, bound_session, registered. destruct w as [s v out c].
  cbn [w_session w_smsc repass_world set_w_smsc repass v_cfg v_scenario v_bindSeq v_binds repass_cfg VS_Seed VS_Name
    VS_ScheduledDisconnects VS_ScheduledTransitions]. reflexivity.
Qed.

Lemma accepted_world_password env pdu b r w :
  password (w_smsc (accepted_world env pdu b r w)) = password (w_smsc w).
Proof. by destruct w. Qed.

Lemma blind_handleBind pdu : tries pdu = false -> blind p q (handleBind (R := R) pdu).
Proof.
  intros Ht env w Hq. pose proof (handleBind_run pdu env w) as H1.
  pose proof (handleBind_run pdu env (repass_world p w)) as H2. rewrite (judge_bind_blind pdu w Hq Ht) in H2.
  destruct (judge_bind w pdu).
  5: { destruct H1 as (r1 & Hr1 & H1), H2 as (r2 & Hr2 & H2). simpl in Hr2.
       assert (r2 = r1) as -> by (unfold mo_schedule, configured_mo in *; simpl in *; congruence).
       rewrite H1, H2, accepted_world_blind. split; [reflexivity|]. intros a w' Hx.
       apply (f_equal (fun o => match o with Ok x => w_smsc x.2 | _ => w_smsc w end)) in Hx. cbn [snd] in Hx.
       by rewrite <- Hx, accepted_world_password. }
  all: rewrite H1, H2; split; [done|]; by intros a w' [= _ <-].
Qed.

Lemma blind_handle pdu : tries pdu = false -> blind p q (handle (R := R) pdu).
Proof. intros Ht. pose proof (blind_handleBind pdu Ht). unfold handle. blinds. Qed.

(** A frame that does not try one of them. *)
Definition unguessed (frame : bytes) : bool :=
  match SmppCodec.Decode frame with Ok pdu => negb (tries pdu) | _ => true end.

Lemma blind_handleFrame frame : unguessed frame = true -> blind p q (handleFrame (R := R) frame).
Proof.
  intros Hu. unfold handleFrame, unguessed in *. apply blind_bind; [blinds|intros _].
  destruct (SmppCodec.Decode frame) as [pdu|err|]; [|blinds..]. apply negb_true_iff in Hu.
  pose proof (blind_handle pdu Hu). blinds.
Qed.

(** What the connection delivers next. *)
Definition unguessed_read (c : conn) : bool := match (ReadPDU c).1 with Ok frame => unguessed frame | _ => true end.

Lemma blind_readLoop_iter re c : unguessed_read c = true -> blind p q (readLoop_iter (R := R) re c).
Proof.
  intros Hu. unfold readLoop_iter, unguessed_read, armReadDeadline, extendDeadline in *.
  destruct (ReadPDU c) as [[frame|err|] c']; simpl in Hu; [pose proof (blind_handleFrame frame Hu)|..]; blinds.
Qed.

End Handlers.

(** ** The sessions of an SMSC *)

Section Sessions.
Context {R : Type} `{RandSource R} (p q : string).
Implicit Types (y : system R).

(** The event reads no frame that tries one of the passwords. *)
Definition unguessed_event (ev : sys_event) y : bool :=
  match ev with
  | Serve k _ => from_option (unguessed_read p q) true (y_clients y !! k ≫= c_conn)
  | _ => true
  end.

Fixpoint unguessed_run (evs : list sys_event) y : bool :=
  match evs with
  | [] => true
  | ev :: evs => unguessed_event ev y &&
      match sys_exec ev y with Ok (Some y') => unguessed_run evs y' | _ => true end
  end.

Lemma newSession_blind v now : newSession (R := R) (repass p v) now = newSession v now.
Proof. done. Qed.

Lemma sys_exec_blind ev y :
  password (y_smsc y) = q -> unguessed_event ev y = true ->
  sys_exec ev (repass_system p y) = (let* o := sys_exec ev y in Ok (repass_system p <$> o)) /\
  (forall y', sys_exec ev y = Ok (Some y') -> password (y_smsc y') = q).
Proof.
  destruct y as [v clients journal]. intros Hq Hu. simpl in Hq, Hu.
  destruct ev as [k now conn|k re|k]; simpl.
  - destruct (clients !! k); [done|]. split; [done|]. by intros y' [= <-].
  - destruct (clients !! k) as [c|] eqn:Hk; [|done].
    destruct (c_conn c) as [conn|] eqn:Hc; [|done]. simpl in Hu. rewrite Hk in Hu. simpl in Hu. rewrite Hc in Hu. simpl in Hu.
    destruct (blind_readLoop_iter (R := R) p q re conn Hu (re_env re) (client_world v c) Hq) as [Hx Hkeep].
    change (client_world (repass p v) c) with (repass_world p (client_world v c)). rewrite Hx.
    destruct (readLoop_iter re conn (re_env re) (client_world v c)) as [[r w']| |] eqn:Hrun; [|done..].
    simpl. split; [done|]. intros y' [= <-]. by apply (Hkeep r).
  - destruct (clients !! k) as [c|]; [|done]. destruct (c_conn c); [done|]. split; [done|]. by intros y' [= <-].
Qed.

Lemma sys_run_blind evs y :
  password (y_smsc y) = q -> unguessed_run evs y = true ->
  sys_run evs (repass_system p y) = repass_system p <$> sys_run evs y.
Proof.
  revert y. induction evs as [|ev evs IH]; intros y Hq; [done|]. intros [Hu Hrest]%andb_true_iff. cbn [sys_run].
  destruct (sys_exec_blind ev y Hq Hu) as [-> Hkeep].
  destruct (sys_exec ev y) as [[y1|]| |]; [|done..]. simpl. by apply IH; [apply Hkeep|].
Qed.

End Sessions.

(** ** The surface *)

(** The surface depends on its inspector through the interface alone. *)
Lemma ServeHTTP_ext {I J} `{Inspector I, Inspector J} srv r (i : I) (j : J) :
  insp_VirtualSMSCs i = insp_VirtualSMSCs j ->
  (forall id, insp_VirtualSMSC id i = insp_VirtualSMSC id j) ->
  (forall id f, insp_ReceivedPDUs id f i = insp_ReceivedPDUs id f j) ->
  (forall id, insp_Binds id i = insp_Binds id j) -> (forall id, insp_LogicalClock id i = insp_LogicalClock id j) ->
  ServeHTTP srv r i = ServeHTTP srv r j.
Proof.
  intros H1 H2 H3 H4 H5. unfold ServeHTTP. destruct (find_route _ _ _) as [[h id]|]; [|done].
  unfold Inspect.handle, handleVirtualSMSCs, handleVirtualSMSC, handleReceivedPDUs, handleBinds, handleLogicalClock.
  by rewrite H1, H2, H3, H4, H5.
Qed.

Section Surface.
Context {cert : Type} (p : string).
Implicit Types (e : engine cert).

Lemma find_smsc_repass id e : find_smsc id (repass_engine p e) = repass p <$> find_smsc id e.
Proof.
  unfold find_smsc. simpl. destruct (e_byName e !! id) as [i|]; [|done]. simpl.
  rewrite list_lookup_fmap. by destruct (e_smscs e !! i).
Qed.

Lemma ServeHTTP_repass srv r e : ServeHTTP srv r (repass_engine p e) = ServeHTTP srv r e.
Proof.
  apply ServeHTTP_ext; simpl.
  - unfold VirtualSMSCs. simpl. rewrite <- list_fmap_compose. by apply list_fmap_ext.
  - intros id. unfold VirtualSMSC. rewrite find_smsc_repass. by destruct (find_smsc id e).
  - intros id f. unfold ReceivedPDUs. rewrite find_smsc_repass. by destruct (find_smsc id e).
  - intros id. unfold Inspect.Binds. rewrite find_smsc_repass. by destruct (find_smsc id e).
  - intros id. unfold LogicalClock. rewrite find_smsc_repass. by destruct (find_smsc id e).
Qed.

End Surface.

(** C29: the bind password cannot be learnt without presenting it.  Take a virtual
    SMSC in any state, with whatever sessions are bound, and the same one configured
    with another password, and let the same happen to both: connections, frames cut
    anyhow, refused binds, submits, unbinds, time-outs, teardowns.  As long as no
    frame they read is a bind that tries one of the two passwords, the two runs are
    step for step the same, down to the bytes each session queues, the records and
    the metric calls: they end in states that differ in the configured password
    alone.  And no request on the HTTP surface, and no structured log of the
    credentials, tells an engine from the same engine with other passwords. *)
Theorem password_secret {R} `{RandSource R} {cert} (p : string) (y : system R) evs :
  unguessed_run p (password (y_smsc y)) evs y = true ->
  sys_run evs (repass_system p y) = repass_system p <$> sys_run evs y /\
  (forall srv r (e : engine cert), ServeHTTP srv r (repass_engine p e) = ServeHTTP srv r e) /\
  (forall cfg, LogValue (VS_BindCredentials (repass_cfg p cfg)) = LogValue (VS_BindCredentials cfg)).
Proof.
  intros Hu. split; [by apply (sys_run_blind p (password (y_smsc y)))|]. split; [|done].
  intros srv r e. apply ServeHTTP_repass.
Qed.

(** A bound client, and one that tries a password. *)
Definition bound_system : system PCG :=
  default (sys_boot sample_vs)
    (sys_run [Accept 0 0 [Recv bind_frame; Recv (frame_of sample_submit)]; Serve 0 (sample_env_at 0)] (sys_boot sample_vs)).

Definition wrong_bind : PDU :=
  mkPDU BindTransceiver 0 1 (Some (BodyBind (SmppPdu.mkBind "esme" "hunter2" "" Byte.x34 NUL NUL ""))).

Definition intrusion : list sys_event :=
  [Accept 1 5 [Recv (frame_of wrong_bind)]; Serve 1 (sample_env_at 5); Serve 0 (sample_env_at 6)].

Lemma password_secret_witness :
  let final := sys_run intrusion bound_system in
  sys_run intrusion (repass_system "other" bound_system) = repass_system "other" <$> final /\
  (fun y => (len (y_journal y), s_state ∘ c_session <$> y_clients y !! 0%nat, s_state ∘ c_session <$> y_clients y !! 1%nat))
    <$> final = Some (1, Some stateBound, Some stateClosed)%Z.
Proof.
  intros final. split; [|vm_compute; reflexivity].
  assert (unguessed_run "other" (password (y_smsc bound_system)) intrusion bound_system = true) as Hu by (vm_compute; reflexivity).
  exact (proj1 (password_secret (cert := unit) "other" bound_system intrusion Hu)).
Defined.
