(* ===== verification/Client.v ===== *)
(** * The test client ([internal/smpptest/client.go])

    An ESME that drives the simulator in tests: the same codec used from the
    other end.  A test that calls [t.Fatalf] stops there, so an operation is a
    computation over the client that yields a value or the fatal.  The connection
    is timed: each byte and each error has the moment it arrives, a deadline cuts
    the stream, and time passes only while a read waits. *)

From S2P Require Import Prelude.
From S2P Require Import SmppPdu.
From S2P Require Import SmppCodec.
From S2P Require Import SmppFraming.
From S2P Require Import Fault.
From S2P Require Import ReadLoop.

#[local] Open Scope Z_scope.
#[local] Open Scope list_scope.

(** ** The connection ([net.Conn]) *)

(** What will arrive and when; a stream with nothing left is closed by the peer. *)
Definition stream := list (Z * (byte + io_error)).

Record net_conn := mkConn {
  n_now : Z;                              (* the wall clock, in nanoseconds *)
  n_in : stream;
  n_out : bytes;                          (* what was written *)
  n_writes : list (option (nat * io_error)); (* how the next writes fail; [None] or nothing left: they do not *)
  n_open : bool;
  n_readDeadline : option Z;
  n_writeDeadline : option Z
}.

Definition expired (now : Z) (deadline : option Z) : bool :=
  match deadline with Some d => d <=? now | None => false end.

Definition in_time (deadline : option Z) (t : Z) : bool :=
  match deadline with Some d => t <? d | None => true end.

(** What arrives before the deadline. *)
Fixpoint arrived (deadline : option Z) (s : stream) : stream :=
  match s with
  | (t, a) :: s => if in_time deadline t then (t, a) :: arrived deadline s else []
  | [] => []
  end.

Definition atom_event (a : byte + io_error) : conn_event :=
  match a with inl b => Recv [b] | inr e => Fail e end.

(** What successive reads see: what arrives in time, then the deadline.  A read
    of a closed connection, or after the deadline, fails at once. *)
Definition incoming (n : net_conn) : conn :=
  if negb (n_open n) then [Fail OtherIO]
  else if expired (n_now n) (n_readDeadline n) then [Fail Timeout]
  else
    let a := arrived (n_readDeadline n) (n_in n) in
    (atom_event <$> a.*2) ++ (if (length a <? length (n_in n))%nat then [Fail Timeout] else []).

(** The clock once the atoms [s] have been read. *)
Definition wait_for (now : Z) (s : stream) : Z := foldl Z.max now (s.*1).

(** The connection after reads that left [rest] of [incoming n]. *)
Definition settle (n : net_conn) (rest : conn) : net_conn :=
  if negb (n_open n) || expired (n_now n) (n_readDeadline n) then n
  else
    let a := arrived (n_readDeadline n) (n_in n) in
    let used := (length (flatten (incoming n)) - length (flatten rest))%nat in
    let now := wait_for (n_now n) (take used a) in
    mkConn (if (length a <? used)%nat then default now (n_readDeadline n) else now)
      (drop (min used (length a)) (n_in n)) (n_out n) (n_writes n) (n_open n)
      (n_readDeadline n) (n_writeDeadline n).

(** [smpp.ReadPDU(c.conn)]. *)
Definition conn_ReadPDU (n : net_conn) : outcome CodecError bytes * net_conn :=
  let '(r, rest) := ReadPDU (incoming n) in (r, settle n rest).

(** The bytes at the front of a stream that are there at [now]. *)
Fixpoint ready_bytes (size : nat) (now : Z) (s : stream) : bytes :=
  match size, s with
  | S size, (t, inl b) :: s => if t <=? now then b :: ready_bytes size now s else []
  | _, _ => []
  end.

(** One [Read] into a buffer of [size] bytes: it waits for the first byte and
    returns what has arrived by then. *)
Definition conn_Read (size : nat) (n : net_conn) : outcome io_error bytes * net_conn :=
  let at_time now s := mkConn now s (n_out n) (n_writes n) (n_open n) (n_readDeadline n) (n_writeDeadline n) in
  if negb (n_open n) then (Err OtherIO, n)
  else if expired (n_now n) (n_readDeadline n) then (Err Timeout, n)
  else match n_in n with
       | [] => (Err EOF, n)
       | (t, a) :: s =>
           if in_time (n_readDeadline n) t then
             let now := Z.max (n_now n) t in
             match a with
             | inr e => (Err e, at_time now s)
             | inl _ =>
                 let bs := ready_bytes size now (n_in n) in
                 (Ok bs, at_time now (drop (length bs) (n_in n)))
             end
           else (Err Timeout, at_time (default t (n_readDeadline n)) (n_in n))
       end.

(** One [Write]; a failing one may have sent a part. *)
Definition conn_Write (b : bytes) (n : net_conn) : outcome io_error () * net_conn :=
  let wrote sent := mkConn (n_now n) (n_in n) (n_out n ++ sent) (drop 1 (n_writes n)) (n_open n)
                      (n_readDeadline n) (n_writeDeadline n) in
  if negb (n_open n) then (Err OtherIO, n)
  else if expired (n_now n) (n_writeDeadline n) then (Err Timeout, n)
  else match n_writes n with
       | Some (k, e) :: _ => (Err e, wrote (take k b))
       | _ => (Ok (), wrote b)
       end.

(** Setting a deadline fails on a closed connection only. *)
Definition conn_SetReadDeadline (t : Z) (n : net_conn) : outcome io_error () * net_conn :=
  if n_open n then
    (Ok (), mkConn (n_now n) (n_in n) (n_out n) (n_writes n) (n_open n) (Some t) (n_writeDeadline n))
  else (Err OtherIO, n).

Definition conn_SetWriteDeadline (t : Z) (n : net_conn) : outcome io_error () * net_conn :=
  if n_open n then
    (Ok (), mkConn (n_now n) (n_in n) (n_out n) (n_writes n) (n_open n) (n_readDeadline n) (Some t))
  else (Err OtherIO, n).

Definition conn_Close (n : net_conn) : net_conn :=
  mkConn (n_now n) (n_in n) (n_out n) (n_writes n) false (n_readDeadline n) (n_writeDeadline n).

(** ** The client and the fatals of a test *)

Record Client := mkClient { c_conn : net_conn; c_seq : Z }.

(** The calls of [t.Fatalf], with the values their messages print. *)
Inductive fatal :=
| FatalDial (e : io_error)
| FatalTLSDial (e : io_error)
| FatalEncode (id : CommandID) (e : CodecError)
| FatalWriteDeadline (e : io_error)
| FatalWrite (id : CommandID) (e : io_error)
| FatalReadDeadline (e : io_error)
| FatalRawRead (e : io_error)
| FatalRead (e : CodecError)
| FatalDecode (e : CodecError)
| FatalNoResponseGot (id : CommandID)
| FatalNoResponseUndecodable
| FatalNotTimeout (e : CodecError)
| FatalClosedTimeout
| FatalClosedGot
| FatalNotDeliver (id : CommandID)
| FatalCollected (got count : Z)
| FatalMismatch (id : CommandID) (seq : Z) (gotID : CommandID) (gotSeq : Z).

Definition C (A : Type) : Type := Client -> outcome fatal A * Client.

#[export] Instance C_ret : MRet C := fun A a c => (Ok a, c).
#[export] Instance C_bind : MBind C := fun A B f m c =>
  match m c with
  | (Ok a, c) => f a c
  | (Err e, c) => (Err e, c)
  | (Panic, c) => (Panic, c)
  end.

Definition Fatalf {A} (e : fatal) : C A := fun c => (Err e, c).

(** A call on the connection whose error is a fatal, or is looked at. *)
Definition must {E A} (f : net_conn -> outcome E A * net_conn) (g : E -> fatal) : C A := fun c =>
  let '(r, n) := f (c_conn c) in
  (match r with Ok a => Ok a | Err e => Err (g e) | Panic => Panic end, mkClient n (c_seq c)).

Definition attempt {E A} (f : net_conn -> outcome E A * net_conn) : C (A + E) := fun c =>
  let '(r, n) := f (c_conn c) in
  (match r with Ok a => Ok (inl a) | Err e => Ok (inr e) | Panic => Panic end, mkClient n (c_seq c)).

Definition checked {E A} (m : outcome E A) (g : E -> fatal) : C A := fun c =>
  (match m with Ok a => Ok a | Err e => Err (g e) | Panic => Panic end, c).

Definition time_Now : C Z := fun c => (Ok (n_now (c_conn c)), c).

Definition ioTimeout : Z := 3 * Second.

(** [Dial] and [DialTLS] on what the dialer returns; the second component is what
    [t.Cleanup] runs when the test ends. *)
Definition Close (c : Client) : Client := mkClient (conn_Close (c_conn c)) (c_seq c).

Definition Dial (dialed : outcome io_error net_conn) : outcome fatal (Client * list (Client -> Client)) :=
  match dialed with
  | Ok n => Ok (mkClient n 0, [Close])
  | Err e => Err (FatalDial e)
  | Panic => Panic
  end.

Definition DialTLS (dialed : outcome io_error net_conn) : outcome fatal (Client * list (Client -> Client)) :=
  match dialed with
  | Ok n => Ok (mkClient n 0, [Close])
  | Err e => Err (FatalTLSDial e)
  | Panic => Panic
  end.

Definition Conn (c : Client) : net_conn := c_conn c.

Definition nextSeq : C Z := fun c =>
  let seq := c_seq c +32 1 in (Ok seq, mkClient (c_conn c) seq).

(** ** Reading and writing *)

Definition set_read_deadline (d : Z) : C () :=
  now ← time_Now; must (conn_SetReadDeadline (now + d)) FatalReadDeadline.

Definition write (pdu : PDU) : C () :=
  b ← checked (Encode pdu) (FatalEncode (PDU_CommandID pdu));
  now ← time_Now;
  must (conn_SetWriteDeadline (now + ioTimeout)) FatalWriteDeadline;;
  must (conn_Write b) (FatalWrite (PDU_CommandID pdu)).

(** One PDU under a deadline of [d]. *)
Definition ReadWithin (d : Z) : C PDU :=
  set_read_deadline d;;
  frame ← must conn_ReadPDU FatalRead;
  checked (Decode frame) FatalDecode.

Definition read : C PDU := ReadWithin ioTimeout.

Definition Read : C PDU := read.

(** Whether a PDU is the answer to a request. *)
Definition answers (req resp : PDU) : bool :=
  negb (negb (PDU_SequenceNumber resp =? PDU_SequenceNumber req) ||
        negb (PDU_CommandID resp =? Response (PDU_CommandID req)) &&
        negb (PDU_CommandID resp =? GenericNack)).

Definition roundTrip (req : PDU) : C PDU :=
  write req;;
  resp ← read;
  if answers req resp then mret resp
  else Fatalf (FatalMismatch (PDU_CommandID req) (PDU_SequenceNumber req)
                 (PDU_CommandID resp) (PDU_SequenceNumber resp)).

(** ** Requests *)

Definition bind_request (id : CommandID) (seq : Z) (systemID password : string) : PDU :=
  mkPDU id 0 seq (Some (BodyBind {|
    Bind_SystemID := systemID;
    Bind_Password := password;
    Bind_SystemType := "";
    Bind_InterfaceVersion := Byte.x34;
    Bind_AddrTON := NUL;
    Bind_AddrNPI := NUL;
    Bind_AddressRange := ""
  |})).

Definition submit_message (source dest message : string) : Message := {|
  ServiceType := "";
  SourceAddrTON := Byte.x01;
  SourceAddrNPI := Byte.x01;
  SourceAddr := source;
  DestAddrTON := Byte.x01;
  DestAddrNPI := Byte.x01;
  DestAddr := dest;
  ESMClass := NUL;
  ProtocolID := NUL;
  PriorityFlag := NUL;
  ScheduleDeliveryTime := "";
  ValidityPeriod := "";
  RegisteredDelivery := NUL;
  ReplaceIfPresent := NUL;
  DataCoding := NUL;
  SMDefaultMsgID := NUL;
  ShortMessage := bytes_of_string message;
  Message_TLVs := []
|}.

Definition submit_request (seq : Z) (source dest message : string) : PDU :=
  mkPDU SubmitSM 0 seq (Some (BodyMessage (submit_message source dest message))).

Definition BindTransceiver (systemID password : string) : C PDU :=
  seq ← nextSeq; roundTrip (bind_request SmppPdu.BindTransceiver seq systemID password).

Definition BindTransmitter (systemID password : string) : C PDU :=
  seq ← nextSeq; roundTrip (bind_request SmppPdu.BindTransmitter seq systemID password).

Definition Submit (source dest message : string) : C PDU :=
  seq ← nextSeq; roundTrip (submit_request seq source dest message).

Definition SubmitStatus (source dest message : string) : C CommandStatus :=
  resp ← Submit source dest message; mret (PDU_CommandStatus resp).

Definition SubmitAsync (source dest message : string) : C Z :=
  seq ← nextSeq;
  write (submit_request seq source dest message);;
  mret seq.

Definition SubmitRaw (source dest message : string) : C (Z * bytes) :=
  seq ← SubmitAsync source dest message;
  set_read_deadline ioTimeout;;
  b ← must (conn_Read (Z.to_nat MaxPDULen)) FatalRawRead;
  mret (seq, b).

Definition EnquireLink : C PDU :=
  seq ← nextSeq; roundTrip (mkPDU SmppPdu.EnquireLink 0 seq None).

Definition Unbind : C PDU :=
  seq ← nextSeq; roundTrip (mkPDU SmppPdu.Unbind 0 seq None).

(** ** Expectations *)

Definition ExpectNoResponse (d : Z) : C () :=
  set_read_deadline d;;
  r ← attempt conn_ReadPDU;
  match r with
  | inl frame =>
      match Decode frame with
      | Ok pdu => Fatalf (FatalNoResponseGot (PDU_CommandID pdu))
      | Err _ => Fatalf FatalNoResponseUndecodable
      | Panic => fun c => (Panic, c)
      end
  | inr err => if negb (isTimeout err) then Fatalf (FatalNotTimeout err) else mret ()
  end.

Definition ExpectClosed : C () :=
  set_read_deadline ioTimeout;;
  r ← attempt conn_ReadPDU;
  match r with
  | inr err => if isTimeout err then Fatalf FatalClosedTimeout else mret ()
  | inl _ => Fatalf FatalClosedGot
  end.

Definition ClosedWithin (d : Z) : C bool :=
  set_read_deadline d;;
  r ← attempt conn_ReadPDU;
  match r with
  | inr err => mret (negb (isTimeout err))
  | inl _ => mret false
  end.

(** ** Deliveries *)

(** The deliver_sm_resp with an empty message_id. *)
Definition ack (pdu : PDU) : PDU :=
  mkPDU DeliverSMResp StatusROK (PDU_SequenceNumber pdu) (Some (BodySubmitResp (mkSubmitResp ""))).

Definition ReadDeliverSM (d : Z) : C PDU :=
  pdu ← ReadWithin d;
  if negb (PDU_CommandID pdu =? DeliverSM) then Fatalf (FatalNotDeliver (PDU_CommandID pdu))
  else write (ack pdu);; mret pdu.

(** [None] when the fuel runs out, which [DrainDeliverSMs_batch] excludes. *)
Fixpoint drain_loop (fuel : nat) (d : Z) (out : list PDU) : C (option (list PDU)) :=
  match fuel with
  | O => mret None
  | S fuel =>
      set_read_deadline d;;
      r ← attempt conn_ReadPDU;
      match r with
      | inr err => if isTimeout err then mret (Some out) else Fatalf (FatalRead err)
      | inl frame =>
          pdu ← checked (Decode frame) FatalDecode;
          if negb (PDU_CommandID pdu =? DeliverSM) then Fatalf (FatalNotDeliver (PDU_CommandID pdu))
          else write (ack pdu);; drain_loop fuel d (out ++ [pdu])
      end
  end.

(** Each turn but the last takes a frame off the stream, so a turn per atom of it
    and one more are enough. *)
Definition DrainDeliverSMs (d : Z) : C (option (list PDU)) := fun c =>
  drain_loop (S (length (n_in (c_conn c)))) d [] c.

Fixpoint collect_loop (fuel : nat) (count deadline : Z) (out : list PDU) : C (option (list PDU)) :=
  if len out <? count then
    match fuel with
    | O => mret None
    | S fuel =>
        now ← time_Now;
        let remaining := deadline - now in
        if remaining <=? 0 then Fatalf (FatalCollected (len out) count)
        else
          set_read_deadline remaining;;
          frame ← must conn_ReadPDU FatalRead;
          pdu ← checked (Decode frame) FatalDecode;
          if negb (PDU_CommandID pdu =? DeliverSM) then collect_loop fuel count deadline out
          else write (ack pdu);; collect_loop fuel count deadline (out ++ [pdu])
    end
  else mret (Some out).

Definition CollectDeliverSMs (count within : Z) : C (option (list PDU)) := fun c =>
  collect_loop (S (length (n_in (c_conn c)))) count (n_now (c_conn c) + within) [] c.
