(* ===== verification/ClientThms.v ===== *)
(** * The test client against the session ([client.go] and [session.go])

    Reading a timed stream, round trips, and what the client's submits and binds
    return when the session's handlers answer them. *)

From S2P Require Import Prelude.
From S2P Require Import SmppPdu.
From S2P Require Import SmppCodec.
From S2P Require Import SmppCursor.
From S2P Require Import SmppCodecThms.
From S2P Require Import SmppFraming.
From S2P Require Import SmppEdge.
From S2P Require Import Rng.
From S2P Require Import Schedule.
From S2P Require Import Recorder.
From S2P Require Import Config.
From S2P Require Import Fault.
From S2P Require Import Scenario.
From S2P Require Import Dlr.
From S2P Require Import Close.
From S2P Require Import Binds.
From S2P Require Import VirtualSMSC.
From S2P Require Import EngineSafety.
From S2P Require Import SessionState.
From S2P Require Import Session.
From S2P Require Import SessionRuns.
From S2P Require Import SessionBind.
From S2P Require Import SessionThms.
From S2P Require Import ReadLoop.
From S2P Require Import Client.

#[local] Open Scope Z_scope.
#[local] Open Scope list_scope.

(** ** The timed connection *)

(** Bytes with their arrivals, as a stream. *)
Definition timed (fs : list (Z * byte)) : stream := (fun p => (p.1, inl p.2)) <$> fs.

Definition all_before (d : Z) (fs : list (Z * byte)) : Prop := Forall (fun p => p.1 < d) fs.

Definition clock_after (now : Z) (fs : list (Z * byte)) : Z := foldl Z.max now fs.*1.

Lemma clock_after_app now fs fs' : clock_after now (fs ++ fs') = clock_after (clock_after now fs) fs'.
Proof. unfold clock_after. by rewrite fmap_app, foldl_app. Qed.

Lemma clock_after_bounds now d fs : now < d -> all_before d fs -> now <= clock_after now fs < d.
Proof.
  intros Hn Hfs. revert now Hn. induction Hfs as [|[t b] fs Ht Hfs IH]; intros now Hn; [done || (cbn; lia)|].
  change (clock_after now ((t, b) :: fs)) with (clock_after (Z.max now t) fs). simpl in Ht.
  specialize (IH (Z.max now t) ltac:(lia)). lia.
Qed.

Lemma flatten_app c1 c2 : flatten (c1 ++ c2) = flatten c1 ++ flatten c2.
Proof.
  induction c1 as [|[bs|e] c1 IH]; [done|..]; cbn [flatten app]; rewrite IH; [|done].
  by rewrite app_assoc.
Qed.

Lemma flatten_atoms l : flatten (atom_event <$> l) = l.
Proof. induction l as [|[b|e] l IH]; [done|..]; csimpl; cbn [flatten]; by rewrite IH. Qed.

Lemma arrived_timed d fs s :
  all_before d fs -> arrived (Some d) (timed fs ++ s) = timed fs ++ arrived (Some d) s.
Proof.
  induction 1 as [|[t b] fs Ht Hfs IH]; [done|]. csimpl. cbn [app arrived in_time].
  simpl in Ht. rewrite (proj2 (Z.ltb_lt _ _)) by done. f_equal. exact IH.
Qed.

Lemma arrived_prefix d s : exists k, arrived d s = take k s.
Proof.
  induction s as [|[t a] s [k IH]]; [by exists O|]. cbn [arrived]. destruct (in_time d t); [|by exists O].
  exists (S k). cbn [take]. by rewrite IH.
Qed.

Lemma arrived_length d s : (length (arrived d s) <= length s)%nat.
Proof. destruct (arrived_prefix d s) as [k ->]. rewrite length_take. lia. Qed.

(** A connection whose read deadline is [d]. *)
Definition reading (n : net_conn) (d : Z) : Prop :=
  n_open n = true /\ n_readDeadline n = Some d /\ n_now n < d.

Definition received (n : net_conn) (now : Z) (s : stream) : net_conn :=
  mkConn now s (n_out n) (n_writes n) (n_open n) (n_readDeadline n) (n_writeDeadline n).

Definition deadline_atom (d : Z) (s : stream) : list (byte + io_error) :=
  if (length (arrived (Some d) s) <? length s)%nat then [inr Timeout] else [].

Lemma incoming_flat n d :
  reading n d -> flatten (incoming n) = (arrived (Some d) (n_in n)).*2 ++ deadline_atom d (n_in n).
Proof.
  intros (Ho & Hd & Hn). unfold incoming, deadline_atom. rewrite Ho, Hd. cbn [negb expired].
  rewrite (proj2 (Z.leb_gt _ _)) by done. rewrite flatten_app, flatten_atoms.
  by destruct (_ <? _)%nat.
Qed.

Lemma timed_atoms fs : (timed fs).*2 = inl <$> fs.*2.
Proof. unfold timed. rewrite <- !list_fmap_compose. done. Qed.

Lemma timed_times fs : (timed fs).*1 = fs.*1.
Proof. unfold timed. rewrite <- !list_fmap_compose. done. Qed.

(** The connection after a read that consumed the atoms [fs]. *)
Lemma settle_timed n d fs s rest :
  reading n d -> all_before d fs -> n_in n = timed fs ++ s ->
  flatten rest = (arrived (Some d) s).*2 ++ deadline_atom d (n_in n) ->
  settle n rest = received n (clock_after (n_now n) fs) s.
Proof.
  intros Hr Hfs Hin Hrest. pose proof (incoming_flat n d Hr) as Hflat. destruct Hr as (Ho & Hd & Hn).
  unfold settle. rewrite Hflat, Hrest, Ho, Hd, Hin. cbn [negb expired orb].
  rewrite (proj2 (Z.leb_gt _ _)) by done. rewrite arrived_timed by done.
  unfold received. rewrite Ho, Hd.
  assert (length (timed fs) = length fs) as Hl by apply length_fmap.
  match goal with |- context [(?a - ?b)%nat] => replace (a - b)%nat with (length (timed fs)) end.
  2: { rewrite fmap_app, !length_app, !length_fmap. lia. }
  rewrite take_app_length.
  rewrite (proj2 (Nat.ltb_ge _ _)) by (rewrite length_app; lia).
  rewrite Nat.min_l by (rewrite length_app; lia). rewrite drop_app_length.
  unfold wait_for. by rewrite timed_times.
Qed.

(** A whole frame in time is read, and only it. *)
Lemma conn_ReadPDU_frame n d fs s :
  reading n d -> all_before d fs -> n_in n = timed fs ++ s ->
  HeaderLen <= len fs.*2 <= MaxPDULen -> header_word fs.*2 0 = len fs.*2 ->
  conn_ReadPDU n = (Ok fs.*2, received n (clock_after (n_now n) fs) s).
Proof.
  intros Hr Hfs Hin Hlen Hw. pose proof (incoming_flat n d Hr) as Hflat.
  rewrite Hin in Hflat. rewrite arrived_timed in Hflat by done.
  rewrite fmap_app, timed_atoms, <- app_assoc in Hflat.
  destruct (ReadPDU_frame _ _ _ Hlen Hw Hflat) as (c' & HR & Hc').
  unfold conn_ReadPDU. rewrite HR. f_equal. eapply settle_timed; [done..|]. by rewrite Hc', Hin.
Qed.

(** Nothing in time: the deadline passes. *)
Definition quiet_until (d : Z) (s : stream) : Prop :=
  match s with (t, _) :: _ => d <= t | [] => False end.

Lemma conn_ReadPDU_quiet n d :
  reading n d -> quiet_until d (n_in n) ->
  conn_ReadPDU n = (Err (ErrIO Timeout), received n d (n_in n)).
Proof.
  intros (Ho & Hd & Hn) Hq. destruct (n_in n) as [|[t a] s] eqn:Hin; [done|]. simpl in Hq.
  unfold conn_ReadPDU.
  assert (incoming n = [Fail Timeout]) as Hinc.
  { unfold incoming. rewrite Ho, Hd, Hin. cbn [negb expired arrived in_time].
    rewrite (proj2 (Z.leb_gt _ _)) by done. by rewrite (proj2 (Z.ltb_ge _ _)). }
  rewrite Hinc. cbn. unfold settle. rewrite Hinc, Ho, Hd, Hin. cbn [negb expired orb arrived in_time].
  assert ((t <? d) = false) as Ht by (by apply Z.ltb_ge). rewrite (proj2 (Z.leb_gt _ _)), Ht by done.
  cbn. unfold received. by rewrite Ho, Hd.
Qed.

(** Whatever happens, a frame returned was taken off the stream. *)
Lemma conn_ReadPDU_progress n f n' :
  conn_ReadPDU n = (Ok f, n') -> (length (n_in n') < length (n_in n))%nat.
Proof.
  unfold conn_ReadPDU. destruct (ReadPDU (incoming n)) as [r rest] eqn:HR. intros [= -> <-].
  pose proof (ReadPDU_progress _ _ _ HR) as Hp. simpl in Hp. unfold pending_input in Hp.
  unfold settle. unfold incoming in *. destruct (n_open n); cbn [negb orb] in *.
  2: { cbn in HR. discriminate. }
  destruct (expired (n_now n) (n_readDeadline n)); [cbn in HR; discriminate|].
  cbn [n_in]. rewrite flatten_app, flatten_atoms, length_app, length_fmap in *. rewrite length_drop.
  destruct (arrived (n_readDeadline n) (n_in n)) as [|p a] eqn:Ha.
  - exfalso. cbn [fmap list_fmap app] in HR. destruct (_ <? _)%nat; cbn in HR; discriminate.
  - pose proof (arrived_length (n_readDeadline n) (n_in n)) as Hl. rewrite Ha in Hl. cbn [length] in *. lia.
Qed.

Lemma conn_ReadPDU_no_panic n : no_panic (conn_ReadPDU n).1.
Proof.
  unfold conn_ReadPDU. destruct (ReadPDU (incoming n)) as [r rest] eqn:HR.
  apply ReadPDU_progress in HR. by destruct r.
Qed.

Lemma conn_ReadPDU_frame_of n f n' :
  conn_ReadPDU n = (Ok f, n') -> exists now s, n' = received n now s.
Proof.
  unfold conn_ReadPDU. destruct (ReadPDU _) as [r rest]. intros [= -> <-]. unfold settle.
  destruct (_ || _); [|by eexists _, _]. exists (n_now n), (n_in n). by destruct n.
Qed.

(** ** Steps of the client *)

Lemma C_bind_run {A B} (m : C A) (f : A -> C B) c a c' : m c = (Ok a, c') -> (m ≫= f) c = f a c'.
Proof. intros Hm. unfold mbind, C_bind. by rewrite Hm. Qed.

Lemma C_bind_fatal {A B} (m : C A) (f : A -> C B) c e c' : m c = (Err e, c') -> (m ≫= f) c = (Err e, c').
Proof. intros Hm. unfold mbind, C_bind. by rewrite Hm. Qed.

(** Inverting a step that did not fail. *)
Lemma C_bind_inv {A B} (m : C A) (f : A -> C B) c b c2 :
  (m ≫= f) c = (Ok b, c2) -> exists a c1, m c = (Ok a, c1) /\ f a c1 = (Ok b, c2).
Proof. unfold mbind, C_bind. destruct (m c) as [[a|e|] c1]; [eauto|done..]. Qed.

(** A connection that is open and accepts what is written to it. *)
Definition healthy (c : Client) : Prop := n_open (c_conn c) = true /\ n_writes (c_conn c) = [].

(** From [c] to [c'] the clock came to [now], the stream to [s], and [sent] was written. *)
Record moved (c c' : Client) (now : Z) (s : stream) (sent : bytes) : Prop := {
  mv_now : n_now (c_conn c') = now;
  mv_in : n_in (c_conn c') = s;
  mv_out : n_out (c_conn c') = n_out (c_conn c) ++ sent;
  mv_healthy : healthy c';
  mv_seq : c_seq c' = c_seq c
}.

Lemma moved_trans c1 c2 c3 now s sent now' s' sent' :
  moved c1 c2 now s sent -> moved c2 c3 now' s' sent' -> moved c1 c3 now' s' (sent ++ sent').
Proof. intros [] []. split; [done|done| |done|congruence]. rewrite app_assoc. congruence. Qed.

(** A frame that arrives as [fs] and decodes to [p]. *)
Record delivers (fs : list (Z * byte)) (p : PDU) : Prop := {
  fo_len : HeaderLen <= len fs.*2 <= MaxPDULen;
  fo_word : header_word fs.*2 0 = len fs.*2;
  fo_decode : Decode fs.*2 = Ok p
}.

Lemma set_read_deadline_run d c :
  healthy c -> 0 < d ->
  exists c', set_read_deadline d c = (Ok (), c') /\ moved c c' (n_now (c_conn c)) (n_in (c_conn c)) [] /\
    reading (c_conn c') (n_now (c_conn c) + d).
Proof.
  intros [Ho Hw] Hd. unfold set_read_deadline, time_Now, must, conn_SetReadDeadline.
  erewrite C_bind_run by reflexivity. rewrite Ho. eexists. split; [done|]. split.
  - split; try done. by rewrite app_nil_r.
  - split; [done|]. split; [done|]. cbn. lia.
Qed.

Lemma ioTimeout_pos : 0 < ioTimeout.
Proof. done. Qed.

Lemma write_run p b c :
  healthy c -> Encode p = Ok b ->
  exists c', write p c = (Ok (), c') /\ moved c c' (n_now (c_conn c)) (n_in (c_conn c)) b.
Proof.
  intros [Ho Hw] He. unfold write. erewrite C_bind_run by (unfold checked; by rewrite He).
  erewrite C_bind_run by reflexivity.
  erewrite C_bind_run by (unfold must, conn_SetWriteDeadline; by rewrite Ho).
  unfold must, conn_Write. cbn [c_conn n_open negb n_now n_writeDeadline expired n_writes].
  rewrite Hw. pose proof ioTimeout_pos.
  rewrite (proj2 (Z.leb_gt _ _)) by lia. eexists. split; [done|]. by split.
Qed.

Lemma read_attempt d fs s p c :
  healthy c -> 0 < d -> all_before (n_now (c_conn c) + d) fs -> n_in (c_conn c) = timed fs ++ s ->
  delivers fs p ->
  exists c', moved c c' (clock_after (n_now (c_conn c)) fs) s [] /\
    forall A (k : bytes + CodecError -> C A),
      (set_read_deadline d;; r ← attempt conn_ReadPDU; k r) c = k (inl fs.*2) c'.
Proof.
  intros Hh Hd Hfs Hin [Hlen Hw _].
  destruct (set_read_deadline_run d c Hh Hd) as (c1 & Hrun & [Hn Hi Ho Hh1 Hs] & Hr).
  rewrite <- Hi in Hin. pose proof (conn_ReadPDU_frame _ _ _ _ Hr Hfs Hin Hlen Hw) as HR.
  eexists. split; [|intros A k; rewrite (C_bind_run _ _ _ _ _ Hrun);
    erewrite C_bind_run; [reflexivity|]; unfold attempt; by rewrite HR].
  split; cbn; [by rewrite Hn|done|done| |done]. destruct Hh1 as [? ?]. by split.
Qed.

(** A read that must succeed is one whose error is a fatal. *)
Lemma must_attempt {A} (k : bytes -> C A) c :
  (frame ← must conn_ReadPDU FatalRead; k frame) c =
  (r ← attempt conn_ReadPDU;
   match r with inl frame => k frame | inr err => Fatalf (FatalRead err) end) c.
Proof.
  unfold must, attempt, mbind, C_bind. destruct (conn_ReadPDU (c_conn c)) as [[f|e|] n]; done.
Qed.

Lemma ReadWithin_eq d c :
  healthy c -> 0 < d ->
  ReadWithin d c =
  (set_read_deadline d;; r ← attempt conn_ReadPDU;
   match r with inl frame => checked (Decode frame) FatalDecode | inr err => Fatalf (FatalRead err) end) c.
Proof.
  intros Hh Hd. destruct (set_read_deadline_run d c Hh Hd) as (c1 & Hsd & _). unfold ReadWithin.
  by rewrite !(C_bind_run _ _ _ _ _ Hsd), must_attempt.
Qed.

Lemma ReadWithin_run d fs s p c :
  healthy c -> 0 < d -> all_before (n_now (c_conn c) + d) fs -> n_in (c_conn c) = timed fs ++ s ->
  delivers fs p ->
  exists c', ReadWithin d c = (Ok p, c') /\ moved c c' (clock_after (n_now (c_conn c)) fs) s [].
Proof.
  intros Hh Hd Hfs Hin Hf. destruct (read_attempt d fs s p c Hh Hd Hfs Hin Hf) as (c' & Hm & Hrun).
  exists c'. split; [|done]. rewrite ReadWithin_eq, Hrun by done. unfold checked.
  by rewrite (fo_decode _ _ Hf).
Qed.

(** A read of a stream that stays quiet until the deadline. *)
Lemma read_quiet d c :
  healthy c -> 0 < d -> quiet_until (n_now (c_conn c) + d) (n_in (c_conn c)) ->
  exists c', moved c c' (n_now (c_conn c) + d) (n_in (c_conn c)) [] /\
    forall A (k : bytes + CodecError -> C A),
      (set_read_deadline d;; r ← attempt conn_ReadPDU; k r) c = k (inr (ErrIO Timeout)) c'.
Proof.
  intros Hh Hd Hq. destruct (set_read_deadline_run d c Hh Hd) as (c1 & Hrun & [Hn Hi Ho Hh1 Hs] & Hr).
  rewrite <- Hi in Hq. pose proof (conn_ReadPDU_quiet _ _ Hr Hq) as HR.
  eexists. split; [|intros A k; rewrite (C_bind_run _ _ _ _ _ Hrun);
    erewrite C_bind_run; [reflexivity|]; unfold attempt; by rewrite HR].
  split; cbn; [done|done|done| |done]. destruct Hh1 as [? ?]. by split.
Qed.

Lemma ReadWithin_quiet d c :
  healthy c -> 0 < d -> quiet_until (n_now (c_conn c) + d) (n_in (c_conn c)) ->
  exists c', ReadWithin d c = (Err (FatalRead (ErrIO Timeout)), c') /\
    moved c c' (n_now (c_conn c) + d) (n_in (c_conn c)) [].
Proof.
  intros Hh Hd Hq. destruct (read_quiet d c Hh Hd Hq) as (c' & Hm & Hrun).
  exists c'. split; [|done]. by rewrite ReadWithin_eq, Hrun.
Qed.

(** ** Round trips *)

(** The answer to a request comes back as the call's value, what follows it is
    left unread. *)
Lemma roundTrip_run req f fs s p c :
  healthy c -> Encode req = Ok f -> answers req p = true ->
  all_before (n_now (c_conn c) + ioTimeout) fs -> n_in (c_conn c) = timed fs ++ s -> delivers fs p ->
  exists c', roundTrip req c = (Ok p, c') /\ moved c c' (clock_after (n_now (c_conn c)) fs) s f.
Proof.
  intros Hh He Ha Hfs Hin Hf. destruct (write_run req f c Hh He) as (c1 & Hw & Hm1).
  destruct (ReadWithin_run ioTimeout fs s p c1) as (c2 & Hr & Hm2).
  - apply Hm1.
  - apply ioTimeout_pos.
  - by rewrite (mv_now _ _ _ _ _ Hm1).
  - by rewrite (mv_in _ _ _ _ _ Hm1).
  - done.
  - exists c2. unfold roundTrip. rewrite (C_bind_run _ _ _ _ _ Hw). unfold read.
    rewrite (C_bind_run _ _ _ _ _ Hr), Ha. split; [done|].
    pose proof (moved_trans _ _ _ _ _ _ _ _ _ Hm1 Hm2) as Hm.
    rewrite app_nil_r in Hm. by rewrite (mv_now _ _ _ _ _ Hm1) in Hm.
Qed.

Lemma roundTrip_quiet req f c :
  healthy c -> Encode req = Ok f -> quiet_until (n_now (c_conn c) + ioTimeout) (n_in (c_conn c)) ->
  exists c', roundTrip req c = (Err (FatalRead (ErrIO Timeout)), c') /\
    moved c c' (n_now (c_conn c) + ioTimeout) (n_in (c_conn c)) f.
Proof.
  intros Hh He Hq. destruct (write_run req f c Hh He) as (c1 & Hw & Hm1).
  destruct (ReadWithin_quiet ioTimeout c1) as (c2 & Hr & Hm2).
  - apply Hm1.
  - apply ioTimeout_pos.
  - by rewrite (mv_now _ _ _ _ _ Hm1), (mv_in _ _ _ _ _ Hm1).
  - exists c2. unfold roundTrip. rewrite (C_bind_run _ _ _ _ _ Hw). unfold read.
    rewrite (C_bind_fatal _ _ _ _ _ Hr). split; [done|].
    pose proof (moved_trans _ _ _ _ _ _ _ _ _ Hm1 Hm2) as Hm.
    rewrite app_nil_r in Hm. by rewrite (mv_now _ _ _ _ _ Hm1), (mv_in _ _ _ _ _ Hm1) in Hm.
Qed.

(** ** What the codec carries between the two ends *)

(** The status is truncated to its 32 bits. *)
Lemma Decode_sent id st seq b f :
  is_u32 id -> is_u32 seq -> body_matches id b ->
  match b with Some b => body_ok b | None => True end ->
  Encode (mkPDU id st seq b) = Ok f -> Decode f = Ok (mkPDU id (u32 st) seq b).
Proof.
  intros Hid Hseq Hm Hb He. apply Encode_Ok in He as [Hl ->]. cbn [PDU_Body PDU_CommandID PDU_CommandStatus PDU_SequenceNumber] in *.
  destruct (header_of_encoded (HeaderLen + len (obody_bytes b)) id st seq (obody_bytes b))
    as (_ & H4 & H8 & H12 & Hbody & Hlen).
  apply Decode_of_parts; cbn [PDU_Body PDU_CommandID PDU_CommandStatus PDU_SequenceNumber]; try done;
    try (rewrite Hlen; unfold HeaderLen; lia).
  - split; [done|]. split; [apply u32_range|]. done.
  - by rewrite H4, u32_small.
  - by rewrite H12, u32_small.
Qed.

(** A submit_sm_resp without a body reads as one with an empty message id. *)
Lemma Decode_bare st seq f :
  is_u32 seq -> Encode (mkPDU SubmitSMResp st seq None) = Ok f ->
  Decode f = Ok (mkPDU SubmitSMResp (u32 st) seq (Some (BodySubmitResp (mkSubmitResp "")))).
Proof.
  intros Hseq He. apply Encode_Ok in He as [Hl ->]. cbn [PDU_Body PDU_CommandID PDU_CommandStatus PDU_SequenceNumber] in *.
  destruct (header_of_encoded (HeaderLen + len (obody_bytes None)) SubmitSMResp st seq (obody_bytes None))
    as (_ & H4 & H8 & H12 & Hbody & Hlen).
  rewrite Decode_header by (rewrite Hlen; unfold HeaderLen; lia). rewrite H4, H8, H12.
  rewrite (u32_small SubmitSMResp) by by_decide. rewrite (u32_small seq) by done.
  change (decodeBody SubmitSMResp) with (Some <$> decodeSubmitResp).
  unfold fmap, Dec_fmap, mbind, Dec_bind, decodeSubmitResp, r_remaining. cbn [r_b r_pos].
  rewrite Hlen. done.
Qed.

Lemma delivers_Encode p f q fs : Encode p = Ok f -> Decode f = Ok q -> fs.*2 = f -> delivers fs q.
Proof. intros He Hd Hf. destruct (Encode_header _ _ He). split; by rewrite Hf. Qed.

Lemma Encode_fits_body id st seq b :
  len (body_bytes b) <= MaxPDULen - HeaderLen -> exists f, Encode (mkPDU id st seq (Some b)) = Ok f.
Proof. intros Hl. apply Encode_fits. cbn. lia. Qed.

Lemma length_cstring s : len (cstring_bytes s) = slen s + 1.
Proof. unfold cstring_bytes, slen. rewrite length_app. cbn. lia. Qed.

(** A request a client can make: the addresses fit their fields. *)
Definition sendable (source dest message : string) : Prop :=
  cstr_ok source /\ cstr_ok dest /\ slen message <= maxShortMessageLen.

#[export] Instance sendable_dec source dest message : base.Decision (sendable source dest message).
Proof. unfold sendable. apply _. Defined.

Lemma submit_request_sent seq source dest message :
  is_u32 seq -> sendable source dest message ->
  pdu_ok (submit_request seq source dest message) /\
  exists f, Encode (submit_request seq source dest message) = Ok f.
Proof.
  intros Hseq (Hs & Hd & Hm).
  assert (body_ok (BodyMessage (submit_message source dest message))) as Hok.
  { repeat (split; [first [done | by_decide]|]). by_decide. }
  split.
  - split; [by_decide|]. split; [by_decide|]. done.
  - apply Encode_fits_body. rewrite body_bytes_Message by done.
    rewrite !length_app, !Nat2Z.inj_add, !length_cstring. destruct Hs as [_ Hs], Hd as [_ Hd].
    unfold submit_message.
    cbn [ServiceType SourceAddr DestAddr ScheduleDeliveryTime ValidityPeriod ShortMessage Message_TLVs].
    change (len (bytes_of_string message)) with (slen message). change (slen "") with 0.
    cbn [length tlvs_bytes fmap list_fmap concat]. unfold maxShortMessageLen, maxCOctetLen, HeaderLen, MaxPDULen in *. lia.
Qed.

(** *** Minted message ids fit the field *)

Definition printable (n : Z) (s : string) : Prop := (NUL ∉ bytes_of_string s) /\ slen s <= n.

Lemma bytes_of_string_cons a s : bytes_of_string (String a s) = Ascii.byte_of_ascii a :: bytes_of_string s.
Proof. done. Qed.

Lemma printable_cons n d s : 0 <= d < 10 -> printable n s -> printable (n + 1) (String (digit_char d) s).
Proof.
  intros Hd [Hs Hn]. split.
  - rewrite bytes_of_string_cons, not_elem_of_cons. split; [|done].
    assert (d = 0 \/ d = 1 \/ d = 2 \/ d = 3 \/ d = 4 \/ d = 5 \/ d = 6 \/ d = 7 \/ d = 8 \/ d = 9) as Hc by lia.
    destruct_or! Hc; subst d; discriminate.
  - unfold slen in *. rewrite bytes_of_string_cons. cbn [length]. lia.
Qed.

Lemma printable_dec_loop fuel : forall n v acc,
  printable n acc -> printable (n + Z.of_nat fuel) (dec_loop fuel v acc).
Proof.
  induction fuel as [|fuel IH]; intros n v acc Ha; cbn [dec_loop]; [by rewrite Z.add_0_r|].
  assert (printable (n + 1) (String (digit_char (v mod 10)) acc)) as H1.
  { apply printable_cons; [|done]. apply Z.mod_pos_bound. lia. }
  destruct (_ =? 0).
  - destruct H1 as [? ?]. split; [done|]. lia.
  - replace (n + Z.of_nat (S fuel)) with (n + 1 + Z.of_nat fuel) by lia. by apply IH.
Qed.

Lemma printable_zeros k : forall n s, printable n s -> printable (n + Z.of_nat k) (zeros k s).
Proof.
  induction k as [|k IH]; intros n s Hs; cbn [zeros]; [by rewrite Z.add_0_r|].
  replace (n + Z.of_nat (S k)) with (n + Z.of_nat k + 1) by lia. apply printable_cons; [lia|]. by apply IH.
Qed.

Lemma printable_app n m a b : printable n a -> printable m b -> printable (n + m) (a +:+ b).
Proof.
  intros [Ha Hn] [Hb Hm]. split.
  - rewrite bytes_of_string_app, not_elem_of_app. done.
  - rewrite slen_app. lia.
Qed.

Lemma messageID_cstr id clock : cstr_ok (Dlr.messageID id clock).
Proof.
  assert (printable 0 "") as H0 by (split; [apply not_elem_of_nil | done]).
  assert (forall v, printable 20 (FormatInt v)) as HF by (intros v; apply (printable_dec_loop 20 0 v "" H0)).
  assert (printable 24 (pad_left 4 (FormatInt clock))) as Hp.
  { unfold pad_left. destruct (printable_zeros (4 - String.length (FormatInt clock)) 20 (FormatInt clock) (HF clock))
      as [Hn Hl]. split; [done|]. lia. }
  assert (printable 1 "-") as Hd by by_decide.
  destruct (printable_app _ _ _ _ (HF id) (printable_app _ _ _ _ Hd Hp)) as [Hn Hl].
  split; [exact Hn|]. unfold Dlr.messageID, maxCOctetLen. lia.
Qed.

(** ** The client against the session *)

Section Exchange.
Context {R : Type} `{RandSource R}.
Implicit Types (w : world R) (c : Client).

(** The session once the read loop has counted a frame. *)
Definition counted w : world R := upd (fun s => set_s_pdusRead (s_pdusRead s +64 1) s) w.

Lemma handleFrame_served f p env w w' :
  Decode f = Ok p -> handle p env (counted w) = Ok ((), w') ->
  handleFrame f env w = Ok (negb (bool_decide (s_state (w_session w') = stateClosed)), w').
Proof.
  intros Hd Hh. unfold handleFrame. rewrite modify_run, Hd. by rewrite (M_bind_run _ _ _ _ _ _ Hh).
Qed.

(** The response a client reads for a committed submit that is answered. *)
Definition answer_seen (seq : Z) (d : Decision) (id : string) : PDU :=
  if bool_decide (D_Outcome d = OutcomeError)
  then mkPDU SubmitSMResp (u32 (D_Status d)) seq (Some (BodySubmitResp (mkSubmitResp "")))
  else mkPDU SubmitSMResp StatusROK seq (Some (BodySubmitResp (mkSubmitResp id))).

Lemma answer_frame_seen req d id b :
  is_u32 (PDU_SequenceNumber req) -> cstr_ok id ->
  answer_frame req d id = Some b -> answer_edge d = None ->
  forall fs, fs.*2 = b -> delivers fs (answer_seen (PDU_SequenceNumber req) d id).
Proof.
  intros Hseq Hid Hb He fs Hfs. unfold answer_frame in Hb. rewrite He in Hb. unfold encoded in Hb.
  destruct (answer_pdu req d id) as [p|] eqn:Hp; [|done]. cbn [mbind option_bind] in Hb.
  destruct (Encode p) as [f|e|] eqn:Hf; try done. injection Hb as <-.
  assert (Decode f = Ok (answer_seen (PDU_SequenceNumber req) d id)) as Hd; [|by eapply delivers_Encode].
  unfold answer_pdu, reply in Hp. unfold answer_seen. destruct (D_Outcome d); cbn [bool_decide] in *.
  - injection Hp as <-. by apply (Decode_sent SubmitSMResp StatusROK) in Hf.
  - injection Hp as <-. by apply Decode_bare in Hf.
  - done.
  - destruct (String.eqb _ _); [|done]. injection Hp as <-. by apply (Decode_sent SubmitSMResp StatusROK) in Hf.
Qed.

(** What the client's submit does, given what comes back. *)
Lemma Submit_answered c source dest message f fs s d id :
  healthy c -> Encode (submit_request (c_seq c +32 1) source dest message) = Ok f ->
  all_before (n_now (c_conn c) + ioTimeout) fs -> n_in (c_conn c) = timed fs ++ s ->
  delivers fs (answer_seen (c_seq c +32 1) d id) ->
  exists c', Submit source dest message c = (Ok (answer_seen (c_seq c +32 1) d id), c') /\
    n_in (c_conn c') = s /\ n_out (c_conn c') = n_out (c_conn c) ++ f /\ c_seq c' = c_seq c +32 1.
Proof.
  intros Hh He Hfs Hin Hf.
  assert (answers (submit_request (c_seq c +32 1) source dest message) (answer_seen (c_seq c +32 1) d id) = true) as Ha.
  { unfold answer_seen. case_bool_decide; unfold answers; cbn [PDU_SequenceNumber PDU_CommandID submit_request];
      by rewrite Z.eqb_refl. }
  destruct (roundTrip_run _ f fs s _ (mkClient (c_conn c) (c_seq c +32 1)) Hh He Ha Hfs Hin Hf)
    as (c' & Hrun & []).
  exists c'. by split.
Qed.

Lemma Submit_unanswered c source dest message f :
  healthy c -> Encode (submit_request (c_seq c +32 1) source dest message) = Ok f ->
  quiet_until (n_now (c_conn c) + ioTimeout) (n_in (c_conn c)) ->
  exists c', Submit source dest message c = (Err (FatalRead (ErrIO Timeout)), c') /\
    n_out (c_conn c') = n_out (c_conn c) ++ f.
Proof.
  intros Hh He Hq.
  destruct (roundTrip_quiet _ f (mkClient (c_conn c) (c_seq c +32 1)) Hh He Hq) as (c' & Hrun & []).
  exists c'. by split.
Qed.

Lemma SubmitAsync_run c source dest message f :
  healthy c -> Encode (submit_request (c_seq c +32 1) source dest message) = Ok f ->
  exists c', SubmitAsync source dest message c = (Ok (c_seq c +32 1), c') /\ healthy c' /\
    n_now (c_conn c') = n_now (c_conn c) /\ n_in (c_conn c') = n_in (c_conn c) /\
    n_out (c_conn c') = n_out (c_conn c) ++ f.
Proof.
  intros Hh He. unfold SubmitAsync. erewrite C_bind_run by reflexivity.
  destruct (write_run _ f (mkClient (c_conn c) (c_seq c +32 1)) Hh He) as (c' & Hrun & []).
  rewrite (C_bind_run _ _ _ _ _ Hrun). exists c'. by repeat split; try apply mv_healthy0.
Qed.

Lemma ExpectNoResponse_quiet d c :
  healthy c -> 0 < d -> quiet_until (n_now (c_conn c) + d) (n_in (c_conn c)) ->
  exists c', ExpectNoResponse d c = (Ok (), c').
Proof.
  intros Hh Hd Hq. destruct (read_quiet d c Hh Hd Hq) as (c' & _ & Hrun).
  exists c'. unfold ExpectNoResponse. by rewrite Hrun.
Qed.

(** *** Reading a frame raw *)

(** The bytes [fs] are what one read at [now] returns: they are there when the first
    one is, and what comes after them is not. *)
Definition one_read (now : Z) (fs : list (Z * byte)) (s : stream) : Prop :=
  match fs with
  | (t, _) :: _ =>
      Forall (fun p => p.1 <= Z.max now t) fs /\ match s with (t', _) :: _ => Z.max now t < t' | [] => True end
  | [] => False
  end.

Lemma ready_bytes_all now fs s : forall size,
  (length fs <= size)%nat -> Forall (fun p => p.1 <= now) fs ->
  match s with (t', _) :: _ => now < t' | [] => True end ->
  ready_bytes size now (timed fs ++ s) = fs.*2.
Proof.
  induction fs as [|[t x] fs IH]; intros size Hl Hfs Hs.
  - destruct size, s as [|[t' [y|e]] s]; try done. cbn. by rewrite (proj2 (Z.leb_gt _ _)).
  - inversion_clear Hfs as [|? ? Ht Hfs']. simpl in Ht. destruct size as [|size]; [cbn in Hl; lia|].
    csimpl. cbn [app ready_bytes]. rewrite (proj2 (Z.leb_le _ _)) by done. f_equal.
    apply IH; [cbn in Hl; lia|done|done].
Qed.

Lemma encoded_length p edge b : encoded p edge = Some b -> 0 < len b <= MaxPDULen.
Proof.
  unfold encoded. intros Hb.
  assert (exists f, Encode p = Ok f /\ len b = len f) as (f & Hf & ->).
  2: { destruct (Encode_header p f Hf). unfold HeaderLen in *. lia. }
  destruct edge as [plan|].
  2: { destruct (Encode p) as [f|e|]; try done. injection Hb as <-. eauto. }
  unfold EncodeEdgeCase in Hb. destruct (Encode p) as [f|e|] eqn:Hf; try done. cbn [mbind outcome_bind] in Hb.
  exists f. split; [done|]. destruct (Encode_header p f Hf) as [Hl _]. unfold HeaderLen in Hl.
  assert (forall i v, (i + 4 <= length f)%nat -> length (put_at i (be_encode 4 v) f) = length f) as Hput.
  { intros i v Hi. unfold put_at. rewrite !length_app, length_take, length_drop, length_be_encode. lia. }
  destruct (word_of_slice (E := CodecError) f 0) as (w0 & S0 & W0); [lia..|].
  destruct (word_of_slice (E := CodecError) f 12) as (w12 & S12 & W12); [lia..|].
  change (0 + 4) with 4 in S0. change (12 + 4) with 16 in S12.
  rewrite S0, S12 in Hb. cbn [mbind outcome_bind] in Hb. rewrite W0, W12 in Hb. cbn [mbind outcome_bind] in Hb.
  assert (forall i v, Some (put_at i (be_encode 4 v) f) = Some b -> (i + 4 <= 16)%nat -> len b = len f) as Hput'.
  { intros i v Hb' Hi. assert (b = put_at i (be_encode 4 v) f) as -> by congruence. by rewrite Hput by lia. }
  destruct (_ =? EdgeBadLength); [eapply Hput'; [exact Hb | lia]|].
  destruct (_ =? EdgeUnknownCmdID); [eapply Hput'; [exact Hb | lia]|].
  destruct (_ =? EdgeBadSequence); [eapply Hput'; [exact Hb | lia]|done].
Qed.

Lemma SubmitRaw_run c source dest message f fs s :
  healthy c -> Encode (submit_request (c_seq c +32 1) source dest message) = Ok f ->
  len fs.*2 <= MaxPDULen -> all_before (n_now (c_conn c) + ioTimeout) fs ->
  n_in (c_conn c) = timed fs ++ s -> one_read (n_now (c_conn c)) fs s ->
  exists c', SubmitRaw source dest message c = (Ok (c_seq c +32 1, fs.*2), c') /\ n_in (c_conn c') = s.
Proof.
  intros Hh He Hb Ht Hin Hs.
  destruct (SubmitAsync_run c source dest message f Hh He) as (c1 & Hrun & Hh1 & Hn1 & Hi1 & _).
  assert (length fs <= Z.to_nat MaxPDULen)%nat as Hl.
  { apply Nat2Z.inj_le. rewrite Z2Nat.id by done. by rewrite length_fmap in Hb. }
  unfold SubmitRaw. revert Hl. generalize (Z.to_nat MaxPDULen). intros size Hl. rewrite (C_bind_run _ _ _ _ _ Hrun).
  destruct (set_read_deadline_run ioTimeout c1 Hh1 ioTimeout_pos) as (c2 & Hd & [Hn2 Hi2 _ [Ho2 _] _] & (_ & Hdl & _)).
  rewrite (C_bind_run _ _ _ _ _ Hd). unfold must, mbind, C_bind, conn_Read.
  pose proof ioTimeout_pos. rewrite Ho2, Hdl, Hi2, Hi1, Hin, Hn2, Hn1. cbn [negb expired in_time].
  rewrite (proj2 (Z.leb_gt _ _)) by lia. destruct fs as [|[t x] fs]; [done|]. destruct Hs as [Hfs Hs].
  pose proof (Forall_inv Ht) as Ht0. simpl in Ht0.
  change (timed ((t, x) :: fs) ++ s) with ((t, inl x) :: timed fs ++ s). cbn iota beta.
  rewrite (proj2 (Z.ltb_lt _ _)) by lia.
  change ((t, inl x) :: timed fs ++ s) with (timed ((t, x) :: fs) ++ s).
  rewrite ready_bytes_all by done. eexists. split; [done|]. cbn [c_conn n_in].
  apply drop_app_length'. unfold timed. by rewrite !length_fmap.
Qed.

End Exchange.

(** C26: the client sees what the session decided.  A submit_sm of the test client,
    as bytes, given to a bound session, is decoded back to the request, is
    evaluated once and journalled with the client's addresses and text.  When the
    answer comes back in time, cut and delayed anyhow, [Submit] returns it:
    ESME_ROK with the journalled message id for a success, the decided status
    without an id for an error, under the request's sequence number; what follows
    the answer is left unread.  [SubmitRaw] makes a single read: of an answer,
    deliberately malformed or not, it returns the bytes that have arrived when the
    first one does, the whole of it if it comes in one piece, and leaves the rest.
    When no answer is sent, [Submit] fails with a read timeout and [SubmitAsync]
    with [ExpectNoResponse] passes. *)
Theorem submit_exchange {R} `{RandSource R} env (w : world R) c source dest message :
  healthy c -> sendable source dest message ->
  world_safe w -> s_state (w_session w) = stateBound -> s_canSubmit (w_session w) = true ->
  let seq := c_seq c +32 1 in
  let tick := s_perBindClock (w_session w) +64 1 in
  let id := Dlr.messageID (s_id (w_session w)) tick in
  let deadline := n_now (c_conn c) + ioTimeout in
  exists f d e st st' goon w',
    Encode (submit_request seq source dest message) = Ok f /\
    decided env (counted w) tick d e st st' /\
    handleFrame f env w = Ok (goon, w') /\
    (abandoned env d = false ->
     let answer := responses (drop (length (w_out w)) (w_out w')) in
     Append (record_of tick id (submit_message source dest message)) (v_recorder (w_smsc w)) =
       Ok (v_recorder (w_smsc w')) /\
     (forall fs s, answer = [fs.*2] -> answer_edge d = None ->
        all_before deadline fs -> n_in (c_conn c) = timed fs ++ s ->
        exists c', Submit source dest message c = (Ok (answer_seen seq d id), c') /\
          n_in (c_conn c') = s /\ n_out (c_conn c') = n_out (c_conn c) ++ f) /\
     (forall fs fs' s, answer = [(fs ++ fs').*2] ->
        all_before deadline fs -> n_in (c_conn c) = timed fs ++ timed fs' ++ s ->
        one_read (n_now (c_conn c)) fs (timed fs' ++ s) ->
        exists c', SubmitRaw source dest message c = (Ok (seq, fs.*2), c') /\ n_in (c_conn c') = timed fs' ++ s) /\
     (answer = [] -> quiet_until deadline (n_in (c_conn c)) ->
        (exists c', Submit source dest message c = (Err (FatalRead (ErrIO Timeout)), c')) /\
        exists c' c'', SubmitAsync source dest message c = (Ok seq, c') /\
          ExpectNoResponse ioTimeout c' = (Ok (), c''))).
Proof.
  intros Hh Hsend Hsafe Hst Hcan seq tick id deadline.
  assert (is_u32 seq) as Hseq by apply u32_range.
  destruct (submit_request_sent seq source dest message Hseq Hsend) as (Hok & f & Hf).
  set (req := submit_request seq source dest message) in *.
  destruct (handleSubmit_step req (submit_message source dest message) env (counted w)) as
    (d & e & st & st' & w' & Hdec & _ & Hrun & Hres); [by apply upd_pdusRead_safe|done..|].
  pose proof (handleFrame_served f req env w w' (Decode_Encode_aux _ _ Hok Hf) Hrun) as Hfr.
  exists f, d, e, st, st'. eexists _, w'. split; [done|]. split; [done|]. split; [exact Hfr|].
  intros Ha. rewrite Ha in Hres. cbv zeta.
  assert (responses (drop (length (w_out w)) (w_out w')) =
    if cut_before (counted w) tick then [] else option_list (answer_frame req d id)) as Hresp.
  { exact (responses_submit_run _ _ _ _ _ _ _ _ _ _ Hres). }
  rewrite Hresp. split; [apply (sr_record _ _ _ _ _ _ _ _ _ _ Hres)|].
  assert (forall b, (if cut_before (counted w) tick then [] else option_list (answer_frame req d id)) = [b] ->
    answer_frame req d id = Some b) as Hone.
  { intros b Hb. destruct (cut_before _ _); [done|]. destruct (answer_frame req d id); [|done]. by injection Hb as ->. }
  split; [|split].
  - intros fs s Hb%Hone Hedge Hfs Hin.
    pose proof (answer_frame_seen req d id _ Hseq (messageID_cstr _ _) Hb Hedge fs eq_refl) as Hdl.
    destruct (Submit_answered c source dest message f fs s d id Hh Hf Hfs Hin Hdl) as (c' & ? & ? & ? & _). eauto.
  - intros fs fs' s Hb%Hone Ht Hin Hs.
    apply (SubmitRaw_run c source dest message f fs (timed fs' ++ s) Hh Hf); [|done..].
    unfold answer_frame in Hb. destruct (answer_pdu req d id) as [p|]; [|done].
    pose proof (encoded_length _ _ _ Hb) as Hl. rewrite fmap_app, length_app in Hl. lia.
  - intros _ Hq. split.
    + destruct (Submit_unanswered c source dest message f Hh Hf Hq) as (c' & ? & _). eauto.
    + destruct (SubmitAsync_run c source dest message f Hh Hf) as (c1 & Hrun1 & Hh1 & Hn1 & Hi1 & _).
      destruct (ExpectNoResponse_quiet ioTimeout c1 Hh1 ioTimeout_pos) as [c2 Hc2]; [by rewrite Hn1, Hi1|]. eauto.
Qed.

Definition sample_answer : bytes :=
  match Encode (mkPDU SubmitSMResp StatusROK 1 (Some (BodySubmitResp (mkSubmitResp "1-0001")))) with
  | Ok b => b | _ => [] end.

(** The answer cut in two, a byte of something else after it. *)
Definition sample_arrivals : list (Z * byte) :=
  (pair 5 <$> take 7 sample_answer) ++ (pair 9 <$> drop 7 sample_answer).

Definition sample_client : Client :=
  mkClient (mkConn 0 (timed sample_arrivals ++ [(12, inl NUL)]) [] [] true None None) 0.

Lemma submit_exchange_witness :
  (exists c', Submit "alice" "22507" "hello" sample_client =
    (Ok (mkPDU SubmitSMResp StatusROK 1 (Some (BodySubmitResp (mkSubmitResp "1-0001")))), c') /\
    n_in (c_conn c') = [(12, inl NUL)]) /\
  (exists c', SubmitRaw "alice" "22507" "hello" sample_client = (Ok (1, take 7 sample_answer), c') /\
    n_in (c_conn c') = timed (pair 9 <$> drop 7 sample_answer) ++ [(12, inl NUL)]).
Proof.
  destruct (submit_exchange sample_env sample_bound sample_client "alice" "22507" "hello")
    as (f & d & e & st & st' & goon & w' & Hf & Hdec & Hrun & Hres);
    [by_decide | by_decide | apply sample_bound_safe | vm_compute; reflexivity.. |].
  vm_compute in Hf. injection Hf as <-.
  destruct Hdec as (He & Hst & Hev). vm_compute in He. injection He as <-. vm_compute in Hst. injection Hst as <-.
  vm_compute in Hev. injection Hev as <- <-. vm_compute in Hrun. injection Hrun as <- <-.
  destruct Hres as (_ & Hseen & Hraw & _); [vm_compute; reflexivity|]. split.
  2: { destruct (Hraw (pair 5 <$> take 7 sample_answer) (pair 9 <$> drop 7 sample_answer) [(12, inl NUL)])
         as (c' & Hc & Hin); [vm_compute; reflexivity|repeat constructor|vm_compute; reflexivity|
         split; [repeat constructor; by_decide|reflexivity]|].
       exists c'. split; [exact Hc|exact Hin]. }
  destruct (Hseen sample_arrivals [(12, inl NUL)]) as (c' & Hc & Hin & _);
    [vm_compute; reflexivity..| |vm_compute; reflexivity|].
  { repeat constructor. }
  exists c'. split; [exact Hc | exact Hin].
Defined.

(** ** Binding *)

Lemma Decode_bare_bind id st seq f :
  id ∈ [BindReceiverResp; BindTransmitterResp; BindTransceiverResp] -> is_u32 seq ->
  Encode (mkPDU id st seq None) = Ok f ->
  Decode f = Ok (mkPDU id (u32 st) seq (Some (BodyBindResp (mkBindResp "" [])))).
Proof.
  intros Hid Hseq He. apply Encode_Ok in He as [Hl ->]. cbn [PDU_Body PDU_CommandID PDU_CommandStatus PDU_SequenceNumber] in *.
  destruct (header_of_encoded (HeaderLen + len (obody_bytes None)) id st seq (obody_bytes None))
    as (_ & H4 & H8 & H12 & Hbody & Hlen).
  rewrite Decode_header by (rewrite Hlen; unfold HeaderLen; lia). rewrite H4, H8, H12, (u32_small seq) by done.
  assert (is_u32 id /\ decodeBody id = (Some <$> decodeBindResp)) as [Hu Hk].
  { set_unfold. destruct Hid as [->|[->|[->|[]]]]; (split; [by_decide | reflexivity]). }
  rewrite (u32_small id), Hk by done.
  unfold fmap, Dec_fmap, mbind, Dec_bind, decodeBindResp, r_remaining. cbn [r_b r_pos]. by rewrite Hlen.
Qed.

Lemma bind_request_sent id seq systemID password :
  id ∈ [SmppPdu.BindReceiver; SmppPdu.BindTransmitter; SmppPdu.BindTransceiver] -> is_u32 seq ->
  cstr_ok systemID -> cstr_ok password ->
  pdu_ok (bind_request id seq systemID password) /\
  exists f, Encode (bind_request id seq systemID password) = Ok f.
Proof.
  intros Hid Hseq Hs Hp. split.
  - set_unfold. destruct Hid as [->|[->|[->|[]]]];
      (split; [by_decide|]; split; [by_decide|]; split; [done|]; split; [done|]);
      (split; [done|]; split; [done|]; split; by_decide).
  - apply Encode_fits_body. rewrite body_bytes_Bind, !length_app, !Nat2Z.inj_add, !length_cstring.
    destruct Hs as [_ Hs], Hp as [_ Hp].
    cbn [Bind_SystemID Bind_Password Bind_SystemType Bind_AddressRange length].
    change (slen "") with 0. unfold maxCOctetLen, HeaderLen, MaxPDULen in *. lia.
Qed.

Definition creds_match {R} (w : world R) (systemID password : string) : Prop :=
  RejectBind (v_scenario (w_smsc w)) = false /\
  systemID = BC_SystemID (VS_BindCredentials (v_cfg (w_smsc w))) /\
  password = BC_Password (VS_BindCredentials (v_cfg (w_smsc w))).

(** The response to a bind: ESME_ROK with the SMSC's name, or a refusal. *)
Definition bind_seen {R} (w : world R) (seq : Z) (accepted : bool) : PDU :=
  if accepted then
    mkPDU BindTransceiverResp StatusROK seq (Some (BodyBindResp (mkBindResp (VS_Name (v_cfg (w_smsc w))) [])))
  else mkPDU BindTransceiverResp StatusBindFail seq (Some (BodyBindResp (mkBindResp "" []))).

(** What the session sends for it. *)
Definition bind_answer {R} (w : world R) (req : PDU) (accepted : bool) : PDU :=
  if accepted then
    reply req BindTransceiverResp StatusROK (Some (BodyBindResp (mkBindResp (VS_Name (v_cfg (w_smsc w))) [])))
  else reply req BindTransceiverResp StatusBindFail None.

Lemma Encode_bind_answer {R} (w : world R) req accepted :
  cstr_ok (VS_Name (v_cfg (w_smsc w))) -> exists b, Encode (bind_answer w req accepted) = Ok b.
Proof.
  intros [_ Hn]. destruct accepted; [|by eexists]. apply Encode_fits_body.
  rewrite body_bytes_BindResp. cbn [BindResp_SystemID BindResp_TLVs tlvs_bytes fmap list_fmap concat].
  rewrite app_nil_r, length_cstring. unfold maxCOctetLen, HeaderLen, MaxPDULen in *. lia.
Qed.

Lemma Decode_bind_answer {R} (w : world R) req accepted b :
  cstr_ok (VS_Name (v_cfg (w_smsc w))) -> is_u32 (PDU_SequenceNumber req) ->
  Encode (bind_answer w req accepted) = Ok b -> Decode b = Ok (bind_seen w (PDU_SequenceNumber req) accepted).
Proof.
  intros Hname Hseq Hb. unfold bind_answer, reply in Hb. destruct accepted.
  - apply Decode_sent in Hb; [exact Hb|by_decide|done|done|]. split; [done|]. split; [by constructor|done].
  - apply Decode_bare_bind in Hb; [exact Hb|set_solver|done].
Qed.

Lemma bind_served {R} `{RandSource R} env (w : world R) seq systemID password :
  s_state (w_session w) = stateOpen -> cstr_ok (VS_Name (v_cfg (w_smsc w))) ->
  let req := bind_request SmppPdu.BindTransceiver seq systemID password in
  exists w' (accepted : bool) b, handleBind req env w = Ok ((), w') /\
    (accepted = true <-> creds_match w systemID password) /\
    s_state (w_session w') = (if accepted then stateBound else stateClosed) /\
    Encode (bind_answer w req accepted) = Ok b /\
    responses (drop (length (w_out w)) (w_out w')) = [b].
Proof.
  intros Hst Hname req. pose proof (handleBind_run req env w) as Hrun. unfold judge_bind in Hrun.
  rewrite Hst in Hrun. cbn [negb PDU_Body req bind_request] in Hrun.
  rewrite bool_decide_eq_true_2 in Hrun by done. cbn [negb Bind_SystemID Bind_Password] in Hrun.
  assert (forall accepted b, Encode (bind_answer w req accepted) = Ok b ->
    send_out (bind_answer w req accepted) kindResp = [SendBytes b kindResp]) as Hsend.
  { intros accepted b Hb. unfold send_out, encoded. by rewrite Hb. }
  destruct (Encode_bind_answer w req true Hname) as [bt Ht], (Encode_bind_answer w req false Hname) as [bf Hf].
  assert (bind_reply req StatusBindFail None = [SendBytes bf kindResp]) as Hno by exact (Hsend false bf Hf).
  assert (bind_reply req StatusROK (Some (BodyBindResp (mkBindResp (VS_Name (v_cfg (w_smsc w))) []))) =
    [SendBytes bt kindResp]) as Hyes by exact (Hsend true bt Ht).
  unfold creds_match. destruct (RejectBind (v_scenario (w_smsc w))).
  { eexists _, false, bf. split; [exact Hrun|]. split; [split; [done | by intros []]|]. split; [done|].
    split; [done|]. rewrite Hno. cbn [w_out closed_world upd add_out set_w_out set_w_session]. by rewrite drop_app_length. }
  case_bool_decide as Hc.
  - destruct Hrun as (r & _ & Hrun). eexists _, true, bt. split; [exact Hrun|].
    split; [split; [by intros _; split | done]|]. split; [done|]. split; [done|].
    unfold accepted_world. rewrite Hyes. cbn [w_out add_out set_w_out scheduled_world upd set_w_session].
    by rewrite <- app_assoc, drop_app_length.
  - eexists _, false, bf. split; [exact Hrun|]. split; [split; [done | intros (_ & ?); done]|]. split; [done|].
    split; [done|]. rewrite Hno. cbn [w_out closed_world upd add_out set_w_out set_w_session]. by rewrite drop_app_length.
Qed.

(** [BindTransceiver] against a fresh session: the client is told ESME_ROK under
    the SMSC's name exactly when the session is bound, and that is exactly when the
    credentials are the configured ones and the profile takes binds; otherwise it
    is told the bind failed and the session is closed. *)
Theorem bind_exchange {R} `{RandSource R} env (w : world R) c systemID password :
  healthy c -> cstr_ok systemID -> cstr_ok password -> cstr_ok (VS_Name (v_cfg (w_smsc w))) ->
  s_state (w_session w) = stateOpen ->
  let seq := c_seq c +32 1 in
  exists f goon w' (accepted : bool) b,
    Encode (bind_request SmppPdu.BindTransceiver seq systemID password) = Ok f /\
    handleFrame f env w = Ok (goon, w') /\ goon = accepted /\
    (accepted = true <-> creds_match w systemID password) /\
    s_state (w_session w') = (if accepted then stateBound else stateClosed) /\
    responses (drop (length (w_out w)) (w_out w')) = [b] /\
    forall fs s, fs.*2 = b -> all_before (n_now (c_conn c) + ioTimeout) fs -> n_in (c_conn c) = timed fs ++ s ->
      exists c', BindTransceiver systemID password c = (Ok (bind_seen w seq accepted), c') /\
        n_in (c_conn c') = s /\ n_out (c_conn c') = n_out (c_conn c) ++ f.
Proof.
  intros Hh Hs Hp Hname Hst seq. assert (is_u32 seq) as Hseq by apply u32_range.
  destruct (bind_request_sent SmppPdu.BindTransceiver seq systemID password) as (Hok & f & Hf); [set_solver|done..|].
  set (req := bind_request SmppPdu.BindTransceiver seq systemID password) in *.
  destruct (bind_served env (counted w) seq systemID password Hst Hname)
    as (w' & accepted & b & Hrun & Hacc & Hst' & Hb & Hresp). fold req in Hrun, Hb.
  pose proof (handleFrame_served f req env w w' (Decode_Encode_aux _ _ Hok Hf) Hrun) as Hserve.
  exists f. eexists _, w', accepted, b. split; [done|]. split; [exact Hserve|].
  split; [rewrite Hst'; by destruct accepted|]. split; [exact Hacc|]. split; [done|]. split; [exact Hresp|].
  intros fs s Hfs Hbefore Hin. 
  assert (Decode b = Ok (bind_seen w seq accepted)) as Hd by exact (Decode_bind_answer w req _ _ Hname Hseq Hb).
  assert (answers req (bind_seen w seq accepted) = true) as Ha.
  { unfold answers, bind_seen. destruct accepted; cbn [PDU_SequenceNumber PDU_CommandID req bind_request];
      by rewrite Z.eqb_refl. }
  destruct (roundTrip_run req f fs s _ (mkClient (c_conn c) seq) Hh Hf Ha Hbefore Hin (delivers_Encode _ _ _ _ Hb Hd Hfs))
    as (c' & Hrt & []). exists c'. by split.
Qed.
