(* ===== verification/ClientDeliveries.v ===== *)
(** * Deliveries and silences seen by the test client ([client.go])

    What draining and collecting deliver_sm PDUs return, whatever arrives, and how
    the client tells a closed connection from a silent one. *)

From S2P Require Import Prelude.
From S2P Require Import SmppPdu.
From S2P Require Import SmppCodec.
From S2P Require Import SmppCursor.
From S2P Require Import SmppCodecThms.
From S2P Require Import SmppFraming.
From S2P Require Import Fault.
From S2P Require Import ReadLoop.
From S2P Require Import Client.
From S2P Require Import ClientThms.

#[local] Open Scope Z_scope.
#[local] Open Scope list_scope.

(** ** Draining deliveries *)

(** Every deliver_sm can be acknowledged. *)
Definition ack_frame (p : PDU) : bytes := match Encode (ack p) with Ok f => f | _ => [] end.

Lemma Encode_ack p : Encode (ack p) = Ok (ack_frame p).
Proof.
  unfold ack_frame. destruct (Encode_fits_body DeliverSMResp StatusROK (PDU_SequenceNumber p)
    (BodySubmitResp (mkSubmitResp ""))) as [f Hf]; [by vm_compute|].
  unfold ack. by rewrite Hf.
Qed.

(** Deliveries each within [d] of the one before, then a silence of [d]. *)
Inductive batch (d : Z) : Z -> stream -> list PDU -> Z -> stream -> Prop :=
| batch_quiet now s : quiet_until (now + d) s -> batch d now s [] (now + d) s
| batch_deliver now fs s p ps now' s' :
    delivers fs p -> PDU_CommandID p = DeliverSM -> all_before (now + d) fs ->
    batch d (clock_after now fs) s ps now' s' -> batch d now (timed fs ++ s) (p :: ps) now' s'.

Lemma delivers_nonempty fs p : delivers fs p -> (0 < length fs)%nat.
Proof. intros [Hl _ _]. rewrite length_fmap in Hl. unfold HeaderLen in Hl. lia. Qed.

Lemma batch_length d now s ps now' s' : batch d now s ps now' s' -> (length ps <= length s)%nat.
Proof.
  induction 1 as [|now fs s p ps now' s' Hd _ _ _ IH]; cbn [length]; [lia|].
  apply delivers_nonempty in Hd. unfold timed. rewrite length_app, length_fmap. lia.
Qed.

Lemma drain_loop_batch d now s ps now' s' :
  0 < d -> batch d now s ps now' s' ->
  forall fuel out c, healthy c -> n_now (c_conn c) = now -> n_in (c_conn c) = s -> (length ps < fuel)%nat ->
  exists c', drain_loop fuel d out c = (Ok (Some (out ++ ps)), c') /\
    moved c c' now' s' (concat (ack_frame <$> ps)).
Proof.
  intros Hd. induction 1 as [now s Hq|now fs s p ps now' s' Hp Hid Hfs _ IH];
    intros fuel out c Hh Hn Hin Hfuel; (destruct fuel as [|fuel]; [lia|]); cbn [drain_loop].
  - rewrite <- Hn, <- Hin in Hq. destruct (read_quiet d c Hh Hd Hq) as (c' & Hm & Hrun).
    exists c'. rewrite Hrun, app_nil_r. split; [done|]. by rewrite Hn, Hin in Hm.
  - rewrite <- Hn in Hfs. destruct (read_attempt d fs s p c Hh Hd Hfs Hin Hp) as (c1 & Hm1 & Hrun).
    rewrite Hrun. erewrite C_bind_run by (unfold checked; by rewrite (fo_decode _ _ Hp)).
    rewrite Hid. cbn [Z.eqb negb]. change (DeliverSM =? DeliverSM) with true. cbn [negb].
    destruct (write_run (ack p) (ack_frame p) c1 (mv_healthy _ _ _ _ _ Hm1) (Encode_ack p)) as (c2 & Hw & Hm2).
    rewrite (C_bind_run _ _ _ _ _ Hw).
    destruct (IH fuel (out ++ [p]) c2) as (c3 & Hrun3 & Hm3).
    + apply Hm2.
    + by rewrite (mv_now _ _ _ _ _ Hm2), (mv_now _ _ _ _ _ Hm1), Hn.
    + by rewrite (mv_in _ _ _ _ _ Hm2), (mv_in _ _ _ _ _ Hm1).
    + cbn [length] in Hfuel. lia.
    + exists c3. rewrite Hrun3. split; [by rewrite <- app_assoc|].
      pose proof (moved_trans _ _ _ _ _ _ _ _ _ (moved_trans _ _ _ _ _ _ _ _ _ Hm1 Hm2) Hm3) as Hm.
      by csimpl.
Qed.

(** *** Whatever arrives *)

Lemma set_read_deadline_cases d c :
  exists r c', set_read_deadline d c = (r, c') /\ r <> Panic /\
    n_in (c_conn c') = n_in (c_conn c) /\ n_out (c_conn c') = n_out (c_conn c).
Proof.
  unfold set_read_deadline, time_Now, must, conn_SetReadDeadline. unfold mbind, C_bind.
  destruct (n_open (c_conn c)); eexists _, _; by repeat split.
Qed.

Lemma attempt_cases c :
  exists r c', attempt conn_ReadPDU c = (Ok r, c') /\ n_out (c_conn c') = n_out (c_conn c) /\
    match r with
    | inl _ => (length (n_in (c_conn c')) < length (n_in (c_conn c)))%nat
    | inr _ => True
    end.
Proof.
  unfold attempt. pose proof (conn_ReadPDU_no_panic (c_conn c)) as Hnp.
  assert (n_out (conn_ReadPDU (c_conn c)).2 = n_out (c_conn c)) as Ho.
  { unfold conn_ReadPDU. destruct (ReadPDU _) as [r rest]. unfold settle. by destruct (_ || _). }
  destruct (conn_ReadPDU (c_conn c)) as [[f|e|] n] eqn:HR; [..|done]; eexists _, _; split; try done; split; try done.
  by eapply conn_ReadPDU_progress.
Qed.

Lemma write_cases p b c :
  Encode p = Ok b ->
  exists r c', write p c = (r, c') /\ n_in (c_conn c') = n_in (c_conn c) /\
    match r with Ok _ => n_out (c_conn c') = n_out (c_conn c) ++ b | Err _ => True | Panic => False end.
Proof.
  intros He. unfold write. erewrite C_bind_run by (unfold checked; by rewrite He).
  erewrite C_bind_run by reflexivity. unfold mbind, C_bind, must, conn_SetWriteDeadline, conn_Write.
  destruct (n_open (c_conn c)) eqn:Ho; cbn [c_conn n_open negb]; [|by eexists _, _].
  destruct (expired _ _); [by eexists _, _|]. cbn [n_writes].
  by destruct (n_writes (c_conn c)) as [|[[]|] ?]; eexists _, _.
Qed.

(** The collected deliveries, and their acknowledgements on the wire. *)
Definition acknowledged (out l : list PDU) (c c' : Client) : Prop :=
  exists qs, l = out ++ qs /\ Forall (fun p => PDU_CommandID p = DeliverSM) qs /\
    n_out (c_conn c') = n_out (c_conn c) ++ concat (ack_frame <$> qs).

Lemma acknowledged_nil out c c' : n_out (c_conn c') = n_out (c_conn c) -> acknowledged out out c c'.
Proof. intros Ho. exists []. by rewrite !app_nil_r. Qed.

Lemma acknowledged_cons out l p c c1 c' :
  PDU_CommandID p = DeliverSM -> n_out (c_conn c1) = n_out (c_conn c) ++ ack_frame p ->
  acknowledged (out ++ [p]) l c1 c' -> acknowledged out l c c'.
Proof.
  intros Hid Ho (qs & -> & Hqs & Hout). exists (p :: qs). split; [by rewrite <- app_assoc|].
  split; [by constructor|]. rewrite Hout, Ho. csimpl. by rewrite <- app_assoc.
Qed.

Definition ends_with (P : list PDU -> Client -> Prop) (r : outcome fatal (option (list PDU)) * Client) : Prop :=
  match r with (Ok (Some l), c') => P l c' | (Err _, _) => True | _ => False end.

Lemma drain_loop_ends fuel d : forall out c, (length (n_in (c_conn c)) < fuel)%nat ->
  ends_with (fun l c' => acknowledged out l c c') (drain_loop fuel d out c).
Proof.
  induction fuel as [|fuel IH]; intros out c Hfuel; [lia|]. cbn [drain_loop].
  destruct (set_read_deadline_cases d c) as (r1 & c1 & H1 & Hp1 & Hi1 & Ho1).
  unfold mbind at 1, C_bind at 1. rewrite H1. destruct r1 as [[]|e|]; [|done|done].
  destruct (attempt_cases c1) as (r2 & c2 & H2 & Ho2 & Hi2). rewrite (C_bind_run _ _ _ _ _ H2).
  destruct r2 as [frame|err].
  2: { destruct (isTimeout err); [|done]. cbn. apply acknowledged_nil. congruence. }
  unfold mbind at 1, C_bind at 1, checked. pose proof (Decode_total frame) as Hnp.
  destruct (Decode frame) as [p|e|]; [|done|done].
  destruct (Z.eqb_spec (PDU_CommandID p) DeliverSM) as [Hid|Hid]; cbn [negb]; [|done].
  destruct (write_cases (ack p) _ c2 (Encode_ack p)) as (r3 & c3 & H3 & Hi3 & Ho3).
  unfold mbind, C_bind. rewrite H3. destruct r3 as [[]|e|]; [|done|done].
  assert (length (n_in (c_conn c3)) < fuel)%nat as Hf3 by (rewrite Hi3; rewrite Hi1 in Hi2; lia).
  specialize (IH (out ++ [p]) c3 Hf3). unfold ends_with in *.
  destruct (drain_loop _ _ _ _) as [[[l|]|e|] c4]; try done.
  eapply acknowledged_cons; [exact Hid | rewrite Ho3; congruence | exact IH].
Qed.

(** Draining returns the whole batch.  Whatever the server sends, however it
    stalls or ends, [DrainDeliverSMs] returns or fails the test, and what it
    returns are deliver_sm PDUs it has acknowledged one by one in the order they
    came.  When deliveries arrive each within [d] of the one before and then [d]
    passes in silence, it returns exactly those, leaves everything later unread
    and takes until the end of the silence. *)
Theorem DrainDeliverSMs_batch d c :
  0 < d ->
  ends_with (fun l c' => acknowledged [] l c c') (DrainDeliverSMs d c) /\
  (forall ps now' s', healthy c -> batch d (n_now (c_conn c)) (n_in (c_conn c)) ps now' s' ->
     exists c', DrainDeliverSMs d c = (Ok (Some ps), c') /\ moved c c' now' s' (concat (ack_frame <$> ps))).
Proof.
  intros Hd. split; [apply drain_loop_ends; lia|]. intros ps now' s' Hh Hb.
  eapply (drain_loop_batch d _ _ ps now' s' Hd Hb); try done. apply batch_length in Hb. lia.
Qed.

Definition sample_delivery (seq : Z) : PDU :=
  mkPDU DeliverSM 0 seq (Some (BodyMessage (submit_message "22507" "alice" "hi"))).

Definition sample_delivery_at (seq t : Z) : list (Z * byte) :=
  pair t <$> match Encode (sample_delivery seq) with Ok f => f | _ => [] end.

Definition sample_receiver : Client :=
  mkClient (mkConn 0 (timed (sample_delivery_at 1 40) ++ timed (sample_delivery_at 2 90) ++ [(300, inl NUL)])
    [] [] true None None) 0.

Lemma sample_delivers seq t : seq ∈ [1; 2] -> delivers (sample_delivery_at seq t) (sample_delivery seq).
Proof.
  intros Hs. set_unfold. destruct Hs as [->|[->|[]]]; split; vm_compute; repeat split; discriminate.
Qed.

Lemma DrainDeliverSMs_batch_witness :
  exists c', DrainDeliverSMs 100 sample_receiver = (Ok (Some [sample_delivery 1; sample_delivery 2]), c') /\
    n_now (c_conn c') = 190 /\ n_in (c_conn c') = [(300, inl NUL)].
Proof.
  destruct (proj2 (DrainDeliverSMs_batch 100 sample_receiver ltac:(lia))
    [sample_delivery 1; sample_delivery 2] 190 [(300, inl NUL)]) as (c' & Hc & []).
  - by split.
  - eapply batch_deliver; [apply sample_delivers; set_solver | done | repeat constructor |].
    eapply batch_deliver; [apply sample_delivers; set_solver | done | repeat constructor |].
    change 190 with (90 + 100). apply batch_quiet. done.
  - exists c'. repeat split; assumption.
Defined.

(** ** Collecting deliveries *)

(** [count] deliveries arrive before the deadline, other PDUs among them. *)
Inductive collecting (deadline : Z) : nat -> Z -> stream -> list PDU -> Z -> stream -> Prop :=
| collecting_done now s : collecting deadline 0 now s [] now s
| collecting_deliver n now fs s p ps now' s' :
    now < deadline -> delivers fs p -> PDU_CommandID p = DeliverSM -> all_before deadline fs ->
    collecting deadline n (clock_after now fs) s ps now' s' ->
    collecting deadline (S n) now (timed fs ++ s) (p :: ps) now' s'
| collecting_other n now fs s p ps now' s' :
    now < deadline -> delivers fs p -> PDU_CommandID p <> DeliverSM -> all_before deadline fs ->
    collecting deadline (S n) (clock_after now fs) s ps now' s' ->
    collecting deadline (S n) now (timed fs ++ s) ps now' s'.

Lemma collecting_length deadline n now s ps now' s' :
  collecting deadline n now s ps now' s' -> (length s' + n <= length s)%nat.
Proof.
  induction 1 as [|n now fs s p ps now' s' _ Hd _ _ _ IH|n now fs s p ps now' s' _ Hd _ _ _ IH]; [lia|..];
    apply delivers_nonempty in Hd; unfold timed; rewrite length_app, length_fmap; lia.
Qed.

(** One turn of the loop on a frame that arrives. *)
Lemma collect_turn deadline fs s p c fuel count out :
  healthy c -> n_now (c_conn c) < deadline -> all_before deadline fs -> n_in (c_conn c) = timed fs ++ s ->
  delivers fs p -> len out < count ->
  exists c1, moved c c1 (clock_after (n_now (c_conn c)) fs) s [] /\
    collect_loop (S fuel) count deadline out c =
    (if negb (PDU_CommandID p =? DeliverSM) then collect_loop fuel count deadline out
     else write (ack p);; collect_loop fuel count deadline (out ++ [p])) c1.
Proof.
  intros Hh Hnow Hfs Hin Hp Hc.
  assert (0 < deadline - n_now (c_conn c)) as Hpos by lia.
  destruct (read_attempt (deadline - n_now (c_conn c)) fs s p c Hh Hpos) as (c1 & Hm & Hrun); [|done..|].
  { by replace (n_now (c_conn c) + (deadline - n_now (c_conn c))) with deadline by lia. }
  exists c1. split; [done|]. cbn [collect_loop]. rewrite (proj2 (Z.ltb_lt _ _)) by done.
  erewrite C_bind_run by reflexivity. rewrite (proj2 (Z.leb_gt _ _)) by lia.
  destruct (set_read_deadline_run _ c Hh Hpos) as (c2 & Hsd & _).
  rewrite (C_bind_run _ _ _ _ _ Hsd), must_attempt.
  specialize (Hrun _ (fun r => match r with
    | inl frame => pdu ← checked (Decode frame) FatalDecode;
        if negb (PDU_CommandID pdu =? DeliverSM) then collect_loop fuel count deadline out
        else write (ack pdu);; collect_loop fuel count deadline (out ++ [pdu])
    | inr err => Fatalf (FatalRead err) end)).
  rewrite (C_bind_run _ _ _ _ _ Hsd) in Hrun. rewrite Hrun.
  by erewrite C_bind_run by (unfold checked; by rewrite (fo_decode _ _ Hp)).
Qed.

Lemma collect_loop_collecting deadline n now s ps now' s' :
  collecting deadline n now s ps now' s' ->
  forall fuel count out c, healthy c -> n_now (c_conn c) = now -> n_in (c_conn c) = s ->
    len out + Z.of_nat n = count -> (length s - length s' < fuel)%nat ->
  exists c', collect_loop fuel count deadline out c = (Ok (Some (out ++ ps)), c') /\
    moved c c' now' s' (concat (ack_frame <$> ps)).
Proof.
  induction 1 as [now s|n now fs s p ps now' s' Hnow Hp Hid Hfs Hrest IH|n now fs s p ps now' s' Hnow Hp Hid Hfs Hrest IH];
    intros fuel count out c Hh Hn Hin Hcount Hfuel; (destruct fuel as [|fuel]; [lia|]).
  { exists c. cbn [collect_loop]. rewrite (proj2 (Z.ltb_ge _ _)) by lia. rewrite app_nil_r. split; [done|].
    by split; rewrite ?app_nil_r. }
  all: pose proof (collecting_length _ _ _ _ _ _ _ Hrest) as Hl; pose proof (delivers_nonempty _ _ Hp) as Hne.
  all: assert (length (timed fs ++ s) = length fs + length s)%nat as Hlen
    by (unfold timed; rewrite length_app, length_fmap; lia); rewrite Hlen in Hfuel.
  all: rewrite <- Hn in Hnow; destruct (collect_turn deadline fs s p c fuel count out Hh Hnow Hfs Hin Hp)
    as (c1 & Hm1 & ->); [lia|]; rewrite Hn in Hm1.
  - rewrite Hid. change (DeliverSM =? DeliverSM) with true. cbn [negb].
    destruct (write_run (ack p) (ack_frame p) c1 (mv_healthy _ _ _ _ _ Hm1) (Encode_ack p)) as (c2 & Hw & Hm2).
    rewrite (C_bind_run _ _ _ _ _ Hw).
    destruct (IH fuel count (out ++ [p]) c2) as (c3 & Hrun & Hm3).
    + apply Hm2.
    + by rewrite (mv_now _ _ _ _ _ Hm2), (mv_now _ _ _ _ _ Hm1).
    + by rewrite (mv_in _ _ _ _ _ Hm2), (mv_in _ _ _ _ _ Hm1).
    + rewrite length_app. cbn [length]. lia.
    + lia.
    + exists c3. rewrite Hrun. split; [by rewrite <- app_assoc|].
      pose proof (moved_trans _ _ _ _ _ _ _ _ _ (moved_trans _ _ _ _ _ _ _ _ _ Hm1 Hm2) Hm3) as Hm.
      by csimpl.
  - rewrite (proj2 (Z.eqb_neq _ _)) by done. cbn [negb].
    destruct (IH fuel count out c1) as (c3 & Hrun & Hm3); [apply Hm1|apply Hm1|apply Hm1|done|lia|].
    exists c3. split; [done|]. by pose proof (moved_trans _ _ _ _ _ _ _ _ _ Hm1 Hm3).
Qed.

Lemma collect_loop_ends fuel count deadline : forall out c,
  (length (n_in (c_conn c)) < fuel)%nat -> len out <= Z.max 0 count ->
  ends_with (fun l c' => acknowledged out l c c' /\ len l = Z.max 0 count) (collect_loop fuel count deadline out c).
Proof.
  induction fuel as [|fuel IH]; intros out c Hfuel Hle; [lia|]. cbn [collect_loop].
  destruct (Z.ltb_spec (len out) count) as [Hlt|Hge].
  2: { split; [by apply acknowledged_nil|]. lia. }
  erewrite C_bind_run by reflexivity. destruct (_ <=? 0); [done|].
  destruct (set_read_deadline_cases (deadline - n_now (c_conn c)) c) as (r1 & c1 & H1 & Hp1 & Hi1 & Ho1).
  unfold mbind at 1, C_bind at 1. rewrite H1. destruct r1 as [[]|e|]; [|done|done]. rewrite must_attempt.
  destruct (attempt_cases c1) as (r2 & c2 & H2 & Ho2 & Hi2). rewrite (C_bind_run _ _ _ _ _ H2).
  destruct r2 as [frame|err]; [|done].
  unfold mbind at 1, C_bind at 1, checked. pose proof (Decode_total frame) as Hnp.
  destruct (Decode frame) as [p|e|]; [|done|done]. rewrite Hi1 in Hi2.
  destruct (Z.eqb_spec (PDU_CommandID p) DeliverSM) as [Hid|Hid]; cbn [negb].
  - destruct (write_cases (ack p) _ c2 (Encode_ack p)) as (r3 & c3 & H3 & Hi3 & Ho3).
    unfold mbind, C_bind. rewrite H3. destruct r3 as [[]|e|]; [|done|done].
    specialize (IH (out ++ [p]) c3 ltac:(rewrite Hi3; lia) ltac:(rewrite length_app; cbn [length]; lia)). unfold ends_with in *.
    destruct (collect_loop _ _ _ _ _) as [[[l|]|e|] c4]; try done. destruct IH as [IH Hl]. split; [|done].
    eapply acknowledged_cons; [exact Hid | rewrite Ho3; congruence | exact IH].
  - specialize (IH out c2 ltac:(lia) Hle). unfold ends_with in *.
    destruct (collect_loop _ _ _ _ _) as [[[l|]|e|] c4]; try done.
    destruct IH as [(qs & Hl & Hqs & Hout) Hcount]. split; [|done]. exists qs. rewrite Hout. by rewrite Ho2, Ho1.
Qed.

(** [CollectDeliverSMs] returns or fails the test; it returns exactly [count]
    deliveries, each acknowledged, in the order they came, and when that many come
    before the deadline, whatever else is among them, it returns those. *)
Theorem CollectDeliverSMs_count count within c :
  ends_with (fun l c' => acknowledged [] l c c' /\ len l = Z.max 0 count) (CollectDeliverSMs count within c) /\
  (forall ps now' s', healthy c -> 0 <= count ->
     collecting (n_now (c_conn c) + within) (Z.to_nat count) (n_now (c_conn c)) (n_in (c_conn c)) ps now' s' ->
     exists c', CollectDeliverSMs count within c = (Ok (Some ps), c') /\
       moved c c' now' s' (concat (ack_frame <$> ps))).
Proof.
  split; [apply collect_loop_ends; cbn; lia|]. intros ps now' s' Hh Hc Hcol.
  eapply (collect_loop_collecting _ _ _ _ ps now' s' Hcol); try done; cbn [length]; lia.
Qed.

(** ** Telling a closed connection from a silent one *)

Lemma flat_ReadPDU_stalled f bs tl :
  f = bs ++ tl -> bs <> [] -> tl <> [] -> HeaderLen <= len f <= MaxPDULen -> header_word f 0 = len f ->
  flat_ReadPDU ((inl <$> bs) ++ [inr Timeout]) = (Err ErrPartialFrame, []).
Proof.
  intros -> Hbs Htl Hl H0. unfold flat_ReadPDU.
  assert (forall need (l : bytes), (length l < need)%nat ->
    flat_read need [] ((inl <$> l) ++ [inr Timeout]) = (l, Some Timeout, [])) as Hshort.
  { intros need l Hlt. rewrite flat_read_app by (cbn; lia). cbn [app flat_read].
    rewrite (proj2 (Nat.leb_gt _ _)) by done. unfold short_read. by rewrite bool_decide_eq_false_2 by naive_solver. }
  destruct (decide (length bs < 4)%nat) as [Hlt|Hge].
  - rewrite Hshort by done. destruct bs; [done|]. cbn [length].
    by rewrite (proj2 (Z.ltb_lt _ _)) by lia.
  - rewrite <-(take_drop 4 bs) at 1. rewrite fmap_app, <- app_assoc.
    rewrite flat_read_full by (rewrite length_take; lia).
    unfold header_word in H0. rewrite drop_0, take_app_le in H0 by lia. rewrite H0.
    rewrite (proj2 (Z.ltb_ge _ _)), Z.gtb_ltb, (proj2 (Z.ltb_ge _ _)) by lia. cbn [orb].
    assert (0 < length tl)%nat by (destruct tl; cbn; [done|lia]).
    rewrite length_app in *. unfold HeaderLen in *. rewrite Hshort by (rewrite length_drop; lia). done.
Qed.

Lemma conn_ReadPDU_stalled n d fs s f tl :
  reading n d -> all_before d fs -> n_in n = timed fs ++ s -> quiet_until d s ->
  f = fs.*2 ++ tl -> fs <> [] -> tl <> [] -> HeaderLen <= len f <= MaxPDULen -> header_word f 0 = len f ->
  (conn_ReadPDU n).1 = Err ErrPartialFrame.
Proof.
  intros Hr Hfs Hin Hq Hf Hne Htl Hl H0. unfold conn_ReadPDU.
  pose proof (ReadPDU_flat (incoming n)) as HR. rewrite (incoming_flat n d Hr) in HR. unfold deadline_atom in HR.
  rewrite Hin, arrived_timed in HR by done.
  destruct s as [|[t a] s]; [done|]. cbn [arrived in_time] in HR. simpl in Hq.
  rewrite (proj2 (Z.ltb_ge _ _)), app_nil_r in HR by done.
  rewrite (proj2 (Nat.ltb_lt _ _)) in HR by (rewrite length_app; cbn [length]; lia).
  rewrite timed_atoms in HR. rewrite (flat_ReadPDU_stalled f _ tl Hf) in HR; try done.
  - destruct (ReadPDU (incoming n)) as [r rest]. cbn [fst snd] in HR. by injection HR as <- _.
  - by destruct fs.
Qed.

Lemma ClosedWithin_eq d c :
  healthy c -> 0 < d ->
  exists c1, reading (c_conn c1) (n_now (c_conn c) + d) /\ n_in (c_conn c1) = n_in (c_conn c) /\
    (ClosedWithin d c).1 =
      match (conn_ReadPDU (c_conn c1)).1 with
      | Ok _ => Ok false | Err err => Ok (negb (isTimeout err)) | Panic => Panic end.
Proof.
  intros Hh Hd. destruct (set_read_deadline_run d c Hh Hd) as (c1 & Hrun & [_ Hi _ _ _] & Hr).
  exists c1. split; [done|]. split; [done|]. unfold ClosedWithin. rewrite (C_bind_run _ _ _ _ _ Hrun).
  unfold mbind, C_bind, attempt. by destruct (conn_ReadPDU (c_conn c1)) as [[f|e|] n].
Qed.

(** What [ClosedWithin] reports: nothing in time and a PDU in time read as open, a
    closed stream as closed; but a frame that has begun and stalls past the deadline
    reads as closed too, although the connection is open and the rest may come. *)
Theorem ClosedWithin_verdicts d c :
  healthy c -> 0 < d ->
  let deadline := n_now (c_conn c) + d in
  (quiet_until deadline (n_in (c_conn c)) -> (ClosedWithin d c).1 = Ok false) /\
  (forall fs s p, all_before deadline fs -> n_in (c_conn c) = timed fs ++ s -> delivers fs p ->
     (ClosedWithin d c).1 = Ok false) /\
  (n_in (c_conn c) = [] -> (ClosedWithin d c).1 = Ok true) /\
  (forall fs s p f tl, Encode p = Ok f -> f = fs.*2 ++ tl -> fs <> [] -> tl <> [] ->
     all_before deadline fs -> n_in (c_conn c) = timed fs ++ s -> quiet_until deadline s ->
     (ClosedWithin d c).1 = Ok true).
Proof.
  intros Hh Hd deadline. destruct (ClosedWithin_eq d c Hh Hd) as (c1 & Hr & Hin & ->). fold deadline in Hr.
  split; [|split; [|split]].
  - intros Hq. rewrite (conn_ReadPDU_quiet _ _ Hr); [done|]. by rewrite Hin.
  - intros fs s p Hfs Hs [Hl Hw _]. rewrite <- Hin in Hs. by rewrite (conn_ReadPDU_frame _ _ _ _ Hr Hfs Hs Hl Hw).
  - intros Hs. unfold conn_ReadPDU. destruct Hr as (Ho & Hdl & Hn). unfold incoming.
    rewrite Ho, Hdl, Hin, Hs. cbn [negb expired]. by rewrite (proj2 (Z.leb_gt _ _)).
  - intros fs s p f tl He Hf Hne Htl Hfs Hs Hq. rewrite <- Hin in Hs.
    destruct (Encode_header p f He) as [Hl Hw].
    by rewrite (conn_ReadPDU_stalled _ _ _ _ f tl Hr Hfs Hs Hq Hf).
Qed.

(** A delivery whose first ten bytes come at once and the rest after the deadline:
    [ExpectClosed] passes, and the rest is still there to be read. *)
Definition stalled_client : Client :=
  let f := match Encode (sample_delivery 1) with Ok f => f | _ => [] end in
  mkClient (mkConn 0 (timed (pair 5 <$> take 10 f) ++ timed (pair (4 * Second) <$> drop 10 f)) [] [] true None None) 0.

Lemma ExpectClosed_on_open_link :
  exists c', ExpectClosed stalled_client = (Ok (), c') /\ n_open (c_conn c') = true /\
    (conn_Read 4 (conn_SetReadDeadline (5 * Second) (c_conn c')).2).1 =
      Ok (take 4 (drop 10 (match Encode (sample_delivery 1) with Ok f => f | _ => [] end))).
Proof. eexists. split; [vm_compute; reflexivity|]. split; vm_compute; reflexivity. Qed.
