(* ===== verification/EndToEnd.v ===== *)
(** * From a client's submit to the surface ([internal/smpptest], [internal/smsc],
      [internal/observability] together)

    What the simulator is for: a test submits over SMPP and then reads over HTTP
    what was received.  The client's bytes, the session that decodes, decides,
    records and answers, and the JSON of the surface are composed here. *)

From S2P Require Import Prelude.
From S2P Require Import Strconv.
From S2P Require Import Json.
From S2P Require Import Recorder.
From S2P Require Import TLSCert.
From S2P Require Import Boot.
From S2P Require Import Inspect.
From S2P Require Import Rfc3339.
From S2P Require Import Render.
From S2P Require Import SmppPdu.
From S2P Require Import SmppCodec.
From S2P Require Import SmppCursor.
From S2P Require Import SmppCodecThms.
From S2P Require Import Rng.
From S2P Require Import Schedule.
From S2P Require Import Config.
From S2P Require Import Fault.
From S2P Require Import ValidateThms.
From S2P Require Import Scenario.
From S2P Require Import Dlr.
From S2P Require Import VirtualSMSC.
From S2P Require Import EngineSafety.
From S2P Require Import SessionState.
From S2P Require Import Session.
From S2P Require Import SessionRuns.
From S2P Require Import SessionBind.
From S2P Require Import SessionThms.
From S2P Require Import ReadLoop.
From S2P Require Import Client.
From S2P Require Import ClientThms.

#[local] Open Scope string_scope.
#[local] Open Scope list_scope.
#[local] Open Scope Z_scope.

(** ** A message id is text *)

Lemma ascii_app s t : ascii_string s -> ascii_string t -> ascii_string (s +:+ t).
Proof. unfold ascii_string. intros Hs Ht. rewrite bytes_of_string_app. by apply Forall_app. Qed.

Lemma dec_loop_ascii fuel v acc : ascii_string acc -> ascii_string (dec_loop fuel v acc).
Proof.
  revert v acc. induction fuel as [|fuel IH]; intros v acc Ha; [done|]. cbn [dec_loop].
  assert (ascii_string (String (digit_char (v mod 10)) acc)) as Hd
    by (apply ascii_cons; [apply digit_ascii, Z.mod_pos_bound; lia|done]).
  destruct (_ =? 0); [done|by apply IH].
Qed.

Lemma messageID_faithful id clock : faithful (Dlr.messageID id clock).
Proof.
  apply ascii_valid. unfold Dlr.messageID, pad_left.
  assert (forall v, ascii_string (FormatInt v)) as Hf by (intros v; apply dec_loop_ascii; constructor).
  apply ascii_app; [done|]. apply (ascii_app "-"); [by repeat constructor|].
  generalize (4 - String.length (FormatInt clock))%nat as n. intros n. induction n as [|n IH]; [apply Hf|].
  cbn [zeros]. apply ascii_cons; [apply digit_ascii; lia|exact IH].
Qed.

(** ** The page that starts at the end of the journal *)

Definition since_request (name : string) (since : Z) : request :=
  mkRequest "GET" ["v1"; "virtual-smscs"; name; "received-pdus"] [("since", format since)].

Lemma since_filter name since : is_u64 since -> pduFilter (rq_query (since_request name since)) = mkFilter "" "" since maxPDUPage.
Proof. intros Hs. unfold pduFilter, parseUint. simpl. by rewrite ParseUint_format. Qed.

Lemma query_newest cap ps rec :
  query (mkFilter "" "" (len ps) maxPDUPage) (retained (Z.max 1 cap) (indexed (ps ++ [rec]))) = [set_Index (len ps) rec].
Proof.
  rewrite indexed_snoc. unfold retained. rewrite drop_app_le by (rewrite length_app, length_indexed; simpl; lia).
  unfold query. rewrite filter_app, filter_none; [rewrite filter_cons_True by (split; [done|simpl; lia]); done|].
  apply Forall_forall. intros r Hr [_ Hs]. simpl in Hs.
  apply list_elem_of_lookup in Hr as [i Hi]. rewrite lookup_drop in Hi.
  pose proof (indexed_well_indexed ps _ _ Hi). apply lookup_lt_Some in Hi. rewrite length_indexed in Hi. lia.
Qed.

Lemma journalled_snoc cap ps v v' rec :
  journalled cap ps v -> len ps + 1 < 2 ^ 64 -> Append rec (v_recorder v) = Ok (v_recorder v') ->
  journalled cap (ps ++ [rec]) v'.
Proof.
  intros [_ Hr] Hlen Ha. split; [rewrite length_app; simpl; lia|]. by rewrite append_all_snoc, Hr.
Qed.

(** C5: what a client submits is what the surface shows.  A submit_sm of the test
    client, decoded by a bound session, is appended to the journal of its SMSC, and
    whatever engine hosts that SMSC and under whatever name, a GET of received-pdus
    from the old end of the journal is answered with one record: read back from the
    JSON it has the client's addresses and its message octet for octet, whatever
    they are, with the tick and the id the session minted.  And when the submit
    succeeded and the answer comes back in time, that id is the one [Submit]
    returned to the client. *)
Theorem submit_inspected {R} `{RandSource R} env (w : world R) c source dest message cap ps name :
  healthy c -> sendable source dest message -> faithful source -> faithful dest ->
  world_safe w -> s_state (w_session w) = stateBound -> s_canSubmit (w_session w) = true ->
  journalled cap ps (w_smsc w) -> len ps + 1 < 2 ^ 64 -> name <> "" ->
  let seq := c_seq c +32 1 in
  let tick := s_perBindClock (w_session w) +64 1 in
  let id := Dlr.messageID (s_id (w_session w)) tick in
  exists f d e st st' goon w',
    Encode (submit_request seq source dest message) = Ok f /\
    decided env (counted w) tick d e st st' /\
    handleFrame f env w = Ok (goon, w') /\
    (abandoned env d = false ->
     (forall fs s, responses (drop (length (w_out w)) (w_out w')) = [fs.*2] ->
        D_Outcome d = OutcomeSuccess -> D_EdgeCase d = None ->
        all_before (n_now (c_conn c) + ioTimeout) fs -> n_in (c_conn c) = timed fs ++ s ->
        exists c', Submit source dest message c =
          (Ok (mkPDU SubmitSMResp StatusROK seq (Some (BodySubmitResp (mkSubmitResp id)))), c')) /\
     forall cert (host : engine cert) addr reg x, find_smsc name host = Some (w_smsc w') ->
       exists b, ServeHTTP (mkServer addr true reg) (since_request name (len ps)) host = Ok (mkResponse StatusOK b) /\
         Json.Decode (render x b) ≫= UnmarshalJSON =
           Some [set_Index (len ps) (record_of tick id (submit_message source dest message))]).
Proof.
  intros Hh Hsend Hsrc Hdst Hsafe Hst Hcan Hj Hlen Hname seq tick id.
  assert (is_u32 seq) as Hseq by apply u32_range.
  destruct (submit_request_sent seq source dest message Hseq Hsend) as (Hok & f & Hf).
  set (req := submit_request seq source dest message) in *.
  destruct (handleSubmit_step req (submit_message source dest message) env (counted w)) as
    (d & e & st & st' & w' & Hdec & _ & Hrun & Hres); [by apply upd_pdusRead_safe|done..|].
  pose proof (handleFrame_served f req env w w' (Decode_Encode_aux _ _ Hok Hf) Hrun) as Hfr.
  exists f, d, e, st, st'. eexists _, w'. split; [done|]. split; [done|]. split; [exact Hfr|].
  intros Ha. rewrite Ha in Hres. split.
  - intros fs s Hresp Hout Hedge Hfs Hin.
    assert (answer_frame req d id = Some fs.*2) as Hb.
    { assert (responses (drop (length (w_out w)) (w_out w')) =
        if cut_before (counted w) tick then [] else option_list (answer_frame req d id)) as Hr
        by exact (responses_submit_run _ _ _ _ _ _ _ _ _ _ Hres).
      rewrite Hresp in Hr. destruct (cut_before _ _); [done|]. destruct (answer_frame req d id) as [b|]; [|done]. simpl in Hr. congruence. }
    assert (answer_edge d = None) as He by (unfold answer_edge; by rewrite Hout).
    pose proof (answer_frame_seen req d id _ Hseq (messageID_cstr _ _) Hb He fs eq_refl) as Hdl.
    destruct (Submit_answered c source dest message f fs s d id Hh Hf Hfs Hin Hdl) as (c' & Hc & _).
    exists c'. rewrite Hc. unfold answer_seen. by rewrite Hout.
  - intros cert host addr reg x Hfind.
    set (rec := record_of tick id (submit_message source dest message)).
    pose proof (journalled_snoc cap ps (w_smsc w) (w_smsc w') rec Hj Hlen (sr_record _ _ _ _ _ _ _ _ _ _ Hres)) as Hj'.
    eexists. split; [exact (serve_pdus host addr reg name _ cap _ Hname Hfind Hj' _)|].
    pose proof (since_filter name (len ps) ltac:(unfold is_u64; lia)) as Hq. simpl in Hq. rewrite Hq, query_newest.
    apply views_read; [done|]. constructor; [|done]. split; [split|split]; simpl; try done.
    + unfold is_u64. lia.
    + apply u64_range.
    + apply messageID_faithful.
Qed.

(** The SMSC of the session, hosted under a name. *)
Definition hosting (v : virtualSMSC) : engine unit := Boot.mkEngine [mkHosted v 2775 None] {["a" := 0%nat]} false true.

Lemma submit_inspected_witness :
  (exists c', Submit "alice" "22507" "hello" sample_client =
    (Ok (mkPDU SubmitSMResp StatusROK 1 (Some (BodySubmitResp (mkSubmitResp "1-0001")))), c')) /\
  exists v b, ServeHTTP (mkServer 8080 true true) (since_request "a" 0) (hosting v) = Ok (mkResponse StatusOK b) /\
    Json.Decode (render [] b) ≫= UnmarshalJSON =
      Some [mkRecordedPDU 0 "1-0001" "alice" Byte.x01 Byte.x01 "22507" Byte.x01 Byte.x01 Byte.x00 (bytes_of_string "hello") 1].
Proof.
  destruct (submit_inspected sample_env sample_bound sample_client "alice" "22507" "hello" (VS_PDUBufferSize sample_vs) [] "a")
    as (f & d & e & st & st' & goon & w' & Hf & Hdec & Hrun & Hres);
    [by_decide|by_decide|reflexivity|reflexivity|apply sample_bound_safe|vm_compute; reflexivity|vm_compute; reflexivity
    |split; [done|vm_compute; reflexivity]|done|done|].
  vm_compute in Hf. injection Hf as <-.
  destruct Hdec as (He & Hst & Hev). vm_compute in He. injection He as <-. vm_compute in Hst. injection Hst as <-.
  vm_compute in Hev. injection Hev as <- <-. vm_compute in Hrun. injection Hrun as <- <-.
  destruct Hres as (Hseen & Hshown); [vm_compute; reflexivity|]. split.
  - destruct (Hseen sample_arrivals [(12, inl NUL)]) as (c' & Hc);
      [vm_compute; reflexivity|vm_compute; reflexivity|vm_compute; reflexivity|repeat constructor|vm_compute; reflexivity|].
    exists c'. exact Hc.
  - destruct (Hshown unit (hosting _) 8080 true [] eq_refl) as (b & Hb & Hd). eexists _, b. split; [exact Hb|].
    rewrite Hd. vm_compute. reflexivity.
Defined.
