(* ===== verification/Whole.v ===== *)
(** * The booted program: every SMSC, every session, every request
      ([internal/smsc/engine.go], [internal/observability/inspect_handlers.go])

    The SMSCs of a booted engine run side by side, each the interleaving of its own
    sessions, over the pointers the surface follows.  What [Inspect] and [Render]
    assume of an engine, that its recorders hold some journal, is what the sessions
    of [Interleave] leave behind. *)

From S2P Require Import Prelude.
From S2P Require Import Strconv.
From S2P Require Import Json.
From S2P Require Import Rng.
From S2P Require Import Recorder.
From S2P Require Import Config.
From S2P Require Import Validate.
From S2P Require Import ValidateThms.
From S2P Require Import Scenario.
From S2P Require Import Binds.
From S2P Require Import VirtualSMSC.
From S2P Require Import SmppPdu.
From S2P Require Import SmppCodec.
From S2P Require Import SessionState.
From S2P Require Import SessionThms.
From S2P Require Import ReadLoop.
From S2P Require Import Replay.
From S2P Require Import System.
From S2P Require Import Interleave.
From S2P Require Import Observe.
From S2P Require Import TLSCert.
From S2P Require Import Boot.
From S2P Require Import Inspect.
From S2P Require Import Rfc3339.
From S2P Require Import Render.

#[local] Open Scope string_scope.
#[local] Open Scope list_scope.
#[local] Open Scope Z_scope.

(** ** The running engine *)

Record program (R cert : Type) := mkProgram {
  pg_engine : engine cert;               (* as [New] built it *)
  pg_smscs : list (interleaving R)       (* what its [smscs] point to now *)
}.
Arguments mkProgram {R cert}. Arguments pg_engine {R cert}. Arguments pg_smscs {R cert}.

Section Program.
Context {R : Type} `{RandSource R} {cert : Type}.
Implicit Types (p : program R cert) (e : engine cert).

Definition started e : program R cert := mkProgram e ((fun ho => mkInterleaving (ho_smsc ho) ∅ []) <$> e_smscs e).

(** The engine a request reads. *)
Definition live_engine p : engine cert :=
  let e := pg_engine p in
  mkEngine (zip_with (fun ho z => mkHosted (z_smsc z) (ho_addr ho) (ho_cert ho)) (e_smscs e) (pg_smscs p))
    (e_byName e) (e_quit e) (e_serving e).

(** An event of one SMSC; the others share nothing with it. *)
Definition program_exec (i : nat) (ev : fine_event) p : may_panic (option (program R cert)) :=
  match pg_smscs p !! i with
  | None => Ok None
  | Some z =>
      let* z' := fine_exec ev z in
      Ok match z' with Some z' => Some (mkProgram (pg_engine p) (<[i := z']> (pg_smscs p))) | None => None end
  end.

Definition program_step p p' : Prop := exists i ev, program_exec i ev p = Ok (Some p').

(** A run of the program is, for each SMSC, a run of its own. *)
Definition own_runs (n : nat) p p' : Prop :=
  pg_engine p' = pg_engine p /\ length (pg_smscs p') = length (pg_smscs p) /\
  forall i z', pg_smscs p' !! i = Some z' ->
    exists z m, pg_smscs p !! i = Some z /\ (m <= n)%nat /\ nsteps fine_step m z z'.

Lemma program_step_own p p' i ev :
  program_exec i ev p = Ok (Some p') -> own_runs 1 p p'.
Proof.
  unfold program_exec. destruct (pg_smscs p !! i) as [z|] eqn:Hi; [|done].
  destruct (fine_exec ev z) as [[z'|]| |] eqn:Hx; simpl; intros [= <-]. split; [done|]. simpl. split; [apply length_insert|].
  intros j zj [(<- & <- & _)|[Hne Hj]]%list_lookup_insert_Some.
  - exists z, 1%nat. split_and!; [done|lia|]. econstructor; [by exists ev|constructor].
  - exists zj, O. split_and!; [done|lia|constructor].
Qed.

Lemma program_own n p p' : nsteps program_step n p p' -> own_runs n p p'.
Proof.
  induction 1 as [p|n p1 p2 p3 (i & ev & Hx) _ (He & Hl & IH)].
  - split_and!; [done..|]. intros i z Hz. exists z, O. split_and!; [done|lia|constructor].
  - destruct (program_step_own p1 p2 i ev Hx) as (He1 & Hl1 & H1). split_and!; [congruence|congruence|].
    intros j z3 Hz3. destruct (IH j z3 Hz3) as (z2 & m & Hz2 & Hm & Hs). destruct (H1 j z2 Hz2) as (z1 & m1 & Hz1 & Hm1 & Hs1).
    exists z1, (m1 + m)%nat. split_and!; [done|lia|]. by eapply nsteps_trans.
Qed.

Lemma live_lookup p i z : length (pg_smscs p) = length (e_smscs (pg_engine p)) ->
  pg_smscs p !! i = Some z -> exists ho, e_smscs (live_engine p) !! i = Some ho /\ ho_smsc ho = z_smsc z.
Proof.
  intros Hl Hz. destruct (lookup_lt_is_Some_2 (e_smscs (pg_engine p)) i) as [ho Hho].
  { rewrite <- Hl. by eapply lookup_lt_Some. }
  eexists. split; [simpl; rewrite lookup_zip_with, Hho, Hz; reflexivity|reflexivity].
Qed.

Lemma live_elem p ho : ho ∈ e_smscs (live_engine p) -> exists i z, pg_smscs p !! i = Some z /\ ho_smsc ho = z_smsc z.
Proof.
  intros [i Hi]%list_elem_of_lookup. simpl in Hi. rewrite lookup_zip_with in Hi.
  destruct (e_smscs _ !! i); [|done]. simpl in Hi. destruct (pg_smscs p !! i) as [z|] eqn:Hz; [|done].
  injection Hi as <-. by exists i, z.
Qed.

End Program.

(** ** What boot leaves *)

Section Boot.
Context {entropy key der leaf file decoder : Type}.
Context (pf : platform entropy key der leaf file decoder).

Lemma Load_typed path h cfg : decode_typed pf -> (Load pf path h).1 = Ok cfg -> config_typed cfg.
Proof.
  intros Hty. unfold Load, M_bind, Boot.decode, validated, M_ret, M_fail.
  destruct (String.eqb path ""); [done|]. destruct (os_Open _ path) as [f|]; [|done].
  destruct (Boot.Decode (p_yaml pf) _) as [[c| |] dec] eqn:Hd.
  - destruct (DecodeNode _ dec) as [[| |] ?]; try done. destruct (validate _ _ c); [|done]. intros [= <-]. by eapply Hty.
  - destruct (validate _ _ _); [|done]. intros [= <-]. constructor.
  - done.
Qed.

Lemma run_boot_typed path h cfg e srv h' :
  decode_typed pf -> run_boot pf path h = (Ok (cfg, e, srv), h') -> config_typed cfg.
Proof.
  intros Hty. unfold run_boot, M_bind at 1. pose proof (Load_typed path h) as Hl.
  destruct (Load pf path h) as [[c|err|] h1]; [|done..]. specialize (Hl c Hty eq_refl).
  unfold M_bind. destruct (newMetrics h1) as [[u|err|] h2]; [|done..].
  destruct (Boot.New pf _ h2) as [[e1|err|] h3]; [|done..].
  destruct (startObservability pf c h3) as [[s|err|] h4]; [by intros [= <- _ _ _]| |done].
  unfold shutdown_unserved, M_fail, M_bind. by destruct (closeListeners e1 h4) as [[]].
Qed.

End Boot.

(** ** The claims *)

Section Hosted.
Context {R : Type} `{RandSource R} {cert : Type}.
Implicit Types (z : interleaving R).

(** A reachable SMSC has journalled what its sessions committed. *)
Lemma reachable_journalled vs n z :
  scenario_ok (VS_Scenario vs) -> scenario_typed (VS_Scenario vs) ->
  nsteps fine_step n (fine_boot vs) z -> Z.of_nat n < 2 ^ 64 ->
  fine_ok (VS_PDUBufferSize vs) (Z.of_nat n) z /\
  journalled (VS_PDUBufferSize vs) (z_journal z) (z_smsc z) /\ journal_in_range (z_journal z).
Proof.
  intros Ho Ht Hr Hn.
  pose proof (fine_reachable_ok _ 0 n _ z (fine_boot_ok _ vs eq_refl Ho Ht) Hr ltac:(lia)) as Hok. rewrite Z.add_0_l in Hok.
  pose proof (fo_journal _ _ _ Hok) as Hj. pose proof (jn_logical _ _ _ _ _ Hj). pose proof (jn_count _ _ _ _ _ Hj).
  split; [done|]. split.
  - split; [unfold committing in *; lia|apply Hj].
  - apply Forall_forall. intros r (id & _ & Hc & _)%(jn_minted _ _ _ _ _ Hj). unfold is_u64. lia.
Qed.

End Hosted.

Lemma serve_clock {cert} (e : engine cert) addr reg id v :
  id <> "" -> find_smsc id e = Some v -> forall q,
  ServeHTTP (mkServer addr true reg) (mkRequest "GET" ["v1"; "virtual-smscs"; id; "logical-clock"] q) e =
  Ok (mkResponse StatusOK (BLogicalClock (v_logicalClock v))).
Proof.
  intros Hid Hfind q. unfold ServeHTTP, routes. cbn [srv_insp rq_method rq_path]. simpl.
  rewrite (proj2 (String.eqb_neq _ _) Hid). cbn [fmap option_fmap option_map].
  unfold handle, handleLogicalClock. cbn [insp_LogicalClock engine_inspector]. unfold LogicalClock. simpl.
  by rewrite Hfind.
Qed.

(** Where a run of a booted program leaves the SMSC of an entry. *)
Lemma booted_smsc {R} `{RandSource R} {entropy key der leaf file decoder}
    (pf : platform entropy key der leaf file decoder) h cfg e srv h' n (p : program R (Certificate key der leaf)) i vs :
  booted pf cfg e srv h h' -> nsteps program_step n (started e) p -> CFG_VirtualSMSCs cfg !! i = Some vs ->
  exists z m, pg_smscs p !! i = Some z /\ (m <= n)%nat /\ nsteps fine_step m (fine_boot vs) z /\
    exists ho, e_smscs (live_engine p) !! i = Some ho /\ ho_smsc ho = z_smsc z.
Proof.
  intros [_ (certs & _ & _ & Hf2) _ _ _ _] Hr Hi. destruct (program_own n _ _ Hr) as (He & Hl & Hown).
  destruct (Forall2_lookup_l _ _ _ _ _ Hf2 Hi) as (ho & Hho & [Hs _ _]).
  destruct (lookup_lt_is_Some_2 (pg_smscs p) i) as [z Hz].
  { rewrite Hl. simpl. rewrite length_fmap. by eapply lookup_lt_Some. }
  destruct (Hown i z Hz) as (z0 & m & Hz0 & Hm & Hsteps). simpl in Hz0. rewrite list_lookup_fmap, Hho in Hz0.
  injection Hz0 as <-. rewrite Hs in Hsteps. exists z, m. split_and!; [done..|].
  apply live_lookup; [|done]. rewrite Hl, He. simpl. apply length_fmap.
Qed.

Lemma booted_found {R} {entropy key der leaf file decoder}
    (pf : platform entropy key der leaf file decoder) h cfg e srv h' (p : program R (Certificate key der leaf)) i vs ho :
  booted pf cfg e srv h h' -> last_of_name cfg i vs -> pg_engine p = e -> e_smscs (live_engine p) !! i = Some ho ->
  find_smsc (VS_Name vs) (live_engine p) = Some (ho_smsc ho).
Proof.
  intros Hb Hlast He Hho. unfold find_smsc.
  assert (e_byName (live_engine p) !! VS_Name vs = Some i) as ->; [|simpl in *; by rewrite Hho].
  simpl. rewrite He. apply (booted_name pf cfg e srv h h' i vs Hb); [apply Hlast|done].
Qed.

(** C4: the booted program, inspected while it runs.  Take any successful boot of a
    configuration whose surface is on, and any run of its SMSCs in which the
    sessions of all of them interleave access by access.
    Nothing that can happen next panics.  Each SMSC is where its own events alone
    bring it, whatever the other SMSCs did.  Every HTTP request is answered with
    the status its path, its method and the hosted names call for.  The answer to a
    received-pdus request for a name is the page its query selects of the journal
    of the SMSC of that name, the last one configured with it, and the JSON gives
    back every short message octet for octet; the answer to a logical-clock request
    is the number of its submits journalled and being journalled. *)
Theorem program_inspected {R} `{RandSource R} {entropy key der leaf file decoder}
    (pf : platform entropy key der leaf file decoder) path h cfg e srv h' n (p : program R (Certificate key der leaf)) :
  decode_typed pf -> h_open h = ∅ -> run_boot pf path h = (Ok (cfg, e, Some srv), h') ->
  nsteps program_step n (started e) p -> Z.of_nat n + 1 < 2 ^ 64 ->
  (forall i ev, exists o, program_exec i ev p = Ok o) /\
  (forall rq, exists resp, ServeHTTP srv rq (live_engine p) = Ok resp /\ rs_status resp = expected_status (live_engine p) rq) /\
  forall i vs, CFG_VirtualSMSCs cfg !! i = Some vs -> exists z m,
    pg_smscs p !! i = Some z /\ (m <= n)%nat /\ nsteps fine_step m (fine_boot vs) z /\
    (last_of_name cfg i vs ->
    (forall q x, exists b,
      ServeHTTP srv (mkRequest "GET" ["v1"; "virtual-smscs"; VS_Name vs; "received-pdus"] q) (live_engine p) =
        Ok (mkResponse StatusOK b) /\
      let page := query (pduFilter q) (retained (Z.max 1 (VS_PDUBufferSize vs)) (indexed (z_journal z))) in
      b = BPDUs page /\ Json.Decode (render x b) ≫= messages_of_json = Some (Rec_ShortMessage <$> page)) /\
    (forall q, ServeHTTP srv (mkRequest "GET" ["v1"; "virtual-smscs"; VS_Name vs; "logical-clock"] q) (live_engine p) =
      Ok (mkResponse StatusOK (BLogicalClock (len (z_journal z) + committing z))))).
Proof.
  intros Hty Hopen Hboot Hr Hn. pose proof (run_boot_cases pf path h Hty Hopen) as Hb. rewrite Hboot in Hb.
  destruct Hb as [_ Hb].
  pose proof (run_boot_typed pf path h cfg e _ h' Hty Hboot) as Htyped.
  pose proof (bt_config _ _ _ _ _ _ Hb) as [_ Hvs _]. rewrite Forall_lookup in Hvs. unfold config_typed in Htyped.
  rewrite Forall_lookup in Htyped.
  assert (exists addr, srv = mkServer addr true true) as [addr ->].
  { pose proof (bt_surface _ _ _ _ _ _ Hb) as Hsrv. destruct (CFG_Observability cfg); [|done].
    destruct srv as [addr insp reg]. simpl in Hsrv. destruct Hsrv as (-> & -> & _). by exists addr. }
  destruct (program_own n _ _ Hr) as (He & Hl & _).
  assert (forall i z, pg_smscs p !! i = Some z -> exists vs, CFG_VirtualSMSCs cfg !! i = Some vs /\
    exists m, (m <= n)%nat /\ nsteps fine_step m (fine_boot vs) z) as Hall.
  { intros i z Hz. destruct (lookup_lt_is_Some_2 (CFG_VirtualSMSCs cfg) i) as [vs Hi].
    { pose proof (bt_hosts _ _ _ _ _ _ Hb) as (certs & _ & _ & Hf2). rewrite (Forall2_length _ _ _ Hf2).
      apply lookup_lt_Some in Hz. rewrite Hl in Hz. simpl in Hz. by rewrite length_fmap in Hz. }
    exists vs. split; [done|]. destruct (booted_smsc pf h cfg e _ h' n p i vs Hb Hr Hi) as (z' & m & Hz' & Hm & Hs & _).
    exists m. split; [done|]. congruence. }
  split_and!.
  - intros i ev. unfold program_exec. destruct (pg_smscs p !! i) as [z|] eqn:Hz; [|by eexists].
    destruct (Hall i z Hz) as (vs & Hi & m & Hm & Hs).
    destruct (reachable_journalled vs m z) as (Hok & _); [by apply (Hvs i)|by apply (Htyped i)|done|lia|].
    destruct (fine_exec_ok _ _ ev z Hok) as (o & -> & _); [lia|]. by eexists.
  - intros rq. apply status_expected. intros ho (i & z & Hz & Hv)%live_elem.
    destruct (Hall i z Hz) as (vs & Hi & m & Hm & Hs).
    destruct (reachable_journalled vs m z) as (_ & Hj & _); [by apply (Hvs i)|by apply (Htyped i)|done|lia|].
    rewrite Hv. by eexists _, _.
  - intros i vs Hi. destruct (booted_smsc pf h cfg e _ h' n p i vs Hb Hr Hi) as (z & m & Hz & Hm & Hs & ho & Hho & Hv).
    destruct (reachable_journalled vs m z) as (Hok & Hj & Hrange); [by apply (Hvs i)|by apply (Htyped i)|done|lia|].
    exists z, m. split_and!; [done..|]. intros Hlast.
    pose proof (booted_found pf h cfg e _ h' p i vs ho Hb Hlast He Hho) as Hfind. rewrite Hv in Hfind.
    assert (VS_Name vs <> "") as Hname by (by apply (Hvs i)). split.
    + intros q x. eexists. split; [exact (serve_pdus (live_engine p) addr true (VS_Name vs) _ _ _ Hname Hfind Hj q)|].
      split; [done|]. apply messages_read, page_in_range; [apply Hj|done].
    + intros q. rewrite (serve_clock (live_engine p) addr true (VS_Name vs) (z_smsc z) Hname Hfind q).
      rewrite (jn_logical _ _ _ _ _ (fo_journal _ _ _ Hok)). by destruct z.
Qed.

(** ** Two SMSCs at work *)

(** Events that are not possible are skipped. *)
Fixpoint program_run {R cert} `{RandSource R} (evs : list (nat * fine_event)) (p : program R cert) : program R cert :=
  match evs with
  | [] => p
  | (i, ev) :: evs => program_run evs match program_exec i ev p with Ok (Some p') => p' | _ => p end
  end.

Lemma program_run_nsteps {R cert} `{RandSource R} evs (p : program R cert) :
  exists n, (n <= length evs)%nat /\ nsteps program_step n p (program_run evs p).
Proof.
  revert p. induction evs as [|[i ev] evs IH]; intros p; simpl; [exists O; split; [lia|constructor]|].
  assert (forall p', (exists n, (n <= length evs)%nat /\ nsteps program_step n p' (program_run evs p')) ->
    p' = p \/ program_step p p' -> exists n, (n <= S (length evs))%nat /\ nsteps program_step n p (program_run evs p')) as Hgo.
  { intros p' (n & Hn & Hs) [->|Hp]; [exists n; split; [lia|done]|]. exists (S n). split; [lia|]. by econstructor. }
  apply Hgo; [apply IH|]. destruct (program_exec i ev p) as [[p'|]| |] eqn:Hx; [|by left..]. right. by exists i, ev.
Qed.

Definition gw_bind : PDU :=
  mkPDU BindTransceiver 0 1 (Some (BodyBind (SmppPdu.mkBind "gw" "secret" "" Byte.x34 NUL NUL ""))).

Definition gw_peer : SmppCodec.conn := [SmppCodec.Recv (frame_of gw_bind); SmppCodec.Recv (frame_of sample_submit)].

(** One SMSC serves a submit to its end; the other has counted one and not yet
    journalled it. *)
Definition both_at_work : list (nat * fine_event) :=
  (pair 0%nat <$> Open 0 0 gw_peer :: whole 0) ++ (pair 1%nat <$> Open 0 0 gw_peer :: whole 0) ++
  (pair 0%nat <$> whole 0) ++ (pair 1%nat <$> Begin 0 (sample_env_at 0) :: steps 14 0).

Definition sample_program : program PCG (Certificate unit x509_template x509_template) :=
  match (run_boot (sample_platform sample_config (fun _ => false)) "config.yml" sample_host).1 with
  | Ok (_, e, _) => program_run both_at_work (started e)
  | _ => started (mkEngine [] ∅ false false)
  end.

Lemma program_inspected_witness :
  let get id view := mkRequest "GET" ["v1"; "virtual-smscs"; id; view] [] in
  let srv := mkServer 8080 true true in
  (exists b, ServeHTTP srv (get "a" "received-pdus") (live_engine sample_program) = Ok (mkResponse StatusOK b) /\
    Json.Decode (render [] b) ≫= messages_of_json = Some [bytes_of_string "hello"]) /\
  ServeHTTP srv (get "b" "logical-clock") (live_engine sample_program) = Ok (mkResponse StatusOK (BLogicalClock 1)).
Proof.
  intros get srv. set (pf := sample_platform sample_config (fun _ => false)).
  destruct (run_boot pf "config.yml" sample_host) as [r h'] eqn:Hr.
  assert (exists e, r = Ok (sample_config, e, Some srv)) as [e ->].
  { assert (match (run_boot pf "config.yml" sample_host).1 with
            | Ok (c, _, Some s) => c = sample_config /\ s = srv | _ => False end) as Hx
      by (vm_compute; split; reflexivity).
    rewrite Hr in Hx. destruct r as [[[c e] [s|]]| |]; try contradiction. destruct Hx as [-> ->]. by exists e. }
  assert (sample_program = program_run both_at_work (started e)) as Hp
    by (unfold sample_program; fold pf; rewrite Hr; reflexivity).
  destruct (program_run_nsteps both_at_work (started (R := PCG) e)) as (n & Hn & Hs). rewrite <- Hp in Hs.
  assert (length both_at_work <= 1000)%nat as Hl by (apply Nat.leb_le; vm_compute; reflexivity).
  assert (NoDup (VS_Name <$> CFG_VirtualSMSCs sample_config)) as Hnd by (apply (bool_decide_unpack _); vm_compute; exact I).
  destruct (program_inspected pf "config.yml" sample_host sample_config e srv h' n sample_program
    (sample_platform_typed _ _ sample_config_typed) eq_refl Hr Hs ltac:(lia)) as (_ & _ & Hall).
  split.
  - destruct (Hall 0%nat (sample_smsc "a" 2775) eq_refl) as (z & m & Hz & _ & _ & Hget).
    destruct (Hget (distinct_last sample_config 0 (sample_smsc "a" 2775) Hnd eq_refl)) as [Hpdus _].
    destruct (Hpdus [] []) as (b & Hb & _ & Hd). exists b. split; [exact Hb|]. rewrite Hd.
    assert ((fun z => Rec_ShortMessage <$> query (pduFilter []) (retained (Z.max 1 100) (indexed (z_journal z)))) <$>
      pg_smscs sample_program !! 0%nat = Some [bytes_of_string "hello"]) as Hx by (vm_compute; reflexivity).
    rewrite Hz in Hx. exact Hx.
  - destruct (Hall 1%nat (sample_smsc "b" 2776) eq_refl) as (z & m & Hz & _ & _ & Hget).
    destruct (Hget (distinct_last sample_config 1 (sample_smsc "b" 2776) Hnd eq_refl)) as [_ Hclk].
    assert ((fun z => len (z_journal z) + committing z) <$> pg_smscs sample_program !! 1%nat = Some 1) as Hx
      by (vm_compute; reflexivity).
    rewrite Hz in Hx. injection Hx as Hx. exact (eq_trans (Hclk []) (f_equal (fun c => Ok (mkResponse StatusOK (BLogicalClock c))) Hx)).
Defined.
